(** * ReactPod: the unified input-driven controller of [src/App.tsx]

    A shallow embedding of the controller that [App.tsx] implements: the
    navigation stack, the menu resolver ([menuItems]), the playback transport
    ([usePlayback], [handleNext], [handlePrev]), the Bounce game loop, the focus
    timer and the click-wheel input dispatch, followed by the properties the
    specification states about them.

    Conventions of the embedding.
    - React state is a record ([AppState]); every handler is a function from
      state to state.  A closure stored in a menu row is a constructor of
      [Action], run by [invoke].
    - JavaScript integers (ids, indices, minutes, scores) are [Z]; playback
      times and the volume are exact rationals [Q]; the coordinates of the game,
      which go through [Math.sqrt], [Math.atan2], [Math.cos] and [Math.sin],
      are real numbers [R].
    - [Math.random], the outcome of storage promises and the host's string
      collation are inputs of the model ([Browser.t]).
    - A handler that awaits storage is run to its end within the event that
      starts it.  Two continuations are kept apart from the event that starts
      them, as callbacks that stay pending until the host runs them: what the
      loader of the current track does once [db.songs.get] has settled, and what
      the reset of the focus statistics does after its awaits.  A callback handed
      to [setTimeout] stays pending in the same way until the host fires it.
    - What draws the screen, [playBeep] and the metadata of the Media Session
      hold no state of the controller and are not part of the model. *)

From Stdlib Require Import List ZArith QArith Qround Bool String Ascii.
From Stdlib Require Import Permutation Lia Lra Reals DecimalString.
Import ListNotations.

Local Open Scope Z_scope.

(** ** JavaScript built-ins used by the source *)

Module JS.

(** [s.startsWith(p)] *)
Definition startsWith (s p : string) : bool := String.prefix p s.

(** [s.split(sep)] for a one-character separator. *)
Fixpoint split (sep : ascii) (s : string) : list string :=
  match s with
  | EmptyString => [EmptyString]
  | String c rest =>
      if Ascii.eqb c sep then EmptyString :: split sep rest
      else match split sep rest with
           | [] => [String c EmptyString]
           | w :: ws => String c w :: ws
           end
  end.

(** [s.includes(c)] for a one-character needle. *)
Fixpoint includesChar (c : ascii) (s : string) : bool :=
  match s with
  | EmptyString => false
  | String d rest => Ascii.eqb c d || includesChar c rest
  end.

(** [s.includes(q)] *)
Fixpoint includes (s q : string) : bool :=
  String.prefix q s ||
  match s with
  | EmptyString => false
  | String _ rest => includes rest q
  end.

(** [arr[i]] for a JavaScript number [i]: [undefined] out of range. *)
Definition at_ {A} (l : list A) (i : Z) : option A :=
  if i <? 0 then None else nth_error l (Z.to_nat i).

(** [arr.length] *)
Definition len {A} (l : list A) : Z := Z.of_nat (List.length l).

(** [arr.indexOf(x)] on an array of numbers: [-1] when absent. *)
Fixpoint indexOf (l : list Z) (x : Z) : Z :=
  match l with
  | [] => -1
  | y :: l' =>
      if y =? x then 0
      else let r := indexOf l' x in if r <? 0 then -1 else r + 1
  end.

(** [arr.includes(x)] on an array of numbers. *)
Definition includesZ (l : list Z) (x : Z) : bool :=
  existsb (Z.eqb x) l.

(** [arr.slice(0, -k)]: all but the last [k] elements, [[]] when there are
    fewer than [k]. *)
Definition slice0 {A} (l : list A) (k : nat) : list A :=
  firstn (List.length l - k) l.

(** [arr.find(p)] *)
Definition find {A} (p : A -> bool) (l : list A) : option A := List.find p l.

(** [[...new Set(arr)]] on strings: first occurrences, in order. *)
Fixpoint uniqAcc (seen : list string) (l : list string) : list string :=
  match l with
  | [] => []
  | x :: l' =>
      if existsb (String.eqb x) seen then uniqAcc seen l'
      else x :: uniqAcc (x :: seen) l'
  end.
Definition uniq (l : list string) : list string := uniqAcc [] l.

(** [arr.sort(cmp)]: the sort is stable; elements are placed by insertion
    from the right, an element going before the ones it does not exceed. *)
Section Sort.
Context {A : Type} (cmp : A -> A -> Z).
Fixpoint insert (x : A) (l : list A) : list A :=
  match l with
  | [] => [x]
  | y :: l' => if 0 <? cmp x y then y :: insert x l' else x :: y :: l'
  end.
Definition sort (l : list A) : list A := fold_right insert [] l.
End Sort.

(** The default comparator of [arr.sort()] on strings: code-unit order,
    here the order of the bytes of the string. *)
Definition defaultCompare (a b : string) : Z :=
  match String.compare a b with
  | Lt => -1
  | Eq => 0
  | Gt => 1
  end.

(** [`${n}`] for an integer. *)
Definition numToString (n : Z) : string :=
  NilZero.string_of_int (Z.to_int n).

Definition isDigit (c : ascii) : bool :=
  let n := nat_of_ascii c in (48 <=? n)%nat && (n <=? 57)%nat.

Definition isSpace (c : ascii) : bool :=
  let n := nat_of_ascii c in
  (n =? 32)%nat || ((9 <=? n)%nat && (n <=? 13)%nat).

Fixpoint digitsValue (acc : option Z) (s : string) : option Z :=
  match s with
  | EmptyString => acc
  | String c rest =>
      if isDigit c then
        let d := Z.of_nat (nat_of_ascii c) - 48 in
        digitsValue (Some (match acc with Some a => 10 * a + d | None => d end)) rest
      else acc
  end.

Fixpoint trimStart (s : string) : string :=
  match s with
  | String c rest => if isSpace c then trimStart rest else s
  | EmptyString => EmptyString
  end.

Fixpoint rev_string (acc s : string) : string :=
  match s with
  | EmptyString => acc
  | String c rest => rev_string (String c acc) rest
  end.

(** [s.trim()] (ASCII white space). *)
Definition trim (s : string) : string :=
  rev_string EmptyString (trimStart (rev_string EmptyString (trimStart s))).

(** [parseInt(s, 10)]: [None] stands for [NaN]. *)
Definition parseInt (s : string) : option Z :=
  match trimStart s with
  | String "-" rest => option_map Z.opp (digitsValue None rest)
  | String "+" rest => digitsValue None rest
  | t => digitsValue None t
  end.

(** [s.slice(0, -1)] *)
Fixpoint dropLastChar (s : string) : string :=
  match s with
  | EmptyString => EmptyString
  | String c EmptyString => EmptyString
  | String c rest => String c (dropLastChar rest)
  end.

(** [s.repeat(n)] *)
Fixpoint repeatString (s : string) (n : nat) : string :=
  match n with
  | O => EmptyString
  | S k => (s ++ repeatString s k)%string
  end.

(** [Math.max(lo, Math.min(hi, v))] on integers. *)
Definition clampZ (lo hi v : Z) : Z := Z.max lo (Z.min hi v).

(** [Math.max(lo, Math.min(hi, v))] on rationals. *)
Definition minQ (a b : Q) : Q := if Qle_bool a b then a else b.
Definition maxQ (a b : Q) : Q := if Qle_bool a b then b else a.
Definition clampQ (lo hi v : Q) : Q := maxQ lo (minQ hi v).

Definition Qgtb (a b : Q) : bool := negb (Qle_bool a b).

End JS.

(** ** Data model ([types.ts], [db.ts] and the state of [App]) *)

Definition Blob := string.

Module ArtworkData.
Record t := { data : string; format : string }.
End ArtworkData.

(** [interface Song].  The stored record is what [db.songs.get] hands back:
    [fileBlob] is optional here because the loader tests [song?.fileBlob]. *)
Module Song.
Record t := {
  id : Z;
  fileBlob : option Blob;
  title : string;
  artist : string;
  album : string;
  artwork : option ArtworkData.t;
  duration : Q;
  rating : option Z
}.
Definition set_rating (r : Z) (s : t) : t :=
  {| id := id s; fileBlob := fileBlob s; title := title s; artist := artist s;
     album := album s; artwork := artwork s; duration := duration s;
     rating := Some r |}.
End Song.

Module Playlist.
Record t := { id : Z; name : string; songIds : list Z }.
Definition set_songIds (l : list Z) (p : t) : t :=
  {| id := id p; name := name p; songIds := l |}.
End Playlist.

(** One frame of [navigationStack]. *)
Module ViewFrame.
Record t := { id : string; activeIndex : Z }.
Definition set_activeIndex (i : Z) (f : t) : t :=
  {| id := id f; activeIndex := i |}.
End ViewFrame.

Inductive RepeatMode := RepeatOff | RepeatAll | RepeatOne.
Inductive NowPlayingMode := ModeVolume | ModeRating.

(** [BounceGameState]: ['idle' | 'playing' | 'paused' | 'game-over']. *)
Inductive GamePhase := GameIdle | GamePlaying | GamePaused | GameOver.

Module Ball.
Record t := { x : R; y : R; dx : R; dy : R }.
End Ball.

Module BounceGameState.
Record t := {
  gameState : GamePhase;
  score : Z;
  highScore : Z;
  paddleAngle : R;
  ball : Ball.t;
  ballSpeed : R
}.
End BounceGameState.

Inductive SessionType := Work | ShortBreak | LongBreak | Idle.

Module FocusSession.
Record t := { endTimestamp : Z; durationMinutes : Z; type : SessionType }.
End FocusSession.

Module FocusSettings.
Record t := {
  workMinutes : Z;
  shortBreakMinutes : Z;
  longBreakMinutes : Z;
  longBreakInterval : Z;
  tickingSound : bool;
  fullscreenBreak : bool;
  autoStart : bool
}.
End FocusSettings.

Module FocusState.
Record t := {
  isActive : bool;
  sessionType : SessionType;
  timeRemaining : Z;
  workIntervalsInCycle : Z
}.
End FocusState.

Module TodayStats.
Record t := { workIntervals : Z; totalTime : Z }.
End TodayStats.

(** A value written by [updateFocusSetting(key, value)]. *)
Inductive SettingValue := VNum (n : Z) | VBool (b : bool).

(** The closures stored in [MenuItem.action], one constructor per closure of
    [menuItems]; the arguments are the values the closure captured when the
    list was built. *)
Inductive Action :=
| ANowPlaying
| APush (frame : ViewFrame.t)
| AFocus
| ABounce
| AFocusPlayPause
| ASkipSession
| AUpdateFocusSetting (key : string) (value : SettingValue)
| AMenuClick
| AResetStats
| AStartGame
| ASearch
| APlay (songId : Z) (queue : list Z)
| AShuffle
| ARepeat
| AClearLibrary
| AResetColors
| ASetColor (isBody : bool) (colorClass : string)
| ASearchAppend (ch : string)
| ASearchDelete.

Module MenuItem.
Record t := {
  label : string;
  subtext : option string;
  action : Action;
  hasArrow : option bool;
  ratingDisplay : option (option Z);
  songId : option Z
}.
End MenuItem.

(** The [HTMLAudioElement] of [usePlayback], as far as the hook drives it.
    [src] is the attribute the hook assigns; [currentSrc] is the address of the
    resource the element selected last. *)
Module Audio.
Record t := {
  src : string;
  currentSrc : string;
  paused : bool;
  currentTime : Q;
  volume : Q;
  loop : bool
}.
End Audio.

(** The state of the [usePlayback] hook. *)
Module Playback.
Record t := {
  audio : Audio.t;
  lastUrl : option string;
  isPlaying : bool;
  currentTime : Q;
  duration : Q
}.
End Playback.

(** The Dexie database of [db.ts]: the four tables, and the last keys the
    [++id] generators of [songs] and [playlists] handed out. *)
Module Db.
Record t := {
  songs : list Song.t;
  playlists : list Playlist.t;
  focusSessions : list FocusSession.t;
  focusSettings : option FocusSettings.t;
  songsKey : Z;
  playlistsKey : Z
}.
End Db.

(** Callbacks the host runs later: the ones handed to [window.setTimeout],
    and the two continuations of a promise the model keeps pending. *)
Inductive Callback :=
| CbLongPress (songIdToAdd : option Z)
                   (* ClickWheel: onSelectLongPress(); longPressTimer.current = null;
                      the handler is the one of the render in which the button
                      went down, with the song id of the row selected then *)
| CbGoBack         (* handleClearLibrary: setNavigationStack(s => s.slice(0, -1)) *)
| CbClearDone      (* handleClearLibrary: back to 'load', message cleared *)
| CbFlashOff       (* handleSelectLongPress: setIsFlashing(false) *)
| CbResetStatsDone (* 'Yes, Reset All Stats', after its awaits:
                      calculateTodayStats, setNavigationStack(s => s.slice(0, -2)) *)
| CbTrackLoaded (result : option (option Song.t))
                (queue : list Z) (track : option Z) (mode : RepeatMode).
                   (* the loader of the current track, once db.songs.get has
                      settled with [result]; [queue], [track] and [mode] are the
                      playQueue, currentTrackId and repeatMode its handleNext
                      closed over, those of the render that started the load *)

(** What the controller reads from its host: the random numbers
    [Math.random] returns, the clock, string collation, whether storage
    promises and [audio.play()] succeed, the pending timeouts and the two entries
    of [localStorage]. *)
Module Browser.
Record t := {
  random : nat -> Q;
  randomPos : nat;
  now : Z;
  startOfToday : Z -> Z;
  localeCompare : string -> string -> Z;
  toLowerCase : string -> string;
  dbOk : bool;
  mediaOk : bool;
  timers : list (nat * Callback);
  nextTimerId : nat;
  bounceHighScore : option Z;
  ipodColorsItem : option (string * string)
}.
End Browser.

Module IpodColors.
Record t := { body : string; wheel : string }.
End IpodColors.

Module ClearingState.
Record t := { isClearing : bool; message : string }.
End ClearingState.

(** The state and refs of the [App] component, its hook and its host. *)
Record AppState := {
  songs : list Song.t;
  navigationStack : list ViewFrame.t;
  isFlashing : bool;
  currentTrackId : option Z;
  playQueue : list Z;
  shuffleMode : bool;
  repeatMode : RepeatMode;
  volume : Q;
  nowPlayingMode : NowPlayingMode;
  searchQuery : string;
  clearingState : ClearingState.t;
  bounceGame : BounceGameState.t;
  focusSettings : option FocusSettings.t;
  focusState : FocusState.t;
  todayStats : TodayStats.t;
  ipodColors : IpodColors.t;
  currentObjectUrl : option string;
  bounceGameStateRef : BounceGameState.t;
  longPressTimer : option nat;
  playback : Playback.t;
  db : Db.t;
  browser : Browser.t
}.

(** Field updates ([setX(v)] of React, assignments to refs). *)

Definition set_songs v (s : AppState) : AppState :=
  {| songs := v; navigationStack := navigationStack s; isFlashing := isFlashing s;
     currentTrackId := currentTrackId s; playQueue := playQueue s;
     shuffleMode := shuffleMode s; repeatMode := repeatMode s; volume := volume s;
     nowPlayingMode := nowPlayingMode s; searchQuery := searchQuery s;
     clearingState := clearingState s; bounceGame := bounceGame s;
     focusSettings := focusSettings s; focusState := focusState s;
     todayStats := todayStats s; ipodColors := ipodColors s;
     currentObjectUrl := currentObjectUrl s;
     bounceGameStateRef := bounceGameStateRef s; longPressTimer := longPressTimer s;
     playback := playback s; db := db s; browser := browser s |}.

Definition set_navigationStack v (s : AppState) : AppState :=
  {| songs := songs s; navigationStack := v; isFlashing := isFlashing s;
     currentTrackId := currentTrackId s; playQueue := playQueue s;
     shuffleMode := shuffleMode s; repeatMode := repeatMode s; volume := volume s;
     nowPlayingMode := nowPlayingMode s; searchQuery := searchQuery s;
     clearingState := clearingState s; bounceGame := bounceGame s;
     focusSettings := focusSettings s; focusState := focusState s;
     todayStats := todayStats s; ipodColors := ipodColors s;
     currentObjectUrl := currentObjectUrl s;
     bounceGameStateRef := bounceGameStateRef s; longPressTimer := longPressTimer s;
     playback := playback s; db := db s; browser := browser s |}.

Definition set_isFlashing v (s : AppState) : AppState :=
  {| songs := songs s; navigationStack := navigationStack s; isFlashing := v;
     currentTrackId := currentTrackId s; playQueue := playQueue s;
     shuffleMode := shuffleMode s; repeatMode := repeatMode s; volume := volume s;
     nowPlayingMode := nowPlayingMode s; searchQuery := searchQuery s;
     clearingState := clearingState s; bounceGame := bounceGame s;
     focusSettings := focusSettings s; focusState := focusState s;
     todayStats := todayStats s; ipodColors := ipodColors s;
     currentObjectUrl := currentObjectUrl s;
     bounceGameStateRef := bounceGameStateRef s; longPressTimer := longPressTimer s;
     playback := playback s; db := db s; browser := browser s |}.

Definition set_currentTrackId v (s : AppState) : AppState :=
  {| songs := songs s; navigationStack := navigationStack s;
     isFlashing := isFlashing s; currentTrackId := v; playQueue := playQueue s;
     shuffleMode := shuffleMode s; repeatMode := repeatMode s; volume := volume s;
     nowPlayingMode := nowPlayingMode s; searchQuery := searchQuery s;
     clearingState := clearingState s; bounceGame := bounceGame s;
     focusSettings := focusSettings s; focusState := focusState s;
     todayStats := todayStats s; ipodColors := ipodColors s;
     currentObjectUrl := currentObjectUrl s;
     bounceGameStateRef := bounceGameStateRef s; longPressTimer := longPressTimer s;
     playback := playback s; db := db s; browser := browser s |}.

Definition set_playQueue v (s : AppState) : AppState :=
  {| songs := songs s; navigationStack := navigationStack s;
     isFlashing := isFlashing s; currentTrackId := currentTrackId s; playQueue := v;
     shuffleMode := shuffleMode s; repeatMode := repeatMode s; volume := volume s;
     nowPlayingMode := nowPlayingMode s; searchQuery := searchQuery s;
     clearingState := clearingState s; bounceGame := bounceGame s;
     focusSettings := focusSettings s; focusState := focusState s;
     todayStats := todayStats s; ipodColors := ipodColors s;
     currentObjectUrl := currentObjectUrl s;
     bounceGameStateRef := bounceGameStateRef s; longPressTimer := longPressTimer s;
     playback := playback s; db := db s; browser := browser s |}.

Definition set_shuffleMode v (s : AppState) : AppState :=
  {| songs := songs s; navigationStack := navigationStack s;
     isFlashing := isFlashing s; currentTrackId := currentTrackId s;
     playQueue := playQueue s; shuffleMode := v; repeatMode := repeatMode s;
     volume := volume s; nowPlayingMode := nowPlayingMode s;
     searchQuery := searchQuery s; clearingState := clearingState s;
     bounceGame := bounceGame s; focusSettings := focusSettings s;
     focusState := focusState s; todayStats := todayStats s;
     ipodColors := ipodColors s; currentObjectUrl := currentObjectUrl s;
     bounceGameStateRef := bounceGameStateRef s; longPressTimer := longPressTimer s;
     playback := playback s; db := db s; browser := browser s |}.

Definition set_repeatMode v (s : AppState) : AppState :=
  {| songs := songs s; navigationStack := navigationStack s;
     isFlashing := isFlashing s; currentTrackId := currentTrackId s;
     playQueue := playQueue s; shuffleMode := shuffleMode s; repeatMode := v;
     volume := volume s; nowPlayingMode := nowPlayingMode s;
     searchQuery := searchQuery s; clearingState := clearingState s;
     bounceGame := bounceGame s; focusSettings := focusSettings s;
     focusState := focusState s; todayStats := todayStats s;
     ipodColors := ipodColors s; currentObjectUrl := currentObjectUrl s;
     bounceGameStateRef := bounceGameStateRef s; longPressTimer := longPressTimer s;
     playback := playback s; db := db s; browser := browser s |}.

Definition set_volume v (s : AppState) : AppState :=
  {| songs := songs s; navigationStack := navigationStack s;
     isFlashing := isFlashing s; currentTrackId := currentTrackId s;
     playQueue := playQueue s; shuffleMode := shuffleMode s;
     repeatMode := repeatMode s; volume := v; nowPlayingMode := nowPlayingMode s;
     searchQuery := searchQuery s; clearingState := clearingState s;
     bounceGame := bounceGame s; focusSettings := focusSettings s;
     focusState := focusState s; todayStats := todayStats s;
     ipodColors := ipodColors s; currentObjectUrl := currentObjectUrl s;
     bounceGameStateRef := bounceGameStateRef s; longPressTimer := longPressTimer s;
     playback := playback s; db := db s; browser := browser s |}.

Definition set_nowPlayingMode v (s : AppState) : AppState :=
  {| songs := songs s; navigationStack := navigationStack s;
     isFlashing := isFlashing s; currentTrackId := currentTrackId s;
     playQueue := playQueue s; shuffleMode := shuffleMode s;
     repeatMode := repeatMode s; volume := volume s; nowPlayingMode := v;
     searchQuery := searchQuery s; clearingState := clearingState s;
     bounceGame := bounceGame s; focusSettings := focusSettings s;
     focusState := focusState s; todayStats := todayStats s;
     ipodColors := ipodColors s; currentObjectUrl := currentObjectUrl s;
     bounceGameStateRef := bounceGameStateRef s; longPressTimer := longPressTimer s;
     playback := playback s; db := db s; browser := browser s |}.

Definition set_searchQuery v (s : AppState) : AppState :=
  {| songs := songs s; navigationStack := navigationStack s;
     isFlashing := isFlashing s; currentTrackId := currentTrackId s;
     playQueue := playQueue s; shuffleMode := shuffleMode s;
     repeatMode := repeatMode s; volume := volume s;
     nowPlayingMode := nowPlayingMode s; searchQuery := v;
     clearingState := clearingState s; bounceGame := bounceGame s;
     focusSettings := focusSettings s; focusState := focusState s;
     todayStats := todayStats s; ipodColors := ipodColors s;
     currentObjectUrl := currentObjectUrl s;
     bounceGameStateRef := bounceGameStateRef s; longPressTimer := longPressTimer s;
     playback := playback s; db := db s; browser := browser s |}.

Definition set_clearingState v (s : AppState) : AppState :=
  {| songs := songs s; navigationStack := navigationStack s;
     isFlashing := isFlashing s; currentTrackId := currentTrackId s;
     playQueue := playQueue s; shuffleMode := shuffleMode s;
     repeatMode := repeatMode s; volume := volume s;
     nowPlayingMode := nowPlayingMode s; searchQuery := searchQuery s;
     clearingState := v; bounceGame := bounceGame s;
     focusSettings := focusSettings s; focusState := focusState s;
     todayStats := todayStats s; ipodColors := ipodColors s;
     currentObjectUrl := currentObjectUrl s;
     bounceGameStateRef := bounceGameStateRef s; longPressTimer := longPressTimer s;
     playback := playback s; db := db s; browser := browser s |}.

Definition set_bounceGame v (s : AppState) : AppState :=
  {| songs := songs s; navigationStack := navigationStack s;
     isFlashing := isFlashing s; currentTrackId := currentTrackId s;
     playQueue := playQueue s; shuffleMode := shuffleMode s;
     repeatMode := repeatMode s; volume := volume s;
     nowPlayingMode := nowPlayingMode s; searchQuery := searchQuery s;
     clearingState := clearingState s; bounceGame := v;
     focusSettings := focusSettings s; focusState := focusState s;
     todayStats := todayStats s; ipodColors := ipodColors s;
     currentObjectUrl := currentObjectUrl s;
     bounceGameStateRef := bounceGameStateRef s; longPressTimer := longPressTimer s;
     playback := playback s; db := db s; browser := browser s |}.

Definition set_focusSettings v (s : AppState) : AppState :=
  {| songs := songs s; navigationStack := navigationStack s;
     isFlashing := isFlashing s; currentTrackId := currentTrackId s;
     playQueue := playQueue s; shuffleMode := shuffleMode s;
     repeatMode := repeatMode s; volume := volume s;
     nowPlayingMode := nowPlayingMode s; searchQuery := searchQuery s;
     clearingState := clearingState s; bounceGame := bounceGame s;
     focusSettings := v; focusState := focusState s; todayStats := todayStats s;
     ipodColors := ipodColors s; currentObjectUrl := currentObjectUrl s;
     bounceGameStateRef := bounceGameStateRef s; longPressTimer := longPressTimer s;
     playback := playback s; db := db s; browser := browser s |}.

Definition set_focusState v (s : AppState) : AppState :=
  {| songs := songs s; navigationStack := navigationStack s;
     isFlashing := isFlashing s; currentTrackId := currentTrackId s;
     playQueue := playQueue s; shuffleMode := shuffleMode s;
     repeatMode := repeatMode s; volume := volume s;
     nowPlayingMode := nowPlayingMode s; searchQuery := searchQuery s;
     clearingState := clearingState s; bounceGame := bounceGame s;
     focusSettings := focusSettings s; focusState := v; todayStats := todayStats s;
     ipodColors := ipodColors s; currentObjectUrl := currentObjectUrl s;
     bounceGameStateRef := bounceGameStateRef s; longPressTimer := longPressTimer s;
     playback := playback s; db := db s; browser := browser s |}.

Definition set_todayStats v (s : AppState) : AppState :=
  {| songs := songs s; navigationStack := navigationStack s;
     isFlashing := isFlashing s; currentTrackId := currentTrackId s;
     playQueue := playQueue s; shuffleMode := shuffleMode s;
     repeatMode := repeatMode s; volume := volume s;
     nowPlayingMode := nowPlayingMode s; searchQuery := searchQuery s;
     clearingState := clearingState s; bounceGame := bounceGame s;
     focusSettings := focusSettings s; focusState := focusState s; todayStats := v;
     ipodColors := ipodColors s; currentObjectUrl := currentObjectUrl s;
     bounceGameStateRef := bounceGameStateRef s; longPressTimer := longPressTimer s;
     playback := playback s; db := db s; browser := browser s |}.

Definition set_ipodColors v (s : AppState) : AppState :=
  {| songs := songs s; navigationStack := navigationStack s;
     isFlashing := isFlashing s; currentTrackId := currentTrackId s;
     playQueue := playQueue s; shuffleMode := shuffleMode s;
     repeatMode := repeatMode s; volume := volume s;
     nowPlayingMode := nowPlayingMode s; searchQuery := searchQuery s;
     clearingState := clearingState s; bounceGame := bounceGame s;
     focusSettings := focusSettings s; focusState := focusState s;
     todayStats := todayStats s; ipodColors := v;
     currentObjectUrl := currentObjectUrl s;
     bounceGameStateRef := bounceGameStateRef s; longPressTimer := longPressTimer s;
     playback := playback s; db := db s; browser := browser s |}.

Definition set_currentObjectUrl v (s : AppState) : AppState :=
  {| songs := songs s; navigationStack := navigationStack s;
     isFlashing := isFlashing s; currentTrackId := currentTrackId s;
     playQueue := playQueue s; shuffleMode := shuffleMode s;
     repeatMode := repeatMode s; volume := volume s;
     nowPlayingMode := nowPlayingMode s; searchQuery := searchQuery s;
     clearingState := clearingState s; bounceGame := bounceGame s;
     focusSettings := focusSettings s; focusState := focusState s;
     todayStats := todayStats s; ipodColors := ipodColors s; currentObjectUrl := v;
     bounceGameStateRef := bounceGameStateRef s; longPressTimer := longPressTimer s;
     playback := playback s; db := db s; browser := browser s |}.

Definition set_bounceGameStateRef v (s : AppState) : AppState :=
  {| songs := songs s; navigationStack := navigationStack s;
     isFlashing := isFlashing s; currentTrackId := currentTrackId s;
     playQueue := playQueue s; shuffleMode := shuffleMode s;
     repeatMode := repeatMode s; volume := volume s;
     nowPlayingMode := nowPlayingMode s; searchQuery := searchQuery s;
     clearingState := clearingState s; bounceGame := bounceGame s;
     focusSettings := focusSettings s; focusState := focusState s;
     todayStats := todayStats s; ipodColors := ipodColors s;
     currentObjectUrl := currentObjectUrl s; bounceGameStateRef := v;
     longPressTimer := longPressTimer s; playback := playback s; db := db s;
     browser := browser s |}.

Definition set_longPressTimer v (s : AppState) : AppState :=
  {| songs := songs s; navigationStack := navigationStack s;
     isFlashing := isFlashing s; currentTrackId := currentTrackId s;
     playQueue := playQueue s; shuffleMode := shuffleMode s;
     repeatMode := repeatMode s; volume := volume s;
     nowPlayingMode := nowPlayingMode s; searchQuery := searchQuery s;
     clearingState := clearingState s; bounceGame := bounceGame s;
     focusSettings := focusSettings s; focusState := focusState s;
     todayStats := todayStats s; ipodColors := ipodColors s;
     currentObjectUrl := currentObjectUrl s;
     bounceGameStateRef := bounceGameStateRef s; longPressTimer := v;
     playback := playback s; db := db s; browser := browser s |}.

Definition set_playback v (s : AppState) : AppState :=
  {| songs := songs s; navigationStack := navigationStack s;
     isFlashing := isFlashing s; currentTrackId := currentTrackId s;
     playQueue := playQueue s; shuffleMode := shuffleMode s;
     repeatMode := repeatMode s; volume := volume s;
     nowPlayingMode := nowPlayingMode s; searchQuery := searchQuery s;
     clearingState := clearingState s; bounceGame := bounceGame s;
     focusSettings := focusSettings s; focusState := focusState s;
     todayStats := todayStats s; ipodColors := ipodColors s;
     currentObjectUrl := currentObjectUrl s;
     bounceGameStateRef := bounceGameStateRef s; longPressTimer := longPressTimer s;
     playback := v; db := db s; browser := browser s |}.

Definition set_db v (s : AppState) : AppState :=
  {| songs := songs s; navigationStack := navigationStack s;
     isFlashing := isFlashing s; currentTrackId := currentTrackId s;
     playQueue := playQueue s; shuffleMode := shuffleMode s;
     repeatMode := repeatMode s; volume := volume s;
     nowPlayingMode := nowPlayingMode s; searchQuery := searchQuery s;
     clearingState := clearingState s; bounceGame := bounceGame s;
     focusSettings := focusSettings s; focusState := focusState s;
     todayStats := todayStats s; ipodColors := ipodColors s;
     currentObjectUrl := currentObjectUrl s;
     bounceGameStateRef := bounceGameStateRef s; longPressTimer := longPressTimer s;
     playback := playback s; db := v; browser := browser s |}.

Definition set_browser v (s : AppState) : AppState :=
  {| songs := songs s; navigationStack := navigationStack s;
     isFlashing := isFlashing s; currentTrackId := currentTrackId s;
     playQueue := playQueue s; shuffleMode := shuffleMode s;
     repeatMode := repeatMode s; volume := volume s;
     nowPlayingMode := nowPlayingMode s; searchQuery := searchQuery s;
     clearingState := clearingState s; bounceGame := bounceGame s;
     focusSettings := focusSettings s; focusState := focusState s;
     todayStats := todayStats s; ipodColors := ipodColors s;
     currentObjectUrl := currentObjectUrl s;
     bounceGameStateRef := bounceGameStateRef s; longPressTimer := longPressTimer s;
     playback := playback s; db := db s; browser := v |}.

(** The current view, [navigationStack[navigationStack.length - 1]]:
    [undefined] on an empty stack. *)
Definition currentView (s : AppState) : option ViewFrame.t :=
  JS.at_ (navigationStack s) (JS.len (navigationStack s) - 1).

(** ** The playback hook ([usePlayback]) *)

Definition set_audio (a : Audio.t) (p : Playback.t) : Playback.t :=
  {| Playback.audio := a; Playback.lastUrl := Playback.lastUrl p;
     Playback.isPlaying := Playback.isPlaying p;
     Playback.currentTime := Playback.currentTime p;
     Playback.duration := Playback.duration p |}.

Definition set_lastUrl (u : option string) (p : Playback.t) : Playback.t :=
  {| Playback.audio := Playback.audio p; Playback.lastUrl := u;
     Playback.isPlaying := Playback.isPlaying p;
     Playback.currentTime := Playback.currentTime p;
     Playback.duration := Playback.duration p |}.

Definition setIsPlaying (b : bool) (p : Playback.t) : Playback.t :=
  {| Playback.audio := Playback.audio p; Playback.lastUrl := Playback.lastUrl p;
     Playback.isPlaying := b;
     Playback.currentTime := Playback.currentTime p;
     Playback.duration := Playback.duration p |}.

Definition setCurrentTime (t : Q) (p : Playback.t) : Playback.t :=
  {| Playback.audio := Playback.audio p; Playback.lastUrl := Playback.lastUrl p;
     Playback.isPlaying := Playback.isPlaying p;
     Playback.currentTime := t;
     Playback.duration := Playback.duration p |}.

Definition setDuration (d : Q) (p : Playback.t) : Playback.t :=
  {| Playback.audio := Playback.audio p; Playback.lastUrl := Playback.lastUrl p;
     Playback.isPlaying := Playback.isPlaying p;
     Playback.currentTime := Playback.currentTime p;
     Playback.duration := d |}.

(** [audio.src = url]: the element starts over on the new source.  The
    resource selection of the element fails on an empty [src] before it assigns
    [currentSrc], which then keeps the address selected before. *)
Definition audio_set_src (url : string) (a : Audio.t) : Audio.t :=
  {| Audio.src := url;
     Audio.currentSrc := if String.eqb url EmptyString then Audio.currentSrc a else url;
     Audio.paused := Audio.paused a; Audio.currentTime := 0%Q;
     Audio.volume := Audio.volume a; Audio.loop := Audio.loop a |}.

(** [audio.play()] and [audio.pause()] *)
Definition audio_set_paused (b : bool) (a : Audio.t) : Audio.t :=
  {| Audio.src := Audio.src a; Audio.currentSrc := Audio.currentSrc a;
     Audio.paused := b;
     Audio.currentTime := Audio.currentTime a;
     Audio.volume := Audio.volume a; Audio.loop := Audio.loop a |}.

(** [audio.currentTime = t] *)
Definition audio_set_currentTime (t : Q) (a : Audio.t) : Audio.t :=
  {| Audio.src := Audio.src a; Audio.currentSrc := Audio.currentSrc a;
     Audio.paused := Audio.paused a;
     Audio.currentTime := t;
     Audio.volume := Audio.volume a; Audio.loop := Audio.loop a |}.

(** [audio.volume = v] *)
Definition audio_set_volume (v : Q) (a : Audio.t) : Audio.t :=
  {| Audio.src := Audio.src a; Audio.currentSrc := Audio.currentSrc a;
     Audio.paused := Audio.paused a;
     Audio.currentTime := Audio.currentTime a;
     Audio.volume := v; Audio.loop := Audio.loop a |}.

(** [audio.loop = b] *)
Definition audio_set_loop (b : bool) (a : Audio.t) : Audio.t :=
  {| Audio.src := Audio.src a; Audio.currentSrc := Audio.currentSrc a;
     Audio.paused := Audio.paused a;
     Audio.currentTime := Audio.currentTime a;
     Audio.volume := Audio.volume a; Audio.loop := b |}.

(** [audioRef.current.play().then(() => setIsPlaying(true)).catch(...)]:
    [ok] tells whether the host lets the element play its source.  On an element
    whose [src] is empty the promise of [audio.play()] is rejected: there is no
    source to play. *)
Definition audio_play (ok : bool) (p : Playback.t) : Playback.t :=
  if ok && negb (String.eqb (Audio.src (Playback.audio p)) EmptyString) then
    setIsPlaying true (set_audio (audio_set_paused false (Playback.audio p)) p)
  else p.

(** [play(url)] *)
Definition play_hook (ok : bool) (url : string) (p : Playback.t) : Playback.t :=
  let p1 := set_lastUrl (Some url) p in
  let p2 := set_audio (audio_set_src url (Playback.audio p1)) p1 in
  audio_play ok p2.

(** [pause()] *)
Definition pause_hook (p : Playback.t) : Playback.t :=
  setIsPlaying false (set_audio (audio_set_paused true (Playback.audio p)) p).

(** [resume()] *)
Definition resume_hook (ok : bool) (p : Playback.t) : Playback.t :=
  if negb (String.eqb (Audio.currentSrc (Playback.audio p)) EmptyString) then
    audio_play ok p
  else
    match Playback.lastUrl p with
    | Some u => if String.eqb u EmptyString then p else play_hook ok u p
    | None => p
    end.

(** [setVolume(v)] *)
Definition setVolume_hook (v : Q) (p : Playback.t) : Playback.t :=
  set_audio (audio_set_volume v (Playback.audio p)) p.

(** [seek(t)] *)
Definition seek_hook (t : Q) (p : Playback.t) : Playback.t :=
  set_audio (audio_set_currentTime t (Playback.audio p)) p.

(** [stop()]: pause, detach the source, reset time and duration. *)
Definition stop_hook (p : Playback.t) : Playback.t :=
  let a := audio_set_src EmptyString (audio_set_paused true (Playback.audio p)) in
  setDuration 0%Q (setCurrentTime 0%Q (setIsPlaying false (set_audio a p))).

(** The listeners the hook installs on the element. *)
Definition handleTimeUpdate (p : Playback.t) : Playback.t :=
  setCurrentTime (Audio.currentTime (Playback.audio p)) p.
Definition handleLoadedMetadata (d : Q) (p : Playback.t) : Playback.t :=
  setDuration d p.

(** The hook's operations on the state of the component. *)
Definition isPlaying (s : AppState) : bool := Playback.isPlaying (playback s).
Definition currentTime (s : AppState) : Q := Playback.currentTime (playback s).
Definition duration (s : AppState) : Q := Playback.duration (playback s).

Definition play (url : string) (s : AppState) : AppState :=
  set_playback (play_hook (Browser.mediaOk (browser s)) url (playback s)) s.
Definition pause (s : AppState) : AppState :=
  set_playback (pause_hook (playback s)) s.
Definition resume (s : AppState) : AppState :=
  set_playback (resume_hook (Browser.mediaOk (browser s)) (playback s)) s.
Definition setVolume (v : Q) (s : AppState) : AppState :=
  set_playback (setVolume_hook v (playback s)) s.
Definition seek (t : Q) (s : AppState) : AppState :=
  set_playback (seek_hook t (playback s)) s.
Definition stop (s : AppState) : AppState :=
  set_playback (stop_hook (playback s)) s.

(** ** Core playback logic *)

(** [handleNext] *)
Definition handleNext (s : AppState) : AppState :=
  match currentTrackId s with
  | None => s
  | Some cur =>
      if JS.len (playQueue s) =? 0 then s
      else
        let currentIndex := JS.indexOf (playQueue s) cur in
        if currentIndex =? -1 then s
        else if currentIndex =? JS.len (playQueue s) - 1 then
          match repeatMode s with
          | RepeatAll => set_currentTrackId (JS.at_ (playQueue s) 0) s
          | _ => s
          end
        else set_currentTrackId (JS.at_ (playQueue s) (currentIndex + 1)) s
  end.

(** The [handleNext] of an earlier render, called now: it reads the queue,
    the current track and the repeat mode it closed over, and sets the current
    track of the state the component has now. *)
Definition handleNextOf (queue : list Z) (track : option Z) (mode : RepeatMode)
  (s : AppState) : AppState :=
  match track with
  | None => s
  | Some cur =>
      if JS.len queue =? 0 then s
      else
        let currentIndex := JS.indexOf queue cur in
        if currentIndex =? -1 then s
        else if currentIndex =? JS.len queue - 1 then
          match mode with
          | RepeatAll => set_currentTrackId (JS.at_ queue 0) s
          | _ => s
          end
        else set_currentTrackId (JS.at_ queue (currentIndex + 1)) s
  end.

(** [handlePrev] *)
Definition handlePrev (s : AppState) : AppState :=
  if JS.Qgtb (currentTime s) 3 then seek 0 s
  else
    match currentTrackId s with
    | None => s
    | Some cur =>
        if JS.len (playQueue s) =? 0 then s
        else
          let currentIndex := JS.indexOf (playQueue s) cur in
          if currentIndex =? -1 then s
          else if currentIndex =? 0 then
            match repeatMode s with
            | RepeatAll =>
                set_currentTrackId
                  (JS.at_ (playQueue s) (JS.len (playQueue s) - 1)) s
            | _ => s
            end
          else set_currentTrackId (JS.at_ (playQueue s) (currentIndex - 1)) s
    end.

(** [handleMediaSessionPlay]: an id is truthy unless it is [0]. *)
Definition truthyId (o : option Z) : bool :=
  match o with
  | Some n => negb (n =? 0)
  | None => false
  end.

(** [URL.createObjectURL(blob)] *)
Definition createObjectURL (b : Blob) : string := ("blob:" ++ b)%string.

(** [db.songs.get(id)]: [None] when the promise is rejected, [Some None] when it
    is fulfilled with [undefined]. *)
Definition db_songs_get (id : Z) (s : AppState) : option (option Song.t) :=
  if Browser.dbOk (browser s)
  then Some (JS.find (fun x => Song.id x =? id) (Db.songs (db s)))
  else None.

(** The effect that loads a track when [currentTrackId] changes, in the
    schedule in which [db.songs.get] settles before anything else happens; the
    closure of [handleNext] is then the one of the current render.
    [trackLoadBegin] and [trackLoadSettle] below give the effect in two steps. *)
Definition trackLoadEffect (s : AppState) : AppState :=
  let s1 := set_currentObjectUrl None s in
  match currentTrackId s1 with
  | Some id =>
      match db_songs_get id s1 with
      | Some (Some song) =>
          match Song.fileBlob song with
          | Some blob =>
              let url := createObjectURL blob in
              play url (set_currentObjectUrl (Some url) s1)
          | None => s1
          end
      | Some None => handleNext s1
      | None => handleNext s1
      end
  | None => stop s1
  end.

(** What the loader does once [db.songs.get] has settled with [result]: the
    [.then] and [.catch] callbacks of the effect.  [handleNext] is the one the
    effect closed over. *)
Definition trackLoadSettle (result : option (option Song.t))
  (queue : list Z) (track : option Z) (mode : RepeatMode) (s : AppState)
  : AppState :=
  match result with
  | Some (Some song) =>
      match Song.fileBlob song with
      | Some blob =>
          let url := createObjectURL blob in
          play url (set_currentObjectUrl (Some url) s)
      | None => s
      end
  | Some None => handleNextOf queue track mode s
  | None => handleNextOf queue track mode s
  end.

(** ** Host services: timers, random numbers, storage *)

Definition set_timers (ts : list (nat * Callback)) (next : nat) (b : Browser.t)
  : Browser.t :=
  {| Browser.random := Browser.random b; Browser.randomPos := Browser.randomPos b;
     Browser.now := Browser.now b; Browser.startOfToday := Browser.startOfToday b;
     Browser.localeCompare := Browser.localeCompare b;
     Browser.toLowerCase := Browser.toLowerCase b;
     Browser.dbOk := Browser.dbOk b; Browser.mediaOk := Browser.mediaOk b;
     Browser.timers := ts; Browser.nextTimerId := next;
     Browser.bounceHighScore := Browser.bounceHighScore b;
     Browser.ipodColorsItem := Browser.ipodColorsItem b |}.

Definition set_randomPos (n : nat) (b : Browser.t) : Browser.t :=
  {| Browser.random := Browser.random b; Browser.randomPos := n;
     Browser.now := Browser.now b; Browser.startOfToday := Browser.startOfToday b;
     Browser.localeCompare := Browser.localeCompare b;
     Browser.toLowerCase := Browser.toLowerCase b;
     Browser.dbOk := Browser.dbOk b; Browser.mediaOk := Browser.mediaOk b;
     Browser.timers := Browser.timers b; Browser.nextTimerId := Browser.nextTimerId b;
     Browser.bounceHighScore := Browser.bounceHighScore b;
     Browser.ipodColorsItem := Browser.ipodColorsItem b |}.

Definition set_bounceHighScore (v : option Z) (b : Browser.t) : Browser.t :=
  {| Browser.random := Browser.random b; Browser.randomPos := Browser.randomPos b;
     Browser.now := Browser.now b; Browser.startOfToday := Browser.startOfToday b;
     Browser.localeCompare := Browser.localeCompare b;
     Browser.toLowerCase := Browser.toLowerCase b;
     Browser.dbOk := Browser.dbOk b; Browser.mediaOk := Browser.mediaOk b;
     Browser.timers := Browser.timers b; Browser.nextTimerId := Browser.nextTimerId b;
     Browser.bounceHighScore := v;
     Browser.ipodColorsItem := Browser.ipodColorsItem b |}.

Definition set_ipodColorsItem (v : option (string * string)) (b : Browser.t)
  : Browser.t :=
  {| Browser.random := Browser.random b; Browser.randomPos := Browser.randomPos b;
     Browser.now := Browser.now b; Browser.startOfToday := Browser.startOfToday b;
     Browser.localeCompare := Browser.localeCompare b;
     Browser.toLowerCase := Browser.toLowerCase b;
     Browser.dbOk := Browser.dbOk b; Browser.mediaOk := Browser.mediaOk b;
     Browser.timers := Browser.timers b; Browser.nextTimerId := Browser.nextTimerId b;
     Browser.bounceHighScore := Browser.bounceHighScore b;
     Browser.ipodColorsItem := v |}.

(** [window.setTimeout(cb, delay)]: returns the id of the new timer.  The
    delay orders nothing in the model: a pending timer fires when the host
    says so.  A continuation that waits for a promise is registered the same
    way, under an id the program never sees. *)
Definition setTimeout (cb : Callback) (s : AppState) : nat * AppState :=
  let b := browser s in
  let id := Browser.nextTimerId b in
  (id, set_browser (set_timers (Browser.timers b ++ [(id, cb)]) (S id) b) s).

(** [clearTimeout(id)] *)
Definition clearTimeout (id : nat) (s : AppState) : AppState :=
  let b := browser s in
  set_browser
    (set_timers (filter (fun t => negb (Nat.eqb (fst t) id)) (Browser.timers b))
       (Browser.nextTimerId b) b) s.

(** [Math.random()] *)
Definition mathRandom (s : AppState) : Q * AppState :=
  let b := browser s in
  (Browser.random b (Browser.randomPos b),
   set_browser (set_randomPos (S (Browser.randomPos b)) b) s).

Definition set_db_songs (v : list Song.t) (d : Db.t) : Db.t :=
  {| Db.songs := v;
     Db.playlists := Db.playlists d;
     Db.focusSessions := Db.focusSessions d;
     Db.focusSettings := Db.focusSettings d;
     Db.songsKey := Db.songsKey d;
     Db.playlistsKey := Db.playlistsKey d |}.
Definition set_db_playlists (v : list Playlist.t) (d : Db.t) : Db.t :=
  {| Db.songs := Db.songs d;
     Db.playlists := v;
     Db.focusSessions := Db.focusSessions d;
     Db.focusSettings := Db.focusSettings d;
     Db.songsKey := Db.songsKey d;
     Db.playlistsKey := Db.playlistsKey d |}.
Definition set_db_focusSessions (v : list FocusSession.t) (d : Db.t) : Db.t :=
  {| Db.songs := Db.songs d;
     Db.playlists := Db.playlists d;
     Db.focusSessions := v;
     Db.focusSettings := Db.focusSettings d;
     Db.songsKey := Db.songsKey d;
     Db.playlistsKey := Db.playlistsKey d |}.
Definition set_db_focusSettings (v : option FocusSettings.t) (d : Db.t) : Db.t :=
  {| Db.songs := Db.songs d;
     Db.playlists := Db.playlists d;
     Db.focusSessions := Db.focusSessions d;
     Db.focusSettings := v;
     Db.songsKey := Db.songsKey d;
     Db.playlistsKey := Db.playlistsKey d |}.
Definition set_db_songsKey (v : Z) (d : Db.t) : Db.t :=
  {| Db.songs := Db.songs d;
     Db.playlists := Db.playlists d;
     Db.focusSessions := Db.focusSessions d;
     Db.focusSettings := Db.focusSettings d;
     Db.songsKey := v;
     Db.playlistsKey := Db.playlistsKey d |}.
Definition set_db_playlistsKey (v : Z) (d : Db.t) : Db.t :=
  {| Db.songs := Db.songs d;
     Db.playlists := Db.playlists d;
     Db.focusSessions := Db.focusSessions d;
     Db.focusSettings := Db.focusSettings d;
     Db.songsKey := Db.songsKey d;
     Db.playlistsKey := v |}.

(** [db.playlists.add({ name, songIds })] *)
Definition db_playlists_add (name : string) (songIds : list Z) (d : Db.t) : Db.t :=
  let id := Db.playlistsKey d + 1 in
  set_db_playlistsKey id
    (set_db_playlists
       (Db.playlists d ++ [ {| Playlist.id := id; Playlist.name := name;
                               Playlist.songIds := songIds |} ]) d).

(** [useLiveQuery(() => db.playlists.orderBy('name').toArray())]:
    [undefined] while the query has no result. *)
Definition allPlaylists (s : AppState) : option (list Playlist.t) :=
  if Browser.dbOk (browser s)
  then Some (JS.sort (fun a b => JS.defaultCompare (Playlist.name a) (Playlist.name b))
               (Db.playlists (db s)))
  else None.

(** The effect that loads a track, up to the point where it waits for
    [db.songs.get]: the callbacks of the promise stay pending, with the
    [handleNext] of this render.  The effect has no cleanup: a load that is
    pending is never cancelled. *)
Definition trackLoadBegin (s : AppState) : AppState :=
  let s1 := set_currentObjectUrl None s in
  match currentTrackId s1 with
  | Some id =>
      snd (setTimeout
             (CbTrackLoaded (db_songs_get id s1) (playQueue s1) (currentTrackId s1)
                (repeatMode s1)) s1)
  | None => stop s1
  end.

(** ** The navigation stack *)

(** [setNavigationStack(s => [...s, frame])] *)
Definition push (frame : ViewFrame.t) (s : AppState) : AppState :=
  set_navigationStack (navigationStack s ++ [frame]) s.

Definition pushView (id : string) (s : AppState) : AppState :=
  push {| ViewFrame.id := id; ViewFrame.activeIndex := 0 |} s.

(** [setNavigationStack(s => s.slice(0, -k))] *)
Definition sliceStack (k : nat) (s : AppState) : AppState :=
  set_navigationStack (JS.slice0 (navigationStack s) k) s.

(** [viewId.includes('/') ? viewId.split('/')[1] : undefined] *)
Definition viewParamOf (viewId : string) : option string :=
  if JS.includesChar "/" viewId then nth_error (JS.split "/" viewId) 1 else None.

(** ** Focus timer *)

Definition set_isActive (b : bool) (f : FocusState.t) : FocusState.t :=
  {| FocusState.isActive := b; FocusState.sessionType := FocusState.sessionType f;
     FocusState.timeRemaining := FocusState.timeRemaining f;
     FocusState.workIntervalsInCycle := FocusState.workIntervalsInCycle f |}.

Definition set_timeRemaining (t : Z) (f : FocusState.t) : FocusState.t :=
  {| FocusState.isActive := FocusState.isActive f;
     FocusState.sessionType := FocusState.sessionType f;
     FocusState.timeRemaining := t;
     FocusState.workIntervalsInCycle := FocusState.workIntervalsInCycle f |}.

Definition isWork (t : SessionType) : bool :=
  match t with Work => true | _ => false end.
Definition isIdle (t : SessionType) : bool :=
  match t with Idle => true | _ => false end.

(** The minutes configured for a session type (the conditional chains of
    [handleSessionEnd]). *)
Definition minutesOf (fs : FocusSettings.t) (t : SessionType) : Z :=
  match t with
  | Work => FocusSettings.workMinutes fs
  | ShortBreak => FocusSettings.shortBreakMinutes fs
  | _ => FocusSettings.longBreakMinutes fs
  end.

(** [calculateTodayStats] *)
Definition calculateTodayStats (s : AppState) : AppState :=
  let b := browser s in
  let startOfToday := Browser.startOfToday b (Browser.now b) in
  let completedToday :=
    filter (fun x => isWork (FocusSession.type x))
      (filter (fun x => startOfToday <? FocusSession.endTimestamp x)
         (Db.focusSessions (db s))) in
  let totalTime :=
    fold_left (fun sum x => sum + FocusSession.durationMinutes x) completedToday 0 in
  set_todayStats
    {| TodayStats.workIntervals := JS.len completedToday;
       TodayStats.totalTime := totalTime |} s.

(** The session that follows a completed one: the part of [handleSessionEnd]
    that computes [nextSessionType] and [nextWorkIntervals]. *)
Definition nextSession (fs : FocusSettings.t) (completed : SessionType)
  (workIntervals : Z) : SessionType * Z :=
  match completed with
  | Work =>
      let n := workIntervals + 1 in
      if FocusSettings.longBreakInterval fs <=? n then (LongBreak, 0)
      else (ShortBreak, n)
  | _ => (Work, workIntervals)
  end.

(** [handleSessionEnd].  The promise of a storage call that fails is
    rejected, which ends the handler there. *)
Definition handleSessionEnd (s : AppState) : AppState :=
  match focusSettings s with
  | None => s
  | Some fs =>
      let completedSessionType := FocusState.sessionType (focusState s) in
      let recorded : option AppState :=
        if isIdle completedSessionType then Some s
        else if Browser.dbOk (browser s) then
          let session :=
            {| FocusSession.endTimestamp := Browser.now (browser s);
               FocusSession.durationMinutes := minutesOf fs completedSessionType;
               FocusSession.type := completedSessionType |} in
          let s1 :=
            set_db (set_db_focusSessions (Db.focusSessions (db s) ++ [session])
                      (db s)) s in
          Some (if isWork completedSessionType then calculateTodayStats s1 else s1)
        else None in
      match recorded with
      | None => s
      | Some s1 =>
          let '(nextSessionType, nextWorkIntervals) :=
            nextSession fs completedSessionType
              (FocusState.workIntervalsInCycle (focusState s)) in
          let nextDuration := minutesOf fs nextSessionType * 60 in
          set_focusState
            {| FocusState.isActive := FocusSettings.autoStart fs;
               FocusState.sessionType := nextSessionType;
               FocusState.timeRemaining := nextDuration;
               FocusState.workIntervalsInCycle := nextWorkIntervals |} s1
      end
  end.

(** The callback of the one-second interval.  The interval exists only while
    the session is active and not idle. *)
Definition focusTick (s : AppState) : AppState :=
  let f := focusState s in
  if negb (FocusState.isActive f) || isIdle (FocusState.sessionType f) then s
  else if FocusState.timeRemaining f <=? 1 then
    handleSessionEnd (set_focusState (set_timeRemaining 0 (set_isActive false f)) s)
  else set_focusState (set_timeRemaining (FocusState.timeRemaining f - 1) f) s.

(** [{ ...focusSettings, [key]: value }] for the keys of [FocusSettings]. *)
Definition patchSettings (key : string) (value : SettingValue)
  (fs : FocusSettings.t) : FocusSettings.t :=
  let num (k : string) (old : Z) :=
    match value with
    | VNum n => if String.eqb key k then n else old
    | VBool _ => old
    end in
  let flag (k : string) (old : bool) :=
    match value with
    | VBool b => if String.eqb key k then b else old
    | VNum _ => old
    end in
  {| FocusSettings.workMinutes := num "workMinutes"%string (FocusSettings.workMinutes fs);
     FocusSettings.shortBreakMinutes :=
       num "shortBreakMinutes"%string (FocusSettings.shortBreakMinutes fs);
     FocusSettings.longBreakMinutes :=
       num "longBreakMinutes"%string (FocusSettings.longBreakMinutes fs);
     FocusSettings.longBreakInterval :=
       num "longBreakInterval"%string (FocusSettings.longBreakInterval fs);
     FocusSettings.tickingSound := flag "tickingSound"%string (FocusSettings.tickingSound fs);
     FocusSettings.fullscreenBreak :=
       flag "fullscreenBreak"%string (FocusSettings.fullscreenBreak fs);
     FocusSettings.autoStart := flag "autoStart"%string (FocusSettings.autoStart fs) |}.

(** [updateFocusSetting(key, value)] *)
Definition updateFocusSetting (key : string) (value : SettingValue)
  (s : AppState) : AppState :=
  match focusSettings s with
  | None => s
  | Some fs =>
      let newSettings := patchSettings key value fs in
      if Browser.dbOk (browser s) then
        set_focusSettings (Some newSettings)
          (set_db (set_db_focusSettings (Some newSettings) (db s)) s)
      else s
  end.

(** [handleFocusPlayPause] *)
Definition handleFocusPlayPause (s : AppState) : AppState :=
  let s1 :=
    if negb (FocusState.isActive (focusState s))
    then (if isPlaying s then pause s else s)
    else s in
  set_focusState
    (set_isActive (negb (FocusState.isActive (focusState s1))) (focusState s1)) s1.

(** ** Bounce: the game state and its loop *)

Module Bounce.
Local Open Scope R_scope.

Definition PADDLE_ARC_ANGLE : R := 45.
Definition ARENA_RADIUS : R := 47.5.

Definition Rleb (a b : R) : bool := if Rle_dec a b then true else false.
Definition Rltb (a b : R) : bool := if Rlt_dec a b then true else false.

(** [Math.atan2(y, x)] *)
Definition atan2 (y x : R) : R :=
  if Rlt_dec 0 x then atan (y / x)
  else if Rlt_dec x 0 then
    (if Rle_dec 0 y then atan (y / x) + PI else atan (y / x) - PI)
  else if Rlt_dec 0 y then PI / 2
  else if Rlt_dec y 0 then - PI / 2
  else 0.

(** [a % m]: the remainder whose sign is the sign of [a]. *)
Definition fmod (a m : R) : R :=
  let q := a / m in
  let t := if Rle_dec 0 q then IZR (Int_part q) else - IZR (Int_part (- q)) in
  a - m * t.

(** [getInitialBallVelocity(speed)], given the number [Math.random()]
    returned. *)
Definition initialBall (r : Q) (speed : R) : Ball.t :=
  let angle := Q2R r * 2 * PI in
  {| Ball.x := 0; Ball.y := 0;
     Ball.dx := cos angle * speed; Ball.dy := sin angle * speed |}.

Definition distFromCenter (b : Ball.t) : R :=
  sqrt (Ball.x b * Ball.x b + Ball.y b * Ball.y b).

(** The ball after [newBall.x += newBall.dx * ballSpeed] and the same for
    [y]. *)
Definition integrate (b : Ball.t) (ballSpeed : R) : Ball.t :=
  {| Ball.x := Ball.x b + Ball.dx b * ballSpeed;
     Ball.y := Ball.y b + Ball.dy b * ballSpeed;
     Ball.dx := Ball.dx b; Ball.dy := Ball.dy b |}.

Definition ballAngleDegrees (b : Ball.t) : R :=
  let physicsAngle := atan2 (Ball.y b) (Ball.x b) * (180 / PI) in
  fmod (physicsAngle + 90 + 360) 360.

(** [isHit]: the ball's angle lies in the paddle's arc. *)
Definition isHit (paddleAngle : R) (b : Ball.t) : bool :=
  let paddleStart := fmod (paddleAngle - PADDLE_ARC_ANGLE / 2 + 360) 360 in
  let paddleEnd := fmod (paddleAngle + PADDLE_ARC_ANGLE / 2 + 360) 360 in
  let a := ballAngleDegrees b in
  if Rltb paddleStart paddleEnd
  then Rleb paddleStart a && Rleb a paddleEnd
  else Rleb paddleStart a || Rleb a paddleEnd.

(** The ball after a hit: deflected, and put back just inside the
    boundary. *)
Definition reflect (paddleAngle : R) (b : Ball.t) : Ball.t :=
  let r0 := ballAngleDegrees b - paddleAngle in
  let r1 := if Rlt_dec 180 r0 then r0 - 360 else r0 in
  let relativeHitAngle := if Rlt_dec r1 (-180) then r1 + 360 else r1 in
  let deflectionFactor := relativeHitAngle / (PADDLE_ARC_ANGLE / 2) in
  let impactNormalRad := atan2 (- Ball.y b) (- Ball.x b) in
  let maxDeflectionRad := PI / 3.5 in
  let deflectionRad := deflectionFactor * maxDeflectionRad in
  let finalAngleRad := impactNormalRad + deflectionRad in
  let normalAngleRad := atan2 (Ball.y b) (Ball.x b) in
  {| Ball.x := (ARENA_RADIUS - 0.1) * cos normalAngleRad;
     Ball.y := (ARENA_RADIUS - 0.1) * sin normalAngleRad;
     Ball.dx := cos finalAngleRad;
     Ball.dy := sin finalAngleRad |}.

(** What one frame decides. *)
Inductive Outcome := Inside | Hit | Miss.

Definition outcome (g : BounceGameState.t) : Outcome :=
  let newBall := integrate (BounceGameState.ball g) (BounceGameState.ballSpeed g) in
  if Rlt_dec ARENA_RADIUS (distFromCenter newBall) then
    if isHit (BounceGameState.paddleAngle g) newBall then Hit else Miss
  else Inside.

(** The body of [gameLoop] on the game state held by the ref: the value
    stored back in the ref. *)
Definition frame (g : BounceGameState.t) : BounceGameState.t :=
  let newBall := integrate (BounceGameState.ball g) (BounceGameState.ballSpeed g) in
  match outcome g with
  | Inside =>
      {| BounceGameState.gameState := BounceGameState.gameState g;
         BounceGameState.score := BounceGameState.score g;
         BounceGameState.highScore := BounceGameState.highScore g;
         BounceGameState.paddleAngle := BounceGameState.paddleAngle g;
         BounceGameState.ball := newBall;
         BounceGameState.ballSpeed := BounceGameState.ballSpeed g |}
  | Hit =>
      {| BounceGameState.gameState := BounceGameState.gameState g;
         BounceGameState.score := (BounceGameState.score g + 1)%Z;
         BounceGameState.highScore := BounceGameState.highScore g;
         BounceGameState.paddleAngle := BounceGameState.paddleAngle g;
         BounceGameState.ball := reflect (BounceGameState.paddleAngle g) newBall;
         BounceGameState.ballSpeed := Rmin 2.5 (BounceGameState.ballSpeed g * 1.03) |}
  | Miss =>
      {| BounceGameState.gameState := GameOver;
         BounceGameState.score := BounceGameState.score g;
         BounceGameState.highScore :=
           Z.max (BounceGameState.highScore g) (BounceGameState.score g);
         BounceGameState.paddleAngle := BounceGameState.paddleAngle g;
         BounceGameState.ball := newBall;
         BounceGameState.ballSpeed := BounceGameState.ballSpeed g |}
  end.

(** The game a menu action (re)starts or resets:
    [{ ...g, gameState, score: 0, ball: getInitialBallVelocity(0.5),
    ballSpeed: 0.8 }]. *)
Definition fresh (phase : GamePhase) (r : Q) (g : BounceGameState.t)
  : BounceGameState.t :=
  {| BounceGameState.gameState := phase;
     BounceGameState.score := 0%Z;
     BounceGameState.highScore := BounceGameState.highScore g;
     BounceGameState.paddleAngle := BounceGameState.paddleAngle g;
     BounceGameState.ball := initialBall r 0.5;
     BounceGameState.ballSpeed := 0.8 |}.

Definition set_gameState (phase : GamePhase) (g : BounceGameState.t)
  : BounceGameState.t :=
  {| BounceGameState.gameState := phase;
     BounceGameState.score := BounceGameState.score g;
     BounceGameState.highScore := BounceGameState.highScore g;
     BounceGameState.paddleAngle := BounceGameState.paddleAngle g;
     BounceGameState.ball := BounceGameState.ball g;
     BounceGameState.ballSpeed := BounceGameState.ballSpeed g |}.

Definition set_paddleAngle (a : R) (g : BounceGameState.t)
  : BounceGameState.t :=
  {| BounceGameState.gameState := BounceGameState.gameState g;
     BounceGameState.score := BounceGameState.score g;
     BounceGameState.highScore := BounceGameState.highScore g;
     BounceGameState.paddleAngle := a;
     BounceGameState.ball := BounceGameState.ball g;
     BounceGameState.ballSpeed := BounceGameState.ballSpeed g |}.

End Bounce.

Definition phase_eqb (a b : GamePhase) : bool :=
  match a, b with
  | GameIdle, GameIdle | GamePlaying, GamePlaying
  | GamePaused, GamePaused | GameOver, GameOver => true
  | _, _ => false
  end.

(** [setBounceGame(g)], followed by the effect that copies the new state into
    [bounceGameStateRef].  From then until the next frame of a running game the
    ref and the state are one object; the model keeps two values, and the one
    write that could go through the shared object (the paddle, on a scroll
    between the two) is made on the ref. *)
Definition setBounceGame (g : BounceGameState.t) (s : AppState) : AppState :=
  set_bounceGameStateRef g (set_bounceGame g s).

(** [setBounceGame(g => ({ ...g, gameState, score: 0,
    ball: getInitialBallVelocity(0.5), ballSpeed: 0.8 }))] *)
Definition resetBounceGame (phase : GamePhase) (s : AppState) : AppState :=
  let '(r, s1) := mathRandom s in
  setBounceGame (Bounce.fresh phase r (bounceGame s1)) s1.

Definition viewIs (s : AppState) (id : string) : bool :=
  match currentView s with
  | Some v => String.eqb (ViewFrame.id v) id
  | None => false
  end.

(** [gameLoop], one animation frame.  On a miss with a new best score the
    score is written to [localStorage]; the React state is updated when the
    frame changed the score or the phase. *)
Definition gameLoop (s : AppState) : AppState :=
  let g := bounceGameStateRef s in
  if viewIs s "bounce-game" && phase_eqb (BounceGameState.gameState g) GamePlaying
  then
    let g' := Bounce.frame g in
    match Bounce.outcome g with
    | Bounce.Inside => set_bounceGameStateRef g' s
    | Bounce.Hit => setBounceGame g' s
    | Bounce.Miss =>
        let s1 :=
          if BounceGameState.highScore g <? BounceGameState.score g
          then set_browser
                 (set_bounceHighScore (Some (BounceGameState.score g)) (browser s)) s
          else s in
        setBounceGame g' s1
    end
  else s.

(** ** Handlers shared by the menus *)

(** [handleMenuClick].  On an empty stack [currentView.id] throws before any
    update. *)
Definition handleMenuClick (s : AppState) : AppState :=
  match currentView s with
  | None => s
  | Some cv =>
      let s1 :=
        if JS.startsWith (ViewFrame.id cv) "focus-setting-edit/" then
          match nth_error (JS.split "/" (ViewFrame.id cv)) 1 with
          | Some key => updateFocusSetting key (VNum (ViewFrame.activeIndex cv)) s
          | None => s
          end
        else s in
      let s2 :=
        if String.eqb (ViewFrame.id cv) "bounce-game"
        then resetBounceGame GameIdle s1 else s1 in
      let s3 := set_nowPlayingMode ModeVolume s2 in
      if 1 <? JS.len (navigationStack s) then sliceStack 1 s3 else s3
  end.

Definition setClearingState (isClearing : bool) (message : string)
  (s : AppState) : AppState :=
  set_clearingState
    {| ClearingState.isClearing := isClearing; ClearingState.message := message |} s.

(** [handleClearLibrary].  The storage calls it awaits are taken to settle
    before the next input; the timeouts it sets stay pending. *)
Definition handleClearLibrary (s : AppState) : AppState :=
  let s1 := setClearingState true "Calculating..." (pushView "clearing-library" s) in
  if Browser.dbOk (browser s1) then
    let totalCount := JS.len (Db.songs (db s1)) in
    if totalCount =? 0 then
      snd (setTimeout CbGoBack (setClearingState false "Library is already empty." s1))
    else
      let otgCleared :=
        map (fun p =>
               if String.eqb (Playlist.name p) "On-The-Go" && negb (Playlist.id p =? 0)
               then Playlist.set_songIds [] p else p)
          (Db.playlists (db s1)) in
      let s2 := set_db (set_db_playlists otgCleared (set_db_songs [] (db s1))) s1 in
      let s3 :=
        setClearingState false
          ("Library cleared. " ++ JS.numToString totalCount ++ " items removed.") s2 in
      let s4 := set_currentTrackId None (set_playQueue [] (set_songs [] (stop s3))) in
      snd (setTimeout CbClearDone s4)
  else
    snd (setTimeout CbGoBack (setClearingState false "An error occurred." s1)).

(** [handleSetRating(songId, rating)] for an integer rating. *)
Definition handleSetRating (songId rating : Z) (s : AppState) : AppState :=
  let newRating := JS.clampZ 0 5 rating in
  if Browser.dbOk (browser s) then
    let upd := map (fun x => if Song.id x =? songId
                             then Song.set_rating newRating x else x) in
    set_songs (upd (songs s)) (set_db (set_db_songs (upd (Db.songs (db s))) (db s)) s)
  else s.

Definition ipodColorsOf (body wheel : string) : IpodColors.t :=
  {| IpodColors.body := body; IpodColors.wheel := wheel |}.

(** ** Shuffling a queue ([createPlayAction]) *)

Fixpoint setNth (l : list Z) (i : nat) (v : Z) : list Z :=
  match l, i with
  | [], _ => []
  | _ :: l', O => v :: l'
  | x :: l', S i' => x :: setNth l' i' v
  end.

(** [[a[i], a[j]] = [a[j], a[i]]] for indices inside the array (the loop
    below draws no other). *)
Definition swap (a : list Z) (i j : nat) : list Z :=
  match nth_error a i, nth_error a j with
  | Some ai, Some aj => setNth (setNth a i aj) j ai
  | _, _ => a
  end.

(** [Math.floor(Math.random() * (i + 1))] *)
Definition randomIndex (r : Q) (i : nat) : nat :=
  Z.to_nat (Qfloor (r * inject_Z (Z.of_nat i + 1))).

(** [for (let i = shuffled.length - 1; i > 0; i--)]: the loop from index [i]
    down, reading [Math.random] at stream position [pos]. *)
Fixpoint fisherYates (rnd : nat -> Q) (pos : nat) (i : nat) (a : list Z)
  : list Z * nat :=
  match i with
  | O => (a, pos)
  | S i' => fisherYates rnd (S pos) i' (swap a i (randomIndex (rnd pos) i))
  end.

(** The queue [createPlayAction(songId, queue)] builds when shuffle is on. *)
Definition shuffledQueue (rnd : nat -> Q) (pos : nat) (songId : Z)
  (queue : list Z) : list Z * nat :=
  let shuffled := filter (fun id => negb (id =? songId)) queue in
  let '(sh, pos') := fisherYates rnd pos (List.length shuffled - 1) shuffled in
  (songId :: sh, pos').

(** The closure returned by [createPlayAction(songId, queue)]. *)
Definition createPlayAction (songId : Z) (queue : list Z) (s : AppState)
  : AppState :=
  let '(finalQueue, s1) :=
    if shuffleMode s then
      let b := browser s in
      let '(q, pos') :=
        shuffledQueue (Browser.random b) (Browser.randomPos b) songId queue in
      (q, set_browser (set_randomPos pos' b) s)
    else (queue, s) in
  set_currentTrackId (Some songId) (set_playQueue finalQueue s1).

(** ** Menu actions *)

Definition nextRepeat (r : RepeatMode) : RepeatMode :=
  match r with
  | RepeatOff => RepeatAll
  | RepeatAll => RepeatOne
  | RepeatOne => RepeatOff
  end.

Definition isRepeatOne (r : RepeatMode) : bool :=
  match r with RepeatOne => true | _ => false end.

Definition DEFAULT_BODY : string := "bg-gradient-to-b from-gray-100 to-gray-300".
Definition DEFAULT_WHEEL : string := "bg-gray-800".

(** Running the closure of a menu row. *)
Definition invoke (a : Action) (s : AppState) : AppState :=
  match a with
  | ANowPlaying =>
      match currentTrackId s with
      | Some _ => pushView "now-playing" s
      | None => s
      end
  | APush frame => push frame s
  | AFocus => pushView "focus" (if isPlaying s then pause s else s)
  | ABounce => pushView "bounce-game" (resetBounceGame GameIdle (stop s))
  | AFocusPlayPause => handleFocusPlayPause s
  | ASkipSession => handleSessionEnd s
  | AUpdateFocusSetting key value => updateFocusSetting key value s
  | AMenuClick => handleMenuClick s
  | AResetStats =>
      (* [await db.focusSessions.clear()]: what follows the awaits runs later *)
      if Browser.dbOk (browser s) then
        snd (setTimeout CbResetStatsDone
               (set_db (set_db_focusSessions [] (db s)) s))
      else s
  | AStartGame => resetBounceGame GamePlaying s
  | ASearch => pushView "search" (set_searchQuery EmptyString s)
  | APlay songId queue => createPlayAction songId queue s
  | AShuffle => set_shuffleMode (negb (shuffleMode s)) s
  | ARepeat =>
      let r := nextRepeat (repeatMode s) in
      let p := playback s in
      set_playback (set_audio (audio_set_loop (isRepeatOne r) (Playback.audio p)) p)
        (set_repeatMode r s)
  | AClearLibrary => handleClearLibrary s
  | AResetColors =>
      set_browser (set_ipodColorsItem None (browser s))
        (set_ipodColors (ipodColorsOf DEFAULT_BODY DEFAULT_WHEEL) s)
  | ASetColor isBody colorClass =>
      let c := ipodColors s in
      let c' := if isBody then ipodColorsOf colorClass (IpodColors.wheel c)
                else ipodColorsOf (IpodColors.body c) colorClass in
      set_browser
        (set_ipodColorsItem (Some (IpodColors.body c', IpodColors.wheel c')) (browser s))
        (set_ipodColors c' s)
  | ASearchAppend ch => set_searchQuery (searchQuery s ++ ch)%string s
  | ASearchDelete => set_searchQuery (JS.dropLastChar (searchQuery s)) s
  end.

(** ** The menu resolver ([menuItems]) *)

Local Open Scope string_scope.

Definition item (label : string) (action : Action) (hasArrow : option bool)
  : MenuItem.t :=
  {| MenuItem.label := label; MenuItem.subtext := None; MenuItem.action := action;
     MenuItem.hasArrow := hasArrow; MenuItem.ratingDisplay := None;
     MenuItem.songId := None |}.

Definition itemSub (label subtext : string) (action : Action)
  (hasArrow : option bool) : MenuItem.t :=
  {| MenuItem.label := label; MenuItem.subtext := Some subtext;
     MenuItem.action := action; MenuItem.hasArrow := hasArrow;
     MenuItem.ratingDisplay := None; MenuItem.songId := None |}.

Definition frame0 (id : string) : ViewFrame.t :=
  {| ViewFrame.id := id; ViewFrame.activeIndex := 0 |}.

(** A row that opens a view: [setNavigationStack(s => [...s, { id,
    activeIndex: 0 }])] with [hasArrow: true]. *)
Definition nav (label id : string) : MenuItem.t :=
  item label (APush (frame0 id)) (Some true).

(** A row of a song list: the action plays the song within [queue]. *)
Definition songRow (queue : list Z) (song : Song.t) : MenuItem.t :=
  {| MenuItem.label := Song.title song; MenuItem.subtext := None;
     MenuItem.action := APlay (Song.id song) queue;
     MenuItem.hasArrow := None;
     MenuItem.ratingDisplay := Some (Song.rating song);
     MenuItem.songId := Some (Song.id song) |}.

Definition songRows (l : list Song.t) : list MenuItem.t :=
  map (songRow (map Song.id l)) l.

Definition BODY_COLORS : list (string * string) :=
  [ ("White", "bg-gradient-to-b from-gray-100 to-gray-300");
    ("Black", "bg-gradient-to-b from-gray-800 to-black");
    ("Silver", "bg-gradient-to-b from-gray-400 to-gray-600");
    ("Blue", "bg-gradient-to-b from-blue-300 to-blue-500");
    ("Gold", "bg-gradient-to-b from-yellow-300 to-yellow-500");
    ("Green", "bg-gradient-to-b from-green-300 to-green-500");
    ("Lime", "bg-gradient-to-b from-lime-300 to-lime-500");
    ("Pink", "bg-gradient-to-b from-pink-300 to-pink-500");
    ("Purple", "bg-gradient-to-b from-purple-300 to-purple-500");
    ("Red", "bg-gradient-to-b from-red-400 to-red-600") ].

Definition WHEEL_COLORS : list (string * string) :=
  [ ("Gray", "bg-gray-800"); ("Black", "bg-black"); ("Blue", "bg-blue-800");
    ("Green", "bg-green-700"); ("Orange", "bg-orange-700");
    ("Purple", "bg-purple-800"); ("Red", "bg-red-700") ].

Definition colorRow (isBody : bool) (current : string) (color : string * string)
  : MenuItem.t :=
  let chosen := String.eqb current (snd color) in
  itemSub (fst color) (if chosen then "✓" else "")
    (ASetColor isBody (snd color)) (if chosen then Some false else None).

Definition SEARCH_CHARS : list string :=
  map (fun c => String c EmptyString)
    (list_ascii_of_string "ABCDEFGHIJKLMNOPQRSTUVWXYZ0123456789").

Definition onOff (b : bool) : string := if b then "On" else "Off".

Definition repeatLabel (r : RepeatMode) : string :=
  match r with
  | RepeatOff => "Off"
  | RepeatAll => "All"
  | RepeatOne => "One"
  end.

(** [`${focusSettings?.field}`] *)
Definition showSetting (fs : option FocusSettings.t)
  (field : FocusSettings.t -> Z) : string :=
  match fs with
  | Some f => JS.numToString (field f)
  | None => "undefined"
  end.

(** [focusSettings?.field ?? dflt] *)
Definition settingOr (fs : option FocusSettings.t)
  (field : FocusSettings.t -> Z) (dflt : Z) : Z :=
  match fs with
  | Some f => field f
  | None => dflt
  end.

Definition settingFlag (fs : option FocusSettings.t)
  (field : FocusSettings.t -> bool) : bool :=
  match fs with
  | Some f => field f
  | None => false
  end.

Definition editRow (label subtext key : string) (value : Z) : MenuItem.t :=
  itemSub label subtext
    (APush {| ViewFrame.id := "focus-setting-edit/" ++ key;
              ViewFrame.activeIndex := value |})
    (Some true).

Definition playlistRow (p : Playlist.t) : MenuItem.t :=
  itemSub (Playlist.name p) (JS.numToString (JS.len (Playlist.songIds p)))
    (APush (frame0 ("playlist-songs/" ++ JS.numToString (Playlist.id p))))
    (Some true).

Definition isOtg (p : Playlist.t) : bool :=
  String.eqb (Playlist.name p) "On-The-Go".

Definition findSong (l : list Song.t) (id : Z) : option Song.t :=
  JS.find (fun x => (Song.id x =? id)%Z) l.

Fixpoint catOptions {A} (l : list (option A)) : list A :=
  match l with
  | [] => []
  | Some x :: l' => x :: catOptions l'
  | None :: l' => catOptions l'
  end.

Definition ratingOr0 (s : Song.t) : Z :=
  match Song.rating s with
  | Some r => r
  | None => 0
  end.

(** [songs.sort((a, b) => a.title.localeCompare(b.title))] *)
Definition sortSongs (s : AppState) (l : list Song.t) : list Song.t :=
  JS.sort
    (fun a b => Browser.localeCompare (browser s) (Song.title a) (Song.title b)) l.

(** The body of the [useMemo] that computes [menuItems]: the list of rows,
    and the contents of the [songs] array once the computation has run (the
    array is the one held in React state; [Array.prototype.sort] sorts it
    in place). *)
Definition computeMenuItems (s : AppState) : list MenuItem.t * list Song.t :=
  match currentView s with
  | None => ([], songs s)
  | Some cv =>
      let viewId := ViewFrame.id cv in
      let viewParam := viewParamOf viewId in
      let keep (l : list MenuItem.t) := (l, songs s) in
      if String.eqb viewId "main" then
        keep [ item "Now Playing" ANowPlaying
                 (Some (match currentTrackId s with Some _ => true | None => false end));
               nav "Music" "music";
               nav "Playlists" "playlists";
               item "Focus" AFocus (Some true);
               item "Bounce" ABounce (Some true);
               nav "Settings" "settings" ]
      else if String.eqb viewId "focus" then
        keep [ item (if FocusState.isActive (focusState s) then "Pause" else "Start")
                 AFocusPlayPause None;
               item "Skip Session" ASkipSession None;
               nav "Stats" "focus-stats";
               nav "Settings" "focus-settings" ]
      else if String.eqb viewId "focus-settings" then
        let fs := focusSettings s in
        keep [ editRow "Work Duration"
                 (showSetting fs FocusSettings.workMinutes ++ " min")
                 "workMinutes" (settingOr fs FocusSettings.workMinutes 25);
               editRow "Short Break"
                 (showSetting fs FocusSettings.shortBreakMinutes ++ " min")
                 "shortBreakMinutes" (settingOr fs FocusSettings.shortBreakMinutes 5);
               editRow "Long Break"
                 (showSetting fs FocusSettings.longBreakMinutes ++ " min")
                 "longBreakMinutes" (settingOr fs FocusSettings.longBreakMinutes 15);
               editRow "Intervals"
                 (showSetting fs FocusSettings.longBreakInterval)
                 "longBreakInterval" (settingOr fs FocusSettings.longBreakInterval 4);
               item ("Auto Start: " ++ onOff (settingFlag fs FocusSettings.autoStart))
                 (AUpdateFocusSetting "autoStart"
                    (VBool (negb (settingFlag fs FocusSettings.autoStart)))) None;
               item ("Fullscreen Break: "
                       ++ onOff (settingFlag fs FocusSettings.fullscreenBreak))
                 (AUpdateFocusSetting "fullscreenBreak"
                    (VBool (negb (settingFlag fs FocusSettings.fullscreenBreak)))) None;
               nav "Reset Stats" "focus-reset-confirm" ]
      else if String.eqb viewId "focus-reset-confirm" then
        keep [ item "No, Cancel" AMenuClick None;
               item "Yes, Reset All Stats" AResetStats None ]
      else if String.eqb viewId "bounce-game" then
        match BounceGameState.gameState (bounceGame s) with
        | GameIdle => keep [ item "Start Game" AStartGame None ]
        | GameOver => keep [ item "Play Again" AStartGame None;
                             item "Exit" AMenuClick None ]
        | _ => keep []
        end
      else if String.eqb viewId "music" then
        keep [ nav "Cover Flow" "cover-flow"; nav "Songs" "songs";
               nav "Artists" "artists"; nav "Albums" "albums";
               nav "Ratings" "ratings"; item "Search" ASearch (Some true) ]
      else if String.eqb viewId "playlists" then
        match allPlaylists s with
        | None => keep []
        | Some pls =>
            let otg := match JS.find isOtg pls with
                       | Some p => [playlistRow p]
                       | None => []
                       end in
            keep (otg ++ map playlistRow (filter (fun p => negb (isOtg p)) pls))%list
        end
      else if JS.startsWith viewId "playlist-songs/" then
        match allPlaylists s, option_map JS.parseInt viewParam with
        | Some pls, Some (Some playlistId) =>
            match JS.find (fun p => (Playlist.id p =? playlistId)%Z) pls with
            | Some playlist =>
                keep (songRows
                        (catOptions (map (findSong (songs s)) (Playlist.songIds playlist))))
            | None => keep []
            end
        | _, _ => keep []
        end
      else if String.eqb viewId "songs" then
        let sorted := sortSongs s (songs s) in
        (songRows sorted, sorted)
      else if String.eqb viewId "search-results" then
        let lower := Browser.toLowerCase (browser s) in
        let q := JS.trim (lower (searchQuery s)) in
        let searchResults :=
          if String.eqb q "" then []
          else filter (fun x => JS.includes (lower (Song.title x)) q
                                || JS.includes (lower (Song.artist x)) q
                                || JS.includes (lower (Song.album x)) q) (songs s) in
        keep (songRows searchResults)
      else if JS.startsWith viewId "rated-songs/" then
        match option_map JS.parseInt viewParam with
        | Some (Some minRating) =>
            keep (songRows (filter (fun x => (minRating <=? ratingOr0 x)%Z) (songs s)))
        | _ => keep []
        end
      else if JS.startsWith viewId "album-songs/" then
        keep (songRows
                (filter (fun x => match viewParam with
                                  | Some a => String.eqb (Song.album x) a
                                  | None => false
                                  end) (songs s)))
      else if String.eqb viewId "artists" then
        keep (map (fun artist => nav artist ("artist-albums/" ++ artist))
                (JS.sort JS.defaultCompare (JS.uniq (map Song.artist (songs s)))))
      else if JS.startsWith viewId "artist-albums/" then
        let artistSongs :=
          filter (fun x => match viewParam with
                           | Some a => String.eqb (Song.artist x) a
                           | None => false
                           end) (songs s) in
        keep (map (fun album => nav album ("album-songs/" ++ album))
                (JS.sort JS.defaultCompare (JS.uniq (map Song.album artistSongs))))
      else if String.eqb viewId "albums" then
        keep (map (fun album => nav album ("album-songs/" ++ album))
                (JS.sort JS.defaultCompare (JS.uniq (map Song.album (songs s)))))
      else if String.eqb viewId "ratings" then
        keep (map (fun r => nav (JS.repeatString "★" r ++ JS.repeatString "☆" (5 - r))
                              ("rated-songs/" ++ JS.numToString (Z.of_nat r)))
                [5; 4; 3; 2; 1]%nat)
      else if String.eqb viewId "settings" then
        keep [ item ("Shuffle: " ++ onOff (shuffleMode s)) AShuffle None;
               item ("Repeat: " ++ repeatLabel (repeatMode s)) ARepeat None;
               nav "Appearance" "appearance";
               nav "Library Management" "library-management";
               nav "About" "about" ]
      else if String.eqb viewId "library-management" then
        keep [ nav "Add Music" "load";
               item "Clear Library" AClearLibrary (Some true) ]
      else if String.eqb viewId "appearance" then
        keep [ nav "iPod Body" "body-color"; nav "Click Wheel" "wheel-color";
               item "Reset to Default" AResetColors None ]
      else if String.eqb viewId "body-color" then
        keep (map (colorRow true (IpodColors.body (ipodColors s))) BODY_COLORS)
      else if String.eqb viewId "wheel-color" then
        keep (map (colorRow false (IpodColors.wheel (ipodColors s))) WHEEL_COLORS)
      else if String.eqb viewId "search" then
        keep (map (fun ch => item ch (ASearchAppend ch) None) SEARCH_CHARS
              ++ [ item "Space" (ASearchAppend " ") None;
                   item "Delete" ASearchDelete None;
                   nav "Done" "search-results" ])%list
      else keep []
  end.

(** The rows the screen shows. *)
Definition menuItems (s : AppState) : list MenuItem.t := fst (computeMenuItems s).

(** The state once the component has rendered: [songs] is the array the
    resolver has worked on. *)
Definition render (s : AppState) : AppState :=
  set_songs (snd (computeMenuItems s)) s.

Local Close Scope string_scope.

(** ** Cover flow *)

Module CoverFlowItem.
Record t := { album : string; artist : string; artwork : option ArtworkData.t }.
End CoverFlowItem.

(** [albumMap]: one entry per album, in order of first appearance, with the
    first artwork found for it. *)
Fixpoint albumMapAdd (song : Song.t) (m : list CoverFlowItem.t)
  : list CoverFlowItem.t :=
  match m with
  | [] => [ {| CoverFlowItem.album := Song.album song;
               CoverFlowItem.artist := Song.artist song;
               CoverFlowItem.artwork := Song.artwork song |} ]
  | e :: m' =>
      if String.eqb (CoverFlowItem.album e) (Song.album song) then
        match CoverFlowItem.artwork e with
        | None => {| CoverFlowItem.album := CoverFlowItem.album e;
                     CoverFlowItem.artist := CoverFlowItem.artist e;
                     CoverFlowItem.artwork := Song.artwork song |} :: m'
        | Some _ => e :: m'
        end
      else e :: albumMapAdd song m'
  end.

Definition coverFlowItems (s : AppState) : list CoverFlowItem.t :=
  JS.sort
    (fun a b => Browser.localeCompare (browser s)
                  (CoverFlowItem.album a) (CoverFlowItem.album b))
    (fold_left (fun m song => albumMapAdd song m) (songs s) []).

(** ** Input handlers *)

(** [[...stack.slice(0, -1), { ...last, activeIndex: v }]], where [v] is
    computed from the top frame.  The handlers below run on a stack that has a
    top frame. *)
Definition updateTop (f : ViewFrame.t -> Z) (s : AppState) : AppState :=
  match currentView s with
  | Some last =>
      set_navigationStack
        (JS.slice0 (navigationStack s) 1 ++ [ViewFrame.set_activeIndex (f last) last]) s
  | None => s
  end.

Definition currentSong (s : AppState) : option Song.t :=
  match currentTrackId s with
  | Some id => findSong (songs s) id
  | None => None
  end.

(** [handlePlayPause] *)
Definition handlePlayPause (s : AppState) : AppState :=
  match currentView s with
  | None => s
  | Some cv =>
      if JS.startsWith (ViewFrame.id cv) "focus" then handleFocusPlayPause s
      else if String.eqb (ViewFrame.id cv) "bounce-game" then
        match BounceGameState.gameState (bounceGame s) with
        | GamePlaying => setBounceGame (Bounce.set_gameState GamePaused (bounceGame s)) s
        | GamePaused => setBounceGame (Bounce.set_gameState GamePlaying (bounceGame s)) s
        | _ => s
        end
      else if isPlaying s then pause s
      else if truthyId (currentTrackId s) then resume s
      else if 0 <? JS.len (playQueue s) then
        set_currentTrackId (JS.at_ (playQueue s) 0) s
      else s
  end.

(** [handleMediaSessionPlay] *)
Definition handleMediaSessionPlay (s : AppState) : AppState :=
  if truthyId (currentTrackId s) then resume s
  else if 0 <? JS.len (playQueue s) then
    set_currentTrackId (JS.at_ (playQueue s) 0) s
  else s.

(** [setVolumeState(v)] and the effect that passes it on to the element. *)
Definition setVolumeState (v : Q) (s : AppState) : AppState :=
  setVolume v (set_volume v s).

(** [handleScroll(direction)] *)
Definition handleScroll (direction : Z) (s : AppState) : AppState :=
  match currentView s with
  | None => s
  | Some cv =>
      if JS.startsWith (ViewFrame.id cv) "focus-setting-edit/" then
        let key := nth_error (JS.split "/" (ViewFrame.id cv)) 1 in
        updateTop
          (fun last =>
             let newValue := ViewFrame.activeIndex last + direction in
             match key with
             | Some "longBreakInterval"%string => JS.clampZ 1 10 newValue
             | _ => JS.clampZ 1 90 newValue
             end) s
      else if String.eqb (ViewFrame.id cv) "bounce-game"
              && phase_eqb (BounceGameState.gameState (bounceGameStateRef s)) GamePlaying
      then
        let g := bounceGameStateRef s in
        let newAngle :=
          Bounce.fmod (BounceGameState.paddleAngle g + IZR direction * 10 + 360) 360 in
        set_bounceGameStateRef (Bounce.set_paddleAngle newAngle g) s
      else
        match (if String.eqb (ViewFrame.id cv) "now-playing"
               then currentSong s else None) with
        | Some song =>
            if Song.id song =? 0 then
              (* [currentSong?.id] is falsy: the menu branch below *)
              let n := JS.len (menuItems s) in
              if n =? 0 then s
              else updateTop (fun last =>
                                Z.rem (ViewFrame.activeIndex last + direction + n) n) s
            else
              match nowPlayingMode s with
              | ModeRating =>
                  let currentRating := ratingOr0 song in
                  let newRating := JS.clampZ 0 5 (currentRating + direction) in
                  if newRating =? currentRating then s
                  else handleSetRating (Song.id song) newRating s
              | ModeVolume =>
                  setVolumeState
                    (JS.clampQ 0 1 (volume s + inject_Z direction * (5 # 100))) s
              end
        | None =>
            let n := if String.eqb (ViewFrame.id cv) "cover-flow"
                     then JS.len (coverFlowItems s) else JS.len (menuItems s) in
            if n =? 0 then s
            else updateTop (fun last =>
                              Z.rem (ViewFrame.activeIndex last + direction + n) n) s
        end
  end.

(** [handleSelectClick] *)
Definition handleSelectClick (s : AppState) : AppState :=
  match currentView s with
  | None => s
  | Some cv =>
      let selected :=
        match JS.at_ (menuItems s) (ViewFrame.activeIndex cv) with
        | Some row => invoke (MenuItem.action row) s
        | None => s
        end in
      if JS.startsWith (ViewFrame.id cv) "focus-setting-edit/" then
        match nth_error (JS.split "/" (ViewFrame.id cv)) 1 with
        | Some key =>
            sliceStack 1 (updateFocusSetting key (VNum (ViewFrame.activeIndex cv)) s)
        | None => sliceStack 1 s
        end
      else if String.eqb (ViewFrame.id cv) "bounce-game" then
        match BounceGameState.gameState (bounceGame s) with
        | GameIdle | GameOver => selected
        | _ => s
        end
      else if String.eqb (ViewFrame.id cv) "now-playing" then
        set_nowPlayingMode
          (match nowPlayingMode s with
           | ModeVolume => ModeRating
           | ModeRating => ModeVolume
           end) s
      else if String.eqb (ViewFrame.id cv) "load" then
        (* opens the file picker; [handleFileChange] runs when files are chosen *)
        s
      else if String.eqb (ViewFrame.id cv) "cover-flow"
              && (0 <? JS.len (coverFlowItems s)) then
        match JS.at_ (coverFlowItems s) (ViewFrame.activeIndex cv) with
        | Some it => pushView ("album-songs/" ++ CoverFlowItem.album it) s
        | None => s
        end
      else selected
  end.

(** [menuItems[currentView.activeIndex]?.songId] *)
Definition selectedSongId (s : AppState) : option Z :=
  match currentView s with
  | None => None
  | Some cv =>
      match JS.at_ (menuItems s) (ViewFrame.activeIndex cv) with
      | Some row => MenuItem.songId row
      | None => None
      end
  end.

(** The body of [handleSelectLongPress] once the selected row is read: the
    quick add of [songIdToAdd] to the On-The-Go playlist. *)
Definition quickAdd (songIdToAdd : option Z) (s : AppState) : AppState :=
  match songIdToAdd with
  | None => s
  | Some songIdToAdd =>
      if songIdToAdd =? 0 then s
      else if negb (Browser.dbOk (browser s)) then s
      else
        let pls := Db.playlists (db s) in
        let added (d : Db.t) :=
          snd (setTimeout CbFlashOff (set_isFlashing true (set_db d s))) in
        match JS.find isOtg pls with
        | Some otg =>
            if JS.includesZ (Playlist.songIds otg) songIdToAdd then s
            else
              added
                (set_db_playlists
                   (map (fun p =>
                           if Playlist.id p =? Playlist.id otg
                           then Playlist.set_songIds
                                  (Playlist.songIds otg ++ [songIdToAdd]) p
                           else p) pls) (db s))
        | None => added (db_playlists_add "On-The-Go" [songIdToAdd] (db s))
        end
  end.


(** ** The click wheel's select button *)

(** [handleSelectMouseDown]: the timeout callback holds the
    [onSelectLongPress] of the current render. *)
Definition handleSelectMouseDown (s : AppState) : AppState :=
  let '(id, s1) := setTimeout (CbLongPress (selectedSongId s)) s in
  set_longPressTimer (Some id) s1.

(** [handleSelectMouseUp]: a timer id is truthy unless it is [0]. *)
Definition handleSelectMouseUp (s : AppState) : AppState :=
  match longPressTimer s with
  | Some id =>
      if Nat.eqb id 0 then s
      else handleSelectClick (set_longPressTimer None (clearTimeout id s))
  | None => s
  end.

(** The body of a timeout callback. *)
Definition runCallback (cb : Callback) (s : AppState) : AppState :=
  match cb with
  | CbLongPress songIdToAdd => set_longPressTimer None (quickAdd songIdToAdd s)
  | CbGoBack => sliceStack 1 s
  | CbClearDone =>
      setClearingState false EmptyString
        (set_navigationStack [frame0 "load"] s)
  | CbFlashOff => set_isFlashing false s
  | CbResetStatsDone => sliceStack 2 (calculateTodayStats s)
  | CbTrackLoaded result queue track mode => trackLoadSettle result queue track mode s
  end.

(** The host runs the pending callback [id]: a timeout that expires, a
    promise that has settled; nothing happens for an id that is not pending. *)
Definition fireTimer (id : nat) (s : AppState) : AppState :=
  match List.find (fun t => Nat.eqb (fst t) id) (Browser.timers (browser s)) with
  | Some (_, cb) => runCallback cb (clearTimeout id s)
  | None => s
  end.

(** ** Start-up and import *)

Definition DEFAULT_FOCUS_SETTINGS : FocusSettings.t :=
  {| FocusSettings.workMinutes := 25; FocusSettings.shortBreakMinutes := 5;
     FocusSettings.longBreakMinutes := 15; FocusSettings.longBreakInterval := 4;
     FocusSettings.tickingSound := false; FocusSettings.fullscreenBreak := true;
     FocusSettings.autoStart := true |}.

(** The state [App] starts in: the initial values of its [useState] and
    [useRef] calls, on a given host and database, once the effects of the first
    render have passed the volume and the repeat mode on to the audio
    element. *)
Definition initialState (b : Browser.t) (d : Db.t) : AppState :=
  let game :=
    {| BounceGameState.gameState := GameIdle;
       BounceGameState.score := 0;
       BounceGameState.highScore :=
         match Browser.bounceHighScore b with Some h => h | None => 0 end;
       BounceGameState.paddleAngle := 0%R;
       BounceGameState.ball :=
         {| Ball.x := 0%R; Ball.y := 0%R; Ball.dx := 0%R; Ball.dy := 0%R |};
       BounceGameState.ballSpeed := 0.8%R |} in
  {| songs := [];
     navigationStack := [frame0 "load"];
     isFlashing := false;
     currentTrackId := None;
     playQueue := [];
     shuffleMode := false;
     repeatMode := RepeatOff;
     volume := 75 # 100;
     nowPlayingMode := ModeVolume;
     searchQuery := EmptyString;
     clearingState :=
       {| ClearingState.isClearing := false; ClearingState.message := EmptyString |};
     bounceGame := game;
     focusSettings := None;
     focusState :=
       {| FocusState.isActive := false; FocusState.sessionType := Idle;
          FocusState.timeRemaining := 25 * 60;
          FocusState.workIntervalsInCycle := 0 |};
     todayStats := {| TodayStats.workIntervals := 0; TodayStats.totalTime := 0 |};
     ipodColors :=
       match Browser.ipodColorsItem b with
       | Some (body, wheel) => ipodColorsOf body wheel
       | None => ipodColorsOf DEFAULT_BODY DEFAULT_WHEEL
       end;
     currentObjectUrl := None;
     bounceGameStateRef := game;
     longPressTimer := None;
     playback :=
       {| Playback.audio :=
            {| Audio.src := EmptyString; Audio.currentSrc := EmptyString;
               Audio.paused := true;
               Audio.currentTime := 0; Audio.volume := 75 # 100;
               Audio.loop := false |};
          Playback.lastUrl := None; Playback.isPlaying := false;
          Playback.currentTime := 0; Playback.duration := 0 |};
     db := d;
     browser := b |}.

Definition ensureOnTheGo (d : Db.t) : Db.t :=
  match JS.find isOtg (Db.playlists d) with
  | Some _ => d
  | None => db_playlists_add "On-The-Go" [] d
  end.

(** [initializeApp] *)
Definition initializeApp (s : AppState) : AppState :=
  if Browser.dbOk (browser s) then
    let d1 := ensureOnTheGo (db s) in
    let d2 := match Db.focusSettings d1 with
              | Some _ => d1
              | None => set_db_focusSettings (Some DEFAULT_FOCUS_SETTINGS) d1
              end in
    let settings := match Db.focusSettings d2 with
                    | Some f => f
                    | None => DEFAULT_FOCUS_SETTINGS
                    end in
    let f := focusState s in
    let s1 :=
      set_focusState
        {| FocusState.isActive := FocusState.isActive f;
           FocusState.sessionType := Work;
           FocusState.timeRemaining := FocusSettings.workMinutes settings * 60;
           FocusState.workIntervalsInCycle := FocusState.workIntervalsInCycle f |}
        (set_focusSettings (Some settings) (set_db d2 s)) in
    let s2 := calculateTodayStats s1 in
    if 0 <? JS.len (Db.songs d2)
    then set_navigationStack [frame0 "main"] (set_songs (Db.songs d2) s2)
    else set_navigationStack [frame0 "load"] s2
  else s.

(** A file of the chosen folder once [mmb.parseBlob] has read it. *)
Module ParsedSong.
Record t := {
  fileBlob : Blob;
  title : string;
  artist : string;
  album : string;
  duration : Q;
  artwork : option ArtworkData.t;
  folderName : option string
}.
End ParsedSong.

(** The key that suppresses duplicates on import. *)
Definition songKey (lower : string -> string) (title artist album : string)
  : string :=
  (lower (JS.trim title) ++ "|" ++ lower (JS.trim artist) ++ "|"
     ++ lower (JS.trim album))%string.

Fixpoint uniqZAcc (seen : list Z) (l : list Z) : list Z :=
  match l with
  | [] => []
  | x :: l' =>
      if JS.includesZ seen x then uniqZAcc seen l'
      else x :: uniqZAcc (x :: seen) l'
  end.

(** [db.songs.bulkAdd(songsForDb, { allKeys: true })]: the new table, the keys
    given, the last key. *)
Fixpoint bulkAdd (key : Z) (l : list ParsedSong.t)
  : list Song.t * list Z :=
  match l with
  | [] => ([], [])
  | p :: l' =>
      let '(rows, keys) := bulkAdd (key + 1) l' in
      ({| Song.id := key + 1; Song.fileBlob := Some (ParsedSong.fileBlob p);
          Song.title := ParsedSong.title p; Song.artist := ParsedSong.artist p;
          Song.album := ParsedSong.album p; Song.artwork := ParsedSong.artwork p;
          Song.duration := ParsedSong.duration p; Song.rating := None |} :: rows,
       (key + 1) :: keys)
  end.

(** [folderToSongIds]: the ids of the added songs by folder, folders in
    order of first appearance. *)
Fixpoint folderAdd (folder : string) (id : Z) (m : list (string * list Z))
  : list (string * list Z) :=
  match m with
  | [] => [(folder, [id])]
  | (f, ids) :: m' =>
      if String.eqb f folder then (f, ids ++ [id]) :: m'
      else (f, ids) :: folderAdd folder id m'
  end.

Definition folderToSongIds (l : list (ParsedSong.t * Z)) : list (string * list Z) :=
  fold_left (fun m pi => match ParsedSong.folderName (fst pi) with
                         | Some f => if String.eqb f EmptyString then m
                                     else folderAdd f (snd pi) m
                         | None => m
                         end) l [].

Definition addFolderPlaylist (d : Db.t) (entry : string * list Z) : Db.t :=
  let '(folderName, newSongIds) := entry in
  match JS.find (fun p => String.eqb (Playlist.name p) folderName) (Db.playlists d) with
  | Some existing =>
      set_db_playlists
        (map (fun p => if Playlist.id p =? Playlist.id existing
                       then Playlist.set_songIds
                              (uniqZAcc [] (Playlist.songIds existing ++ newSongIds)) p
                       else p) (Db.playlists d)) d
  | None => db_playlists_add folderName newSongIds d
  end.

(** [handleFileChange], given for each chosen file what parsing it gave:
    [None] for a file that is not a supported audio file or fails to parse. *)
Definition handleFileChange (files : list (option ParsedSong.t)) (s : AppState)
  : AppState :=
  match files with
  | [] => s
  | _ =>
      if Browser.dbOk (browser s) then
        let parsedSongs := catOptions files in
        let lower := Browser.toLowerCase (browser s) in
        let existingSongKeys :=
          map (fun x => songKey lower (Song.title x) (Song.artist x) (Song.album x))
            (Db.songs (db s)) in
        let songsToAdd :=
          filter (fun p => negb (existsb
                                   (String.eqb (songKey lower (ParsedSong.title p)
                                                  (ParsedSong.artist p)
                                                  (ParsedSong.album p)))
                                   existingSongKeys)) parsedSongs in
        let d1 :=
          match songsToAdd with
          | [] => db s
          | _ =>
              let '(rows, keys) := bulkAdd (Db.songsKey (db s)) songsToAdd in
              let d := set_db_songsKey (Db.songsKey (db s) + JS.len songsToAdd)
                         (set_db_songs (Db.songs (db s) ++ rows) (db s)) in
              fold_left addFolderPlaylist
                (folderToSongIds (combine songsToAdd keys)) d
          end in
        let d2 := ensureOnTheGo d1 in
        set_navigationStack [frame0 "main"] (set_songs (Db.songs d2) (set_db d2 s))
      else s
  end.

(** ** Events *)

Inductive Event :=
| AppStarts
| FilesChosen (files : list (option ParsedSong.t))
| Scroll (direction : Z)
| MenuClick
| PlayPauseClick
| NextClick
| PrevClick
| SelectDown
| SelectUp
| TimerFires (id : nat)
| FocusSecond
| AnimationFrame
| TrackEffect        (* the loader runs and its read settles before the next event *)
| TrackLoadStarts    (* the loader runs; its read settles later ([TimerFires]) *)
| AudioTime (t : Q)
| AudioMetadata (d : Q)
| AudioEnded
| MediaSessionPlay
| MediaSessionPause.

(** One event, handled by the rendered component. *)
Definition step (s : AppState) (e : Event) : AppState :=
  let r := render s in
  match e with
  | AppStarts => initializeApp r
  | FilesChosen files => handleFileChange files r
  | Scroll d => handleScroll d r
  | MenuClick => handleMenuClick r
  | PlayPauseClick => handlePlayPause r
  | NextClick => handleNext r
  | PrevClick => handlePrev r
  | SelectDown => handleSelectMouseDown r
  | SelectUp => handleSelectMouseUp r
  | TimerFires id => fireTimer id r
  | FocusSecond => focusTick r
  | AnimationFrame => gameLoop r
  | TrackEffect => trackLoadEffect r
  | TrackLoadStarts => trackLoadBegin r
  | AudioTime t =>
      set_playback
        (handleTimeUpdate
           (set_audio (audio_set_currentTime t (Playback.audio (playback r)))
              (playback r))) r
  | AudioMetadata d => set_playback (handleLoadedMetadata d (playback r)) r
  | AudioEnded => handleNext r
  | MediaSessionPlay => handleMediaSessionPlay r
  | MediaSessionPause => pause r
  end.

Definition run (s : AppState) (es : list Event) : AppState :=
  fold_left step es s.

(** ** A host and a library for the examples *)

Definition asciiLower (s : string) : string :=
  string_of_list_ascii
    (map (fun c => let n := nat_of_ascii c in
                   if (65 <=? n)%nat && (n <=? 90)%nat then ascii_of_nat (n + 32) else c)
       (list_ascii_of_string s)).

(** A host whose random numbers are all [1/2], whose collation is the byte
    order, whose days start at multiples of 86400000 ms, and on which storage
    and media playback succeed. *)
Definition demoBrowser : Browser.t :=
  {| Browser.random := fun _ => 1 # 2;
     Browser.randomPos := 0;
     Browser.now := 0;
     Browser.startOfToday := fun t => t - t mod 86400000;
     Browser.localeCompare := JS.defaultCompare;
     Browser.toLowerCase := asciiLower;
     Browser.dbOk := true;
     Browser.mediaOk := true;
     Browser.timers := [];
     Browser.nextTimerId := 1;
     Browser.bounceHighScore := None;
     Browser.ipodColorsItem := None |}.

Definition emptyDb : Db.t :=
  {| Db.songs := []; Db.playlists := []; Db.focusSessions := [];
     Db.focusSettings := None; Db.songsKey := 0; Db.playlistsKey := 0 |}.

Definition demoSong (id : Z) (title : string) : Song.t :=
  {| Song.id := id; Song.fileBlob := Some title; Song.title := title;
     Song.artist := "Artist"; Song.album := "Album"; Song.artwork := None;
     Song.duration := 180; Song.rating := None |}.

(** ** States and predicates used in the statements below *)

(** A library of two songs stored out of title order. *)
Definition demoLibrary : Db.t :=
  {| Db.songs := [demoSong 1 "B"; demoSong 2 "A"]; Db.playlists := [];
     Db.focusSessions := []; Db.focusSettings := None;
     Db.songsKey := 2; Db.playlistsKey := 0 |}.

(** A short press of the select button. *)
Definition press : list Event := [SelectDown; SelectUp].

(** The application started on [demoLibrary]; Music > Songs is opened and the
    first song is played up to second 42; two presses of the menu button lead
    back to the main menu. *)
Definition playingAtMain : AppState :=
  run (initialState demoBrowser demoLibrary)
    ([AppStarts; Scroll 1] ++ press ++ [Scroll 1] ++ press ++ press
       ++ [TrackEffect; AudioMetadata 180; AudioTime 42; MenuClick; MenuClick]).

(** The transport is paused and nothing of the playback is lost: track,
    queue and position are those of [s]. *)
Definition pausedKeeping (s s' : AppState) : Prop :=
  isPlaying s' = false /\
  currentTrackId s' = currentTrackId s /\
  playQueue s' = playQueue s /\
  currentTime s' = currentTime s.

(** The transport is stopped: track and queue are those of [s], time and
    duration are reset and the media source is detached. *)
Definition stoppedKeepingQueue (s s' : AppState) : Prop :=
  isPlaying s' = false /\
  currentTrackId s' = currentTrackId s /\
  playQueue s' = playQueue s /\
  currentTime s' = 0%Q /\
  duration s' = 0%Q /\
  Audio.src (Playback.audio (playback s')) = EmptyString /\
  Playback.lastUrl (playback s') = Playback.lastUrl (playback s).

(** The action of row [i] of the current menu. *)
Definition actionAt (s : AppState) (i : Z) : option Action :=
  option_map MenuItem.action (JS.at_ (menuItems s) i).

(** The application started on [demoLibrary], Music > Songs just opened: the
    state the Songs list is computed from. *)
Definition songsJustOpened : AppState :=
  run (initialState demoBrowser demoLibrary)
    ([AppStarts; Scroll 1] ++ press ++ [Scroll 1] ++ press).

(** The track [id] does not resolve to playable media: the read fails, the
    record is missing, or the record has no media blob. *)
Definition unresolvable (s : AppState) (id : Z) : Prop :=
  db_songs_get id s = None \/
  db_songs_get id s = Some None \/
  exists song, db_songs_get id s = Some (Some song) /\ Song.fileBlob song = None.

(** The loader treats the current track as ended: it does what [handleNext]
    does. *)
Definition loaderSkips (s : AppState) : Prop :=
  trackLoadEffect s = handleNext (set_currentObjectUrl None s).

(** A library whose first record has lost its media blob. *)
Definition bloblessLibrary : Db.t :=
  {| Db.songs :=
       [ {| Song.id := 1; Song.fileBlob := None; Song.title := "A";
            Song.artist := "Artist"; Song.album := "Album"; Song.artwork := None;
            Song.duration := 180; Song.rating := None |};
         demoSong 2 "B" ];
     Db.playlists := []; Db.focusSessions := []; Db.focusSettings := None;
     Db.songsKey := 2; Db.playlistsKey := 0 |}.

(** The application started on [bloblessLibrary], Music > Songs opened and the
    first song selected. *)
Definition bloblessSelected : AppState :=
  run (initialState demoBrowser bloblessLibrary)
    ([AppStarts; Scroll 1] ++ press ++ [Scroll 1] ++ press ++ press).

(** [playingAtMain] with a queue whose current entry, 7, is in no table. *)
Definition missingRecord : AppState :=
  set_currentTrackId (Some 7) (set_playQueue [7; 2] playingAtMain).

(** Start-up on an empty database, then a folder without any supported audio
    file is chosen: the main menu opens on an empty library. *)
Definition importNothing : list Event := [AppStarts; FilesChosen [None]].

(** From the main menu: Settings > Library Management > Clear Library. *)
Definition openClearLibrary : list Event :=
  [Scroll (-1)] ++ press ++ [Scroll 1; Scroll 1; Scroll 1] ++ press
    ++ [Scroll 1] ++ press.

(** The state in which "Library is already empty." is on screen and the
    timeout that goes back is pending. *)
Definition clearingEmptyLibrary : AppState :=
  run (initialState demoBrowser emptyDb) (importNothing ++ openClearLibrary).

(** A state with shuffle switched on. *)
Definition shuffleOn : AppState :=
  set_shuffleMode true (initialState demoBrowser demoLibrary).

(** A queue in which track 2 occurs twice; track 3, the current one, is at
    position 2 of 4. *)
Definition repeatedInQueue : AppState :=
  set_currentTrackId (Some 3)
    (set_playQueue [1; 2; 3; 2] (initialState demoBrowser demoLibrary)).

(** A queue without repetition; track 3 is current, at position 2 of 4. *)
Definition midQueue : AppState :=
  set_currentTrackId (Some 3)
    (set_playQueue [1; 2; 3; 4] (initialState demoBrowser demoLibrary)).

(** [s'] is a state in which the transport is where [s] has it (same queue,
    current track and repeat mode); the position of the playback is free. *)
Definition sameTransport (s s' : AppState) : Prop :=
  playQueue s' = playQueue s /\
  currentTrackId s' = currentTrackId s /\
  repeatMode s' = repeatMode s.

(** The session type and the count of work intervals in the cycle. *)
Definition phaseOf (s : AppState) : SessionType * Z :=
  (FocusState.sessionType (focusState s),
   FocusState.workIntervalsInCycle (focusState s)).

(** [f'] is the session that follows the completed session [f]: after work, a
    short break while the count stays below the interval and otherwise a long
    break with the count back at 0; after a break, work. *)
Definition advances (fs : FocusSettings.t) (f f' : FocusState.t) : Prop :=
  let c := FocusState.workIntervalsInCycle f in
  match FocusState.sessionType f with
  | Work =>
      if c + 1 <? FocusSettings.longBreakInterval fs
      then FocusState.sessionType f' = ShortBreak /\
           FocusState.workIntervalsInCycle f' = c + 1
      else FocusState.sessionType f' = LongBreak /\
           FocusState.workIntervalsInCycle f' = 0
  | _ => FocusState.sessionType f' = Work /\
         FocusState.workIntervalsInCycle f' = c
  end.

(** [n] sessions in a row run to their end. *)
Definition sessionsEnd (n : nat) (s : AppState) : AppState :=
  Nat.iter n handleSessionEnd s.

(** The application started on [demoLibrary]: the default settings (a long break
    every 4 work intervals) and a work session of 25 minutes, not yet
    started. *)
Definition focusReady : AppState :=
  run (initialState demoBrowser demoLibrary) [AppStarts].

(** The last second of the fourth work session of a cycle. *)
Definition lastSecondOfCycle : AppState :=
  set_focusState
    {| FocusState.isActive := true; FocusState.sessionType := Work;
       FocusState.timeRemaining := 1; FocusState.workIntervalsInCycle := 3 |}
    focusReady.

(** [s] on a host whose storage rejects every call. *)
Definition storageFails (s : AppState) : AppState :=
  let b := browser s in
  set_browser
    {| Browser.random := Browser.random b; Browser.randomPos := Browser.randomPos b;
       Browser.now := Browser.now b; Browser.startOfToday := Browser.startOfToday b;
       Browser.localeCompare := Browser.localeCompare b;
       Browser.toLowerCase := Browser.toLowerCase b;
       Browser.dbOk := false; Browser.mediaOk := Browser.mediaOk b;
       Browser.timers := Browser.timers b;
       Browser.nextTimerId := Browser.nextTimerId b;
       Browser.bounceHighScore := Browser.bounceHighScore b;
       Browser.ipodColorsItem := Browser.ipodColorsItem b |} s.

(** The last second of the fourth work session of a cycle, with storage
    failing since start-up. *)
Definition lastSecondWriteFails : AppState := storageFails lastSecondOfCycle.

(** The settings edited in a [focus-setting-edit/] view. *)
Definition editKeys : list string :=
  ["workMinutes"; "shortBreakMinutes"; "longBreakMinutes"; "longBreakInterval"]%string.

Definition editFrame (key : string) (value : Z) : ViewFrame.t :=
  {| ViewFrame.id := "focus-setting-edit/" ++ key; ViewFrame.activeIndex := value |}.

(** The range of a setting: 1..10 for the interval, 1..90 for the minutes. *)
Definition inRange (key : string) (v : Z) : Prop :=
  if String.eqb key "longBreakInterval" then 1 <= v <= 10 else 1 <= v <= 90.

(** The value the scroll handler keeps for a setting. *)
Definition clampFor (key : string) (v : Z) : Z :=
  if String.eqb key "longBreakInterval" then JS.clampZ 1 10 v else JS.clampZ 1 90 v.

(** The stored value of a numeric setting. *)
Definition settingOf (key : string) (fs : FocusSettings.t) : Z :=
  if String.eqb key "workMinutes" then FocusSettings.workMinutes fs
  else if String.eqb key "shortBreakMinutes" then FocusSettings.shortBreakMinutes fs
  else if String.eqb key "longBreakMinutes" then FocusSettings.longBreakMinutes fs
  else FocusSettings.longBreakInterval fs.

(** A sequence of scroll inputs. *)
Definition scrolls (ds : list Z) (s : AppState) : AppState :=
  fold_left (fun st d => handleScroll d st) ds s.

(** The application started on [demoLibrary]; Focus > Settings > Intervals is
    opened: the edit view of the interval, entered with the stored value 4. *)
Definition editingInterval : AppState :=
  run focusReady
    ([Scroll 1; Scroll 1; Scroll 1] ++ press ++ [Scroll 1; Scroll 1; Scroll 1]
       ++ press ++ [Scroll 1; Scroll 1; Scroll 1] ++ press).

(** The host's timer ids are positive, and the pending ones were handed out
    before the next one. *)
Definition timersFresh (s : AppState) : Prop :=
  Browser.nextTimerId (browser s) <> 0%nat /\
  Forall (fun t => (fst t < Browser.nextTimerId (browser s))%nat)
    (Browser.timers (browser s)).



(** The application started on [demoLibrary] with Music > Songs open: the
    selected row carries a song. *)
Definition onSongRow : AppState := render songsJustOpened.

(** What a frame of the game may do to the game state [g] held by the ref,
    [g'] being the state after the frame and [moved] the ball once its position
    is integrated. *)
Definition movedBall (g : BounceGameState.t) : Ball.t :=
  Bounce.integrate (BounceGameState.ball g) (BounceGameState.ballSpeed g).

(** No boundary event: the ball stays within the arena radius and only the
    ball changes. *)
Definition insideTick (g g' : BounceGameState.t) : Prop :=
  (Bounce.distFromCenter (movedBall g) <= Bounce.ARENA_RADIUS)%R /\
  BounceGameState.ball g' = movedBall g /\
  BounceGameState.score g' = BounceGameState.score g /\
  BounceGameState.ballSpeed g' = BounceGameState.ballSpeed g /\
  BounceGameState.gameState g' = GamePlaying.

(** The angle [a] lies within the paddle's arc: the arc is centred at
    [paddleAngle] and spans [PADDLE_ARC_ANGLE] degrees, half of it to either
    side; angles are degrees taken modulo a full turn. *)
Definition withinPaddleArc (paddleAngle a : R) : Prop :=
  exists k : Z,
    (Rabs (a - paddleAngle + 360 * IZR k) <= Bounce.PADDLE_ARC_ANGLE / 2)%R.

(** [a] is the bearing of the ball from the center of the arena, in degrees:
    0 straight up (towards negative [y], the top of the screen), growing
    clockwise, below 360. *)
Definition bearing (b : Ball.t) (a : R) : Prop :=
  (0 <= a < 360)%R /\
  (Ball.x b = Bounce.distFromCenter b * sin (a * (PI / 180)))%R /\
  (Ball.y b = - (Bounce.distFromCenter b * cos (a * (PI / 180))))%R.

(** The paddle angle is kept in [[0, 360)]. *)
Definition paddleNormal (g : BounceGameState.t) : Prop :=
  (0 <= BounceGameState.paddleAngle g < 360)%R.

(** The paddle angle is in that range in the game state React holds and in
    the one held by the ref. *)
Definition paddlesNormal (s : AppState) : Prop :=
  paddleNormal (bounceGame s) /\ paddleNormal (bounceGameStateRef s).

(** The paddle angles of [s'] are paddle angles of [s]. *)
Definition paddlesFrom (s s' : AppState) : Prop :=
  let pa := BounceGameState.paddleAngle in
  (pa (bounceGame s') = pa (bounceGame s)
   \/ pa (bounceGame s') = pa (bounceGameStateRef s)) /\
  (pa (bounceGameStateRef s') = pa (bounceGame s)
   \/ pa (bounceGameStateRef s') = pa (bounceGameStateRef s)).

(** The scroll inputs among the events are single steps of the wheel. *)
Definition wheelSteps (es : list Event) : Prop :=
  forall d, In (Scroll d) es -> d = 1 \/ d = -1.

(** A hit: the ball crossed the boundary at a bearing within the paddle's
    arc; one point, the speed multiplied by 1.03 and capped at 2.5, the ball put
    back just inside the boundary, the game still playing. *)
Definition hitTick (g g' : BounceGameState.t) : Prop :=
  (Bounce.ARENA_RADIUS < Bounce.distFromCenter (movedBall g))%R /\
  (exists a, bearing (movedBall g) a /\
             withinPaddleArc (BounceGameState.paddleAngle g) a) /\
  BounceGameState.score g' = BounceGameState.score g + 1 /\
  BounceGameState.ballSpeed g' = Rmin 2.5 (BounceGameState.ballSpeed g * 1.03) /\
  Bounce.distFromCenter (BounceGameState.ball g') = (Bounce.ARENA_RADIUS - 0.1)%R /\
  (Bounce.distFromCenter (BounceGameState.ball g') < Bounce.ARENA_RADIUS)%R /\
  BounceGameState.gameState g' = GamePlaying.

(** A miss: the ball crossed the boundary at a bearing outside the paddle's
    arc; the game is over, score and speed are as they were. *)
Definition missTick (g g' : BounceGameState.t) : Prop :=
  (Bounce.ARENA_RADIUS < Bounce.distFromCenter (movedBall g))%R /\
  (exists a, bearing (movedBall g) a /\
             ~ withinPaddleArc (BounceGameState.paddleAngle g) a) /\
  BounceGameState.gameState g' = GameOver /\
  BounceGameState.score g' = BounceGameState.score g /\
  BounceGameState.ballSpeed g' = BounceGameState.ballSpeed g /\
  BounceGameState.highScore g'
  = Z.max (BounceGameState.highScore g) (BounceGameState.score g).

(** The application started on [demoLibrary]; Bounce is opened from the main
    menu and the game started. *)
Definition bounceStarted : AppState :=
  run focusReady ([Scroll 1; Scroll 1; Scroll 1; Scroll 1] ++ press ++ press).

(** Bounce with the paddle centred at 0 degrees (the top of the arena) and the
    ball half a unit inside the boundary, straight above the center and moving
    up. *)
Definition ballAtTop (paddleAngle : R) : BounceGameState.t :=
  {| BounceGameState.gameState := GamePlaying;
     BounceGameState.score := 0;
     BounceGameState.highScore := 0;
     BounceGameState.paddleAngle := paddleAngle;
     BounceGameState.ball :=
       {| Ball.x := 0%R; Ball.y := (-47)%R; Ball.dx := 0%R; Ball.dy := (-1)%R |};
     BounceGameState.ballSpeed := 0.8%R |}.

(** The game view with [ballAtTop 0] in the ref. *)
Definition aboutToHit : AppState :=
  set_bounceGameStateRef (ballAtTop 0) bounceStarted.

(** The same with the paddle at the bottom of the arena. *)
Definition aboutToLose : AppState :=
  set_bounceGameStateRef (ballAtTop 180) bounceStarted.

(** Two ways to the list of the album "Album" of [demoLibrary]: straight
    through Music > Albums, and the same after a visit to Music > Songs. *)
Definition albumDirectly : AppState :=
  run (initialState demoBrowser demoLibrary)
    ([AppStarts; Scroll 1] ++ press ++ [Scroll 1; Scroll 1; Scroll 1] ++ press ++ press).

Definition albumAfterSongs : AppState :=
  run (initialState demoBrowser demoLibrary)
    ([AppStarts; Scroll 1] ++ press ++ [Scroll 1] ++ press ++ [MenuClick]
       ++ [Scroll 1; Scroll 1] ++ press ++ press).

(** The least position of the stack at which the menus put a frame: the
    focus settings open from the Focus view, the reset confirmation and the edit
    views from the focus settings. *)
Definition minDepth (id : string) : nat :=
  if JS.startsWith id "focus-setting-edit/" then 2
  else if String.eqb id "focus-reset-confirm" then 2
  else if String.eqb id "focus-settings" then 1
  else 0.

(** Every frame of the stack is at a position the menus can have put it. *)
Definition placed (st : list ViewFrame.t) : Prop :=
  forall i f, nth_error st i = Some f -> (minDepth (ViewFrame.id f) <= i)%nat.

(** The stack has a frame, and its frames are where the menus put them. *)
Definition navOk (s : AppState) : Prop :=
  navigationStack s <> [] /\ placed (navigationStack s).

(** The callback the host runs when it fires timeout [id]. *)
Definition pendingCallback (s : AppState) (id : nat) : option Callback :=
  option_map snd
    (List.find (fun t => Nat.eqb (fst t) id) (Browser.timers (browser s))).

(** The event is not one of the two pops that run later and without a guard:
    the go-back timeout of [handleClearLibrary] and the end of the reset of the
    focus statistics. *)
Definition notDelayedPop (s : AppState) (e : Event) : Prop :=
  forall id, e = TimerFires id ->
             (pendingCallback s id <> Some CbGoBack) /\
             (pendingCallback s id <> Some CbResetStatsDone).

(** What a row may do to a stack of [depth] frames and keep it in order:
    a push puts the frame where it may be; the reset of the statistics is
    offered where its two-frame pop, were it to run at once, would leave a
    frame. *)
Definition rowOk (depth : nat) (a : Action) : Prop :=
  match a with
  | APush f => (minDepth (ViewFrame.id f) <= depth)%nat
  | AResetStats => (3 <= depth)%nat
  | _ => True
  end.

(** ** Helpers and the click wheel of [App.tsx] *)

From Stdlib Require Qabs DecimalPos Sorted Lqa.

(** [s.padStart(2, '0')] *)
Definition padStart2 (s : string) : string :=
  (JS.repeatString "0" (2 - String.length s) ++ s)%string.

(** A JavaScript number: [NaN], an infinity, or a finite number, held
    exactly. *)
Inductive Num := NaN | PosInf | NegInf | Fin (q : Q).

(** What [Math.floor] returns: [NaN], an infinity ([neg] for the negative
    one), or an integer. *)
Inductive Floored := FNaN | FInf (neg : bool) | FInt (z : Z).

(** [Math.floor(x)] *)
Definition mathFloor (x : Num) : Floored :=
  match x with
  | NaN => FNaN
  | PosInf => FInf false
  | NegInf => FInf true
  | Fin q => FInt (Qfloor q)
  end.

(** [Math.floor(x / d)] for a floored, non-negative [x] and a positive
    integer [d]: an infinity stays one. *)
Definition floorDiv (x : Floored) (d : Z) : Floored :=
  match x with
  | FInt z => FInt (z / d)
  | other => other
  end.

(** [x % d]: the remainder of an infinity is [NaN]. *)
Definition remainder (x : Floored) (d : Z) : Floored :=
  match x with
  | FInt z => FInt (Z.rem z d)
  | _ => FNaN
  end.

(** [`${x}`] and [x.toString()] *)
Definition flooredToString (x : Floored) : string :=
  match x with
  | FNaN => "NaN"%string
  | FInf false => "Infinity"%string
  | FInf true => "-Infinity"%string
  | FInt z => JS.numToString z
  end.

(** [Number.MAX_SAFE_INTEGER]: up to it the integers are numbers of
    JavaScript, [x / 60] rounds to a number with the same floor, and an integer
    is printed by its decimal digits. *)
Definition MAX_SAFE_INTEGER : Z := 2 ^ 53 - 1.

(** [formatTime(timeInSeconds)].  [None] for a time beyond
    [MAX_SAFE_INTEGER] seconds, where the result depends on the rounding of the
    division and on the exponent form of the minutes, which the model does not
    have. *)
Definition formatTime (timeInSeconds : Num) : option string :=
  let totalSeconds := mathFloor timeInSeconds in
  let negative := match totalSeconds with
                  | FInf neg => neg
                  | FInt z => z <? 0
                  | FNaN => false
                  end in
  match totalSeconds with
  | FNaN => Some "0:00"%string
  | _ =>
      if negative then Some "0:00"%string
      else
        let minutes := floorDiv totalSeconds 60 in
        let seconds := remainder totalSeconds 60 in
        let text := (flooredToString minutes ++ ":"
                       ++ padStart2 (flooredToString seconds))%string in
        match totalSeconds with
        | FInt z => if MAX_SAFE_INTEGER <? z then None else Some text
        | _ => Some text
        end
  end.

(** [clickWheelIsPlaying]: what the play/pause button of the wheel shows.
    [None] on an empty stack, where [currentView.id] throws. *)
Definition clickWheelIsPlaying (s : AppState) : option bool :=
  match currentView s with
  | None => None
  | Some cv =>
      if JS.startsWith (ViewFrame.id cv) "focus"
      then Some (FocusState.isActive (focusState s))
      else if String.eqb (ViewFrame.id cv) "bounce-game"
      then Some (phase_eqb (BounceGameState.gameState (bounceGame s)) GamePlaying)
      else Some (isPlaying s)
  end.

(** The rotation tracking of [ClickWheel]: the local variables of its effect
    and the three listeners.  An angle is what [calculateAngle] returns for the
    pointer, in degrees. *)
Module Wheel.

Record t := { isDragging : bool; lastAngle : Q; accumulatedAngle : Q }.

Definition scrollThreshold : Q := 10.

(** The variables when the effect has run. *)
Definition initial : t :=
  {| isDragging := false; lastAngle := 0%Q; accumulatedAngle := 0%Q |}.

(** [handleInteractionStart], for a press that is not on a button. *)
Definition handleInteractionStart (angle : Q) (w : t) : t :=
  {| isDragging := true; lastAngle := angle; accumulatedAngle := 0%Q |}.

(** [handleInteractionEnd] *)
Definition handleInteractionEnd (w : t) : t :=
  {| isDragging := false; lastAngle := lastAngle w;
     accumulatedAngle := accumulatedAngle w |}.

(** [currentAngle - lastAngle], brought back by a full turn when it is
    beyond half a turn. *)
Definition delta (lastAngle currentAngle : Q) : Q :=
  let d0 := (currentAngle - lastAngle)%Q in
  let d1 := if JS.Qgtb d0 180 then (d0 - 360)%Q else d0 in
  if JS.Qgtb (-180) d1 then (d1 + 360)%Q else d1.

(** [Math.sign] *)
Definition sign (q : Q) : Z := Z.sgn (Qnum q).

(** [handleInteractionMove]: the variables after the move, and the direction
    handed to [onScroll] when the threshold is reached. *)
Definition handleInteractionMove (currentAngle : Q) (w : t) : t * option Z :=
  if negb (isDragging w) then (w, None)
  else
    let acc := (accumulatedAngle w + delta (lastAngle w) currentAngle)%Q in
    if Qle_bool scrollThreshold (Qabs.Qabs acc) then
      let direction := sign acc in
      ({| isDragging := true; lastAngle := currentAngle;
          accumulatedAngle := (acc - scrollThreshold * inject_Z direction)%Q |},
       Some direction)
    else
      ({| isDragging := true; lastAngle := currentAngle; accumulatedAngle := acc |},
       None).

(** The moves of one drag, in order: the variables at the end and the
    directions handed to [onScroll]. *)
Fixpoint moves (angles : list Q) (w : t) : t * list Z :=
  match angles with
  | [] => (w, [])
  | a :: rest =>
      let '(w1, d) := handleInteractionMove a w in
      let '(w2, ds) := moves rest w1 in
      (w2, match d with Some x => x :: ds | None => ds end)
  end.

End Wheel.

(** ** Predicates and states used in the further properties *)

(** The characters of a decimal numeral. *)
Definition allDigits (s : string) : Prop :=
  Forall (fun c => JS.isDigit c = true) (list_ascii_of_string s).

(** The text of a view parameter up to its first slash. *)
Definition beforeSlash (param : string) : string :=
  hd EmptyString (JS.split "/" param).

(** The application started on [demoLibrary] with Playlists open: the list
    holds the On-The-Go playlist that start-up has created. *)
Definition playlistsOpened : AppState :=
  run (initialState demoBrowser demoLibrary)
    ([AppStarts; Scroll 1; Scroll 1] ++ press).

(** The On-The-Go playlist of [playlistsOpened]. *)
Definition emptyOnTheGo : Playlist.t :=
  {| Playlist.id := 1; Playlist.name := "On-The-Go"; Playlist.songIds := [] |}.

(** The application started on [demoLibrary] with Music > Albums > Album
    open. *)
Definition albumOpened : AppState := albumDirectly.

(** The stored songs: no key twice, every key handed out by the key generator
    of the table, every record with its media. *)
Definition songsOk (key : Z) (l : list Song.t) : Prop :=
  NoDup (map Song.id l) /\
  Forall (fun x => Song.id x <= key) l /\
  Forall (fun x => Song.fileBlob x <> None) l.

(** The stored playlists: no key and no name twice, every key handed out by
    the key generator of the table, no song twice in a playlist. *)
Definition playlistsOk (key : Z) (pls : list Playlist.t) : Prop :=
  NoDup (map Playlist.id pls) /\
  Forall (fun p => Playlist.id p <= key) pls /\
  NoDup (map Playlist.name pls) /\
  Forall (fun p => NoDup (Playlist.songIds p)) pls.

Definition storeOk (d : Db.t) : Prop :=
  songsOk (Db.songsKey d) (Db.songs d) /\
  playlistsOk (Db.playlistsKey d) (Db.playlists d).

(** The database is in order and the songs held in React state have distinct
    ids. *)
Definition libraryOk (s : AppState) : Prop :=
  storeOk (db s) /\ NoDup (map Song.id (songs s)).

(** The key under which an import compares a parsed file with the stored
    songs. *)
Definition parsedKey (s : AppState) (p : ParsedSong.t) : string :=
  songKey (Browser.toLowerCase (browser s)) (ParsedSong.title p)
    (ParsedSong.artist p) (ParsedSong.album p).

Definition storedKey (s : AppState) (x : Song.t) : string :=
  songKey (Browser.toLowerCase (browser s)) (Song.title x) (Song.artist x)
    (Song.album x).

(** The parsed files an import stores: those whose key no stored song has. *)
Definition songsToAdd (s : AppState) (files : list (option ParsedSong.t))
  : list ParsedSong.t :=
  filter (fun p => negb (existsb (String.eqb (parsedKey s p))
                           (map (storedKey s) (Db.songs (db s)))))
    (catOptions files).

(** [s'] holds the songs, the playlists and the keys of [s]. *)
Definition sameLibrary (s s' : AppState) : Prop :=
  Db.songs (db s') = Db.songs (db s) /\
  Db.playlists (db s') = Db.playlists (db s) /\
  Db.songsKey (db s') = Db.songsKey (db s) /\
  Db.playlistsKey (db s') = Db.playlistsKey (db s) /\
  songs s' = songs s.

(** The current track, when there is one, is an entry of the queue. *)
Definition trackInQueue (s : AppState) : Prop :=
  match currentTrackId s with
  | Some id => In id (playQueue s)
  | None => True
  end.

(** A track load that settles at event [e] finds the queue it closed over
    still in place. *)
Definition loadInTime (s : AppState) (e : Event) : Prop :=
  forall id result queue track mode,
    e = TimerFires id ->
    pendingCallback s id = Some (CbTrackLoaded result queue track mode) ->
    queue = playQueue s.

(** Every track load that settles among the events [es], handled in turn
    from [s], finds the queue it closed over still in place. *)
Fixpoint loadsInTime (s : AppState) (es : list Event) : Prop :=
  match es with
  | [] => True
  | e :: rest => loadInTime s e /\ loadsInTime (step s e) rest
  end.

(** From [missingRecord], at the main menu: the loader starts on track 7,
    whose record is in no table; Settings > Library Management > Clear Library
    is chosen; then the read of the loader settles. *)
Definition loadSettlesAfterClear : list Event :=
  [TrackLoadStarts; Scroll 1; Scroll 1; Scroll 1; Scroll 1] ++ press
    ++ [Scroll 1; Scroll 1; Scroll 1] ++ press ++ [Scroll 1] ++ press
    ++ [TimerFires 4].

(** The application started on [demoLibrary]; the first song is put on the
    On-The-Go playlist by a long press and played; Clear Library is selected in
    Settings > Library Management. *)
Definition aboutToClear : AppState :=
  render
    (run (quickAdd (Some 2) onSongRow)
       (press ++ [TrackEffect; MenuClick; MenuClick; MenuClick; Scroll (-1)]
          ++ press ++ [Scroll 1; Scroll 1; Scroll 1] ++ press ++ [Scroll 1])).

(** The audio element has selected the last url the hook was given, which is
    not empty. *)
Definition knowsLastUrl (s : AppState) : Prop :=
  match Playback.lastUrl (playback s) with
  | Some u => Audio.currentSrc (Playback.audio (playback s)) = u /\ u <> EmptyString
  | None => True
  end.

(** [midQueue] with repeat set to all. *)
Definition midQueueRepeating : AppState := set_repeatMode RepeatAll midQueue.

(** The position of the current track in the queue, [0] when there is
    none. *)
Definition queuePosition (s : AppState) : nat :=
  match currentTrackId s with
  | Some cur => Z.to_nat (JS.indexOf (playQueue s) cur)
  | None => 0
  end.

(** The view scrolls through a list: it is no edit view of a focus setting,
    no running game and no now-playing view that shows a song. *)
Definition scrollsAList (s : AppState) (cv : ViewFrame.t) : bool :=
  negb (JS.startsWith (ViewFrame.id cv) "focus-setting-edit/")
  && negb (String.eqb (ViewFrame.id cv) "bounce-game"
           && phase_eqb (BounceGameState.gameState (bounceGameStateRef s)) GamePlaying)
  && negb (String.eqb (ViewFrame.id cv) "now-playing"
           && match currentSong s with Some _ => true | None => false end).

(** The length of the list a view scrolls through: the albums of the cover
    flow, the rows of the menu elsewhere. *)
Definition listLength (s : AppState) (cv : ViewFrame.t) : Z :=
  if String.eqb (ViewFrame.id cv) "cover-flow"
  then JS.len (coverFlowItems s) else JS.len (menuItems s).

(** The now-playing view shows a song (with an id other than [0]) in the
    given mode. *)
Definition nowPlayingIn (mode : NowPlayingMode) (s : AppState) : Prop :=
  viewIs s "now-playing" = true /\
  (exists song, currentSong s = Some song /\ Song.id song <> 0) /\
  nowPlayingMode s = mode.

(** The application started on [demoLibrary]; the first song of Music >
    Songs is played and Now Playing is opened from the main menu. *)
Definition nowPlayingOpened : AppState :=
  render (run playingAtMain ([Scroll (-1)] ++ press)).

(** The same with the select button pressed once more: the view is in rating
    mode. *)
Definition ratingOpened : AppState := render (run nowPlayingOpened press).

(** [n] steps of the wheel in the same direction. *)
Definition steps (d : Z) (n : nat) : list Z := repeat d n.

(** [ballAtTop 180] with three points scored against a best score of two:
    the ball is about to leave the arena opposite the paddle. *)
Definition beatingTheBest : BounceGameState.t :=
  {| BounceGameState.gameState := GamePlaying;
     BounceGameState.score := 3;
     BounceGameState.highScore := 2;
     BounceGameState.paddleAngle := 180%R;
     BounceGameState.ball := BounceGameState.ball (ballAtTop 180);
     BounceGameState.ballSpeed := 0.8%R |}.

(** The game view with [beatingTheBest] in the ref. *)
Definition aboutToMiss : AppState :=
  set_bounceGameStateRef beatingTheBest bounceStarted.

(** [focusReady] with the work session started. *)
Definition focusStarted : AppState := handleFocusPlayPause focusReady.

(** The rotation of a drag that starts at angle [last] and moves through
    [angles]: the sum of the steps between consecutive angles. *)
Fixpoint rotation (last : Q) (angles : list Q) : Q :=
  match angles with
  | [] => 0%Q
  | a :: rest => (Wheel.delta last a + rotation a rest)%Q
  end.

(** The sum of the directions a drag has emitted. *)
Definition netScroll (ds : list Z) : Z := fold_right Z.add 0 ds.

(** [s'] has the pending timers of [s] and hands out the same timer id
    next. *)
Definition sameTimers (s s' : AppState) : Prop :=
  Browser.timers (browser s') = Browser.timers (browser s) /\
  Browser.nextTimerId (browser s') = Browser.nextTimerId (browser s).

(** The timer ids are in order, no id is pending twice, and the id the select
    button keeps in [longPressTimer] is not 0 and is the id of a pending
    long-press timeout. *)
Definition longPressOk (s : AppState) : Prop :=
  timersFresh s /\
  NoDup (map fst (Browser.timers (browser s))) /\
  match longPressTimer s with
  | Some id =>
      id <> 0%nat /\ exists o, In (id, CbLongPress o) (Browser.timers (browser s))
  | None => True
  end.

(** The application started on an empty database, the folder chosen holding
    no audio file, and Clear Library selected: the events of
    [clearingEmptyLibrary]. *)
Definition clearingEvents : list Event := importNothing ++ openClearLibrary.

(** No event of [es], handled in turn from [s], is one of the two pops that
    run later and without a guard. *)
Fixpoint noDelayedPop (s : AppState) (es : list Event) : Prop :=
  match es with
  | [] => True
  | e :: rest => notDelayedPop s e /\ noDelayedPop (step s e) rest
  end.

(** From start-up: Focus > Settings > Reset Stats, with the row "Yes, Reset
    All Stats" selected. *)
Definition toResetConfirm : list Event :=
  [AppStarts; Scroll 1; Scroll 1; Scroll 1] ++ press
    ++ [Scroll 1; Scroll 1; Scroll 1] ++ press ++ [Scroll (-1)] ++ press
    ++ [Scroll 1].

(** The reset is confirmed; the back button is pressed twice while the reset
    awaits storage; then the reset goes on. *)
Definition resetThenBack : list Event :=
  toResetConfirm ++ press ++ [MenuClick; MenuClick; TimerFires 5].

(** The reset is confirmed twice before the first one goes on. *)
Definition resetTwice : list Event :=
  toResetConfirm ++ press ++ press ++ [TimerFires 5; TimerFires 7].

(** The application started on [demoLibrary] with Music > Ratings open. *)
Definition ratingsOpened : AppState :=
  render
    (run (initialState demoBrowser demoLibrary)
       ([AppStarts; Scroll 1] ++ press ++ [Scroll 1; Scroll 1; Scroll 1; Scroll 1]
          ++ press)).

(** The application started on [demoLibrary] with Music > Search open and
    "AB" typed. *)
Definition searchTyped : AppState :=
  render
    (run (initialState demoBrowser demoLibrary)
       ([AppStarts; Scroll 1] ++ press ++ [Scroll (-1)] ++ press ++ press
          ++ [Scroll 1] ++ press)).

(** The application started on [demoLibrary] with Settings > Appearance >
    iPod Body open. *)
Definition bodyColorOpened : AppState :=
  render
    (run (initialState demoBrowser demoLibrary)
       ([AppStarts; Scroll (-1)] ++ press ++ [Scroll 1; Scroll 1] ++ press ++ press)).

(** * Properties *)

(** ** The model on small inputs *)

Example split_view_id :
  JS.split "/" "album-songs/Abbey Road" = ["album-songs"; "Abbey Road"]%string /\
  viewParamOf "album-songs/Abbey Road" = Some "Abbey Road"%string /\
  viewParamOf "main" = None /\
  viewParamOf "artist-albums/AC/DC" = Some "AC"%string.
Proof. repeat split. Qed.

Example parseInt_cases :
  JS.parseInt "42" = Some 42 /\ JS.parseInt " -7" = Some (-7) /\
  JS.parseInt "4x" = Some 4 /\ JS.parseInt "x" = None /\
  JS.numToString 25 = "25"%string /\ JS.numToString (-3) = "-3"%string.
Proof. repeat split. Qed.

Example array_cases :
  JS.indexOf [5; 6; 5] 5 = 0 /\ JS.indexOf [5; 6] 7 = -1 /\
  JS.at_ [5; 6] 1 = Some 6 /\ JS.at_ [5; 6] 2 = None /\ JS.at_ [5; 6] (-1) = None /\
  JS.slice0 [1; 2; 3] 1 = [1; 2] /\ JS.slice0 [1] 2 = [] /\
  JS.uniq ["b"; "a"; "b"]%string = ["b"; "a"]%string.
Proof. repeat split. Qed.

(** The sort keeps the order of elements that compare equal. *)
Example sort_is_stable :
  JS.sort (fun a b => fst a - fst b)
    [(2, "a"); (1, "b"); (2, "c"); (1, "d")]%string
  = [(1, "b"); (1, "d"); (2, "a"); (2, "c")]%string.
Proof. reflexivity. Qed.

Example string_cases :
  JS.trim "  a b  " = "a b"%string /\
  JS.includes "Abbey Road" "bey" = true /\
  JS.includes "Abbey Road" "x" = false /\
  JS.startsWith "focus-stats" "focus" = true /\
  JS.dropLastChar "ab" = "a"%string.
Proof. repeat split. Qed.

(** The menus the application shows once started on [demoLibrary]. *)
Example main_menu_rows :
  map MenuItem.label (menuItems focusReady)
  = ["Now Playing"; "Music"; "Playlists"; "Focus"; "Bounce"; "Settings"]%string /\
  map MenuItem.label (menuItems (render songsJustOpened)) = ["A"; "B"]%string /\
  map MenuItem.action (menuItems (render songsJustOpened))
  = [APlay 2 [2; 1]; APlay 1 [2; 1]].
Proof. repeat split; vm_compute; reflexivity. Qed.

(** ** Entering Focus and Bounce from the main menu *)

Lemma main_menu_actions (s : AppState) :
  viewIs s "main" = true ->
  actionAt s 3 = Some AFocus /\ actionAt s 4 = Some ABounce.
Proof.
  unfold viewIs, actionAt, menuItems, computeMenuItems.
  destruct (currentView s) as [cv|]; [|discriminate].
  intros H. rewrite H. split; reflexivity.
Qed.

Lemma pause_pausedKeeping (s : AppState) : pausedKeeping s (pause s).
Proof. repeat split. Qed.

Lemma stop_stoppedKeepingQueue (s : AppState) : stoppedKeepingQueue s (stop s).
Proof. repeat split. Qed.

(** C1, as the code has it: with music playing, the Focus row of the main menu
    pauses the transport and keeps track, queue, position, duration and media
    source; the Bounce row stops it: track and queue are kept, time and duration
    are reset to 0 and the source is detached. *)
Theorem focus_pauses_bounce_stops (s : AppState) :
  isPlaying s = true ->
  viewIs s "main" = true ->
  actionAt s 3 = Some AFocus /\
  actionAt s 4 = Some ABounce /\
  pausedKeeping s (invoke AFocus s) /\
  duration (invoke AFocus s) = duration s /\
  Audio.src (Playback.audio (playback (invoke AFocus s)))
    = Audio.src (Playback.audio (playback s)) /\
  stoppedKeepingQueue s (invoke ABounce s).
Proof.
  intros Hplay Hmain.
  destruct (main_menu_actions s Hmain) as [HF HB].
  repeat split; try assumption; simpl; rewrite ?Hplay; reflexivity.
Qed.

Lemma focus_pauses_bounce_stops_witness :
  isPlaying playingAtMain = true /\
  viewIs playingAtMain "main" = true /\
  pausedKeeping playingAtMain (invoke AFocus playingAtMain) /\
  stoppedKeepingQueue playingAtMain (invoke ABounce playingAtMain).
Proof.
  assert (Hp : isPlaying playingAtMain = true) by (vm_compute; reflexivity).
  assert (Hm : viewIs playingAtMain "main" = true) by (vm_compute; reflexivity).
  destruct (focus_pauses_bounce_stops playingAtMain Hp Hm)
    as (_ & _ & Hf & _ & _ & Hb).
  exact (conj Hp (conj Hm (conj Hf Hb))).
Defined.

(** C1, as stated, fails for Bounce: the row is the fifth of the main menu,
    music is playing at second 42, and after the action the position is 0. *)
Lemma bounce_entry_resets_position :
  isPlaying playingAtMain = true /\
  actionAt playingAtMain 4 = Some ABounce /\
  ~ pausedKeeping playingAtMain (invoke ABounce playingAtMain).
Proof.
  split; [vm_compute; reflexivity|].
  split; [vm_compute; reflexivity|].
  intros (_ & _ & _ & H). vm_compute in H. discriminate H.
Qed.

(** ** The menu resolver and the [songs] array *)

(** Outside the Songs view the resolver leaves [songs] as it is. *)
Lemma computeMenuItems_keeps_songs (s : AppState) :
  viewIs s "songs" = false -> snd (computeMenuItems s) = songs s.
Proof.
  unfold viewIs, computeMenuItems.
  destruct (currentView s) as [cv|]; [|reflexivity].
  intros Hv. rewrite Hv.
  repeat match goal with
         | |- snd (if ?c then _ else _) = _ => destruct c
         | |- snd (match ?x with _ => _ end) = _ => destruct x
         end; reflexivity.
Qed.

(** C2, at the input on which the code departs from it: in the Songs view,
    with two songs stored out of title order, computing the menu leaves the
    [songs] array reordered. *)
Theorem songs_view_sorts_state_in_place (s : AppState) (a b : Song.t) :
  viewIs s "songs" = true ->
  songs s = [b; a] ->
  0 < Browser.localeCompare (browser s) (Song.title b) (Song.title a) ->
  snd (computeMenuItems s) = [a; b] /\
  songs (render s) = [a; b] /\
  map MenuItem.label (menuItems s) = [Song.title a; Song.title b].
Proof.
  unfold viewIs, render, menuItems, computeMenuItems.
  destruct (currentView s) as [cv|]; [|discriminate].
  intros Hv Hs Hc. apply String.eqb_eq in Hv. rewrite Hv, Hs. simpl.
  apply Z.ltb_lt in Hc. rewrite Hc. repeat split.
Qed.

Lemma songs_view_sorts_state_in_place_witness :
  map Song.title (songs songsJustOpened) = ["B"; "A"]%string /\
  map Song.title (songs (render songsJustOpened)) = ["A"; "B"]%string.
Proof.
  split; [vm_compute; reflexivity|].
  assert (Hv : viewIs songsJustOpened "songs" = true) by (vm_compute; reflexivity).
  assert (Hs : songs songsJustOpened = [demoSong 1 "B"; demoSong 2 "A"])
    by (vm_compute; reflexivity).
  assert (Hc : 0 < Browser.localeCompare (browser songsJustOpened)
                     (Song.title (demoSong 1 "B")) (Song.title (demoSong 2 "A")))
    by (vm_compute; reflexivity).
  destruct (songs_view_sorts_state_in_place songsJustOpened _ _ Hv Hs Hc)
    as (_ & H & _).
  rewrite H. reflexivity.
Defined.

(** The reordering shows: the list of an album reads [songs] in storage
    order, and in title order once the Songs view has been visited. *)
Example songs_view_changes_album_listing :
  map ViewFrame.id (navigationStack albumDirectly)
  = map ViewFrame.id (navigationStack albumAfterSongs) /\
  map MenuItem.label (menuItems albumDirectly) = ["B"; "A"]%string /\
  map MenuItem.label (menuItems albumAfterSongs) = ["A"; "B"]%string.
Proof. repeat split; vm_compute; reflexivity. Qed.

(** ** The transport: [handleNext] and the track loader *)

(** Away from the end of the queue [handleNext] moves to the entry after the
    current one and changes nothing else. *)
Lemma handleNext_advances (s : AppState) (cur i : Z) :
  currentTrackId s = Some cur ->
  JS.indexOf (playQueue s) cur = i ->
  0 <= i < JS.len (playQueue s) - 1 ->
  handleNext s = set_currentTrackId (JS.at_ (playQueue s) (i + 1)) s.
Proof.
  intros Hc Hi Hr. unfold handleNext. rewrite Hc, Hi.
  replace (JS.len (playQueue s) =? 0) with false by (symmetry; apply Z.eqb_neq; lia).
  replace (i =? -1) with false by (symmetry; apply Z.eqb_neq; lia).
  replace (i =? JS.len (playQueue s) - 1) with false
    by (symmetry; apply Z.eqb_neq; lia).
  reflexivity.
Qed.

(** C3, as the code has it: when the record of the current track is missing
    or the storage read fails, the loader does what [handleNext] does, and so
    moves to the following queue entry when there is one. *)
Theorem unresolved_track_skips (s : AppState) (id : Z) :
  currentTrackId s = Some id ->
  db_songs_get id s = None \/ db_songs_get id s = Some None ->
  loaderSkips s /\
  forall i, JS.indexOf (playQueue s) id = i ->
            0 <= i < JS.len (playQueue s) - 1 ->
            currentTrackId (trackLoadEffect s) = JS.at_ (playQueue s) (i + 1).
Proof.
  intros Hc Hget.
  assert (Hskip : loaderSkips s).
  { unfold loaderSkips, trackLoadEffect. simpl. rewrite Hc.
    assert (Hg : db_songs_get id (set_currentObjectUrl None s) = db_songs_get id s)
      by reflexivity.
    rewrite Hg. destruct Hget as [-> | ->]; reflexivity. }
  split; [exact Hskip|].
  intros i Hi Hr. rewrite Hskip.
  rewrite (handleNext_advances (set_currentObjectUrl None s) id i); auto.
Qed.

Lemma unresolved_track_skips_witness :
  currentTrackId missingRecord = Some 7 /\
  db_songs_get 7 missingRecord = Some None /\
  currentTrackId (trackLoadEffect missingRecord) = Some 2.
Proof.
  assert (Hc : currentTrackId missingRecord = Some 7) by reflexivity.
  assert (Hg : db_songs_get 7 missingRecord = Some None) by (vm_compute; reflexivity).
  destruct (unresolved_track_skips missingRecord 7 Hc (or_intror Hg)) as [_ H].
  exact (conj Hc (conj Hg (H 0 eq_refl ltac:(vm_compute; split; [discriminate | reflexivity])))).
Defined.

(** C3, as stated, fails for a record without media blob: song 1 is current,
    its record is stored without blob, [handleNext] would move to song 2, and the
    loader leaves song 1 current and nothing playing. *)
Lemma blobless_track_is_not_skipped :
  currentTrackId bloblessSelected = Some 1 /\
  unresolvable bloblessSelected 1 /\
  currentTrackId (handleNext (set_currentObjectUrl None bloblessSelected)) = Some 2 /\
  currentTrackId (trackLoadEffect bloblessSelected) = Some 1 /\
  isPlaying (trackLoadEffect bloblessSelected) = false /\
  ~ loaderSkips bloblessSelected.
Proof.
  split; [vm_compute; reflexivity|].
  split.
  { right; right. eexists. split; [vm_compute; reflexivity | reflexivity]. }
  split; [vm_compute; reflexivity|].
  split; [vm_compute; reflexivity|].
  split; [vm_compute; reflexivity|].
  intros H. apply (f_equal currentTrackId) in H. vm_compute in H. discriminate H.
Qed.

(** ** The navigation stack *)

Lemma at_last {A} (l : list A) (x : A) :
  JS.at_ (l ++ [x]) (JS.len (l ++ [x]) - 1) = Some x.
Proof.
  unfold JS.at_, JS.len. rewrite length_app. simpl.
  replace (Z.of_nat (List.length l + 1) - 1 <? 0) with false
    by (symmetry; apply Z.ltb_ge; lia).
  replace (Z.to_nat (Z.of_nat (List.length l + 1) - 1)) with (List.length l) by lia.
  rewrite nth_error_app2 by lia. rewrite Nat.sub_diag. reflexivity.
Qed.

Lemma currentView_top (s : AppState) (st : list ViewFrame.t) (f : ViewFrame.t) :
  navigationStack s = st ++ [f] -> currentView s = Some f.
Proof. intros H. unfold currentView. rewrite H. apply at_last. Qed.

Lemma currentView_None (s : AppState) :
  currentView s = None <-> navigationStack s = [].
Proof.
  split.
  - intros H. destruct (navigationStack s) as [|f st] eqn:E using rev_ind; auto.
    rewrite (currentView_top s _ _ E) in H. discriminate.
  - intros H. unfold currentView. rewrite H. reflexivity.
Qed.

Lemma slice0_app_last {A} (l : list A) (x : A) : JS.slice0 (l ++ [x]) 1 = l.
Proof.
  unfold JS.slice0. rewrite length_app. simpl.
  replace (List.length l + 1 - 1)%nat with (List.length l) by lia.
  rewrite firstn_app, Nat.sub_diag, firstn_all. simpl. apply app_nil_r.
Qed.

(** What [handleMenuClick] does to the stack: the guarded pop. *)
Lemma handleMenuClick_stack (s : AppState) :
  navigationStack (handleMenuClick s)
  = if 1 <? JS.len (navigationStack s)
    then JS.slice0 (navigationStack s) 1 else navigationStack s.
Proof.
  unfold handleMenuClick.
  destruct (currentView s) as [cv|] eqn:Ecv.
  - assert (Hupd : forall k v, navigationStack (updateFocusSetting k v s)
                               = navigationStack s).
    { intros k v. unfold updateFocusSetting.
      destruct (focusSettings s); [destruct (Browser.dbOk (browser s))|]; reflexivity. }
    destruct (1 <? JS.len (navigationStack s));
      destruct (JS.startsWith (ViewFrame.id cv) "focus-setting-edit/");
      destruct (nth_error (JS.split "/" (ViewFrame.id cv)) 1);
      destruct (String.eqb (ViewFrame.id cv) "bounce-game");
      simpl; rewrite ?Hupd; reflexivity.
  - apply currentView_None in Ecv. rewrite Ecv. reflexivity.
Qed.

(** The back button never empties the stack, and at depth 1 it leaves the
    stack as it is. *)
Lemma handleMenuClick_keeps_a_frame (s : AppState) :
  navigationStack s <> [] -> navigationStack (handleMenuClick s) <> [].
Proof.
  intros Hne. rewrite handleMenuClick_stack.
  destruct (1 <? JS.len (navigationStack s)) eqn:E; [|exact Hne].
  apply Z.ltb_lt in E. unfold JS.len, JS.slice0 in *.
  destruct (navigationStack s) as [|a [|b l]]; simpl in *; try lia.
  destruct (List.length l - 0)%nat; discriminate.
Qed.

Lemma handleMenuClick_at_depth_one (s : AppState) (f : ViewFrame.t) :
  navigationStack s = [f] -> navigationStack (handleMenuClick s) = [f].
Proof. intros H. rewrite handleMenuClick_stack, H. reflexivity. Qed.

Lemma push_keeps_a_frame (f : ViewFrame.t) (s : AppState) :
  navigationStack (push f s) <> [].
Proof. simpl. destruct (navigationStack s); discriminate. Qed.

(** C4, at the input on which the code departs from it.  The library is empty
    and Clear Library has just been chosen: four frames are on the stack and the
    timeout that goes back is pending.  Three presses of the back button leave
    the main menu alone on the stack; the timeout then fires and pops it: the
    stack is empty and there is no current view. *)
Theorem delayed_go_back_empties_stack :
  map ViewFrame.id (navigationStack clearingEmptyLibrary)
    = ["main"; "settings"; "library-management"; "clearing-library"]%string /\
  Browser.timers (browser clearingEmptyLibrary) = [(4%nat, CbGoBack)] /\
  map ViewFrame.id
    (navigationStack (run clearingEmptyLibrary [MenuClick; MenuClick; MenuClick]))
    = ["main"]%string /\
  navigationStack
    (run clearingEmptyLibrary [MenuClick; MenuClick; MenuClick; TimerFires 4]) = [] /\
  currentView
    (run clearingEmptyLibrary [MenuClick; MenuClick; MenuClick; TimerFires 4]) = None.
Proof. repeat split; vm_compute; reflexivity. Qed.

(** ** Shuffled queues *)

Section Shuffle.

Local Open Scope nat_scope.

Lemma setNth_length (a : list Z) (i : nat) (v : Z) :
  List.length (setNth a i v) = List.length a.
Proof.
  revert i. induction a as [|x a IH]; intros [|i]; simpl; auto.
Qed.

(** Overwriting one cell exchanges one element of the multiset. *)
Lemma setNth_exchange (a : list Z) (i : nat) (x v : Z) :
  nth_error a i = Some x ->
  Permutation (x :: setNth a i v) (v :: a).
Proof.
  revert i. induction a as [|y a IH]; intros [|i] H; simpl in *; try discriminate.
  - injection H as ->. apply perm_swap.
  - rewrite perm_swap. rewrite (IH i H). apply perm_swap.
Qed.

Lemma setNth_other (a : list Z) (i j : nat) (ai aj : Z) :
  nth_error a i = Some ai ->
  nth_error a j = Some aj ->
  nth_error (setNth a i aj) j = Some aj.
Proof.
  revert i j. induction a as [|y a IH]; intros [|i] [|j] Hi Hj;
    simpl in *; try discriminate; auto.
Qed.

Lemma swap_Permutation (a : list Z) (i j : nat) : Permutation (swap a i j) a.
Proof.
  unfold swap.
  destruct (nth_error a i) as [ai|] eqn:Hi; [|reflexivity].
  destruct (nth_error a j) as [aj|] eqn:Hj; [|reflexivity].
  apply (Permutation_cons_inv (a := aj)).
  rewrite (setNth_exchange (setNth a i aj) j aj ai (setNth_other a i j ai aj Hi Hj)).
  apply setNth_exchange. exact Hi.
Qed.

Lemma swap_length (a : list Z) (i j : nat) :
  List.length (swap a i j) = List.length a.
Proof. apply Permutation_length, swap_Permutation. Qed.

Lemma fisherYates_Permutation (rnd : nat -> Q) (i pos : nat) (a : list Z) :
  Permutation (fst (fisherYates rnd pos i a)) a.
Proof.
  revert pos a. induction i as [|i IH]; intros pos a; simpl.
  - reflexivity.
  - rewrite IH. apply swap_Permutation.
Qed.

(** [Math.random()] lies in [[0, 1)], so the index drawn at step [i] is at most
    [i]: every exchange of the loop stays inside the array. *)
Lemma randomIndex_le (r : Q) (i : nat) :
  (0 <= r)%Q -> (r < 1)%Q -> randomIndex r i <= i.
Proof.
  intros H0 H1. unfold randomIndex.
  set (m := (Z.of_nat i + 1)%Z).
  assert (Hm : (0 < inject_Z m)%Q).
  { replace 0%Q with (inject_Z 0) by reflexivity. rewrite <- Zlt_Qlt. lia. }
  assert (Hlt : (r * inject_Z m < inject_Z m)%Q).
  { setoid_replace (inject_Z m) with (1 * inject_Z m)%Q at 2 by ring.
    apply Qmult_lt_compat_r; assumption. }
  assert (Hf : (Qfloor (r * inject_Z m) < m)%Z).
  { rewrite Zlt_Qlt. eapply Qle_lt_trans; [apply Qfloor_le | exact Hlt]. }
  lia.
Qed.

(** So the exchange of the loop reads two cells of the array. *)
Lemma swap_in_range (a : list Z) (i : nat) (r : Q) :
  i < List.length a -> (0 <= r)%Q -> (r < 1)%Q ->
  exists ai aj, nth_error a i = Some ai /\ nth_error a (randomIndex r i) = Some aj.
Proof.
  intros Hi H0 H1. pose proof (randomIndex_le r i H0 H1) as Hj.
  destruct (nth_error a i) as [ai|] eqn:Ei;
    [|apply nth_error_None in Ei; lia].
  destruct (nth_error a (randomIndex r i)) as [aj|] eqn:Ej;
    [|apply nth_error_None in Ej; lia].
  exists ai, aj. split; reflexivity.
Qed.

Lemma filter_absent (x : Z) (l : list Z) :
  count_occ Z.eq_dec l x = 0 ->
  filter (fun id => negb (id =? x)%Z) l = l.
Proof.
  induction l as [|y l IH]; simpl; auto.
  destruct (Z.eq_dec y x) as [->|Hne]; [discriminate|].
  intros H. apply Z.eqb_neq in Hne. rewrite Hne. simpl. f_equal. auto.
Qed.

(** Taking out the selected id and putting it in front rearranges a list in
    which it occurs once. *)
Lemma pin_Permutation (x : Z) (l : list Z) :
  count_occ Z.eq_dec l x = 1 ->
  Permutation (x :: filter (fun id => negb (id =? x)%Z) l) l.
Proof.
  induction l as [|y l IH]; simpl; [discriminate|].
  destruct (Z.eq_dec y x) as [->|Hne]; intros H.
  - rewrite Z.eqb_refl. simpl. rewrite filter_absent by lia. reflexivity.
  - apply Z.eqb_neq in Hne. rewrite Hne. simpl.
    rewrite perm_swap. apply perm_skip. auto.
Qed.

Lemma shuffledQueue_shape (rnd : nat -> Q) (pos : nat) (x : Z) (l : list Z) :
  exists sh,
    fst (shuffledQueue rnd pos x l) = x :: sh /\
    Permutation sh (filter (fun id => negb (id =? x)%Z) l).
Proof.
  unfold shuffledQueue.
  set (f := filter _ l).
  pose proof (fisherYates_Permutation rnd (List.length f - 1) pos f) as HP.
  destruct (fisherYates rnd pos (List.length f - 1) f) as [sh pos'].
  exists sh. split; [reflexivity | exact HP].
Qed.

End Shuffle.

Lemma createPlayAction_shuffled (s : AppState) (songId : Z) (queue : list Z) :
  shuffleMode s = true ->
  currentTrackId (createPlayAction songId queue s) = Some songId /\
  playQueue (createPlayAction songId queue s)
  = fst (shuffledQueue (Browser.random (browser s)) (Browser.randomPos (browser s))
           songId queue).
Proof.
  intros Hs. unfold createPlayAction. rewrite Hs.
  destruct (shuffledQueue _ _ songId queue) as [q pos']. split; reflexivity.
Qed.

(** C5, as the code has it: with shuffle on, playing a song within a context
    list in which its id occurs exactly once gives a queue that starts with the
    song and is a permutation of the context list; the song becomes the current
    track. *)
Theorem shuffle_pins_selected_track (s : AppState) (songId : Z) (queue : list Z) :
  shuffleMode s = true ->
  count_occ Z.eq_dec queue songId = 1%nat ->
  JS.at_ (playQueue (createPlayAction songId queue s)) 0 = Some songId /\
  Permutation (playQueue (createPlayAction songId queue s)) queue /\
  currentTrackId (createPlayAction songId queue s) = Some songId.
Proof.
  intros Hs Hc.
  destruct (createPlayAction_shuffled s songId queue Hs) as [Hcur Hq].
  destruct (shuffledQueue_shape (Browser.random (browser s))
              (Browser.randomPos (browser s)) songId queue) as (sh & Hsh & HP).
  rewrite Hq, Hsh. repeat split.
  - rewrite HP. apply pin_Permutation. exact Hc.
  - exact Hcur.
Qed.

Lemma shuffle_pins_selected_track_witness :
  shuffleMode shuffleOn = true /\
  count_occ Z.eq_dec [1; 2; 3; 4] 2 = 1%nat /\
  playQueue (createPlayAction 2 [1; 2; 3; 4] shuffleOn) = [2; 1; 4; 3] /\
  Permutation (playQueue (createPlayAction 2 [1; 2; 3; 4] shuffleOn)) [1; 2; 3; 4].
Proof.
  assert (Hs : shuffleMode shuffleOn = true) by reflexivity.
  assert (Hc : count_occ Z.eq_dec [1; 2; 3; 4] 2 = 1%nat) by reflexivity.
  assert (Hq : playQueue (createPlayAction 2 [1; 2; 3; 4] shuffleOn) = [2; 1; 4; 3])
    by (vm_compute; reflexivity).
  destruct (shuffle_pins_selected_track shuffleOn 2 [1; 2; 3; 4] Hs Hc)
    as (_ & HP & _).
  exact (conj Hs (conj Hc (conj Hq HP))).
Defined.

(** C5, as stated, fails for an id that is not in the context list: the queue
    has one entry more than the list. *)
Lemma shuffle_of_absent_id_is_no_permutation :
  shuffleMode shuffleOn = true /\
  playQueue (createPlayAction 9 [1; 2] shuffleOn) = [9; 1; 2] /\
  ~ Permutation (playQueue (createPlayAction 9 [1; 2] shuffleOn)) [1; 2].
Proof.
  split; [reflexivity|]. split; [vm_compute; reflexivity|].
  intros H. apply Permutation_length in H. vm_compute in H. discriminate H.
Qed.

(** ** [next()] followed by [prev()] *)

Lemma indexOf_range (l : list Z) (x : Z) : -1 <= JS.indexOf l x < JS.len l.
Proof.
  unfold JS.len. induction l as [|y l IH]; simpl; [lia|].
  destruct (y =? x); [lia|].
  destruct (JS.indexOf l x <? 0) eqn:E; [lia|]. apply Z.ltb_ge in E. lia.
Qed.

Lemma at_cons {A} (y : A) (l : list A) (i : Z) :
  0 <= i -> JS.at_ (y :: l) (i + 1) = JS.at_ l i.
Proof.
  intros H. unfold JS.at_.
  replace (i + 1 <? 0) with false by (symmetry; apply Z.ltb_ge; lia).
  replace (i <? 0) with false by (symmetry; apply Z.ltb_ge; lia).
  replace (Z.to_nat (i + 1)) with (S (Z.to_nat i)) by lia. reflexivity.
Qed.

(** [indexOf] returns a position that holds the element. *)
Lemma indexOf_at (l : list Z) (x i : Z) :
  JS.indexOf l x = i -> 0 <= i -> JS.at_ l i = Some x.
Proof.
  revert i. induction l as [|y l IH]; simpl; intros i Hi H0; [lia|].
  destruct (y =? x) eqn:E.
  - apply Z.eqb_eq in E. subst. reflexivity.
  - destruct (JS.indexOf l x <? 0) eqn:E'; [lia|]. apply Z.ltb_ge in E'.
    subst i. rewrite at_cons by lia. apply IH; auto.
Qed.

Lemma at_In {A} (l : list A) (i : Z) (x : A) : JS.at_ l i = Some x -> In x l.
Proof.
  unfold JS.at_. destruct (i <? 0); [discriminate|]. apply nth_error_In.
Qed.

Lemma indexOf_In (l : list Z) (x : Z) : 0 <= JS.indexOf l x -> In x l.
Proof. intros H. eapply at_In, indexOf_at; eauto. Qed.

(** In a queue without repetition [indexOf] finds every position. *)
Lemma indexOf_NoDup (l : list Z) (j y : Z) :
  NoDup l -> 0 <= j -> JS.at_ l j = Some y -> JS.indexOf l y = j.
Proof.
  intros Hnd. revert j. induction Hnd as [|z l Hz Hnd IH]; intros j Hj Hat.
  - unfold JS.at_ in Hat. destruct (j <? 0); [discriminate|].
    destruct (Z.to_nat j); discriminate.
  - simpl. destruct (Z.eq_dec j 0) as [->|Hne].
    + injection Hat as ->. rewrite Z.eqb_refl. reflexivity.
    + replace j with ((j - 1) + 1) in Hat by lia. rewrite at_cons in Hat by lia.
      destruct (z =? y) eqn:E.
      * apply Z.eqb_eq in E. subst. elim Hz. eapply at_In; eauto.
      * rewrite (IH (j - 1)) by (auto; lia).
        replace (j - 1 <? 0) with false by (symmetry; apply Z.ltb_ge; lia). lia.
Qed.

(** Not at the start of the queue, and within three seconds of the start of
    the track, [handlePrev] moves to the entry before the current one. *)
Lemma handlePrev_back (s : AppState) (cur i : Z) :
  (currentTime s <= 3)%Q ->
  currentTrackId s = Some cur ->
  JS.indexOf (playQueue s) cur = i ->
  0 < i ->
  handlePrev s = set_currentTrackId (JS.at_ (playQueue s) (i - 1)) s.
Proof.
  intros Ht Hc Hi Hr. unfold handlePrev, JS.Qgtb.
  apply Qle_bool_iff in Ht. rewrite Ht. simpl. rewrite Hc, Hi.
  pose proof (indexOf_range (playQueue s) cur) as Hrange. rewrite Hi in Hrange.
  replace (JS.len (playQueue s) =? 0) with false by (symmetry; apply Z.eqb_neq; lia).
  replace (i =? -1) with false by (symmetry; apply Z.eqb_neq; lia).
  replace (i =? 0) with false by (symmetry; apply Z.eqb_neq; lia).
  reflexivity.
Qed.

(** Past three seconds [handlePrev] seeks to 0 and keeps the track. *)
Lemma handlePrev_restarts (s : AppState) :
  (3 < currentTime s)%Q -> handlePrev s = seek 0 s.
Proof.
  intros Ht. unfold handlePrev, JS.Qgtb.
  destruct (Qle_bool (currentTime s) 3) eqn:E; [|reflexivity].
  apply Qle_bool_iff in E. exfalso. apply (Qlt_not_le _ _ Ht E).
Qed.

(** The core of the round trip: [nxt], the entry after the current one, is
    found by [indexOf] at its own position. *)
Lemma next_prev_core (s s' : AppState) (cur nxt i : Z) :
  currentTrackId s = Some cur ->
  JS.indexOf (playQueue s) cur = i ->
  0 <= i < JS.len (playQueue s) - 1 ->
  JS.at_ (playQueue s) (i + 1) = Some nxt ->
  JS.indexOf (playQueue s) nxt = i + 1 ->
  sameTransport (handleNext s) s' ->
  ((currentTime s' <= 3)%Q -> currentTrackId (handlePrev s') = Some cur) /\
  ((3 < currentTime s')%Q ->
   handlePrev s' = seek 0 s' /\ currentTrackId (handlePrev s') = Some nxt).
Proof.
  intros Hc Hi Hr Hat Hnx (Hq & Hcur & _).
  rewrite (handleNext_advances s cur i Hc Hi Hr) in Hq, Hcur. simpl in Hq, Hcur.
  rewrite Hat in Hcur. split.
  - intros Ht. rewrite (handlePrev_back s' nxt (i + 1)); auto; try lia.
    + simpl. rewrite Hq. replace (i + 1 - 1) with i by lia.
      apply indexOf_at; auto. lia.
    + rewrite Hq. exact Hnx.
  - intros Ht. rewrite (handlePrev_restarts s' Ht). split; [reflexivity | exact Hcur].
Qed.

(** C8, as the code has it.  The current track is at a position of the queue
    that is neither the first nor the last, and the entry after it does not
    occur earlier in the queue.  After [next()], whatever the playback has done
    since: [prev()] within three seconds returns to the original track, and past
    three seconds it seeks to 0 and stays on the new track. *)
Theorem next_then_prev_returns (s s' : AppState) (cur nxt i : Z) :
  currentTrackId s = Some cur ->
  JS.indexOf (playQueue s) cur = i ->
  0 < i < JS.len (playQueue s) - 1 ->
  JS.at_ (playQueue s) (i + 1) = Some nxt ->
  JS.indexOf (playQueue s) nxt = i + 1 ->
  sameTransport (handleNext s) s' ->
  ((currentTime s' <= 3)%Q -> currentTrackId (handlePrev s') = Some cur) /\
  ((3 < currentTime s')%Q ->
   handlePrev s' = seek 0 s' /\ currentTrackId (handlePrev s') = Some nxt).
Proof.
  intros Hc Hi Hr Hat Hnx Hsame.
  apply (next_prev_core s s' cur nxt i); auto. lia.
Qed.

(** The same for every queue without repetition. *)
Lemma next_then_prev_returns_NoDup (s : AppState) (cur i : Z) :
  NoDup (playQueue s) ->
  currentTrackId s = Some cur ->
  JS.indexOf (playQueue s) cur = i ->
  0 < i < JS.len (playQueue s) - 1 ->
  (currentTime s <= 3)%Q ->
  currentTrackId (handlePrev (handleNext s)) = Some cur.
Proof.
  intros Hnd Hc Hi Hr Ht.
  destruct (JS.at_ (playQueue s) (i + 1)) as [nxt|] eqn:Hat.
  - refine (proj1 (next_prev_core s (handleNext s) cur nxt i Hc Hi _ Hat _ _) _).
    + lia.
    + apply indexOf_NoDup; auto. lia.
    + repeat split.
    + rewrite (handleNext_advances s cur i Hc Hi) by lia. exact Ht.
  - exfalso. unfold JS.at_, JS.len in *.
    replace (i + 1 <? 0) with false in Hat by (symmetry; apply Z.ltb_ge; lia).
    apply nth_error_None in Hat. lia.
Qed.

Lemma next_then_prev_returns_witness :
  currentTrackId (handleNext midQueue) = Some 4 /\
  currentTrackId (handlePrev (handleNext midQueue)) = Some 3.
Proof.
  assert (Hn : currentTrackId (handleNext midQueue) = Some 4) by reflexivity.
  assert (H0 : 0 < 2 < JS.len (playQueue midQueue) - 1)
    by (vm_compute; split; reflexivity).
  assert (Hsame : sameTransport (handleNext midQueue) (handleNext midQueue))
    by (repeat split).
  assert (Ht : (currentTime (handleNext midQueue) <= 3)%Q)
    by (vm_compute; discriminate).
  exact (conj Hn
           (proj1 (next_then_prev_returns midQueue (handleNext midQueue) 3 4 2
                     eq_refl eq_refl H0 eq_refl eq_refl Hsame) Ht)).
Defined.

(** C8, as stated, fails on a queue with a repeated id: track 3 is at
    position 2 of [1; 2; 3; 2], [next()] moves to the 2 at position 3, and
    [prev()], at time 0, moves to track 1. *)
Lemma next_then_prev_on_repeated_id :
  JS.indexOf (playQueue repeatedInQueue) 3 = 2 /\
  0 < 2 < JS.len (playQueue repeatedInQueue) - 1 /\
  currentTrackId (handleNext repeatedInQueue) = Some 2 /\
  (currentTime (handleNext repeatedInQueue) <= 3)%Q /\
  currentTrackId (handlePrev (handleNext repeatedInQueue)) = Some 1 /\
  currentTrackId (handlePrev (handleNext repeatedInQueue)) <> Some 3.
Proof.
  split; [reflexivity|].
  split; [vm_compute; split; reflexivity|].
  split; [reflexivity|].
  split; [vm_compute; discriminate|].
  split; [reflexivity | discriminate].
Qed.

(** ** The focus timer *)

Lemma handleSessionEnd_frame (s : AppState) :
  focusSettings (handleSessionEnd s) = focusSettings s /\
  browser (handleSessionEnd s) = browser s.
Proof.
  unfold handleSessionEnd.
  destruct (focusSettings s) as [fs|] eqn:E; [|auto].
  destruct (isIdle (FocusState.sessionType (focusState s)));
    [|destruct (Browser.dbOk (browser s)); [|auto]];
    destruct (nextSession fs _ _);
    try destruct (isWork (FocusState.sessionType (focusState s)));
    simpl; auto.
Qed.

(** With settings loaded and storage available, the session that follows is
    the one [nextSession] computes; it lasts the minutes configured for its type
    and starts running when auto-start is on. *)
Lemma handleSessionEnd_focusState (s : AppState) (fs : FocusSettings.t) :
  focusSettings s = Some fs ->
  Browser.dbOk (browser s) = true ->
  let next := nextSession fs (FocusState.sessionType (focusState s))
                (FocusState.workIntervalsInCycle (focusState s)) in
  focusState (handleSessionEnd s)
  = {| FocusState.isActive := FocusSettings.autoStart fs;
       FocusState.sessionType := fst next;
       FocusState.timeRemaining := minutesOf fs (fst next) * 60;
       FocusState.workIntervalsInCycle := snd next |}.
Proof.
  intros Hfs Hdb. unfold handleSessionEnd. rewrite Hfs, Hdb.
  destruct (nextSession fs _ _) as [t c].
  destruct (isIdle (FocusState.sessionType (focusState s)));
    try destruct (isWork (FocusState.sessionType (focusState s)));
    reflexivity.
Qed.

Lemma handleSessionEnd_phase (s : AppState) (fs : FocusSettings.t) :
  focusSettings s = Some fs ->
  Browser.dbOk (browser s) = true ->
  phaseOf (handleSessionEnd s) = nextSession fs (fst (phaseOf s)) (snd (phaseOf s)).
Proof.
  intros Hfs Hdb. unfold phaseOf.
  rewrite (handleSessionEnd_focusState s fs Hfs Hdb). simpl.
  destruct (nextSession fs _ _); reflexivity.
Qed.

Lemma nextSession_advances (fs : FocusSettings.t) (f f' : FocusState.t) :
  (FocusState.sessionType f', FocusState.workIntervalsInCycle f')
  = nextSession fs (FocusState.sessionType f) (FocusState.workIntervalsInCycle f) ->
  advances fs f f'.
Proof.
  unfold advances, nextSession. intros H.
  destruct (FocusState.sessionType f); try (injection H; auto).
  destruct (FocusSettings.longBreakInterval fs
            <=? FocusState.workIntervalsInCycle f + 1) eqn:E.
  - apply Z.leb_le in E.
    replace (FocusState.workIntervalsInCycle f + 1
             <? FocusSettings.longBreakInterval fs) with false
      by (symmetry; apply Z.ltb_ge; lia).
    injection H; auto.
  - apply Z.leb_gt in E.
    replace (FocusState.workIntervalsInCycle f + 1
             <? FocusSettings.longBreakInterval fs) with true
      by (symmetry; apply Z.ltb_lt; lia).
    injection H; auto.
Qed.

Lemma sessionsEnd_frame (k : nat) (s : AppState) :
  focusSettings (sessionsEnd k s) = focusSettings s /\
  browser (sessionsEnd k s) = browser s.
Proof.
  induction k as [|k [IH1 IH2]]; simpl; auto.
  destruct (handleSessionEnd_frame (sessionsEnd k s)) as [H1 H2].
  unfold sessionsEnd in *. simpl. rewrite H1, H2. auto.
Qed.

Lemma sessionsEnd_S_phase (k : nat) (s : AppState) (fs : FocusSettings.t) :
  focusSettings s = Some fs ->
  Browser.dbOk (browser s) = true ->
  phaseOf (sessionsEnd (S k) s)
  = nextSession fs (fst (phaseOf (sessionsEnd k s))) (snd (phaseOf (sessionsEnd k s))).
Proof.
  intros Hfs Hdb. destruct (sessionsEnd_frame k s) as [H1 H2].
  change (sessionsEnd (S k) s) with (handleSessionEnd (sessionsEnd k s)).
  apply handleSessionEnd_phase; [rewrite H1 | rewrite H2]; assumption.
Qed.

(** While fewer than [n] work sessions are completed, every second session
    end leads back to work with one more interval counted. *)
Lemma sessionsEnd_even (s : AppState) (fs : FocusSettings.t) (n m : nat) :
  focusSettings s = Some fs ->
  Browser.dbOk (browser s) = true ->
  FocusSettings.longBreakInterval fs = Z.of_nat n ->
  phaseOf s = (Work, 0) ->
  (m < n)%nat ->
  phaseOf (sessionsEnd (2 * m) s) = (Work, Z.of_nat m).
Proof.
  intros Hfs Hdb Hn H0. induction m as [|m IH]; intros Hm; [exact H0|].
  replace (2 * S m)%nat with (S (S (2 * m))) by lia.
  rewrite (sessionsEnd_S_phase _ s fs Hfs Hdb).
  rewrite (sessionsEnd_S_phase _ s fs Hfs Hdb).
  rewrite IH by lia. simpl. rewrite Hn.
  replace (Z.of_nat n <=? Z.of_nat m + 1) with false
    by (symmetry; apply Z.leb_gt; lia).
  simpl. f_equal. lia.
Qed.

Lemma sessionsEnd_odd (s : AppState) (fs : FocusSettings.t) (n m : nat) :
  focusSettings s = Some fs ->
  Browser.dbOk (browser s) = true ->
  FocusSettings.longBreakInterval fs = Z.of_nat n ->
  phaseOf s = (Work, 0) ->
  (1 <= m <= n)%nat ->
  phaseOf (sessionsEnd (2 * m - 1) s)
  = if (m <? n)%nat then (ShortBreak, Z.of_nat m) else (LongBreak, 0).
Proof.
  intros Hfs Hdb Hn H0 Hm.
  replace (2 * m - 1)%nat with (S (2 * (m - 1))) by lia.
  rewrite (sessionsEnd_S_phase _ s fs Hfs Hdb).
  rewrite (sessionsEnd_even s fs n (m - 1) Hfs Hdb Hn H0) by lia.
  simpl. rewrite Hn.
  destruct (m <? n)%nat eqn:E.
  - apply Nat.ltb_lt in E.
    replace (Z.of_nat n <=? Z.of_nat (m - 1) + 1) with false
      by (symmetry; apply Z.leb_gt; lia).
    f_equal. lia.
  - apply Nat.ltb_ge in E.
    replace (Z.of_nat n <=? Z.of_nat (m - 1) + 1) with true
      by (symmetry; apply Z.leb_le; lia).
    reflexivity.
Qed.

(** With the settings loaded and storage available: the tick on which
    the time of a running session reaches zero advances the session as
    [advances] says; and from the start of a cycle, with a long break every [n]
    work intervals, the end of the [m]-th work session leads to a short break
    with [m] intervals counted for every [m] below [n], and the end of the [n]-th
    to the long break with the count back at 0. *)
Theorem focus_sessions_cycle (s : AppState) (fs : FocusSettings.t) :
  focusSettings s = Some fs ->
  Browser.dbOk (browser s) = true ->
  (FocusState.isActive (focusState s) = true ->
   FocusState.sessionType (focusState s) <> Idle ->
   FocusState.timeRemaining (focusState s) <= 1 ->
   advances fs (focusState s) (focusState (focusTick s)) /\
   FocusState.timeRemaining (focusState (focusTick s))
   = minutesOf fs (FocusState.sessionType (focusState (focusTick s))) * 60) /\
  (forall n : nat,
     FocusSettings.longBreakInterval fs = Z.of_nat n ->
     (1 <= n)%nat ->
     phaseOf s = (Work, 0) ->
     (forall m : nat, (1 <= m < n)%nat ->
        phaseOf (sessionsEnd (2 * m - 1) s) = (ShortBreak, Z.of_nat m)) /\
     phaseOf (sessionsEnd (2 * n - 1) s) = (LongBreak, 0)).
Proof.
  intros Hfs Hdb. split.
  - intros Hact Hidle Htime. unfold focusTick. rewrite Hact.
    replace (isIdle (FocusState.sessionType (focusState s))) with false
      by (destruct (FocusState.sessionType (focusState s)); auto; congruence).
    replace (FocusState.timeRemaining (focusState s) <=? 1) with true
      by (symmetry; apply Z.leb_le; lia).
    cbv beta iota delta [negb orb].
    set (s0 := set_focusState _ s).
    rewrite (handleSessionEnd_focusState s0 fs Hfs Hdb).
    split; [|reflexivity].
    apply nextSession_advances. simpl.
    destruct (nextSession fs _ _); reflexivity.
  - intros n Hn Hn1 H0. split.
    + intros m Hm. rewrite (sessionsEnd_odd s fs n m Hfs Hdb Hn H0) by lia.
      replace (m <? n)%nat with true by (symmetry; apply Nat.ltb_lt; lia).
      reflexivity.
    + rewrite (sessionsEnd_odd s fs n n Hfs Hdb Hn H0) by lia.
      rewrite Nat.ltb_irrefl. reflexivity.
Qed.

Lemma focus_sessions_cycle_witness :
  phaseOf (focusTick lastSecondOfCycle) = (LongBreak, 0) /\
  phaseOf (sessionsEnd 1 focusReady) = (ShortBreak, 1) /\
  phaseOf (sessionsEnd 5 focusReady) = (ShortBreak, 3) /\
  phaseOf (sessionsEnd 7 focusReady) = (LongBreak, 0).
Proof.
  assert (Hfs : focusSettings focusReady = Some DEFAULT_FOCUS_SETTINGS)
    by (vm_compute; reflexivity).
  assert (Hdb : Browser.dbOk (browser focusReady) = true) by (vm_compute; reflexivity).
  destruct (focus_sessions_cycle focusReady DEFAULT_FOCUS_SETTINGS Hfs Hdb)
    as [_ Hcycle].
  destruct (Hcycle 4%nat eq_refl ltac:(lia) ltac:(vm_compute; reflexivity))
    as [Hshort Hlong].
  assert (Hfs' : focusSettings lastSecondOfCycle = Some DEFAULT_FOCUS_SETTINGS)
    by (vm_compute; reflexivity).
  assert (Hdb' : Browser.dbOk (browser lastSecondOfCycle) = true)
    by (vm_compute; reflexivity).
  destruct (focus_sessions_cycle lastSecondOfCycle DEFAULT_FOCUS_SETTINGS Hfs' Hdb')
    as [Htick _].
  destruct (Htick eq_refl ltac:(discriminate) ltac:(vm_compute; discriminate))
    as [Hadv _].
  refine (conj _ (conj (Hshort 1%nat ltac:(lia)) (conj (Hshort 3%nat ltac:(lia)) Hlong))).
  unfold phaseOf. destruct Hadv as [H1 H2]. rewrite H1, H2. reflexivity.
Defined.

(** C7.  The tick on which the time of a running session reaches zero, with
    the settings loaded.  When storage takes the record of the completed
    session, the session advances as [advances] says.  When storage rejects the
    record, [handleSessionEnd] ends at the rejected write, before it sets the
    next session: the session keeps its type and its count and is left stopped
    at 0 seconds, which is not the advance; Skip Session changes nothing; and
    Start followed by the next tick leaves the same type and count. *)
Theorem rejected_write_blocks_the_session (s : AppState) (fs : FocusSettings.t) :
  focusSettings s = Some fs ->
  FocusState.isActive (focusState s) = true ->
  FocusState.sessionType (focusState s) <> Idle ->
  FocusState.timeRemaining (focusState s) <= 1 ->
  (Browser.dbOk (browser s) = true ->
   advances fs (focusState s) (focusState (focusTick s))) /\
  (Browser.dbOk (browser s) = false ->
   focusTick s
   = set_focusState (set_timeRemaining 0 (set_isActive false (focusState s))) s /\
   ~ advances fs (focusState s) (focusState (focusTick s)) /\
   invoke ASkipSession (focusTick s) = focusTick s /\
   phaseOf (focusTick (handleFocusPlayPause (focusTick s))) = phaseOf s).
Proof.
  intros Hfs Hact Hidle Htime. split.
  - intros Hdb.
    exact (proj1 (proj1 (focus_sessions_cycle s fs Hfs Hdb) Hact Hidle Htime)).
  - intros Hdb.
    assert (Hnot : isIdle (FocusState.sessionType (focusState s)) = false)
      by (destruct (FocusState.sessionType (focusState s)); auto; congruence).
    assert (Hend : forall f,
               isIdle (FocusState.sessionType f) = false ->
               handleSessionEnd (set_focusState f s) = set_focusState f s).
    { intros f Hf. unfold handleSessionEnd.
      cbn [focusSettings set_focusState focusState browser].
      rewrite Hfs, Hf, Hdb. reflexivity. }
    assert (Htick : focusTick s
                    = set_focusState
                        (set_timeRemaining 0 (set_isActive false (focusState s))) s).
    { unfold focusTick. rewrite Hact, Hnot.
      replace (FocusState.timeRemaining (focusState s) <=? 1) with true
        by (symmetry; apply Z.leb_le; lia).
      cbv beta iota delta [negb orb]. apply Hend. exact Hnot. }
    split; [exact Htick|]. split; [|split].
    + rewrite Htick. unfold advances. cbn [focusState set_focusState].
      cbn [FocusState.sessionType set_timeRemaining set_isActive].
      destruct (FocusState.sessionType (focusState s)) eqn:E;
        try destruct (_ <? _); intros [H _]; discriminate H.
    + rewrite Htick. cbn [invoke]. apply Hend. exact Hnot.
    + rewrite Htick. unfold handleFocusPlayPause.
      set (t := set_focusState _ s).
      assert (Hp : forall t' : AppState,
                 focusState t' = focusState t -> focusSettings t' = Some fs ->
                 Browser.dbOk (browser t') = false ->
                 phaseOf (focusTick
                            (set_focusState
                               (set_isActive (negb (FocusState.isActive (focusState t')))
                                  (focusState t')) t')) = phaseOf s).
      { intros t' Hf Hfs' Hdb'. rewrite Hf. unfold t, focusTick.
        cbn [focusState set_focusState FocusState.isActive FocusState.sessionType
               FocusState.timeRemaining set_isActive set_timeRemaining negb orb].
        rewrite Hnot. cbn [Z.leb Z.compare].
        unfold handleSessionEnd.
        cbn [focusSettings set_focusState focusState browser FocusState.sessionType
               set_isActive set_timeRemaining].
        rewrite Hfs', Hnot, Hdb'. reflexivity. }
      cbn [negb]. replace (FocusState.isActive (focusState t)) with false by reflexivity.
      cbn [negb]. destruct (isPlaying t).
      * apply (Hp (pause t)); [reflexivity | exact Hfs | exact Hdb].
      * apply (Hp t); [reflexivity | exact Hfs | exact Hdb].
Qed.

Lemma rejected_write_blocks_the_session_witness :
  phaseOf lastSecondWriteFails = (Work, 3) /\
  phaseOf (focusTick lastSecondWriteFails) = (Work, 3) /\
  FocusState.isActive (focusState (focusTick lastSecondWriteFails)) = false /\
  FocusState.timeRemaining (focusState (focusTick lastSecondWriteFails)) = 0 /\
  Db.focusSessions (db (focusTick lastSecondWriteFails)) = [] /\
  ~ advances DEFAULT_FOCUS_SETTINGS (focusState lastSecondWriteFails)
      (focusState (focusTick lastSecondWriteFails)) /\
  invoke ASkipSession (focusTick lastSecondWriteFails) = focusTick lastSecondWriteFails /\
  phaseOf (focusTick (handleFocusPlayPause (focusTick lastSecondWriteFails)))
  = (Work, 3).
Proof.
  assert (Hfs : focusSettings lastSecondWriteFails = Some DEFAULT_FOCUS_SETTINGS)
    by (vm_compute; reflexivity).
  assert (Htime : FocusState.timeRemaining (focusState lastSecondWriteFails) <= 1)
    by (vm_compute; discriminate).
  destruct (rejected_write_blocks_the_session lastSecondWriteFails
              DEFAULT_FOCUS_SETTINGS Hfs eq_refl ltac:(discriminate) Htime)
    as [_ Hfail].
  destruct (Hfail eq_refl) as [Htick [Hnot [Hskip Hagain]]].
  split; [reflexivity|]. split; [rewrite Htick; reflexivity|].
  split; [rewrite Htick; reflexivity|]. split; [rewrite Htick; reflexivity|].
  split; [rewrite Htick; reflexivity|].
  split; [exact Hnot|]. split; [exact Hskip|]. exact Hagain.
Defined.

(** End-to-end: a work session of 25 minutes ends on its 1500th tick, in a
    short break, with one work session of 25 minutes recorded. *)
Lemma work_session_of_25_minutes :
  let started := handleFocusPlayPause focusReady in
  phaseOf (Nat.iter 1499 focusTick started) = (Work, 0) /\
  phaseOf (Nat.iter 1500 focusTick started) = (ShortBreak, 1) /\
  map FocusSession.durationMinutes
    (Db.focusSessions (db (Nat.iter 1500 focusTick started))) = [25].
Proof. vm_compute. repeat split. Qed.

(** ** Editing a focus setting *)

Lemma clampFor_inRange (key : string) (v : Z) : inRange key (clampFor key v).
Proof.
  unfold inRange, clampFor, JS.clampZ.
  destruct (String.eqb key "longBreakInterval"); lia.
Qed.

(** A scroll in the edit view replaces the value of the top frame by the
    clamped sum and touches nothing else. *)
Lemma handleScroll_edit (s : AppState) (st : list ViewFrame.t) (key : string)
  (v d : Z) :
  In key editKeys ->
  navigationStack s = st ++ [editFrame key v] ->
  handleScroll d s
  = set_navigationStack (st ++ [editFrame key (clampFor key (v + d))]) s.
Proof.
  intros Hkey Hst. unfold handleScroll, updateTop.
  rewrite (currentView_top s st _ Hst), Hst, slice0_app_last.
  destruct Hkey as [<-|[<-|[<-|[<-|[]]]]]; reflexivity.
Qed.

Lemma scrolls_edit (ds : list Z) (s : AppState) (st : list ViewFrame.t)
  (key : string) (v : Z) :
  In key editKeys ->
  navigationStack s = st ++ [editFrame key v] ->
  inRange key v ->
  exists v',
    inRange key v' /\
    scrolls ds s = set_navigationStack (st ++ [editFrame key v']) s.
Proof.
  intros Hkey. revert s v. induction ds as [|d ds IH]; intros s v Hst Hv.
  - exists v. split; [exact Hv|]. simpl. rewrite <- Hst. destruct s; reflexivity.
  - simpl. rewrite (handleScroll_edit s st key v d Hkey Hst).
    destruct (IH (set_navigationStack (st ++ [editFrame key (clampFor key (v + d))]) s)
                (clampFor key (v + d)) eq_refl (clampFor_inRange key (v + d)))
      as (v' & Hv' & Heq).
    exists v'. split; [exact Hv'|]. rewrite Heq. reflexivity.
Qed.

(** Leaving the edit view by the back button or by select stores the value of
    the top frame. *)
Lemma edit_commit (s : AppState) (st : list ViewFrame.t) (key : string) (v : Z)
  (fs : FocusSettings.t) :
  In key editKeys ->
  navigationStack s = st ++ [editFrame key v] ->
  focusSettings s = Some fs ->
  Browser.dbOk (browser s) = true ->
  option_map (settingOf key) (focusSettings (handleMenuClick s)) = Some v /\
  option_map (settingOf key) (focusSettings (handleSelectClick s)) = Some v.
Proof.
  intros Hkey Hst Hfs Hdb. unfold handleMenuClick, handleSelectClick.
  rewrite (currentView_top s st _ Hst).
  destruct Hkey as [<-|[<-|[<-|[<-|[]]]]];
    cbn -[Z.ltb JS.len JS.slice0]; unfold updateFocusSetting; rewrite Hfs, Hdb;
    (split; [destruct (1 <? JS.len (navigationStack s))|]; reflexivity).
Qed.

(** C10.  In an edit view entered with a value in range, after any sequence
    of scroll inputs the value of the view is in range; it is the value that
    leaving the view by the back button or by select stores in the settings
    (which are written when they are loaded and storage accepts the write). *)
Theorem edited_setting_stays_in_range (s : AppState) (st : list ViewFrame.t)
  (key : string) (v0 : Z) (ds : list Z) :
  In key editKeys ->
  navigationStack s = st ++ [editFrame key v0] ->
  inRange key v0 ->
  exists v,
    inRange key v /\
    currentView (scrolls ds s) = Some (editFrame key v) /\
    forall fs,
      focusSettings s = Some fs ->
      Browser.dbOk (browser s) = true ->
      option_map (settingOf key) (focusSettings (handleMenuClick (scrolls ds s)))
      = Some v /\
      option_map (settingOf key) (focusSettings (handleSelectClick (scrolls ds s)))
      = Some v.
Proof.
  intros Hkey Hst Hv.
  destruct (scrolls_edit ds s st key v0 Hkey Hst Hv) as (v & Hin & Heq).
  exists v. split; [exact Hin|]. rewrite Heq.
  split; [apply (currentView_top _ st); reflexivity|].
  intros fs Hfs Hdb. apply (edit_commit _ st key v fs); auto.
Qed.

Lemma edited_setting_stays_in_range_witness :
  currentView editingInterval = Some (editFrame "longBreakInterval" 4) /\
  inRange "longBreakInterval" 4 /\
  currentView (scrolls [1; 1; 1; 1; 1; 1; 1; 1] editingInterval)
  = Some (editFrame "longBreakInterval" 10) /\
  option_map (settingOf "longBreakInterval")
    (focusSettings (handleMenuClick (scrolls [1; 1; 1; 1; 1; 1; 1; 1] editingInterval)))
  = Some 10.
Proof.
  assert (Hst : navigationStack editingInterval
                = [ {| ViewFrame.id := "main"; ViewFrame.activeIndex := 3 |};
                    {| ViewFrame.id := "focus"; ViewFrame.activeIndex := 3 |};
                    {| ViewFrame.id := "focus-settings"; ViewFrame.activeIndex := 3 |} ]
                  ++ [editFrame "longBreakInterval" 4])
    by (vm_compute; reflexivity).
  assert (Hkey : In "longBreakInterval"%string editKeys)
    by (right; right; right; left; reflexivity).
  assert (Hv : inRange "longBreakInterval" 4) by (vm_compute; split; discriminate).
  assert (Hfs : focusSettings editingInterval = Some DEFAULT_FOCUS_SETTINGS)
    by (vm_compute; reflexivity).
  assert (Hdb : Browser.dbOk (browser editingInterval) = true)
    by (vm_compute; reflexivity).
  destruct (edited_setting_stays_in_range editingInterval _ _ 4
              [1; 1; 1; 1; 1; 1; 1; 1] Hkey Hst Hv)
    as (v & _ & Hcv & Hcommit).
  destruct (Hcommit DEFAULT_FOCUS_SETTINGS Hfs Hdb) as [Hmenu _].
  assert (Hten : currentView (scrolls [1; 1; 1; 1; 1; 1; 1; 1] editingInterval)
                 = Some (editFrame "longBreakInterval" 10))
    by (vm_compute; reflexivity).
  assert (Ev : v = 10) by (rewrite Hten in Hcv; injection Hcv; auto).
  rewrite Ev in Hmenu.
  exact (conj (currentView_top _ _ _ Hst) (conj Hv (conj Hten Hmenu))).
Defined.

(** ** The select button: short press against long press *)

(** Case analysis on the innermost test of the goal. *)
Ltac branches :=
  repeat match goal with
         | |- context [match ?x with _ => _ end] =>
             lazymatch x with
             | context [match _ with _ => _ end] => fail
             | _ => destruct x
             end
         end.







Lemma find_fresh (ts : list (nat * Callback)) (id : nat) (cb : Callback) :
  Forall (fun t => (fst t < id)%nat) ts ->
  List.find (fun t => Nat.eqb (fst t) id) (ts ++ [(id, cb)]) = Some (id, cb).
Proof.
  intros H. induction H as [|t ts Ht _ IH]; simpl.
  - rewrite Nat.eqb_refl. reflexivity.
  - replace (Nat.eqb (fst t) id) with false by (symmetry; apply Nat.eqb_neq; lia).
    exact IH.
Qed.



(** ** One frame of Bounce *)

Section BounceTick.

Local Open Scope R_scope.

(** A point at distance [k] from the center, whatever the angle. *)
Lemma dist_on_circle (k a dx dy : R) :
  0 <= k ->
  Bounce.distFromCenter
    {| Ball.x := k * cos a; Ball.y := k * sin a; Ball.dx := dx; Ball.dy := dy |} = k.
Proof.
  intros Hk. unfold Bounce.distFromCenter. simpl.
  replace (k * cos a * (k * cos a) + k * sin a * (k * sin a))
    with (k * k * (Rsqr (sin a) + Rsqr (cos a))) by (unfold Rsqr; ring).
  rewrite sin2_cos2, Rmult_1_r. apply sqrt_square. exact Hk.
Qed.

Lemma reflect_dist (paddleAngle : R) (b : Ball.t) :
  Bounce.distFromCenter (Bounce.reflect paddleAngle b) = Bounce.ARENA_RADIUS - 0.1.
Proof.
  unfold Bounce.reflect. apply dist_on_circle. unfold Bounce.ARENA_RADIUS. lra.
Qed.

End BounceTick.

(** ** A hit and a miss at the top of the arena *)

Section BounceExamples.

Local Open Scope R_scope.

(** [a % m] for a non-negative [a] written as [m * k + r]. *)
Lemma fmod_value (a m r : R) (k : Z) :
  0 < m -> (0 <= k)%Z -> 0 <= r < m -> a = m * IZR k + r ->
  Bounce.fmod a m = r.
Proof.
  intros Hm Hk Hr Ha. unfold Bounce.fmod.
  assert (Hinv : 0 < / m) by (apply Rinv_0_lt_compat; exact Hm).
  assert (Hfrac : 0 <= r / m < 1).
  { unfold Rdiv. split.
    - apply Rmult_le_pos; lra.
    - replace 1 with (m * / m) by (field; lra).
      apply Rmult_lt_compat_r; lra. }
  assert (Hq : a / m = IZR k + r / m) by (subst a; field; lra).
  assert (Hk' : 0 <= IZR k) by (apply IZR_le; exact Hk).
  destruct (Rle_dec 0 (a / m)) as [_|Hneg]; [|exfalso; lra].
  rewrite <- (Int_part_spec (a / m) k) by lra.
  subst a. ring.
Qed.

Lemma atan2_up (y : R) : y < 0 -> Bounce.atan2 y 0 = - PI / 2.
Proof.
  intros Hy. unfold Bounce.atan2.
  destruct (Rlt_dec 0 0); [lra|].
  destruct (Rlt_dec 0 y); [lra|].
  destruct (Rlt_dec y 0); [reflexivity | lra].
Qed.

Lemma movedBall_ballAtTop (p : R) :
  movedBall (ballAtTop p)
  = {| Ball.x := 0 + 0 * 0.8; Ball.y := -47 + -1 * 0.8; Ball.dx := 0; Ball.dy := -1 |}.
Proof. reflexivity. Qed.

Lemma ballAtTop_crosses (p : R) :
  Bounce.ARENA_RADIUS < Bounce.distFromCenter (movedBall (ballAtTop p)).
Proof.
  rewrite movedBall_ballAtTop. unfold Bounce.distFromCenter, Bounce.ARENA_RADIUS. simpl.
  replace ((0 + 0 * 0.8) * (0 + 0 * 0.8) + (-47 + -1 * 0.8) * (-47 + -1 * 0.8))
    with (47.8 * 47.8) by lra.
  rewrite sqrt_square; lra.
Qed.

Lemma ballAtTop_angle (p : R) :
  Bounce.ballAngleDegrees (movedBall (ballAtTop p)) = 0.
Proof.
  rewrite movedBall_ballAtTop. unfold Bounce.ballAngleDegrees. simpl.
  replace (0 + 0 * 0.8) with 0 by lra.
  rewrite atan2_up by lra.
  apply (fmod_value _ 360 0 1); try lra; try lia.
  assert (HPI : PI <> 0) by (pose proof PI_RGT_0; lra).
  field. exact HPI.
Qed.

Lemma ballAtTop_isHit : Bounce.isHit 0 (movedBall (ballAtTop 0)) = true.
Proof.
  unfold Bounce.isHit. rewrite ballAtTop_angle. unfold Bounce.PADDLE_ARC_ANGLE.
  rewrite (fmod_value (0 - 45 / 2 + 360) 360 337.5 0) by (try lra; lia).
  rewrite (fmod_value (0 + 45 / 2 + 360) 360 22.5 1) by (try lra; lia).
  unfold Bounce.Rltb, Bounce.Rleb.
  destruct (Rlt_dec 337.5 22.5); [lra|].
  destruct (Rle_dec 337.5 0); [lra|].
  destruct (Rle_dec 0 22.5); [reflexivity | lra].
Qed.

(** With the paddle at 0 degrees the frame is a hit: one point, and the speed
    goes from 0.8 to 0.824. *)
Example hit_at_the_top :
  Bounce.outcome (ballAtTop 0) = Bounce.Hit /\
  BounceGameState.score (Bounce.frame (ballAtTop 0)) = 1%Z /\
  BounceGameState.ballSpeed (Bounce.frame (ballAtTop 0)) = 0.824 /\
  BounceGameState.gameState (Bounce.frame (ballAtTop 0)) = GamePlaying.
Proof.
  pose proof ballAtTop_isHit as Hhit.
  assert (Hout : Bounce.outcome (ballAtTop 0) = Bounce.Hit).
  { unfold Bounce.outcome. fold (movedBall (ballAtTop 0)).
    destruct (Rlt_dec _ _) as [_|Hn]; [|elim Hn; apply ballAtTop_crosses].
    change (BounceGameState.paddleAngle (ballAtTop 0)) with 0.
    rewrite Hhit. reflexivity. }
  unfold Bounce.frame. rewrite Hout. simpl.
  repeat split; auto. unfold Rmin. destruct (Rle_dec 2.5 (0.8 * 1.03)); lra.
Qed.

(** With the paddle at 180 degrees the same ball is missed: the game is
    over. *)
Example miss_at_the_top :
  Bounce.outcome (ballAtTop 180) = Bounce.Miss /\
  BounceGameState.gameState (Bounce.frame (ballAtTop 180)) = GameOver.
Proof.
  assert (Hhit : Bounce.isHit 180 (movedBall (ballAtTop 180)) = false).
  { unfold Bounce.isHit. rewrite ballAtTop_angle. unfold Bounce.PADDLE_ARC_ANGLE.
    rewrite (fmod_value (180 - 45 / 2 + 360) 360 157.5 1) by (try lra; lia).
    rewrite (fmod_value (180 + 45 / 2 + 360) 360 202.5 1) by (try lra; lia).
    unfold Bounce.Rltb, Bounce.Rleb.
    destruct (Rlt_dec 157.5 202.5); [|lra].
    destruct (Rle_dec 157.5 0); [lra | reflexivity]. }
  assert (Hout : Bounce.outcome (ballAtTop 180) = Bounce.Miss).
  { unfold Bounce.outcome. fold (movedBall (ballAtTop 180)).
    destruct (Rlt_dec _ _) as [_|Hn]; [|elim Hn; apply ballAtTop_crosses].
    change (BounceGameState.paddleAngle (ballAtTop 180)) with 180.
    rewrite Hhit. reflexivity. }
  unfold Bounce.frame. rewrite Hout. split; reflexivity.
Qed.

End BounceExamples.

(** ** The bearing of the ball and the paddle's arc *)

Section BounceArc.
Local Open Scope R_scope.

(** [Math.atan2] returns an angle in [(-PI, PI]]. *)
Lemma atan2_range (y x : R) : - PI < Bounce.atan2 y x <= PI.
Proof.
  pose proof PI_RGT_0 as Hpi. unfold Bounce.atan2.
  destruct (Rlt_dec 0 x) as [Hx|Hx].
  - pose proof (atan_bound (y / x)). lra.
  - destruct (Rlt_dec x 0) as [Hx'|Hx'].
    + assert (Hinv : / x < 0) by (apply Rinv_lt_0_compat; exact Hx').
      destruct (Rle_dec 0 y) as [Hy|Hy].
      * assert (Ht : y / x <= 0).
        { unfold Rdiv. replace 0 with (y * 0) by ring.
          apply Rmult_le_compat_l; lra. }
        assert (Ha : atan (y / x) <= 0).
        { destruct Ht as [Ht|Ht].
          - left. rewrite <- atan_0. apply atan_increasing. exact Ht.
          - rewrite Ht, atan_0. lra. }
        pose proof (atan_bound (y / x)). lra.
      * assert (Ht : 0 < y / x).
        { unfold Rdiv. replace (y * / x) with ((- y) * (- / x)) by ring.
          apply Rmult_lt_0_compat; lra. }
        assert (Ha : 0 < atan (y / x))
          by (rewrite <- atan_0; apply atan_increasing; exact Ht).
        pose proof (atan_bound (y / x)). lra.
    + destruct (Rlt_dec 0 y); [lra|]. destruct (Rlt_dec y 0); lra.
Qed.

Lemma dist_scaled (x y : R) :
  x <> 0 -> sqrt (x * x + y * y) = Rabs x * sqrt (1 + (y / x)²).
Proof.
  intros Hx.
  replace (x * x + y * y) with (x² * (1 + (y / x)²)) by (unfold Rsqr; field; exact Hx).
  rewrite sqrt_mult_alt by apply Rle_0_sqr.
  rewrite sqrt_Rsqr_abs. reflexivity.
Qed.

Lemma sqrt_one_plus_pos (t : R) : 0 < sqrt (1 + t²).
Proof. apply sqrt_lt_R0. pose proof (Rle_0_sqr t). lra. Qed.

(** The angle [Math.atan2(y, x)] is the direction of the point [(x, y)]. *)
Lemma atan2_polar (y x : R) :
  x = sqrt (x * x + y * y) * cos (Bounce.atan2 y x) /\
  y = sqrt (x * x + y * y) * sin (Bounce.atan2 y x).
Proof.
  unfold Bounce.atan2.
  destruct (Rlt_dec 0 x) as [Hx|Hx].
  - rewrite dist_scaled by lra. rewrite Rabs_right by lra.
    rewrite cos_atan, sin_atan. pose proof (sqrt_one_plus_pos (y / x)).
    split; field; lra.
  - destruct (Rlt_dec x 0) as [Hx'|Hx'].
    + rewrite dist_scaled by lra. rewrite Rabs_left by lra.
      pose proof (sqrt_one_plus_pos (y / x)).
      destruct (Rle_dec 0 y).
      * rewrite neg_cos, neg_sin, cos_atan, sin_atan. split; field; lra.
      * replace (atan (y / x) - PI) with (- (PI - atan (y / x))) by ring.
        rewrite cos_neg, sin_neg.
        replace (PI - atan (y / x)) with (- atan (y / x) + PI) by ring.
        rewrite neg_cos, neg_sin, cos_neg, sin_neg, cos_atan, sin_atan.
        split; field; lra.
    + assert (E : x = 0) by lra. subst x.
      replace (0 * 0 + y * y) with (y²) by (unfold Rsqr; ring).
      rewrite sqrt_Rsqr_abs.
      destruct (Rlt_dec 0 y) as [Hy|Hy].
      * rewrite cos_PI2, sin_PI2, Rabs_right by lra. split; ring.
      * destruct (Rlt_dec y 0) as [Hy'|Hy'].
        -- replace (- PI / 2) with (- (PI / 2)) by field.
           rewrite cos_neg, sin_neg, cos_PI2, sin_PI2, Rabs_left by lra. split; ring.
        -- assert (E : y = 0) by lra. subst y. rewrite Rabs_R0. split; ring.
Qed.

(** The angle of the ball the loop computes is its bearing. *)
Lemma ballAngleDegrees_bearing (b : Ball.t) :
  bearing b (Bounce.ballAngleDegrees b).
Proof.
  pose proof PI_RGT_0 as Hpi.
  destruct (atan2_polar (Ball.y b) (Ball.x b)) as [Hx Hy].
  pose proof (atan2_range (Ball.y b) (Ball.x b)) as Hr.
  unfold bearing, Bounce.ballAngleDegrees, Bounce.distFromCenter.
  set (phi := Bounce.atan2 (Ball.y b) (Ball.x b)) in *.
  set (d := sqrt (Ball.x b * Ball.x b + Ball.y b * Ball.y b)) in *.
  assert (Hdeg : -180 < phi * (180 / PI) <= 180).
  { split.
    - replace (-180) with (- PI * (180 / PI)) by (field; lra).
      apply Rmult_lt_compat_r; [apply Rdiv_lt_0_compat; lra | lra].
    - replace 180 with (PI * (180 / PI)) at 2 by (field; lra).
      apply Rmult_le_compat_r; [left; apply Rdiv_lt_0_compat; lra | lra]. }
  destruct (Rlt_dec (phi * (180 / PI) + 90 + 360) 360) as [Hlt|Hge].
  - rewrite (fmod_value _ 360 (phi * (180 / PI) + 90 + 360) 0) by (try lra; lia).
    split; [lra|].
    replace ((phi * (180 / PI) + 90 + 360) * (PI / 180))
      with (phi + PI / 2 + 2 * INR 1 * PI) by (simpl; field; lra).
    rewrite sin_period, cos_period, sin_plus, cos_plus, sin_PI2, cos_PI2.
    split; [rewrite Hx at 1; ring | rewrite Hy at 1; ring].
  - rewrite (fmod_value _ 360 (phi * (180 / PI) + 90) 1) by (try lra; lia).
    split; [lra|].
    replace ((phi * (180 / PI) + 90) * (PI / 180))
      with (phi + PI / 2) by (field; lra).
    rewrite sin_plus, cos_plus, sin_PI2, cos_PI2.
    split; [rewrite Hx at 1; ring | rewrite Hy at 1; ring].
Qed.

(** A point off the center has one bearing. *)
Lemma bearing_unique (b : Ball.t) (a a' : R) :
  0 < Bounce.distFromCenter b -> bearing b a -> bearing b a' -> a = a'.
Proof.
  intros Hd (Ha & Hx & Hy) (Ha' & Hx' & Hy').
  pose proof PI_RGT_0 as Hpi.
  set (d := Bounce.distFromCenter b) in *.
  set (t := a * (PI / 180)) in *. set (t' := a' * (PI / 180)) in *.
  assert (Hs : sin t = sin t').
  { apply (Rmult_eq_reg_l d); [|lra]. rewrite <- Hx, <- Hx'. reflexivity. }
  assert (Hc : cos t = cos t').
  { apply (Rmult_eq_reg_l d); [|lra]. lra. }
  assert (Hsin : sin (t - t') = 0).
  { rewrite sin_minus, Hs, Hc. ring. }
  assert (Hcos : cos (t - t') = 1).
  { rewrite cos_minus, Hs, Hc. pose proof (sin2_cos2 t') as H. unfold Rsqr in H. lra. }
  apply sin_eq_0_0 in Hsin. destruct Hsin as (k & Hk).
  assert (Ht : -2 * PI < t - t' < 2 * PI).
  { unfold t, t'.
    assert (0 <= a * (PI / 180) < 2 * PI).
    { split; [apply Rmult_le_pos; [lra | apply Rlt_le, Rdiv_lt_0_compat; lra]|].
      replace (2 * PI) with (360 * (PI / 180)) by field.
      apply Rmult_lt_compat_r; [apply Rdiv_lt_0_compat; lra | lra]. }
    assert (0 <= a' * (PI / 180) < 2 * PI).
    { split; [apply Rmult_le_pos; [lra | apply Rlt_le, Rdiv_lt_0_compat; lra]|].
      replace (2 * PI) with (360 * (PI / 180)) by field.
      apply Rmult_lt_compat_r; [apply Rdiv_lt_0_compat; lra | lra]. }
    lra. }
  assert (Hk2 : (-2 < k < 2)%Z).
  { rewrite Hk in Ht. split; apply lt_IZR.
    - apply (Rmult_lt_reg_r PI); [lra|]. lra.
    - apply (Rmult_lt_reg_r PI); [lra|]. lra. }
  assert (Hk0 : k = 0%Z).
  { destruct (Z.eq_dec k 0) as [E|E]; [exact E|]. exfalso.
    assert (Hk1 : k = 1%Z \/ k = (-1)%Z) by lia.
    destruct Hk1 as [-> | ->]; rewrite Hk in Hcos.
    - replace (1 * PI) with PI in Hcos by ring. rewrite cos_PI in Hcos. lra.
    - replace (-1 * PI) with (- PI) in Hcos by ring.
      rewrite cos_neg, cos_PI in Hcos. lra. }
  subst k. assert (E : t = t') by lra. unfold t, t' in E.
  apply (Rmult_eq_reg_r (PI / 180)); [exact E|].
  apply Rgt_not_eq, Rdiv_lt_0_compat; lra.
Qed.

Lemma Rabs_bounds (a b : R) : Rabs a <= b -> - b <= a <= b.
Proof. unfold Rabs. destruct (Rcase_abs a); lra. Qed.

(** The hit test of the loop, for a paddle angle and a ball angle in
    [[0, 360)]: the ball angle is within half the arc of the paddle angle, on
    either side and round the full turn. *)
Lemma isHit_withinPaddleArc (p : R) (b : Ball.t) :
  0 <= p < 360 ->
  Bounce.isHit p b = true <-> withinPaddleArc p (Bounce.ballAngleDegrees b).
Proof.
  intros Hp. destruct (ballAngleDegrees_bearing b) as (Ha & _).
  unfold Bounce.isHit, withinPaddleArc, Bounce.PADDLE_ARC_ANGLE.
  set (a := Bounce.ballAngleDegrees b) in *.
  assert (Hk : forall k : Z, Rabs (a - p + 360 * IZR k) <= 45 / 2 ->
                 k = 0%Z \/ k = 1%Z \/ k = (-1)%Z).
  { intros k Hk. apply Rabs_bounds in Hk.
    assert (H1 : (k < 2)%Z) by (apply lt_IZR; lra).
    assert (H2 : (-2 < k)%Z) by (apply lt_IZR; lra).
    lia. }
  unfold Bounce.Rltb, Bounce.Rleb.
  destruct (Rlt_dec p (45 / 2)) as [Hlow|Hlow].
  - rewrite (fmod_value (p - 45 / 2 + 360) 360 (p - 45 / 2 + 360) 0) by (try lra; lia).
    rewrite (fmod_value (p + 45 / 2 + 360) 360 (p + 45 / 2) 1) by (try lra; lia).
    destruct (Rlt_dec (p - 45 / 2 + 360) (p + 45 / 2)) as [?|_]; [lra|].
    destruct (Rle_dec (p - 45 / 2 + 360) a) as [H1|H1];
      destruct (Rle_dec a (p + 45 / 2)) as [H2|H2]; cbn; split; intros H;
      try reflexivity; try discriminate.
    + exists 0%Z. apply Rabs_le. lra.
    + exists (-1)%Z. apply Rabs_le. lra.
    + exists 0%Z. apply Rabs_le. lra.
    + exfalso. destruct H as (k & Hk'). pose proof (Hk k Hk') as Hc.
      apply Rabs_bounds in Hk'. destruct Hc as [-> | [-> | ->]]; lra.
  - destruct (Rlt_dec p (360 - 45 / 2)) as [Hmid|Hhigh].
    + rewrite (fmod_value (p - 45 / 2 + 360) 360 (p - 45 / 2) 1) by (try lra; lia).
      rewrite (fmod_value (p + 45 / 2 + 360) 360 (p + 45 / 2) 1) by (try lra; lia).
      destruct (Rlt_dec (p - 45 / 2) (p + 45 / 2)) as [_|?]; [|lra].
      destruct (Rle_dec (p - 45 / 2) a) as [H1|H1];
        destruct (Rle_dec a (p + 45 / 2)) as [H2|H2]; cbn; split; intros H;
        try reflexivity; try discriminate;
        try (exists 0%Z; apply Rabs_le; lra);
        (exfalso; destruct H as (k & Hk'); pose proof (Hk k Hk') as Hc;
         apply Rabs_bounds in Hk'; destruct Hc as [-> | [-> | ->]]; lra).
    + rewrite (fmod_value (p - 45 / 2 + 360) 360 (p - 45 / 2) 1) by (try lra; lia).
      rewrite (fmod_value (p + 45 / 2 + 360) 360 (p + 45 / 2 - 360) 2) by (try lra; lia).
      destruct (Rlt_dec (p - 45 / 2) (p + 45 / 2 - 360)) as [?|_]; [lra|].
      destruct (Rle_dec (p - 45 / 2) a) as [H1|H1];
        destruct (Rle_dec a (p + 45 / 2 - 360)) as [H2|H2]; cbn; split; intros H;
        try reflexivity; try discriminate.
      * exists 0%Z. apply Rabs_le. lra.
      * exists 0%Z. apply Rabs_le. lra.
      * exists 1%Z. apply Rabs_le. lra.
      * exfalso. destruct H as (k & Hk'). pose proof (Hk k Hk') as Hc.
        apply Rabs_bounds in Hk'. destruct Hc as [-> | [-> | ->]]; lra.
Qed.
End BounceArc.

(** ** The paddle angle stays in range *)

Section BouncePaddle.
Local Open Scope R_scope.

(** [a % m] of a non-negative [a] lies in [[0, m)]. *)
Lemma fmod_range (a m : R) : 0 <= a -> 0 < m -> 0 <= Bounce.fmod a m < m.
Proof.
  intros Ha Hm. unfold Bounce.fmod.
  assert (Hq : 0 <= a / m) by (apply Rmult_le_pos; [exact Ha | left; apply Rinv_0_lt_compat, Hm]).
  destruct (Rle_dec 0 (a / m)) as [_|Hn]; [|contradiction].
  destruct (base_Int_part (a / m)) as [H1 H2].
  set (k := IZR (Int_part (a / m))) in *.
  replace (a - m * k) with (m * (a / m - k)) by (field; lra).
  split.
  - apply Rmult_le_pos; lra.
  - apply (Rlt_le_trans _ (m * 1)); [apply Rmult_lt_compat_l; lra | lra].
Qed.

Lemma paddlesFrom_normal (s s' : AppState) :
  paddlesFrom s s' -> paddlesNormal s -> paddlesNormal s'.
Proof.
  unfold paddlesFrom, paddlesNormal, paddleNormal.
  intros [[-> | ->] [-> | ->]] [H1 H2]; split; assumption.
Qed.

End BouncePaddle.

Ltac paddles_from :=
  split; first [left; reflexivity | right; reflexivity].

Lemma handleScroll_paddlesNormal (d : Z) (s : AppState) :
  d = 1 \/ d = -1 -> paddlesNormal s -> paddlesNormal (handleScroll d s).
Proof.
  intros Hd H. unfold handleScroll, handleSetRating, setVolumeState, updateTop.
  branches;
    first [ exact H
          | apply (paddlesFrom_normal s); [paddles_from | exact H]
          | idtac ].
  split; [exact (proj1 H)|]. unfold paddleNormal. cbn.
  apply fmod_range; [|lra]. destruct H as [_ [H0 _]].
  destruct Hd as [-> | ->]; cbn; lra.
Qed.

Lemma invoke_paddlesNormal (a : Action) (s : AppState) :
  paddlesNormal s -> paddlesNormal (invoke a s).
Proof.
  intros H. apply (paddlesFrom_normal s); [|exact H].
  destruct a; cbn [invoke];
    unfold handleMenuClick, handleFocusPlayPause, handleSessionEnd,
      updateFocusSetting, createPlayAction, resetBounceGame, mathRandom,
      pushView, calculateTodayStats, sliceStack, handleClearLibrary, setBounceGame;
    branches; paddles_from.
Qed.

Lemma handleSelectClick_paddlesNormal (s : AppState) :
  paddlesNormal s -> paddlesNormal (handleSelectClick s).
Proof.
  intros H. unfold handleSelectClick.
  destruct (currentView s) as [cv|]; [|exact H].
  assert (Hsel : paddlesNormal
                   match JS.at_ (menuItems s) (ViewFrame.activeIndex cv) with
                   | Some row => invoke (MenuItem.action row) s
                   | None => s
                   end)
    by (destruct (JS.at_ (menuItems s) (ViewFrame.activeIndex cv));
        [apply invoke_paddlesNormal, H | exact H]).
  destruct (JS.startsWith (ViewFrame.id cv) "focus-setting-edit/").
  { apply (paddlesFrom_normal s); [|exact H].
    unfold updateFocusSetting, sliceStack; branches; paddles_from. }
  destruct (String.eqb (ViewFrame.id cv) "bounce-game").
  { destruct (BounceGameState.gameState (bounceGame s)); auto. }
  destruct (String.eqb (ViewFrame.id cv) "now-playing");
    [apply (paddlesFrom_normal s); [paddles_from | exact H]|].
  destruct (String.eqb (ViewFrame.id cv) "load"); [exact H|].
  destruct (String.eqb (ViewFrame.id cv) "cover-flow" && (0 <? JS.len (coverFlowItems s)));
    [|exact Hsel].
  destruct (JS.at_ (coverFlowItems s) (ViewFrame.activeIndex cv)); [|exact H].
  apply (paddlesFrom_normal s); [paddles_from | exact H].
Qed.

(** Every event keeps the paddle angle in range, a scroll event being a
    single step of the wheel. *)
Lemma step_paddlesNormal (s : AppState) (e : Event) :
  (forall d, e = Scroll d -> d = 1 \/ d = -1) ->
  paddlesNormal s -> paddlesNormal (step s e).
Proof.
  intros Hd H.
  assert (Hr : paddlesNormal (render s))
    by (apply (paddlesFrom_normal s); [paddles_from | exact H]).
  unfold step.
  destruct e;
    try (apply (paddlesFrom_normal (render s)); [|exact Hr];
         unfold initializeApp, handleFileChange, handlePlayPause, handleNext,
           handlePrev, handleSelectMouseDown, focusTick, handleSessionEnd,
           gameLoop, Bounce.frame, trackLoadEffect, trackLoadBegin,
           handleMediaSessionPlay, handleFocusPlayPause, setBounceGame,
           handleMenuClick, updateFocusSetting, resetBounceGame, mathRandom,
           sliceStack, calculateTodayStats, pause;
         branches; paddles_from).
  - apply handleScroll_paddlesNormal; [apply Hd; reflexivity | exact Hr].
  - apply (paddlesFrom_normal (render s)); [paddles_from | exact Hr].
  - unfold handleSelectMouseUp. branches; try exact Hr.
    apply handleSelectClick_paddlesNormal.
    apply (paddlesFrom_normal (render s)); [paddles_from | exact Hr].
  - apply (paddlesFrom_normal (render s)); [|exact Hr].
    unfold fireTimer.
    destruct (List.find _ (Browser.timers (browser (render s)))) as [[i cb]|];
      [|paddles_from].
    destruct cb; cbn [runCallback];
      unfold quickAdd, trackLoadSettle, handleNextOf, sliceStack, calculateTodayStats;
      branches; paddles_from.
  - apply (paddlesFrom_normal (render s)); [|exact Hr].
    unfold trackLoadEffect.
    destruct (currentTrackId (set_currentObjectUrl None (render s))) as [tid|];
      [|paddles_from].
    destruct (db_songs_get tid _) as [[song|]|];
      [destruct (Song.fileBlob song); paddles_from | |];
      unfold handleNext; branches; paddles_from.
Qed.

Lemma run_paddlesNormal (es : list Event) (s : AppState) :
  wheelSteps es -> paddlesNormal s -> paddlesNormal (run s es).
Proof.
  revert s. induction es as [|e es IH]; intros s Hes H; [exact H|].
  cbn [run fold_left]. apply IH.
  - intros d Hin. apply Hes. right. exact Hin.
  - apply step_paddlesNormal; [|exact H].
    intros d ->. apply Hes. left. reflexivity.
Qed.

(** ** One frame of the game loop *)

(** C6.  The paddle angle is in [[0, 360)] in every state reached from
    start-up by events whose scroll inputs are single steps of the wheel, and a
    ball off the center has one bearing.  In the game view with the game
    playing and the paddle angle in that range, a frame of the loop does one of
    three things to the game state held by the ref: the ball stays inside the
    arena and nothing but the ball changes; or the ball crossed the boundary at
    a bearing within the paddle's arc (at most half the arc from the paddle
    angle, round the full turn) and the frame is a hit; or it crossed at a
    bearing outside the arc and the frame is a miss.  The three cases exclude
    each other: the first by the distance, the last two by the bearing and by
    the phase they end in.  A hit or a miss is published to the React state. *)
Theorem game_tick_resolves (s : AppState) :
  (forall b d es, wheelSteps es -> paddlesNormal (run (initialState b d) es)) /\
  (forall ball a a', (0 < Bounce.distFromCenter ball)%R ->
                     bearing ball a -> bearing ball a' -> a = a') /\
  (viewIs s "bounce-game" = true ->
   BounceGameState.gameState (bounceGameStateRef s) = GamePlaying ->
   paddleNormal (bounceGameStateRef s) ->
   let g := bounceGameStateRef s in
   let g' := bounceGameStateRef (gameLoop s) in
   (insideTick g g' /\ bounceGame (gameLoop s) = bounceGame s) \/
   (hitTick g g' /\ bounceGame (gameLoop s) = g') \/
   (missTick g g' /\ bounceGame (gameLoop s) = g')).
Proof.
  split.
  { intros b d es Hes. apply run_paddlesNormal; [exact Hes|].
    split; unfold paddleNormal; cbn; lra. }
  split; [intros ball a a'; apply bearing_unique|].
  intros Hview Hplaying Hpad g g'. unfold g', gameLoop. rewrite Hview. fold g.
  unfold g in Hplaying, Hpad |- *. rewrite Hplaying. simpl.
  unfold Bounce.frame, Bounce.outcome. fold (movedBall (bounceGameStateRef s)).
  destruct (Rlt_dec Bounce.ARENA_RADIUS
              (Bounce.distFromCenter (movedBall (bounceGameStateRef s)))) as [Hout|Hin].
  - pose proof (ballAngleDegrees_bearing (movedBall (bounceGameStateRef s))) as Hb.
    pose proof (isHit_withinPaddleArc
                  (BounceGameState.paddleAngle (bounceGameStateRef s))
                  (movedBall (bounceGameStateRef s)) Hpad) as Harc.
    destruct (Bounce.isHit (BounceGameState.paddleAngle (bounceGameStateRef s))
                (movedBall (bounceGameStateRef s))) eqn:Ehit.
    + right; left. split; [|reflexivity].
      unfold hitTick. simpl. rewrite reflect_dist.
      split; [exact Hout|]. split.
      { eexists. split; [exact Hb | apply Harc; reflexivity]. }
      repeat split; auto. unfold Bounce.ARENA_RADIUS. lra.
    + right; right. split.
      * unfold missTick. split; [exact Hout|]. split.
        { eexists. split; [exact Hb|]. intros Hw. apply Harc in Hw. discriminate Hw. }
        repeat split; auto.
      * destruct (BounceGameState.highScore (bounceGameStateRef s)
                  <? BounceGameState.score (bounceGameStateRef s)); reflexivity.
  - left. split; [|reflexivity]. unfold insideTick. simpl.
    repeat split; auto. apply Rnot_lt_le. exact Hin.
Qed.

Lemma withinPaddleArc_centre (p : R) : withinPaddleArc p p.
Proof.
  exists 0. unfold Bounce.PADDLE_ARC_ANGLE.
  replace (p - p + 360 * 0)%R with 0%R by ring. rewrite Rabs_R0. lra.
Qed.

Lemma game_tick_resolves_witness :
  (viewIs aboutToHit "bounce-game" = true /\
   BounceGameState.gameState (bounceGameStateRef aboutToHit) = GamePlaying /\
   hitTick (bounceGameStateRef aboutToHit) (bounceGameStateRef (gameLoop aboutToHit)) /\
   BounceGameState.score (bounceGame (gameLoop aboutToHit)) = 1) /\
  (viewIs aboutToLose "bounce-game" = true /\
   BounceGameState.gameState (bounceGameStateRef aboutToLose) = GamePlaying /\
   missTick (bounceGameStateRef aboutToLose) (bounceGameStateRef (gameLoop aboutToLose)) /\
   BounceGameState.gameState (bounceGame (gameLoop aboutToLose)) = GameOver).
Proof.
  assert (Hpos : forall p, (0 < Bounce.distFromCenter (movedBall (ballAtTop p)))%R).
  { intros p. pose proof (ballAtTop_crosses p) as H.
    unfold Bounce.ARENA_RADIUS in H. lra. }
  assert (Hbear : forall p a, bearing (movedBall (ballAtTop p)) a -> a = 0%R).
  { intros p a Ha.
    apply (proj1 (proj2 (game_tick_resolves aboutToHit)) (movedBall (ballAtTop p)));
      [apply Hpos | exact Ha |].
    rewrite <- (ballAtTop_angle p). apply ballAngleDegrees_bearing. }
  split.
  - assert (Hv : viewIs aboutToHit "bounce-game" = true) by reflexivity.
    assert (Hp : BounceGameState.gameState (bounceGameStateRef aboutToHit) = GamePlaying)
      by reflexivity.
    assert (Hn : paddleNormal (bounceGameStateRef aboutToHit))
      by (unfold paddleNormal; cbn; lra).
    assert (Hcross := ballAtTop_crosses 0).
    change (ballAtTop 0) with (bounceGameStateRef aboutToHit) in Hcross.
    destruct (proj2 (proj2 (game_tick_resolves aboutToHit)) Hv Hp Hn)
      as [[Hi _]|[[Hh Hpub]|[Hm _]]].
    + exfalso. destruct Hi as [Hi _]. apply (Rlt_not_le _ _ Hcross Hi).
    + refine (conj Hv (conj Hp (conj Hh _))). rewrite Hpub.
      destruct Hh as (_ & _ & Hs & _). exact Hs.
    + exfalso. destruct Hm as (_ & (a & Ha & Hno) & _).
      change (bounceGameStateRef aboutToHit) with (ballAtTop 0) in Ha, Hno.
      apply Hno. rewrite (Hbear 0%R a Ha). apply withinPaddleArc_centre.
  - assert (Hv : viewIs aboutToLose "bounce-game" = true) by reflexivity.
    assert (Hp : BounceGameState.gameState (bounceGameStateRef aboutToLose) = GamePlaying)
      by reflexivity.
    assert (Hn : paddleNormal (bounceGameStateRef aboutToLose))
      by (unfold paddleNormal; cbn; lra).
    assert (Hcross := ballAtTop_crosses 180).
    change (ballAtTop 180) with (bounceGameStateRef aboutToLose) in Hcross.
    destruct (proj2 (proj2 (game_tick_resolves aboutToLose)) Hv Hp Hn)
      as [[Hi _]|[[Hh _]|[Hm Hpub]]].
    + exfalso. destruct Hi as [Hi _]. apply (Rlt_not_le _ _ Hcross Hi).
    + exfalso. destruct Hh as (_ & (a & Ha & Hw) & _).
      change (bounceGameStateRef aboutToLose) with (ballAtTop 180) in Ha, Hw.
      rewrite (Hbear 180%R a Ha) in Hw. destruct Hw as (k & Hk).
      change (BounceGameState.paddleAngle (ballAtTop 180)) with 180%R in Hk.
      unfold Bounce.PADDLE_ARC_ANGLE in Hk. apply Rabs_bounds in Hk.
      assert (H1 : (k < 1)%Z) by (apply lt_IZR; lra).
      assert (H2 : (0 < k)%Z) by (apply lt_IZR; lra).
      lia.
    + refine (conj Hv (conj Hp (conj Hm _))). rewrite Hpub.
      destruct Hm as (_ & _ & Hs & _). exact Hs.
Defined.

(** ** Where the stack keeps a frame *)

Lemma placed_app (st : list ViewFrame.t) (f : ViewFrame.t) :
  placed st -> (minDepth (ViewFrame.id f) <= List.length st)%nat ->
  placed (st ++ [f]).
Proof.
  intros Hp Hf i g Hi.
  destruct (Nat.lt_ge_cases i (List.length st)) as [Hlt|Hge].
  - rewrite nth_error_app1 in Hi by exact Hlt. apply Hp. exact Hi.
  - rewrite nth_error_app2 in Hi by exact Hge.
    destruct (i - List.length st)%nat as [|k] eqn:E; simpl in Hi.
    + injection Hi as <-. lia.
    + destruct k; discriminate.
Qed.

Lemma placed_slice0 (st : list ViewFrame.t) (k : nat) :
  placed st -> placed (JS.slice0 st k).
Proof.
  intros Hp i f Hi. unfold JS.slice0 in Hi. apply Hp.
  assert (Hlt : (i < List.length st - k)%nat).
  { destruct (Nat.lt_ge_cases i (List.length st - k)) as [H|H]; [exact H|].
    rewrite nth_error_firstn in Hi.
    replace (i <? List.length st - k)%nat with false in Hi
      by (symmetry; apply Nat.ltb_ge; exact H).
    discriminate. }
  rewrite nth_error_firstn in Hi.
  replace (i <? List.length st - k)%nat with true in Hi
    by (symmetry; apply Nat.ltb_lt; exact Hlt).
  exact Hi.
Qed.

Lemma placed_top (s : AppState) (cv : ViewFrame.t) :
  placed (navigationStack s) -> currentView s = Some cv ->
  (minDepth (ViewFrame.id cv) < List.length (navigationStack s))%nat.
Proof.
  intros Hp Hcv. unfold currentView, JS.at_, JS.len in Hcv.
  destruct (Z.of_nat (List.length (navigationStack s)) - 1 <? 0) eqn:E;
    [discriminate|].
  apply Z.ltb_ge in E. specialize (Hp _ _ Hcv). lia.
Qed.

(** Membership in a list of rows, down to the row. *)
Ltac in_rows H :=
  repeat match type of H with
         | In _ (_ ++ _) => apply in_app_or in H; destruct H as [H|H]
         | In _ (map _ _) => apply in_map_iff in H; destruct H as (? & <- & H)
         | In _ (_ :: _) => destruct H as [<-|H]
         | In _ [] => contradiction
         | In _ (match ?x with _ => _ end) => destruct x
         | _ = _ \/ _ => destruct H as [<-|H]
         | False => contradiction
         end.

(** The rows of a menu push frames where they may be, and the row that pops
    two frames is offered at depth 3 or more. *)
Lemma menu_rows_ok (s : AppState) (row : MenuItem.t) :
  navOk s -> In row (menuItems s) ->
  rowOk (List.length (navigationStack s)) (MenuItem.action row).
Proof.
  intros [Hne Hp] Hin. unfold menuItems, computeMenuItems in Hin.
  destruct (currentView s) as [cv|] eqn:Ecv; [|contradiction].
  pose proof (placed_top s cv Hp Ecv) as Hd.
  remember (List.length (navigationStack s)) as depth eqn:Edepth.
  repeat match type of Hin with
         | In _ (fst (if String.eqb ?v ?c then _ else _)) =>
             let E := fresh "E" in
             destruct (String.eqb v c) eqn:E;
             [apply String.eqb_eq in E; rewrite E in Hd;
              unfold minDepth, JS.startsWith in Hd; simpl in Hd|]
         | In _ (fst (if JS.startsWith ?v ?c then _ else _)) =>
             destruct (JS.startsWith v c)
         | In _ (fst (match ?x with _ => _ end)) => destruct x
         end;
    simpl in Hin; unfold songRows in Hin; in_rows Hin;
    unfold rowOk, minDepth, JS.startsWith; simpl;
    try exact I; lia.
Qed.

Lemma navOk_same (s s' : AppState) :
  navigationStack s' = navigationStack s -> navOk s -> navOk s'.
Proof. intros E H. unfold navOk. rewrite E. exact H. Qed.

Lemma navOk_push (s s' : AppState) (f : ViewFrame.t) :
  navigationStack s' = navigationStack s ++ [f] ->
  (minDepth (ViewFrame.id f) <= List.length (navigationStack s))%nat ->
  navOk s -> navOk s'.
Proof.
  intros E Hf [Hne Hp]. unfold navOk. rewrite E. split.
  - destruct (navigationStack s); discriminate.
  - apply placed_app; assumption.
Qed.

Lemma navOk_slice (s s' : AppState) (k : nat) :
  navigationStack s' = JS.slice0 (navigationStack s) k ->
  (k < List.length (navigationStack s))%nat ->
  navOk s -> navOk s'.
Proof.
  intros E Hk [Hne Hp]. unfold navOk. rewrite E. split.
  - unfold JS.slice0. intros H. apply (f_equal (@List.length _)) in H.
    rewrite length_firstn in H. simpl in H. lia.
  - apply placed_slice0. exact Hp.
Qed.

Lemma handleMenuClick_navOk (s : AppState) : navOk s -> navOk (handleMenuClick s).
Proof.
  intros H. pose proof (handleMenuClick_stack s) as E.
  destruct (1 <? JS.len (navigationStack s)) eqn:E1.
  - apply Z.ltb_lt in E1. unfold JS.len in E1.
    apply (navOk_slice s _ 1 E); [lia | exact H].
  - apply (navOk_same s _ E H).
Qed.

(** What a menu action does to the stack. *)
Lemma invoke_stack (a : Action) (s : AppState) :
  navigationStack (invoke a s)
  = match a with
    | ANowPlaying =>
        match currentTrackId s with
        | Some _ => navigationStack s ++ [frame0 "now-playing"]
        | None => navigationStack s
        end
    | APush f => navigationStack s ++ [f]
    | AFocus => navigationStack s ++ [frame0 "focus"]
    | ABounce => navigationStack s ++ [frame0 "bounce-game"]
    | ASearch => navigationStack s ++ [frame0 "search"]
    | AClearLibrary => navigationStack s ++ [frame0 "clearing-library"]
    | AMenuClick => navigationStack (handleMenuClick s)
    | _ => navigationStack s
    end.
Proof.
  destruct a; simpl;
    unfold handleFocusPlayPause, handleSessionEnd, updateFocusSetting,
      createPlayAction, resetBounceGame, mathRandom, pushView, handleClearLibrary,
      frame0;
    branches; reflexivity.
Qed.

Lemma invoke_navOk (a : Action) (s : AppState) :
  navOk s -> rowOk (List.length (navigationStack s)) a -> navOk (invoke a s).
Proof.
  intros H Hrow. pose proof (invoke_stack a s) as E.
  destruct a; simpl in Hrow;
    try (apply (navOk_same s _ E H));
    try (apply (navOk_push s _ _ E); [exact (Nat.le_0_l _) | exact H]).
  - destruct (currentTrackId s);
      [apply (navOk_push s _ _ E); [exact (Nat.le_0_l _) | exact H]
      | apply (navOk_same s _ E H)].
  - apply (navOk_push s _ _ E Hrow H).
  - apply (navOk_same (handleMenuClick s) _ E). apply handleMenuClick_navOk, H.
Qed.

Lemma stack_split (s : AppState) (cv : ViewFrame.t) :
  currentView s = Some cv ->
  navigationStack s = JS.slice0 (navigationStack s) 1 ++ [cv].
Proof.
  intros Hcv.
  destruct (navigationStack s) as [|f st] eqn:E using rev_ind.
  - apply currentView_None in E. congruence.
  - rewrite (currentView_top s _ _ E) in Hcv. injection Hcv as <-.
    rewrite slice0_app_last. reflexivity.
Qed.

Lemma placed_retop (st : list ViewFrame.t) (f f' : ViewFrame.t) :
  ViewFrame.id f' = ViewFrame.id f -> placed (st ++ [f]) -> placed (st ++ [f']).
Proof.
  intros Eid Hp i g Hi.
  destruct (Nat.lt_ge_cases i (List.length st)) as [Hlt|Hge].
  - apply Hp. rewrite nth_error_app1 in Hi |- * by exact Hlt. exact Hi.
  - rewrite nth_error_app2 in Hi by exact Hge.
    destruct (i - List.length st)%nat as [|k] eqn:E; simpl in Hi;
      [|destruct k; discriminate].
    injection Hi as <-. rewrite Eid. apply Hp.
    rewrite nth_error_app2 by exact Hge. rewrite E. reflexivity.
Qed.

Lemma updateTop_navOk (f : ViewFrame.t -> Z) (s : AppState) :
  navOk s -> navOk (updateTop f s).
Proof.
  intros H. unfold updateTop. destruct (currentView s) as [last|] eqn:Ecv; [|exact H].
  destruct H as [Hne Hp]. rewrite (stack_split s last Ecv) in Hp.
  split; simpl.
  - destruct (JS.slice0 (navigationStack s) 1); discriminate.
  - apply (placed_retop _ last); [reflexivity | exact Hp].
Qed.

Lemma render_navOk (s : AppState) : navOk s -> navOk (render s).
Proof. apply navOk_same. reflexivity. Qed.

Lemma handleScroll_navOk (d : Z) (s : AppState) :
  navOk s -> navOk (handleScroll d s).
Proof.
  intros H. unfold handleScroll, handleSetRating, setVolumeState.
  branches;
    first [ exact H
          | apply updateTop_navOk; exact H
          | apply (navOk_same s); [reflexivity | exact H] ].
Qed.

Lemma handleSelectClick_navOk (s : AppState) :
  navOk s -> navOk (handleSelectClick s).
Proof.
  intros H. unfold handleSelectClick.
  destruct (currentView s) as [cv|] eqn:Ecv; [|exact H].
  assert (Hsel : navOk match JS.at_ (menuItems s) (ViewFrame.activeIndex cv) with
                       | Some row => invoke (MenuItem.action row) s
                       | None => s
                       end).
  { destruct (JS.at_ (menuItems s) (ViewFrame.activeIndex cv)) as [row|] eqn:Erow;
      [|exact H].
    apply invoke_navOk; [exact H|]. apply menu_rows_ok; [exact H|].
    eapply at_In; eauto. }
  pose proof (placed_top s cv (proj2 H) Ecv) as Hd.
  destruct (JS.startsWith (ViewFrame.id cv) "focus-setting-edit/") eqn:Eedit.
  { unfold minDepth in Hd. rewrite Eedit in Hd.
    destruct (nth_error (JS.split "/" (ViewFrame.id cv)) 1);
      apply (navOk_slice s _ 1); try lia; try exact H;
      unfold updateFocusSetting; branches; reflexivity. }
  destruct (String.eqb (ViewFrame.id cv) "bounce-game").
  { destruct (BounceGameState.gameState (bounceGame s)); auto. }
  destruct (String.eqb (ViewFrame.id cv) "now-playing");
    [apply (navOk_same s); [reflexivity | exact H]|].
  destruct (String.eqb (ViewFrame.id cv) "load"); [exact H|].
  destruct (String.eqb (ViewFrame.id cv) "cover-flow" && (0 <? JS.len (coverFlowItems s)));
    [|exact Hsel].
  destruct (JS.at_ (coverFlowItems s) (ViewFrame.activeIndex cv)); [|exact H].
  eapply (navOk_push s); [reflexivity | exact (Nat.le_0_l _) | exact H].
Qed.

Lemma quickAdd_stack (o : option Z) (s : AppState) :
  navigationStack (quickAdd o s) = navigationStack s.
Proof. unfold quickAdd. branches; reflexivity. Qed.

Lemma trackLoadSettle_stack (result : option (option Song.t)) (queue : list Z)
  (track : option Z) (mode : RepeatMode) (s : AppState) :
  navigationStack (trackLoadSettle result queue track mode s) = navigationStack s.
Proof. unfold trackLoadSettle, handleNextOf. branches; reflexivity. Qed.

Lemma fireTimer_navOk (id : nat) (s : AppState) :
  pendingCallback s id <> Some CbGoBack ->
  pendingCallback s id <> Some CbResetStatsDone ->
  navOk s -> navOk (fireTimer id s).
Proof.
  unfold pendingCallback, fireTimer. intros Hcb Hrs H.
  destruct (List.find _ (Browser.timers (browser s))) as [[i cb]|]; [|exact H].
  destruct cb; simpl in Hcb, Hrs |- *.
  - apply (navOk_same s); [|exact H]. simpl. rewrite quickAdd_stack. reflexivity.
  - congruence.
  - split; [discriminate|]. intros [|[|k]] f Hf; simpl in Hf; try discriminate.
    injection Hf as <-. apply Nat.le_0_l.
  - apply (navOk_same s); [reflexivity | exact H].
  - congruence.
  - apply (navOk_same s); [|exact H]. rewrite trackLoadSettle_stack. reflexivity.
Qed.

Lemma root_navOk (id : string) (s : AppState) :
  minDepth id = 0%nat -> navOk (set_navigationStack [frame0 id] s).
Proof.
  intros Hid. split; [discriminate|].
  intros [|[|k]] f Hf; simpl in Hf; try discriminate.
  injection Hf as <-. simpl. rewrite Hid. apply Nat.le_0_l.
Qed.

Lemma initializeApp_navOk (s : AppState) : navOk s -> navOk (initializeApp s).
Proof.
  intros H. unfold initializeApp.
  destruct (Browser.dbOk (browser s)); [|exact H].
  destruct (0 <? JS.len _); apply root_navOk; reflexivity.
Qed.

Lemma handleFileChange_navOk (files : list (option ParsedSong.t)) (s : AppState) :
  navOk s -> navOk (handleFileChange files s).
Proof.
  intros H. unfold handleFileChange.
  destruct files; [exact H|].
  destruct (Browser.dbOk (browser s)); [|exact H].
  apply root_navOk. reflexivity.
Qed.

(** At start-up the stack is in order. *)
Lemma initialState_navOk (b : Browser.t) (d : Db.t) : navOk (initialState b d).
Proof.
  split; [discriminate|].
  intros [|[|k]] f Hf; simpl in Hf; try discriminate.
  injection Hf as <-. apply Nat.le_0_l.
Qed.

(** Apart from the two pops that run later and without a guard (the go-back
    timeout of [handleClearLibrary] and the end of the reset of the statistics),
    every event leaves a frame on a stack that is in order, and leaves the stack
    in order: pushes, the back button, the commit of an edit view and the
    replacements of the whole stack. *)
Lemma step_navOk (s : AppState) (e : Event) :
  navOk s -> notDelayedPop s e -> navOk (step s e).
Proof.
  intros H Hgb. apply render_navOk in H. unfold step.
  destruct e;
    try (apply (navOk_same (render s)); [|exact H];
         unfold handlePlayPause, handleNext, handlePrev, handleSelectMouseDown,
           focusTick, handleSessionEnd, gameLoop, trackLoadEffect, trackLoadBegin,
           handleMediaSessionPlay, handleFocusPlayPause, setBounceGame;
         branches; reflexivity).
  - apply initializeApp_navOk, H.
  - apply handleFileChange_navOk, H.
  - apply handleScroll_navOk, H.
  - apply handleMenuClick_navOk, H.
  - apply (navOk_same (render s)); [reflexivity | exact H].
  - unfold handleSelectMouseUp. branches; try exact H.
    apply handleSelectClick_navOk. apply (navOk_same (render s)); [reflexivity | exact H].
  - apply fireTimer_navOk; [apply (Hgb id eq_refl) | apply (Hgb id eq_refl) | exact H].
  - apply (navOk_same (render s)); [|exact H].
    unfold trackLoadEffect.
    destruct (currentTrackId (set_currentObjectUrl None (render s))) as [tid|];
      [|reflexivity].
    destruct (db_songs_get tid _) as [[song|]|];
      [destruct (Song.fileBlob song); reflexivity | |];
      unfold handleNext; branches; reflexivity.
Qed.

Lemma run_navOk (es : list Event) (s : AppState) :
  navOk s ->
  (forall pre e post, es = pre ++ e :: post -> notDelayedPop (run s pre) e) ->
  navOk (run s es).
Proof.
  revert s. induction es as [|e es IH]; intros s H Hes; [exact H|].
  simpl. apply IH.
  - apply step_navOk; [exact H|]. apply (Hes [] e es eq_refl).
  - intros pre e' post E. apply (Hes (e :: pre) e' post). rewrite E. reflexivity.
Qed.

(** ** The queues the menus build *)

(** A row that plays a song plays it within a context that holds the song:
    the ids of the rows of the list it belongs to. *)
Lemma play_rows_hold_their_song (s : AppState) (row : MenuItem.t) (id : Z)
  (queue : list Z) :
  In row (menuItems s) ->
  MenuItem.action row = APlay id queue ->
  In id queue /\ MenuItem.songId row = Some id.
Proof.
  intros Hin. unfold menuItems, computeMenuItems in Hin.
  destruct (currentView s) as [cv|]; [|contradiction].
  repeat match type of Hin with
         | In _ (fst (if ?c then _ else _)) => destruct c
         | In _ (fst (match ?x with _ => _ end)) => destruct x
         end;
    simpl in Hin; unfold songRows in Hin; in_rows Hin; simpl; try discriminate;
    intros E; injection E as <- <-; (split; [apply in_map; assumption | reflexivity]).
Qed.

(** * Further properties of the controller *)

(** ** Numbers and separators in view ids *)

Lemma digitsValue_step (c : ascii) (rest : string) (a : Z) :
  JS.isDigit c = true ->
  JS.digitsValue (Some a) (String c rest)
  = JS.digitsValue (Some (10 * a + (Z.of_nat (nat_of_ascii c) - 48))) rest.
Proof. intros H. simpl. rewrite H. reflexivity. Qed.

Lemma digitsValue_start (c : ascii) (rest : string) :
  JS.isDigit c = true ->
  JS.digitsValue None (String c rest)
  = JS.digitsValue (Some (Z.of_nat (nat_of_ascii c) - 48)) rest.
Proof. intros H. simpl. rewrite H. reflexivity. Qed.

Ltac digit_code :=
  repeat match goal with
         | |- context [Z.of_nat (nat_of_ascii ?c)] =>
             let v := eval vm_compute in (Z.of_nat (nat_of_ascii c)) in
             change (Z.of_nat (nat_of_ascii c)) with v
         end.

Lemma digitsValue_of_uint_acc (d : Decimal.uint) (acc : positive) :
  JS.digitsValue (Some (Z.pos acc)) (NilEmpty.string_of_uint d)
  = Some (Z.pos (Pos.of_uint_acc d acc)).
Proof.
  revert acc; induction d; intros acc;
    [ reflexivity
    | cbn [NilEmpty.string_of_uint Pos.of_uint_acc];
      rewrite digitsValue_step by reflexivity; digit_code;
      rewrite <- IHd; do 2 f_equal; lia .. ].
Qed.

Lemma digitsValue_of_uint (d : Decimal.uint) (a : option Z) :
  a = None \/ a = Some 0 ->
  d <> Decimal.Nil ->
  JS.digitsValue a (NilEmpty.string_of_uint d) = Some (Z.of_N (Pos.of_uint d)).
Proof.
  revert a; induction d; intros a Ha Hd; try congruence;
    cbn [NilEmpty.string_of_uint Pos.of_uint].
  1: { (* a leading zero *)
    assert (E : JS.digitsValue a (String "0" (NilEmpty.string_of_uint d))
                = JS.digitsValue (Some 0) (NilEmpty.string_of_uint d))
      by (destruct Ha as [-> | ->]; reflexivity).
    rewrite E. destruct d; try (apply IHd; [right; reflexivity | discriminate]).
    reflexivity. }
  all: destruct Ha as [-> | ->];
    [rewrite digitsValue_start by reflexivity
    |rewrite digitsValue_step by reflexivity]; digit_code;
    apply digitsValue_of_uint_acc.
Qed.

Lemma string_of_uint_digits (d : Decimal.uint) :
  allDigits (NilEmpty.string_of_uint d).
Proof.
  unfold allDigits.
  induction d; cbn [NilEmpty.string_of_uint list_ascii_of_string];
    constructor; auto.
Qed.

Lemma to_uint_not_Nil (p : positive) : Pos.to_uint p <> Decimal.Nil.
Proof.
  intros E. pose proof (DecimalPos.Unsigned.of_to p) as H.
  rewrite E in H. discriminate.
Qed.

Lemma numToString_pos (p : positive) :
  JS.numToString (Z.pos p) = NilEmpty.string_of_uint (Pos.to_uint p).
Proof.
  unfold JS.numToString. cbn [Z.to_int NilZero.string_of_int].
  pose proof (to_uint_not_Nil p). destruct (Pos.to_uint p); congruence || reflexivity.
Qed.

Lemma numToString_neg (p : positive) :
  JS.numToString (Z.neg p) = String "-" (NilEmpty.string_of_uint (Pos.to_uint p)).
Proof.
  unfold JS.numToString. cbn [Z.to_int NilZero.string_of_int].
  pose proof (to_uint_not_Nil p). destruct (Pos.to_uint p); congruence || reflexivity.
Qed.

Lemma isDigit_not_space (c : ascii) : JS.isDigit c = true -> JS.isSpace c = false.
Proof.
  unfold JS.isDigit, JS.isSpace. intros H.
  apply andb_true_iff in H. destruct H as [H1 H2].
  apply Nat.leb_le in H1. apply Nat.leb_le in H2.
  destruct (Nat.eqb_spec (nat_of_ascii c) 32); [lia|].
  destruct (Nat.leb_spec (nat_of_ascii c) 13); [|rewrite andb_false_r; reflexivity].
  lia.
Qed.

Lemma parseInt_digits (c : ascii) (rest : string) :
  JS.isDigit c = true ->
  JS.parseInt (String c rest) = JS.digitsValue None (String c rest).
Proof.
  intros H. unfold JS.parseInt. cbn [JS.trimStart].
  rewrite (isDigit_not_space c H).
  destruct c as [[] [] [] [] [] [] [] []]; try reflexivity; discriminate H.
Qed.

Lemma parseInt_uint (d : Decimal.uint) :
  d <> Decimal.Nil ->
  JS.parseInt (NilEmpty.string_of_uint d) = Some (Z.of_N (Pos.of_uint d)).
Proof.
  intros Hd. rewrite <- (digitsValue_of_uint d None) by auto.
  pose proof (string_of_uint_digits d) as D. unfold allDigits in D.
  destruct (NilEmpty.string_of_uint d) as [|c rest] eqn:E.
  - destruct d; discriminate || congruence.
  - apply parseInt_digits. inversion D; assumption.
Qed.

(** [parseInt] reads back the integer a template literal has written. *)
Lemma parseInt_numToString (n : Z) : JS.parseInt (JS.numToString n) = Some n.
Proof.
  destruct n as [|p|p].
  - reflexivity.
  - rewrite numToString_pos, parseInt_uint by apply to_uint_not_Nil.
    rewrite DecimalPos.Unsigned.of_to. reflexivity.
  - rewrite numToString_neg. unfold JS.parseInt. cbn [JS.trimStart].
    change (JS.isSpace "-") with false. cbv iota.
    rewrite digitsValue_of_uint by (auto using to_uint_not_Nil).
    rewrite DecimalPos.Unsigned.of_to. reflexivity.
Qed.

Lemma includesChar_digits (c : ascii) (s : string) :
  JS.isDigit c = false -> allDigits s -> JS.includesChar c s = false.
Proof.
  unfold allDigits. intros Hc. induction s as [|d rest IH]; intros H; [reflexivity|].
  cbn [list_ascii_of_string] in H. inversion H as [|? ? Hd Hrest]; subst.
  cbn [JS.includesChar]. rewrite (IH Hrest), orb_false_r.
  destruct (Ascii.eqb_spec c d); [subst; congruence | reflexivity].
Qed.

(** A numeral holds no character other than digits and the sign. *)
Lemma includesChar_numToString (c : ascii) (n : Z) :
  JS.isDigit c = false -> c <> "-"%char ->
  JS.includesChar c (JS.numToString n) = false.
Proof.
  intros Hc Hm. destruct n as [|p|p].
  - cbn. destruct (Ascii.eqb_spec c "0"); [subst; discriminate Hc | reflexivity].
  - rewrite numToString_pos. apply includesChar_digits; auto using string_of_uint_digits.
  - rewrite numToString_neg. cbn [JS.includesChar].
    rewrite includesChar_digits by auto using string_of_uint_digits.
    destruct (Ascii.eqb_spec c "-"); [contradiction | reflexivity].
Qed.

Lemma split_nonempty (sep : ascii) (s : string) : JS.split sep s <> [].
Proof.
  destruct s as [|c rest]; cbn [JS.split]; [discriminate|].
  destruct (Ascii.eqb c sep); [discriminate|].
  destruct (JS.split sep rest); discriminate.
Qed.

Lemma split_no_sep (sep : ascii) (s : string) :
  JS.includesChar sep s = false -> JS.split sep s = [s].
Proof.
  induction s as [|c rest IH]; intros H; [reflexivity|].
  cbn [JS.includesChar] in H. apply orb_false_iff in H. destruct H as [H1 H2].
  cbn [JS.split]. rewrite Ascii.eqb_sym, H1, (IH H2). reflexivity.
Qed.

Lemma split_app (sep : ascii) (a b : string) :
  JS.includesChar sep a = false ->
  JS.split sep (a ++ String sep b) = a :: JS.split sep b.
Proof.
  induction a as [|c rest IH]; intros H.
  - cbn [append JS.split]. rewrite Ascii.eqb_refl. reflexivity.
  - cbn [JS.includesChar] in H. apply orb_false_iff in H. destruct H as [H1 H2].
    cbn [append JS.split]. rewrite Ascii.eqb_sym, H1, (IH H2). reflexivity.
Qed.

Lemma includesChar_app (sep : ascii) (a b : string) :
  JS.includesChar sep (a ++ b) = JS.includesChar sep a || JS.includesChar sep b.
Proof.
  induction a as [|c rest IH]; [reflexivity|].
  cbn [append JS.includesChar]. rewrite IH, orb_assoc. reflexivity.
Qed.

(** The parameter of a view id [prefix/param]: the text of [param] up to its
    first slash. *)
Lemma viewParamOf_route (prefix param : string) :
  JS.includesChar "/" prefix = false ->
  viewParamOf (prefix ++ String "/" param)
  = Some (hd EmptyString (JS.split "/" param)).
Proof.
  intros H. unfold viewParamOf.
  rewrite includesChar_app. cbn [JS.includesChar]. rewrite Ascii.eqb_refl.
  rewrite orb_true_r, split_app by exact H.
  pose proof (split_nonempty "/" param).
  destruct (JS.split "/" param); [congruence | reflexivity].
Qed.

(** ** [Array.prototype.sort], [find] and [new Set] *)

Section SortFacts.
Context {A : Type} (cmp : A -> A -> Z).

Lemma insert_Permutation (x : A) (l : list A) :
  Permutation (JS.insert cmp x l) (x :: l).
Proof.
  induction l as [|y l IH]; cbn [JS.insert]; [reflexivity|].
  destruct (0 <? cmp x y); [|reflexivity].
  rewrite IH. apply perm_swap.
Qed.

Lemma sort_Permutation (l : list A) : Permutation (JS.sort cmp l) l.
Proof.
  induction l as [|x l IH]; [reflexivity|].
  cbn [JS.sort fold_right]. fold (JS.sort cmp l).
  rewrite insert_Permutation, IH. reflexivity.
Qed.

Lemma sort_In (l : list A) (x : A) : In x (JS.sort cmp l) <-> In x l.
Proof.
  split; apply Permutation_in; [|symmetry]; apply sort_Permutation.
Qed.

Lemma sort_length (l : list A) : List.length (JS.sort cmp l) = List.length l.
Proof. apply Permutation_length, sort_Permutation. Qed.

(** On a comparator that never puts two elements each after the other, the
    result is in order. *)
Hypothesis cmp_asym : forall a b, 0 < cmp a b -> cmp b a <= 0.

Lemma insert_HdRel (x y : A) (l : list A) :
  cmp y x <= 0 ->
  Sorted.HdRel (fun a b => cmp a b <= 0) y l ->
  Sorted.HdRel (fun a b => cmp a b <= 0) y (JS.insert cmp x l).
Proof.
  intros Hyx H. destruct l as [|z l]; cbn [JS.insert]; [constructor; exact Hyx|].
  destruct (0 <? cmp x z); constructor; [inversion H; assumption | exact Hyx].
Qed.

Lemma insert_Sorted (x : A) (l : list A) :
  Sorted.Sorted (fun a b => cmp a b <= 0) l ->
  Sorted.Sorted (fun a b => cmp a b <= 0) (JS.insert cmp x l).
Proof.
  induction l as [|y l IH]; intros H; cbn [JS.insert].
  - repeat constructor.
  - inversion H as [|? ? Hl Hy]; subst.
    destruct (Z.ltb_spec 0 (cmp x y)) as [Hlt|Hge].
    + constructor; [apply IH; exact Hl|].
      apply insert_HdRel; [apply cmp_asym; exact Hlt | exact Hy].
    + constructor; [exact H|]. constructor. exact Hge.
Qed.

Lemma sort_Sorted (l : list A) : Sorted.Sorted (fun a b => cmp a b <= 0) (JS.sort cmp l).
Proof.
  induction l as [|x l IH]; [constructor|].
  cbn [JS.sort fold_right]. apply insert_Sorted. exact IH.
Qed.

End SortFacts.

Lemma find_Some_In {A} (p : A -> bool) (l : list A) (x : A) :
  JS.find p l = Some x -> In x l /\ p x = true.
Proof. apply find_some. Qed.

(** A lookup by a key that no two elements share finds the element that
    holds the key, wherever it stands. *)
Lemma find_by_key {A} (key : A -> Z) (l : list A) (x : A) :
  NoDup (map key l) -> In x l ->
  JS.find (fun y => key y =? key x) l = Some x.
Proof.
  unfold JS.find. induction l as [|y l IH]; intros Hnd Hin; [contradiction|].
  cbn [map] in Hnd. inversion Hnd as [|? ? Hy Hl]; subst.
  cbn [List.find]. destruct Hin as [->|Hin].
  - rewrite Z.eqb_refl. reflexivity.
  - destruct (Z.eqb_spec (key y) (key x)) as [E|_]; [|apply IH; assumption].
    exfalso. apply Hy. rewrite E. apply in_map. exact Hin.
Qed.

Lemma find_key_spec {A} (key : A -> Z) (k : Z) (l : list A) :
  match JS.find (fun y => key y =? k) l with
  | Some x => In x l /\ key x = k
  | None => ~ In k (map key l)
  end.
Proof.
  unfold JS.find. destruct (List.find _ l) as [x|] eqn:E.
  - apply find_some in E. destruct E as [H1 H2]. apply Z.eqb_eq in H2. auto.
  - intros Hin. apply in_map_iff in Hin. destruct Hin as (x & Hx & Hin).
    pose proof (find_none _ _ E x Hin) as H. cbn in H.
    apply Z.eqb_neq in H. auto.
Qed.

Lemma NoDup_map_Permutation {A B} (f : A -> B) (l l' : list A) :
  Permutation l l' -> NoDup (map f l) -> NoDup (map f l').
Proof.
  intros P. apply Permutation_NoDup, Permutation_map, P.
Qed.

Lemma filter_keeps_distinct_keys {X K : Type} (key : X -> K) (keep : X -> bool)
  (xs : list X) :
  NoDup (map key xs) -> NoDup (map key (filter keep xs)).
Proof.
  induction xs as [|x xs IH]; intros H; [constructor|].
  cbn [map] in H. inversion H as [|? ? Hx Hl]; subst.
  cbn [filter]. destruct (keep x); [|auto].
  cbn [map]. constructor; [|auto].
  intros Hin. apply Hx. apply in_map_iff in Hin. destruct Hin as (y & E & Hy).
  apply filter_In in Hy. rewrite <- E. apply in_map. tauto.
Qed.

Lemma uniqAcc_In (seen l : list string) (x : string) :
  In x (JS.uniqAcc seen l) <-> In x l /\ ~ In x seen.
Proof.
  revert seen; induction l as [|y l IH]; intros seen; cbn [JS.uniqAcc].
  - cbn. tauto.
  - destruct (existsb (String.eqb y) seen) eqn:E.
    + rewrite IH. apply existsb_exists in E. destruct E as (z & Hz & Ez).
      apply String.eqb_eq in Ez. subst z. cbn [In].
      split; [tauto|]. intros [[->|H] Hn]; tauto.
    + cbn [In]. rewrite IH. cbn [In].
      assert (Hy : ~ In y seen).
      { intros Hin.
        assert (existsb (String.eqb y) seen = true)
          by (apply existsb_exists; exists y; split; [exact Hin | apply String.eqb_refl]).
        congruence. }
      destruct (string_dec y x) as [->|Hne]; [tauto|].
      split; [intros [?|[? ?]]; [congruence|tauto] | intros [[?|?] ?]; [congruence|]].
      right. split; [assumption|]. intros [?|?]; [congruence|tauto].
Qed.

Lemma uniqAcc_NoDup (seen l : list string) : NoDup (JS.uniqAcc seen l).
Proof.
  revert seen; induction l as [|y l IH]; intros seen; cbn [JS.uniqAcc];
    [constructor|].
  destruct (existsb (String.eqb y) seen); [apply IH|].
  constructor; [|apply IH].
  rewrite uniqAcc_In. cbn [In]. tauto.
Qed.

Lemma uniq_In (l : list string) (x : string) : In x (JS.uniq l) <-> In x l.
Proof. unfold JS.uniq. rewrite uniqAcc_In. cbn. tauto. Qed.

Lemma uniq_NoDup (l : list string) : NoDup (JS.uniq l).
Proof. apply uniqAcc_NoDup. Qed.

(** ** Views addressed by an id with a parameter *)

Lemma prefix_empty (x : string) : String.prefix "" x = true.
Proof. destruct x; reflexivity. Qed.

Ltac view_chain :=
  unfold JS.startsWith; cbn [String.eqb Ascii.eqb Bool.eqb andb append];
  repeat match goal with
         | |- context [String.prefix ?p ?t] =>
             let v := eval simpl in (String.prefix p t) in
             progress change (String.prefix p t) with v
         end;
  rewrite ?prefix_empty; cbv iota.

Lemma menuItems_playlist_songs (s : AppState) (st : list ViewFrame.t)
  (x : string) (k : Z) :
  navigationStack s = st ++ [frame0 ("playlist-songs/" ++ x)] ->
  JS.includesChar "/" x = false ->
  JS.parseInt x = Some k ->
  menuItems s
  = match allPlaylists s with
    | Some pls =>
        match JS.find (fun p => Playlist.id p =? k) pls with
        | Some playlist =>
            songRows (catOptions (map (findSong (songs s)) (Playlist.songIds playlist)))
        | None => []
        end
    | None => []
    end.
Proof.
  intros H Hx Hk.
  assert (Hp : viewParamOf ("playlist-songs/" ++ x) = Some x).
  { change ("playlist-songs/" ++ x)%string
      with ("playlist-songs" ++ String "/" x)%string.
    rewrite viewParamOf_route by reflexivity.
    rewrite split_no_sep by exact Hx. reflexivity. }
  unfold menuItems, computeMenuItems.
  rewrite (currentView_top s st _ H). cbn [ViewFrame.id frame0].
  rewrite Hp. view_chain. cbn [option_map]. rewrite Hk.
  destruct (allPlaylists s) as [pls|]; [|reflexivity].
  destruct (JS.find _ pls); reflexivity.
Qed.

Lemma viewIs_inv (s : AppState) (id : string) :
  viewIs s id = true ->
  exists cv, currentView s = Some cv /\ ViewFrame.id cv = id.
Proof.
  unfold viewIs. destruct (currentView s) as [cv|]; [|discriminate].
  intros H. apply String.eqb_eq in H. eauto.
Qed.

Lemma menuItems_playlists (s : AppState) :
  viewIs s "playlists" = true ->
  menuItems s
  = match allPlaylists s with
    | None => []
    | Some pls =>
        match JS.find isOtg pls with
        | Some p => [playlistRow p]
        | None => []
        end ++ map playlistRow (filter (fun p => negb (isOtg p)) pls)
    end.
Proof.
  intros H. apply viewIs_inv in H. destruct H as (cv & Hcv & Hid).
  unfold menuItems, computeMenuItems. rewrite Hcv, Hid. view_chain.
  destruct (allPlaylists s); reflexivity.
Qed.

(** X1: every row of the Playlists menu opens the song list of the playlist
    whose name it shows: the id written into the view id is read back by
    [parseInt] and found again among the stored playlists. *)
Theorem playlist_rows_open_their_playlist (s : AppState) (row : MenuItem.t) :
  viewIs s "playlists" = true ->
  NoDup (map Playlist.id (Db.playlists (db s))) ->
  In row (menuItems s) ->
  exists p,
    In p (Db.playlists (db s)) /\
    MenuItem.label row = Playlist.name p /\
    menuItems (invoke (MenuItem.action row) s)
    = songRows (catOptions (map (findSong (songs s)) (Playlist.songIds p))).
Proof.
  intros Hv Hnd Hin. rewrite (menuItems_playlists s Hv) in Hin.
  destruct (allPlaylists s) as [pls|] eqn:Hall; [|contradiction].
  assert (Hpls : pls = JS.sort (fun a b => JS.defaultCompare (Playlist.name a)
                                             (Playlist.name b))
                         (Db.playlists (db s))).
  { unfold allPlaylists in Hall. destruct (Browser.dbOk (browser s)); congruence. }
  assert (Hrow : exists p, In p pls /\ row = playlistRow p).
  { apply in_app_or in Hin. destruct Hin as [Hin|Hin].
    - destruct (JS.find isOtg pls) as [p|] eqn:E; [|contradiction].
      destruct Hin as [<-|[]]. exists p. split; [|reflexivity].
      apply (find_Some_In _ _ _ E).
    - apply in_map_iff in Hin. destruct Hin as (p & <- & Hp).
      apply filter_In in Hp. exists p. tauto. }
  destruct Hrow as (p & Hp & ->). exists p.
  split; [rewrite Hpls in Hp; apply sort_In in Hp; exact Hp|].
  split; [reflexivity|].
  cbn [playlistRow itemSub MenuItem.action invoke].
  rewrite (menuItems_playlist_songs _ (navigationStack s)
             (JS.numToString (Playlist.id p)) (Playlist.id p));
    [ | reflexivity | apply includesChar_numToString; [reflexivity | discriminate]
      | apply parseInt_numToString ].
  change (allPlaylists (push (frame0 ("playlist-songs/"
                                        ++ JS.numToString (Playlist.id p))) s))
    with (allPlaylists s).
  rewrite Hall, (find_by_key Playlist.id pls p); [reflexivity | | exact Hp].
  rewrite Hpls. apply (NoDup_map_Permutation _ (Db.playlists (db s)));
    [symmetry; apply sort_Permutation | exact Hnd].
Qed.

Lemma playlist_rows_open_their_playlist_witness :
  viewIs playlistsOpened "playlists" = true /\
  In (playlistRow emptyOnTheGo) (menuItems playlistsOpened) /\
  exists p,
    In p (Db.playlists (db playlistsOpened)) /\
    MenuItem.label (playlistRow emptyOnTheGo) = Playlist.name p /\
    menuItems (invoke (MenuItem.action (playlistRow emptyOnTheGo)) playlistsOpened)
    = songRows (catOptions (map (findSong (songs playlistsOpened))
                              (Playlist.songIds p))).
Proof.
  assert (Hv : viewIs playlistsOpened "playlists" = true) by (vm_compute; reflexivity).
  assert (Hnd : NoDup (map Playlist.id (Db.playlists (db playlistsOpened)))).
  { assert (E : map Playlist.id (Db.playlists (db playlistsOpened)) = [1])
      by (vm_compute; reflexivity).
    rewrite E. repeat constructor. intros []. }
  assert (Hin : In (playlistRow emptyOnTheGo) (menuItems playlistsOpened)).
  { assert (E : menuItems playlistsOpened = [playlistRow emptyOnTheGo])
      by (vm_compute; reflexivity).
    rewrite E. left. reflexivity. }
  exact (conj Hv (conj Hin
           (playlist_rows_open_their_playlist playlistsOpened
              (playlistRow emptyOnTheGo) Hv Hnd Hin))).
Defined.

Lemma beforeSlash_no_slash (a : string) :
  JS.includesChar "/" a = false -> beforeSlash a = a.
Proof. intros H. unfold beforeSlash. rewrite split_no_sep by exact H. reflexivity. Qed.

Lemma split_hd_no_sep (sep : ascii) (a : string) :
  JS.includesChar sep (hd EmptyString (JS.split sep a)) = false.
Proof.
  induction a as [|c rest IH]; [reflexivity|].
  cbn [JS.split]. destruct (Ascii.eqb_spec c sep) as [->|Hne]; [reflexivity|].
  pose proof (split_nonempty sep rest).
  destruct (JS.split sep rest) as [|w ws]; [congruence|].
  cbn [hd] in *. cbn [JS.includesChar]. rewrite IH, orb_false_r.
  apply Ascii.eqb_neq. congruence.
Qed.

Lemma beforeSlash_slash (a : string) :
  JS.includesChar "/" a = true -> beforeSlash a <> a.
Proof.
  intros H E. pose proof (split_hd_no_sep "/" a) as N.
  fold (beforeSlash a) in N. rewrite E in N. congruence.
Qed.

(** X2: the view [album-songs/name] lists the songs whose album is the text
    of [name] before its first slash: the album itself when its name has no
    slash, and never the album when it has one. *)
Theorem album_view_lists_the_text_before_a_slash (s : AppState)
  (st : list ViewFrame.t) (name : string) (i : Z) :
  navigationStack s
  = st ++ [ {| ViewFrame.id := "album-songs/" ++ name; ViewFrame.activeIndex := i |} ] ->
  menuItems s
  = songRows (filter (fun x => String.eqb (Song.album x) (beforeSlash name)) (songs s)) /\
  (JS.includesChar "/" name = false -> beforeSlash name = name) /\
  (JS.includesChar "/" name = true -> beforeSlash name <> name).
Proof.
  intros H.
  assert (Hp : viewParamOf ("album-songs/" ++ name) = Some (beforeSlash name)).
  { change ("album-songs/" ++ name)%string
      with ("album-songs" ++ String "/" name)%string.
    rewrite viewParamOf_route by reflexivity. reflexivity. }
  assert (Hm : menuItems s
               = songRows (filter (fun x => String.eqb (Song.album x) (beforeSlash name))
                             (songs s))).
  { unfold menuItems, computeMenuItems.
    rewrite (currentView_top s st _ H). cbn [ViewFrame.id].
    rewrite Hp. view_chain. reflexivity. }
  split; [exact Hm|]. split; [apply beforeSlash_no_slash | apply beforeSlash_slash].
Qed.

Lemma album_view_lists_the_text_before_a_slash_witness :
  map ViewFrame.id (navigationStack albumOpened)
  = ["main"; "music"; "albums"; "album-songs/Album"]%string /\
  map MenuItem.label (menuItems albumOpened) = ["B"; "A"]%string /\
  menuItems albumOpened
  = songRows (filter (fun x => String.eqb (Song.album x) "Album") (songs albumOpened)).
Proof.
  assert (H : navigationStack albumOpened
              = [ {| ViewFrame.id := "main"; ViewFrame.activeIndex := 1 |};
                 {| ViewFrame.id := "music"; ViewFrame.activeIndex := 3 |};
                 frame0 "albums"]
                ++ [ {| ViewFrame.id := "album-songs/" ++ "Album";
                        ViewFrame.activeIndex := 0 |} ])
    by (vm_compute; reflexivity).
  assert (H1 : map ViewFrame.id (navigationStack albumOpened)
               = ["main"; "music"; "albums"; "album-songs/Album"]%string)
    by (vm_compute; reflexivity).
  assert (H2 : map MenuItem.label (menuItems albumOpened) = ["B"; "A"]%string)
    by (vm_compute; reflexivity).
  exact (conj H1 (conj H2
           (proj1 (album_view_lists_the_text_before_a_slash albumOpened _ "Album" 0 H)))).
Defined.

(** ** [formatTime] *)

Lemma includesChar_repeat_zero (c : ascii) (n : nat) :
  c <> "0"%char -> JS.includesChar c (JS.repeatString "0" n) = false.
Proof.
  intros H. induction n as [|n IH]; [reflexivity|].
  cbn [JS.repeatString append JS.includesChar]. rewrite IH, orb_false_r.
  apply Ascii.eqb_neq. exact H.
Qed.

Lemma pad_seconds (sec : Z) :
  0 <= sec < 60 ->
  String.length (padStart2 (JS.numToString sec)) = 2%nat /\
  JS.parseInt (padStart2 (JS.numToString sec)) = Some sec.
Proof.
  intros H. rewrite <- (Z2Nat.id sec) by lia.
  assert (Hk : (Z.to_nat sec < 60)%nat) by lia.
  generalize dependent (Z.to_nat sec). intros k Hk.
  do 60 (destruct k as [|k]; [vm_compute; split; reflexivity|]).
  lia.
Qed.

(** X3: [formatTime] gives "0:00" for [NaN] and for every negative time,
    and "Infinity:NaN" for the positive infinity.  For a time that is not
    negative and whose whole seconds do not exceed [MAX_SAFE_INTEGER], it writes
    the whole minutes, a colon and the seconds on exactly two digits; read back,
    the two numbers give the whole seconds of the time. *)
Theorem formatTime_reads_back (x : Num) :
  match x with
  | NaN => formatTime x = Some "0:00"%string
  | NegInf => formatTime x = Some "0:00"%string
  | PosInf => formatTime x = Some "Infinity:NaN"%string
  | Fin t =>
      ((t < 0)%Q -> formatTime x = Some "0:00"%string) /\
      ((0 <= t)%Q -> Qfloor t <= MAX_SAFE_INTEGER ->
       exists text mm ss m sec,
         formatTime x = Some text /\
         JS.split ":" text = [mm; ss] /\
         String.length ss = 2%nat /\
         JS.parseInt mm = Some m /\
         JS.parseInt ss = Some sec /\
         0 <= sec < 60 /\
         60 * m + sec = Qfloor t)
  end.
Proof.
  destruct x as [| | |t]; try reflexivity.
  split.
  - intros Ht. unfold formatTime. cbn [mathFloor].
    assert (Hneg : Qfloor t < 0).
    { destruct (Z.lt_ge_cases (Qfloor t) 0) as [H|H]; [exact H|]. exfalso.
      assert (H0 : (0 <= t)%Q).
      { eapply Qle_trans; [|apply Qfloor_le].
        replace 0%Q with (inject_Z 0) by reflexivity. rewrite <- Zle_Qle. exact H. }
      apply (Qlt_not_le _ _ Ht H0). }
    apply Z.ltb_lt in Hneg. rewrite Hneg. reflexivity.
  - intros Ht Hsafe.
    assert (H0 : 0 <= Qfloor t) by (apply (Qfloor_resp_le 0 t Ht)).
    unfold formatTime. cbn [mathFloor floorDiv remainder flooredToString].
    destruct (Z.ltb_spec (Qfloor t) 0) as [Hneg|_]; [lia|].
    destruct (Z.ltb_spec MAX_SAFE_INTEGER (Qfloor t)) as [Hbig|_]; [lia|].
    set (m := Qfloor t / 60). set (sec := Z.rem (Qfloor t) 60).
    assert (Hsec : 0 <= sec < 60).
    { unfold sec. rewrite Z.rem_mod_nonneg by lia. apply Z.mod_pos_bound. lia. }
    destruct (pad_seconds sec Hsec) as [Hlen Hparse].
    exists (JS.numToString m ++ ":" ++ padStart2 (JS.numToString sec))%string,
      (JS.numToString m), (padStart2 (JS.numToString sec)), m, sec.
    split; [reflexivity|]. split.
    + change (JS.numToString m ++ ":" ++ padStart2 (JS.numToString sec))%string
        with (JS.numToString m ++ String ":" (padStart2 (JS.numToString sec)))%string.
      rewrite split_app
        by (apply includesChar_numToString; [reflexivity | discriminate]).
      rewrite split_no_sep; [reflexivity|].
      unfold padStart2. rewrite includesChar_app, includesChar_repeat_zero by discriminate.
      apply includesChar_numToString; [reflexivity | discriminate].
    + split; [exact Hlen|]. split; [apply parseInt_numToString|].
      split; [exact Hparse|]. split; [exact Hsec|].
      unfold m, sec. rewrite Z.rem_mod_nonneg by lia.
      symmetry. apply Z.div_mod. lia.
Qed.

Lemma formatTime_reads_back_witness :
  formatTime (Fin (754 # 10)) = Some "1:15"%string /\
  formatTime (Fin (- (1 # 2))) = Some "0:00"%string /\
  formatTime PosInf = Some "Infinity:NaN"%string /\
  exists text mm ss m sec,
    formatTime (Fin (754 # 10)) = Some text /\
    JS.split ":" text = [mm; ss] /\
    String.length ss = 2%nat /\
    JS.parseInt mm = Some m /\
    JS.parseInt ss = Some sec /\
    0 <= sec < 60 /\
    60 * m + sec = Qfloor (754 # 10).
Proof.
  split; [vm_compute; reflexivity|].
  split; [apply (proj1 (formatTime_reads_back (Fin (- (1 # 2))))); reflexivity|].
  split; [exact (formatTime_reads_back PosInf)|].
  apply (proj2 (formatTime_reads_back (Fin (754 # 10)))); [discriminate|].
  vm_compute. discriminate.
Defined.

(** ** The stored library stays in order *)

Lemma db_playlists_add_ok (name : string) (ids : list Z) (d : Db.t) :
  playlistsOk (Db.playlistsKey d) (Db.playlists d) ->
  ~ In name (map Playlist.name (Db.playlists d)) ->
  NoDup ids ->
  playlistsOk (Db.playlistsKey (db_playlists_add name ids d))
    (Db.playlists (db_playlists_add name ids d)).
Proof.
  intros (Hid & Hkey & Hname & Hsongs) Hfresh Hids.
  unfold db_playlists_add, playlistsOk. cbn.
  rewrite !map_app. cbn [map Playlist.id Playlist.name].
  repeat split.
  - apply NoDup_app; [exact Hid | repeat constructor; intros [] | ].
    intros k Hk [<-|[]]. apply in_map_iff in Hk. destruct Hk as (p & E & Hp).
    rewrite Forall_forall in Hkey. specialize (Hkey p Hp). lia.
  - apply Forall_app. split.
    + eapply Forall_impl; [|exact Hkey]. cbn. intros; lia.
    + repeat constructor. cbn. lia.
  - apply NoDup_app; [exact Hname | repeat constructor; intros [] | ].
    intros k Hk [<-|[]]. contradiction.
  - apply Forall_app. split; [exact Hsongs | repeat constructor; exact Hids].
Qed.

Lemma find_isOtg_None (pls : list Playlist.t) :
  JS.find isOtg pls = None -> ~ In "On-The-Go"%string (map Playlist.name pls).
Proof.
  intros E Hin. apply in_map_iff in Hin. destruct Hin as (p & Hn & Hp).
  pose proof (find_none _ _ E p Hp) as H. unfold isOtg in H.
  rewrite Hn in H. discriminate H.
Qed.

Lemma find_name_None (name : string) (pls : list Playlist.t) :
  JS.find (fun p => String.eqb (Playlist.name p) name) pls = None ->
  ~ In name (map Playlist.name pls).
Proof.
  intros E Hin. apply in_map_iff in Hin. destruct Hin as (p & Hn & Hp).
  pose proof (find_none _ _ E p Hp) as H. cbn in H.
  rewrite Hn, String.eqb_refl in H. discriminate H.
Qed.

Lemma ensureOnTheGo_songs (d : Db.t) :
  Db.songs (ensureOnTheGo d) = Db.songs d /\
  Db.songsKey (ensureOnTheGo d) = Db.songsKey d.
Proof. unfold ensureOnTheGo. destruct (JS.find isOtg _); split; reflexivity. Qed.

Lemma ensureOnTheGo_ok (d : Db.t) : storeOk d -> storeOk (ensureOnTheGo d).
Proof.
  intros [Hs Hp]. split.
  - destruct (ensureOnTheGo_songs d) as [-> ->]. exact Hs.
  - unfold ensureOnTheGo. destruct (JS.find isOtg (Db.playlists d)) eqn:E;
      [exact Hp|].
    apply db_playlists_add_ok; [exact Hp | apply find_isOtg_None, E | constructor].
Qed.

(** Rewriting the song list of the playlists that hold a given key. *)
Lemma playlists_map_songIds_ok (key k : Z) (ids : list Z) (pls : list Playlist.t) :
  playlistsOk key pls -> NoDup ids ->
  playlistsOk key
    (map (fun p => if Playlist.id p =? k then Playlist.set_songIds ids p else p) pls).
Proof.
  intros (Hid & Hkey & Hname & Hsongs) Hids.
  assert (Ei : map Playlist.id
                 (map (fun p => if Playlist.id p =? k
                                then Playlist.set_songIds ids p else p) pls)
               = map Playlist.id pls).
  { rewrite map_map. apply map_ext. intros p. destruct (_ =? _); reflexivity. }
  assert (En : map Playlist.name
                 (map (fun p => if Playlist.id p =? k
                                then Playlist.set_songIds ids p else p) pls)
               = map Playlist.name pls).
  { rewrite map_map. apply map_ext. intros p. destruct (_ =? _); reflexivity. }
  unfold playlistsOk. rewrite Ei, En. repeat split; try assumption.
  - apply Forall_map. eapply Forall_impl; [|exact Hkey].
    intros p Hp. destruct (_ =? _); exact Hp.
  - apply Forall_map. eapply Forall_impl; [|exact Hsongs].
    intros p Hp. destruct (_ =? _); [exact Hids | exact Hp].
Qed.

Lemma uniqZAcc_In (seen l : list Z) (x : Z) :
  In x (uniqZAcc seen l) -> In x l /\ ~ In x seen.
Proof.
  revert seen; induction l as [|y l IH]; intros seen; cbn [uniqZAcc]; [contradiction|].
  unfold JS.includesZ. destruct (existsb (Z.eqb y) seen) eqn:E.
  - intros H. apply IH in H. cbn [In]. tauto.
  - assert (Hy : ~ In y seen).
    { intros Hin.
      assert (existsb (Z.eqb y) seen = true)
        by (apply existsb_exists; exists y; split; [exact Hin | apply Z.eqb_refl]).
      congruence. }
    intros [<-|H]; [cbn [In]; tauto|].
    apply IH in H. cbn [In] in *. tauto.
Qed.

Lemma uniqZAcc_NoDup (seen l : list Z) : NoDup (uniqZAcc seen l).
Proof.
  revert seen; induction l as [|y l IH]; intros seen; cbn [uniqZAcc]; [constructor|].
  destruct (JS.includesZ seen y); [apply IH|].
  constructor; [|apply IH].
  intros H. apply uniqZAcc_In in H. cbn [In] in H. tauto.
Qed.

Lemma addFolderPlaylist_songs (d : Db.t) (entry : string * list Z) :
  Db.songs (addFolderPlaylist d entry) = Db.songs d /\
  Db.songsKey (addFolderPlaylist d entry) = Db.songsKey d.
Proof.
  destruct entry as [f ids]. unfold addFolderPlaylist.
  destruct (JS.find _ _); split; reflexivity.
Qed.

Lemma addFolderPlaylist_ok (d : Db.t) (entry : string * list Z) :
  playlistsOk (Db.playlistsKey d) (Db.playlists d) ->
  NoDup (snd entry) ->
  playlistsOk (Db.playlistsKey (addFolderPlaylist d entry))
    (Db.playlists (addFolderPlaylist d entry)).
Proof.
  destruct entry as [f ids]. cbn [snd]. intros H Hids. unfold addFolderPlaylist.
  destruct (JS.find _ (Db.playlists d)) as [existing|] eqn:E.
  - cbn. apply playlists_map_songIds_ok; [exact H | apply uniqZAcc_NoDup].
  - apply db_playlists_add_ok; [exact H | apply find_name_None, E | exact Hids].
Qed.

Lemma fold_addFolderPlaylist_ok (l : list (string * list Z)) (d : Db.t) :
  Forall (fun e => NoDup (snd e)) l ->
  storeOk d -> storeOk (fold_left addFolderPlaylist l d).
Proof.
  revert d; induction l as [|e l IH]; intros d Hl Hd; [exact Hd|].
  inversion Hl as [|? ? He Hl']; subst.
  cbn [fold_left]. apply IH; [exact Hl'|].
  destruct Hd as [Hs Hp]. split.
  - destruct (addFolderPlaylist_songs d e) as [-> ->]. exact Hs.
  - apply addFolderPlaylist_ok; assumption.
Qed.

(** The ids [folderAdd] collects stay distinct as long as the ids it is
    given are. *)
Lemma folderAdd_ok (f : string) (id : Z) (m : list (string * list Z)) :
  Forall (fun e => NoDup (snd e) /\ ~ In id (snd e)) m ->
  Forall (fun e => NoDup (snd e)) (folderAdd f id m).
Proof.
  induction m as [|[g ids] m IH]; intros H; cbn [folderAdd].
  - repeat constructor. intros [].
  - inversion H as [|? ? [Hnd Hid] Hm]; subst. cbn [snd] in *.
    destruct (String.eqb g f).
    + constructor.
      * cbn [snd]. apply NoDup_app; [exact Hnd | repeat constructor; intros [] |].
        intros k Hk [<-|[]]. contradiction.
      * eapply Forall_impl; [|exact Hm]. cbn. tauto.
    + constructor; [exact Hnd | apply IH; exact Hm].
Qed.

Lemma folderAdd_In (f : string) (id k : Z) (m : list (string * list Z)) :
  Exists (fun e => In k (snd e)) (folderAdd f id m) ->
  k = id \/ Exists (fun e => In k (snd e)) m.
Proof.
  induction m as [|[g ids] m IH]; cbn [folderAdd]; intros H.
  - inversion H as [? ? Hk|? ? Hk]; subst; [|inversion Hk].
    cbn in Hk. destruct Hk as [->|[]]. left; reflexivity.
  - destruct (String.eqb g f).
    + inversion H as [? ? Hk|? ? Hk]; subst.
      * cbn [snd] in Hk. apply in_app_or in Hk. destruct Hk as [Hk|[->|[]]];
          [right; left; exact Hk | left; reflexivity].
      * right. right. exact Hk.
    + inversion H as [? ? Hk|? ? Hk]; subst.
      * right. left. exact Hk.
      * destruct (IH Hk) as [->|Hm]; [left; reflexivity | right; right; exact Hm].
Qed.

Lemma folderToSongIds_fold (l : list (ParsedSong.t * Z)) (m : list (string * list Z)) :
  NoDup (map snd l) ->
  Forall (fun e => NoDup (snd e)) m ->
  (forall k, Exists (fun e => In k (snd e)) m -> ~ In k (map snd l)) ->
  Forall (fun e => NoDup (snd e))
    (fold_left (fun m pi => match ParsedSong.folderName (fst pi) with
                            | Some f => if String.eqb f EmptyString then m
                                        else folderAdd f (snd pi) m
                            | None => m
                            end) l m).
Proof.
  revert m; induction l as [|[p id] l IH]; intros m Hl Hm Hdis; [exact Hm|].
  cbn [map snd] in Hl. inversion Hl as [|? ? Hid Hl']; subst.
  cbn [fold_left fst snd].
  assert (Hkeep : forall k, Exists (fun e => In k (snd e)) m -> ~ In k (map snd l)).
  { intros k Hk Hin. apply (Hdis k Hk). right. exact Hin. }
  destruct (ParsedSong.folderName p) as [f|]; [|apply IH; assumption].
  destruct (String.eqb f EmptyString); [apply IH; assumption|].
  apply IH; [exact Hl' | |].
  - apply folderAdd_ok. rewrite Forall_forall in *. intros e He.
    split; [apply Hm, He|]. intros Hin.
    apply (Hdis id); [apply Exists_exists; eauto | left; reflexivity].
  - intros k Hk. apply folderAdd_In in Hk. destruct Hk as [->|Hk];
      [exact Hid | apply Hkeep, Hk].
Qed.

Lemma folderToSongIds_NoDup (l : list (ParsedSong.t * Z)) :
  NoDup (map snd l) -> Forall (fun e => NoDup (snd e)) (folderToSongIds l).
Proof.
  intros H. unfold folderToSongIds. apply folderToSongIds_fold;
    [exact H | constructor | intros k Hk; inversion Hk].
Qed.

Lemma combine_snd_NoDup {A} (a : list A) (b : list Z) :
  NoDup b -> NoDup (map snd (combine a b)).
Proof.
  revert b; induction a as [|x a IH]; intros b Hb; [constructor|].
  destruct b as [|y b]; [constructor|].
  inversion Hb as [|? ? Hy Hb']; subst. cbn [combine map snd].
  constructor; [|apply IH; exact Hb'].
  intros Hin. apply Hy. apply in_map_iff in Hin. destruct Hin as ([u v] & E & Hin).
  cbn in E. subst v. apply in_combine_r in Hin. exact Hin.
Qed.

(** The rows [bulkAdd] stores: their keys follow the last key of the table,
    and every row holds the file it was read from. *)
Lemma bulkAdd_spec (l : list ParsedSong.t) (key : Z) :
  let rows := fst (bulkAdd key l) in
  let keys := snd (bulkAdd key l) in
  map Song.id rows = keys /\
  Forall (fun k => key < k <= key + JS.len l) keys /\
  NoDup keys /\
  Forall (fun x => Song.fileBlob x <> None) rows /\
  map (fun x => (Song.title x, Song.artist x, Song.album x)) rows
  = map (fun p => (ParsedSong.title p, ParsedSong.artist p, ParsedSong.album p)) l.
Proof.
  revert key; induction l as [|p l IH]; intros key.
  - cbn. repeat split; constructor.
  - cbn [bulkAdd]. specialize (IH (key + 1)).
    destruct (bulkAdd (key + 1) l) as [rows keys]. cbn [fst snd] in *.
    destruct IH as (Hid & Hrange & Hnd & Hblob & Hmeta).
    assert (Hlen : JS.len (p :: l) = JS.len l + 1)
      by (unfold JS.len; cbn [List.length]; lia).
    assert (Hpos : 0 <= JS.len l) by (unfold JS.len; lia).
    cbn [map Song.id]. rewrite Hid, Hlen. repeat split.
    + constructor; [lia|]. eapply Forall_impl; [|exact Hrange]. cbn. intros; lia.
    + constructor; [|exact Hnd]. intros Hin.
      rewrite Forall_forall in Hrange. specialize (Hrange _ Hin). lia.
    + constructor; [discriminate | exact Hblob].
    + cbn [Song.title Song.artist Song.album]. rewrite Hmeta. reflexivity.
Qed.

Lemma fold_addFolderPlaylist_songs (l : list (string * list Z)) (d : Db.t) :
  Db.songs (fold_left addFolderPlaylist l d) = Db.songs d /\
  Db.songsKey (fold_left addFolderPlaylist l d) = Db.songsKey d.
Proof.
  revert d; induction l as [|e l IH]; intros d; [split; reflexivity|].
  cbn [fold_left]. destruct (IH (addFolderPlaylist d e)) as [-> ->].
  apply addFolderPlaylist_songs.
Qed.

Lemma handleFileChange_storage_down (files : list (option ParsedSong.t))
  (s : AppState) :
  Browser.dbOk (browser s) = false -> handleFileChange files s = s.
Proof.
  intros H. unfold handleFileChange. rewrite H. destruct files; reflexivity.
Qed.

(** The database an import leaves. *)
Lemma handleFileChange_db (files : list (option ParsedSong.t)) (s : AppState) :
  files <> [] ->
  Browser.dbOk (browser s) = true ->
  let toAdd := songsToAdd s files in
  let rows := fst (bulkAdd (Db.songsKey (db s)) toAdd) in
  let keys := snd (bulkAdd (Db.songsKey (db s)) toAdd) in
  let d1 :=
    match toAdd with
    | [] => db s
    | _ => fold_left addFolderPlaylist (folderToSongIds (combine toAdd keys))
             (set_db_songsKey (Db.songsKey (db s) + JS.len toAdd)
                (set_db_songs (Db.songs (db s) ++ rows) (db s)))
    end in
  handleFileChange files s
  = set_navigationStack [frame0 "main"]
      (set_songs (Db.songs (ensureOnTheGo d1)) (set_db (ensureOnTheGo d1) s)).
Proof.
  intros Hf Hok. unfold handleFileChange. destruct files as [|f files]; [congruence|].
  rewrite Hok. fold (songsToAdd s (f :: files)).
  change (filter _ (catOptions (f :: files))) with (songsToAdd s (f :: files)).
  destruct (songsToAdd s (f :: files)) as [|p l]; [reflexivity|].
  destruct (bulkAdd (Db.songsKey (db s)) (p :: l)); reflexivity.
Qed.

Lemma import_store_ok (d : Db.t) (l : list ParsedSong.t) :
  storeOk d ->
  storeOk
    (fold_left addFolderPlaylist
       (folderToSongIds (combine l (snd (bulkAdd (Db.songsKey d) l))))
       (set_db_songsKey (Db.songsKey d + JS.len l)
          (set_db_songs (Db.songs d ++ fst (bulkAdd (Db.songsKey d) l)) d))).
Proof.
  intros [(Hnd & Hkey & Hblob) Hp].
  destruct (bulkAdd_spec l (Db.songsKey d)) as (Hid & Hrange & Hknd & Hkblob & _).
  apply fold_addFolderPlaylist_ok.
  - apply folderToSongIds_NoDup, combine_snd_NoDup, Hknd.
  - split; [|exact Hp]. cbn. unfold songsOk. rewrite map_app, Hid. repeat split.
    + apply NoDup_app; [exact Hnd | exact Hknd |].
      intros k Hk Hk'. apply in_map_iff in Hk. destruct Hk as (x & <- & Hx).
      rewrite Forall_forall in Hkey, Hrange.
      specialize (Hkey x Hx). specialize (Hrange _ Hk'). lia.
    + apply Forall_app. split.
      * eapply Forall_impl; [|exact Hkey]. cbn. intros x Hx.
        assert (0 <= JS.len l) by (unfold JS.len; lia). lia.
      * rewrite <- Hid in Hrange. rewrite Forall_map in Hrange.
        eapply Forall_impl; [|exact Hrange]. cbn. intros; lia.
    + apply Forall_app. split; assumption.
Qed.

Lemma handleFileChange_libraryOk (files : list (option ParsedSong.t)) (s : AppState) :
  libraryOk s -> libraryOk (handleFileChange files s).
Proof.
  intros [Hd Hs].
  destruct files as [|f files]; [split; assumption|].
  destruct (Browser.dbOk (browser s)) eqn:Hok;
    [|rewrite handleFileChange_storage_down by exact Hok; split; assumption].
  rewrite handleFileChange_db by (discriminate || exact Hok).
  set (d1 := match songsToAdd s (f :: files) with [] => _ | _ => _ end).
  assert (H1 : storeOk d1).
  { unfold d1. destruct (songsToAdd s (f :: files)) as [|p l] eqn:E; [exact Hd|].
    apply import_store_ok. exact Hd. }
  apply ensureOnTheGo_ok in H1.
  split; [exact H1|]. cbn. apply H1.
Qed.

Lemma ensureOnTheGo_found (d : Db.t) :
  JS.find isOtg (Db.playlists (ensureOnTheGo d)) <> None.
Proof.
  unfold ensureOnTheGo. destruct (JS.find isOtg (Db.playlists d)) eqn:E;
    [congruence|].
  unfold db_playlists_add, JS.find. cbn. intros H.
  pose proof (find_none _ _ H) as N.
  specialize (N {| Playlist.id := Db.playlistsKey d + 1; Playlist.name := "On-The-Go";
                   Playlist.songIds := [] |}).
  rewrite in_app_iff in N. cbn in N. discriminate N. right. left. reflexivity.
Qed.

Lemma ensureOnTheGo_idem (d : Db.t) :
  ensureOnTheGo (ensureOnTheGo d) = ensureOnTheGo d.
Proof.
  pose proof (ensureOnTheGo_found d) as H.
  unfold ensureOnTheGo at 1. destruct (JS.find isOtg _); congruence.
Qed.

(** X4: an import is idempotent.  Choosing the same files again stores no
    song and no playlist and leaves the whole state as the first import left
    it: every file is recognised by its title, artist and album. *)
Theorem second_import_adds_nothing (files : list (option ParsedSong.t))
  (s : AppState) :
  handleFileChange files (handleFileChange files s) = handleFileChange files s.
Proof.
  destruct files as [|f files]; [reflexivity|].
  destruct (Browser.dbOk (browser s)) eqn:Hok;
    [|rewrite !(handleFileChange_storage_down (f :: files) s Hok); reflexivity].
  set (fs := f :: files).
  rewrite (handleFileChange_db fs s) by (discriminate || exact Hok).
  set (d1 := match songsToAdd s fs with [] => _ | _ => _ end).
  set (s1 := set_navigationStack _ _).
  assert (Hsongs : Db.songs (ensureOnTheGo d1)
                   = Db.songs (db s)
                       ++ fst (bulkAdd (Db.songsKey (db s)) (songsToAdd s fs))).
  { rewrite (proj1 (ensureOnTheGo_songs d1)). unfold d1.
    destruct (songsToAdd s fs) as [|p l]; [cbn; rewrite app_nil_r; reflexivity|].
    rewrite (proj1 (fold_addFolderPlaylist_songs _ _)). reflexivity. }
  assert (Hnone : songsToAdd s1 fs = []).
  { unfold songsToAdd.
    change (db s1) with (ensureOnTheGo d1).
    change (parsedKey s1) with (parsedKey s).
    change (storedKey s1) with (storedKey s).
    rewrite Hsongs, map_app.
    destruct (bulkAdd_spec (songsToAdd s fs) (Db.songsKey (db s)))
      as (_ & _ & _ & _ & Hmeta).
    assert (Hkeys : map (storedKey s)
                      (fst (bulkAdd (Db.songsKey (db s)) (songsToAdd s fs)))
                    = map (parsedKey s) (songsToAdd s fs)).
    { unfold storedKey, parsedKey.
      apply (f_equal (map (fun t => songKey (Browser.toLowerCase (browser s))
                                      (fst (fst t)) (snd (fst t)) (snd t)))) in Hmeta.
      rewrite !map_map in Hmeta. exact Hmeta. }
    rewrite Hkeys.
    assert (Hall : forall p, In p (catOptions fs) ->
              negb (existsb (String.eqb (parsedKey s p))
                      (map (storedKey s) (Db.songs (db s))
                         ++ map (parsedKey s) (songsToAdd s fs))) = false).
    { intros p Hp. apply negb_false_iff. rewrite existsb_app.
      destruct (existsb (String.eqb (parsedKey s p))
                  (map (storedKey s) (Db.songs (db s)))) eqn:E; [reflexivity|].
      cbn [orb]. apply existsb_exists. exists (parsedKey s p).
      split; [|apply String.eqb_refl].
      apply in_map. unfold songsToAdd. apply filter_In. split; [exact Hp|].
      rewrite E. reflexivity. }
    clear - Hall. induction (catOptions fs) as [|p l IH]; [reflexivity|].
    cbn [filter]. rewrite (Hall p) by (left; reflexivity).
    apply IH. intros q Hq. apply Hall. right. exact Hq. }
  assert (Hok1 : Browser.dbOk (browser s1) = true) by exact Hok.
  rewrite (handleFileChange_db fs s1) by (discriminate || exact Hok1).
  rewrite Hnone. change (db s1) with (ensureOnTheGo d1).
  rewrite ensureOnTheGo_idem. reflexivity.
Qed.

Lemma libraryOk_same (s s' : AppState) :
  sameLibrary s s' -> libraryOk s -> libraryOk s'.
Proof.
  intros (E1 & E2 & E3 & E4 & E5). unfold libraryOk, storeOk.
  rewrite E1, E2, E3, E4, E5. tauto.
Qed.

Ltac same_library :=
  repeat split; reflexivity.

Lemma map_set_rating_ids (songId r : Z) (l : list Song.t) :
  map Song.id (map (fun x => if Song.id x =? songId
                             then Song.set_rating r x else x) l)
  = map Song.id l.
Proof. rewrite map_map. apply map_ext. intros x. destruct (_ =? _); reflexivity. Qed.

Lemma handleSetRating_libraryOk (songId rating : Z) (s : AppState) :
  libraryOk s -> libraryOk (handleSetRating songId rating s).
Proof.
  intros H. unfold handleSetRating.
  destruct (Browser.dbOk (browser s)); [|exact H].
  destruct H as [[(Hnd & Hkey & Hblob) Hp] Hs].
  unfold libraryOk, storeOk, songsOk. cbn.
  rewrite !map_set_rating_ids. repeat split; try assumption; try apply Hp.
  - apply Forall_map. eapply Forall_impl; [|exact Hkey].
    intros x Hx. destruct (_ =? _); exact Hx.
  - apply Forall_map. eapply Forall_impl; [|exact Hblob].
    intros x Hx. destruct (_ =? _); exact Hx.
Qed.

Lemma quickAdd_cases (o : option Z) (s : AppState) :
  quickAdd o s = s \/
  exists id d,
    o = Some id /\ id <> 0 /\ Browser.dbOk (browser s) = true /\
    quickAdd o s = snd (setTimeout CbFlashOff (set_isFlashing true (set_db d s))) /\
    ((exists otg, JS.find isOtg (Db.playlists (db s)) = Some otg /\
                  JS.includesZ (Playlist.songIds otg) id = false /\
                  d = set_db_playlists
                        (map (fun p => if Playlist.id p =? Playlist.id otg
                                       then Playlist.set_songIds
                                              (Playlist.songIds otg ++ [id]) p
                                       else p) (Db.playlists (db s))) (db s))
     \/ (JS.find isOtg (Db.playlists (db s)) = None /\
         d = db_playlists_add "On-The-Go" [id] (db s))).
Proof.
  unfold quickAdd. destruct o as [id|]; [|left; reflexivity].
  destruct (Z.eqb_spec id 0) as [|Hne]; [left; reflexivity|].
  destruct (Browser.dbOk (browser s)) eqn:Hok; [|left; reflexivity]. cbn [negb].
  destruct (JS.find isOtg (Db.playlists (db s))) as [otg|] eqn:E.
  - destruct (JS.includesZ (Playlist.songIds otg) id) eqn:Hinc; [left; reflexivity|].
    right. eexists id, _. repeat split; try assumption.
    left. exists otg. repeat split; assumption.
  - right. eexists id, _. repeat split; try assumption.
    right. split; reflexivity.
Qed.

Lemma includesZ_false (l : list Z) (x : Z) :
  JS.includesZ l x = false -> ~ In x l.
Proof.
  unfold JS.includesZ. intros H Hin.
  assert (existsb (Z.eqb x) l = true)
    by (apply existsb_exists; exists x; split; [exact Hin | apply Z.eqb_refl]).
  congruence.
Qed.

Lemma quickAdd_libraryOk (o : option Z) (s : AppState) :
  libraryOk s -> libraryOk (quickAdd o s).
Proof.
  intros H. destruct (quickAdd_cases o s) as [->|(id & d & _ & _ & _ & -> & Hd)];
    [exact H|].
  destruct H as [[Hs Hp] Hsongs].
  destruct Hd as [(otg & Efind & Hinc & ->) | (Efind & ->)].
  - split; [|exact Hsongs]. split; [exact Hs|]. cbn.
    apply playlists_map_songIds_ok; [exact Hp|].
    apply find_Some_In in Efind. destruct Efind as [Hin _].
    destruct Hp as (_ & _ & _ & Hnd). rewrite Forall_forall in Hnd.
    apply NoDup_app; [apply Hnd, Hin | repeat constructor; intros [] |].
    intros k Hk [<-|[]]. apply (includesZ_false _ _ Hinc). exact Hk.
  - split; [|exact Hsongs]. split; [exact Hs|].
    apply (db_playlists_add_ok "On-The-Go" [id] (db s));
      [exact Hp | apply find_isOtg_None, Efind | repeat constructor; intros []].
Qed.

Lemma handleClearLibrary_libraryOk (s : AppState) :
  libraryOk s -> libraryOk (handleClearLibrary s).
Proof.
  intros H. unfold handleClearLibrary.
  destruct (Browser.dbOk _);
    [|apply (libraryOk_same s); [same_library | exact H]].
  destruct (_ =? 0); [apply (libraryOk_same s); [same_library | exact H]|].
  destruct H as [[Hs Hp] Hsongs]. unfold libraryOk, storeOk. cbn.
  split; [|constructor]. split; [repeat split; constructor|].
  destruct Hp as (Hid & Hkey & Hname & Hnd).
  assert (Ei : forall f : Playlist.t -> bool,
             map Playlist.id (map (fun p => if f p then Playlist.set_songIds [] p
                                            else p) (Db.playlists (db s)))
             = map Playlist.id (Db.playlists (db s))).
  { intros f. rewrite map_map. apply map_ext. intros p. destruct (f p); reflexivity. }
  assert (En : forall f : Playlist.t -> bool,
             map Playlist.name (map (fun p => if f p then Playlist.set_songIds [] p
                                              else p) (Db.playlists (db s)))
             = map Playlist.name (Db.playlists (db s))).
  { intros f. rewrite map_map. apply map_ext. intros p. destruct (f p); reflexivity. }
  unfold playlistsOk. rewrite Ei, En. repeat split; try assumption.
  - apply Forall_map. eapply Forall_impl; [|exact Hkey].
    intros p Hp. destruct (_ && _); exact Hp.
  - apply Forall_map. eapply Forall_impl; [|exact Hnd].
    intros p Hp. destruct (_ && _); [constructor | exact Hp].
Qed.

Lemma initializeApp_libraryOk (s : AppState) :
  libraryOk s -> libraryOk (initializeApp s).
Proof.
  intros [Hd Hs]. unfold initializeApp.
  destruct (Browser.dbOk (browser s)); [|split; assumption].
  pose proof (ensureOnTheGo_ok (db s) Hd) as H1.
  set (d1 := ensureOnTheGo (db s)) in *.
  assert (H2 : storeOk match Db.focusSettings d1 with
                       | Some _ => d1
                       | None => set_db_focusSettings (Some DEFAULT_FOCUS_SETTINGS) d1
                       end)
    by (destruct (Db.focusSettings d1); exact H1).
  destruct (0 <? JS.len _); (split; [exact H2|]); cbn; [apply H2 | exact Hs].
Qed.

Lemma render_libraryOk (s : AppState) : libraryOk s -> libraryOk (render s).
Proof.
  intros [Hd Hs]. split; [exact Hd|].
  unfold render. cbn [songs set_songs].
  destruct (viewIs s "songs") eqn:E.
  - apply viewIs_inv in E. destruct E as (cv & Hcv & Hid).
    unfold computeMenuItems. rewrite Hcv, Hid. view_chain. cbn [snd].
    unfold sortSongs.
    eapply NoDup_map_Permutation; [symmetry; apply sort_Permutation | exact Hs].
  - rewrite computeMenuItems_keeps_songs by exact E. exact Hs.
Qed.

Lemma invoke_libraryOk (a : Action) (s : AppState) :
  libraryOk s -> libraryOk (invoke a s).
Proof.
  intros H.
  destruct a;
    try (apply (libraryOk_same s); [|exact H]; cbn [invoke];
         unfold handleMenuClick, handleFocusPlayPause, handleSessionEnd,
           updateFocusSetting, createPlayAction, resetBounceGame, mathRandom,
           pushView, calculateTodayStats, sliceStack;
         branches; same_library).
  apply handleClearLibrary_libraryOk, H.
Qed.

Lemma handleSelectClick_libraryOk (s : AppState) :
  libraryOk s -> libraryOk (handleSelectClick s).
Proof.
  intros H. unfold handleSelectClick.
  destruct (currentView s) as [cv|]; [|exact H].
  assert (Hsel : libraryOk match JS.at_ (menuItems s) (ViewFrame.activeIndex cv) with
                           | Some row => invoke (MenuItem.action row) s
                           | None => s
                           end).
  { destruct (JS.at_ (menuItems s) (ViewFrame.activeIndex cv));
      [apply invoke_libraryOk, H | exact H]. }
  destruct (JS.startsWith (ViewFrame.id cv) "focus-setting-edit/").
  { apply (libraryOk_same s); [|exact H].
    unfold updateFocusSetting, sliceStack. branches; same_library. }
  destruct (String.eqb (ViewFrame.id cv) "bounce-game").
  { destruct (BounceGameState.gameState (bounceGame s)); auto. }
  destruct (String.eqb (ViewFrame.id cv) "now-playing");
    [apply (libraryOk_same s); [same_library | exact H]|].
  destruct (String.eqb (ViewFrame.id cv) "load"); [exact H|].
  destruct (String.eqb (ViewFrame.id cv) "cover-flow" && (0 <? JS.len (coverFlowItems s)));
    [|exact Hsel].
  destruct (JS.at_ (coverFlowItems s) (ViewFrame.activeIndex cv)); [|exact H].
  apply (libraryOk_same s); [same_library | exact H].
Qed.

Lemma handleScroll_libraryOk (d : Z) (s : AppState) :
  libraryOk s -> libraryOk (handleScroll d s).
Proof.
  intros H. unfold handleScroll, setVolumeState, updateTop.
  branches;
    first [ exact H
          | apply handleSetRating_libraryOk; exact H
          | apply (libraryOk_same s); [same_library | exact H] ].
Qed.

Lemma fireTimer_libraryOk (id : nat) (s : AppState) :
  libraryOk s -> libraryOk (fireTimer id s).
Proof.
  intros H. unfold fireTimer.
  destruct (List.find _ (Browser.timers (browser s))) as [[i cb]|]; [|exact H].
  assert (Hc : libraryOk (clearTimeout id s))
    by (apply (libraryOk_same s); [same_library | exact H]).
  destruct cb; cbn [runCallback].
  - apply (libraryOk_same (quickAdd songIdToAdd (clearTimeout id s)));
      [same_library | apply quickAdd_libraryOk, Hc].
  - apply (libraryOk_same s); [same_library | exact H].
  - apply (libraryOk_same s); [same_library | exact H].
  - apply (libraryOk_same s); [same_library | exact H].
  - apply (libraryOk_same s); [same_library | exact H].
  - apply (libraryOk_same s); [|exact H].
    unfold trackLoadSettle, handleNextOf. branches; same_library.
Qed.

(** Every event leaves the library in order. *)
Lemma step_libraryOk (s : AppState) (e : Event) :
  libraryOk s -> libraryOk (step s e).
Proof.
  intros H. apply render_libraryOk in H. unfold step.
  destruct e;
    try (apply (libraryOk_same (render s)); [|exact H];
         unfold handlePlayPause, handleNext, handlePrev, handleSelectMouseDown,
           focusTick, handleSessionEnd, gameLoop, trackLoadEffect, trackLoadBegin,
           handleMediaSessionPlay, handleFocusPlayPause, setBounceGame,
           handleMenuClick, updateFocusSetting, resetBounceGame, mathRandom,
           sliceStack, calculateTodayStats;
         branches; same_library).
  - apply initializeApp_libraryOk, H.
  - apply handleFileChange_libraryOk, H.
  - apply handleScroll_libraryOk, H.
  - apply (libraryOk_same (render s)); [same_library | exact H].
  - unfold handleSelectMouseUp. branches; try exact H.
    apply handleSelectClick_libraryOk.
    apply (libraryOk_same (render s)); [same_library | exact H].
  - apply fireTimer_libraryOk, H.
  - apply (libraryOk_same (render s)); [|exact H].
    unfold trackLoadEffect.
    destruct (currentTrackId (set_currentObjectUrl None (render s))) as [tid|];
      [|same_library].
    destruct (db_songs_get tid _) as [[song|]|];
      [destruct (Song.fileBlob song); same_library | |];
      unfold handleNext; branches; same_library.
Qed.

Lemma run_libraryOk (es : list Event) (s : AppState) :
  libraryOk s -> libraryOk (run s es).
Proof.
  revert s. induction es as [|e es IH]; intros s H; [exact H|].
  cbn [run fold_left]. apply IH, step_libraryOk, H.
Qed.

(** ** The queues of the song lists *)

Lemma findSong_id (l : list Song.t) (k : Z) (x : Song.t) :
  findSong l k = Some x -> In x l /\ Song.id x = k.
Proof.
  unfold findSong. intros H. apply find_Some_In in H.
  destruct H as [H1 H2]. apply Z.eqb_eq in H2. auto.
Qed.

Lemma catOptions_findSong_In (l : list Song.t) (ids : list Z) (k : Z) :
  In k (map Song.id (catOptions (map (findSong l) ids))) -> In k ids.
Proof.
  induction ids as [|j ids IH]; cbn [map catOptions]; [tauto|].
  destruct (findSong l j) as [x|] eqn:E; [|cbn [catOptions]; intros H; right; auto].
  cbn [catOptions map]. intros [<-|H]; [left | right; auto].
  symmetry. apply (findSong_id l j x E).
Qed.

Lemma catOptions_findSong_NoDup (l : list Song.t) (ids : list Z) :
  NoDup ids -> NoDup (map Song.id (catOptions (map (findSong l) ids))).
Proof.
  induction ids as [|j ids IH]; intros H; [constructor|].
  inversion H as [|? ? Hj Hids]; subst. cbn [map].
  destruct (findSong l j) as [x|] eqn:E; cbn [catOptions map]; [|auto].
  constructor; [|auto].
  rewrite (proj2 (findSong_id l j x E)).
  intros Hin. apply Hj. apply (catOptions_findSong_In l). exact Hin.
Qed.

Lemma songRows_play (l : list Song.t) (row : MenuItem.t) (id : Z) (queue : list Z) :
  In row (songRows l) -> MenuItem.action row = APlay id queue ->
  queue = map Song.id l /\ In id queue.
Proof.
  unfold songRows. intros Hin Hact. apply in_map_iff in Hin.
  destruct Hin as (x & <- & Hx). cbn in Hact. injection Hact as <- <-.
  split; [reflexivity | apply in_map; exact Hx].
Qed.

Lemma allPlaylists_In (s : AppState) (pls : list Playlist.t) (p : Playlist.t) :
  allPlaylists s = Some pls -> In p pls -> In p (Db.playlists (db s)).
Proof.
  unfold allPlaylists. destruct (Browser.dbOk (browser s)); [|discriminate].
  intros E Hp. injection E as <-. apply sort_In in Hp. exact Hp.
Qed.

(** X5: in a library that is in order, every row that plays a song plays it
    within a queue that holds no id twice, so that the song is in it exactly
    once: the song lists, the search results, the rated songs, the songs of an
    album and the songs of a playlist. *)
Theorem play_rows_have_distinct_queues (s : AppState) (row : MenuItem.t)
  (id : Z) (queue : list Z) :
  libraryOk s ->
  In row (menuItems s) ->
  MenuItem.action row = APlay id queue ->
  NoDup queue /\ count_occ Z.eq_dec queue id = 1%nat.
Proof.
  intros [[_ Hp] Hs] Hin Hact.
  assert (Hnd : NoDup queue /\ In id queue).
  { unfold menuItems, computeMenuItems in Hin.
    destruct (currentView s) as [cv|]; [|contradiction].
    repeat match type of Hin with
           | In _ (fst (if ?c then _ else _)) => destruct c eqn:?
           | In _ (fst (match ?x with _ => _ end)) => destruct x eqn:?
           end;
      cbn [fst] in Hin;
      try (in_rows Hin; cbn in Hact; discriminate Hact);
      try contradiction;
      match type of Hin with
      | In _ (songRows ?X) =>
          destruct (songRows_play X row id queue Hin Hact) as [-> Hid];
          split; [|exact Hid]
      end.
    - (* the songs of a playlist *)
      apply catOptions_findSong_NoDup.
      match goal with
      | Ha : allPlaylists s = Some ?pls, Hf : JS.find _ ?pls = Some ?pl |- _ =>
          apply find_Some_In in Hf; destruct Hf as [Hf _];
          apply (allPlaylists_In s pls pl Ha) in Hf
      end.
      destruct Hp as (_ & _ & _ & Hall). rewrite Forall_forall in Hall. auto.
    - (* all songs, by title *)
      unfold sortSongs.
      eapply NoDup_map_Permutation; [symmetry; apply sort_Permutation | exact Hs].
    - (* search results *)
      match goal with
      | |- context [if ?c then _ else _] => destruct c
      end; [constructor | apply filter_keeps_distinct_keys, Hs].
    - (* rated songs *)
      apply filter_keeps_distinct_keys, Hs.
    - (* the songs of an album *)
      apply filter_keeps_distinct_keys, Hs. }
  split; [apply Hnd|]. apply NoDup_count_occ'; apply Hnd.
Qed.

Lemma initialState_libraryOk (b : Browser.t) (d : Db.t) :
  storeOk d -> libraryOk (initialState b d).
Proof. intros H. split; [exact H | constructor]. Qed.

Lemma demoLibrary_storeOk : storeOk demoLibrary.
Proof.
  unfold storeOk, songsOk, playlistsOk. cbn.
  repeat split; repeat constructor; cbn; try lia; try discriminate; intuition lia.
Qed.

Lemma play_rows_have_distinct_queues_witness :
  libraryOk onSongRow /\
  In (songRow [2; 1] (demoSong 2 "A")) (menuItems onSongRow) /\
  NoDup [2; 1] /\ count_occ Z.eq_dec [2; 1] 2 = 1%nat.
Proof.
  assert (Hok : libraryOk onSongRow).
  { apply render_libraryOk. apply run_libraryOk.
    apply initialState_libraryOk, demoLibrary_storeOk. }
  assert (Hin : In (songRow [2; 1] (demoSong 2 "A")) (menuItems onSongRow)).
  { assert (E : menuItems onSongRow
                = [songRow [2; 1] (demoSong 2 "A"); songRow [2; 1] (demoSong 1 "B")])
      by (vm_compute; reflexivity).
    rewrite E. left. reflexivity. }
  exact (conj Hok (conj Hin
           (play_rows_have_distinct_queues onSongRow _ 2 [2; 1] Hok Hin eq_refl))).
Defined.

(** X6: whatever the events, the library stays in order once the database
    is: song and playlist keys are distinct and come from the key generators,
    no playlist name is stored twice, no playlist holds a song twice, every
    stored song has its media, and the songs held in React state have distinct
    ids. *)
Theorem events_keep_the_library_in_order (b : Browser.t) (d : Db.t)
  (es : list Event) :
  storeOk d -> libraryOk (run (initialState b d) es).
Proof. intros H. apply run_libraryOk, initialState_libraryOk, H. Qed.

Lemma events_keep_the_library_in_order_witness :
  storeOk demoLibrary /\
  libraryOk (run (initialState demoBrowser demoLibrary)
               ([AppStarts; Scroll 1] ++ press ++ [Scroll 1] ++ press)).
Proof.
  exact (conj demoLibrary_storeOk
           (events_keep_the_library_in_order demoBrowser demoLibrary _
              demoLibrary_storeOk)).
Defined.

(** ** The current track and the queue *)

Ltac branches_eq :=
  repeat match goal with
         | |- context [match ?x with _ => _ end] =>
             lazymatch x with
             | context [match _ with _ => _ end] => fail
             | _ => destruct x eqn:?
             end
         end.

Ltac same_field := first [reflexivity | cbn; congruence].

Lemma trackInQueue_same (s s' : AppState) :
  playQueue s' = playQueue s -> currentTrackId s' = currentTrackId s ->
  trackInQueue s -> trackInQueue s'.
Proof. unfold trackInQueue. intros -> ->. tauto. Qed.

Lemma trackInQueue_at (s : AppState) (i : Z) :
  trackInQueue (set_currentTrackId (JS.at_ (playQueue s) i) s).
Proof.
  unfold trackInQueue. cbn.
  destruct (JS.at_ (playQueue s) i) eqn:E; [|exact I].
  apply (at_In _ _ _ E).
Qed.

Lemma handleNext_trackInQueue (s : AppState) :
  trackInQueue s -> trackInQueue (handleNext s).
Proof.
  intros H. unfold handleNext.
  branches; first [exact H | apply trackInQueue_at].
Qed.

Lemma handlePrev_trackInQueue (s : AppState) :
  trackInQueue s -> trackInQueue (handlePrev s).
Proof.
  intros H. unfold handlePrev.
  branches; first [exact H | apply trackInQueue_at
                  | apply (trackInQueue_same s); [reflexivity | reflexivity | exact H]].
Qed.

Lemma handlePlayPause_trackInQueue (s : AppState) :
  trackInQueue s -> trackInQueue (handlePlayPause s).
Proof.
  intros H. unfold handlePlayPause, handleFocusPlayPause.
  branches; first [exact H | apply trackInQueue_at
                  | apply (trackInQueue_same s); [reflexivity | reflexivity | exact H]].
Qed.

Lemma handleMediaSessionPlay_trackInQueue (s : AppState) :
  trackInQueue s -> trackInQueue (handleMediaSessionPlay s).
Proof.
  intros H. unfold handleMediaSessionPlay.
  branches; first [exact H | apply trackInQueue_at
                  | apply (trackInQueue_same s); [reflexivity | reflexivity | exact H]].
Qed.

Lemma createPlayAction_trackInQueue (songId : Z) (queue : list Z) (s : AppState) :
  In songId queue -> trackInQueue (createPlayAction songId queue s).
Proof.
  intros Hin. unfold createPlayAction, trackInQueue.
  destruct (shuffleMode s).
  - destruct (shuffledQueue_shape (Browser.random (browser s))
                (Browser.randomPos (browser s)) songId queue) as (sh & E & _).
    destruct (shuffledQueue _ _ songId queue) as [q pos]. cbn in E |- *.
    rewrite E. left. reflexivity.
  - exact Hin.
Qed.

Lemma invoke_trackInQueue (a : Action) (s : AppState) :
  (forall id queue, a = APlay id queue -> In id queue) ->
  trackInQueue s -> trackInQueue (invoke a s).
Proof.
  intros Hrow H.
  destruct a;
    try (apply (trackInQueue_same s); [| |exact H]; cbn [invoke];
         unfold handleMenuClick, handleFocusPlayPause, handleSessionEnd,
           updateFocusSetting, resetBounceGame, mathRandom,
           pushView, calculateTodayStats, sliceStack;
         branches_eq; same_field).
  - apply createPlayAction_trackInQueue. apply (Hrow _ _ eq_refl).
  - cbn [invoke]. unfold handleClearLibrary.
    branches;
      first [ exact I
            | apply (trackInQueue_same s); [reflexivity | reflexivity | exact H] ].
Qed.

Lemma handleSelectClick_trackInQueue (s : AppState) :
  trackInQueue s -> trackInQueue (handleSelectClick s).
Proof.
  intros H. unfold handleSelectClick.
  destruct (currentView s) as [cv|]; [|exact H].
  assert (Hsel : trackInQueue
                   match JS.at_ (menuItems s) (ViewFrame.activeIndex cv) with
                   | Some row => invoke (MenuItem.action row) s
                   | None => s
                   end).
  { destruct (JS.at_ (menuItems s) (ViewFrame.activeIndex cv)) as [row|] eqn:E;
      [|exact H].
    apply invoke_trackInQueue; [|exact H]. intros id queue Ea.
    apply (play_rows_hold_their_song s row id queue); [|exact Ea].
    apply (at_In _ _ _ E). }
  destruct (JS.startsWith (ViewFrame.id cv) "focus-setting-edit/").
  { apply (trackInQueue_same s); [| |exact H];
      unfold updateFocusSetting, sliceStack; branches; reflexivity. }
  destruct (String.eqb (ViewFrame.id cv) "bounce-game").
  { destruct (BounceGameState.gameState (bounceGame s)); auto. }
  destruct (String.eqb (ViewFrame.id cv) "now-playing");
    [apply (trackInQueue_same s); [reflexivity | reflexivity | exact H]|].
  destruct (String.eqb (ViewFrame.id cv) "load"); [exact H|].
  destruct (String.eqb (ViewFrame.id cv) "cover-flow" && (0 <? JS.len (coverFlowItems s)));
    [|exact Hsel].
  destruct (JS.at_ (coverFlowItems s) (ViewFrame.activeIndex cv)); [|exact H].
  apply (trackInQueue_same s); [reflexivity | reflexivity | exact H].
Qed.

(** The timer set last is the one found under its id, and clearing it leaves
    the timers that were pending before. *)
Lemma find_newest (ts : list (nat * Callback)) (id : nat) (cb : Callback) :
  Forall (fun t => (fst t < id)%nat) ts ->
  List.find (fun t => Nat.eqb (fst t) id) (ts ++ [(id, cb)]) = Some (id, cb) /\
  filter (fun t => negb (Nat.eqb (fst t) id)) (ts ++ [(id, cb)]) = ts.
Proof.
  induction 1 as [|[i c] ts Hi _ [IH1 IH2]]; cbn.
  - rewrite Nat.eqb_refl. auto.
  - cbn in Hi. replace (Nat.eqb i id) with false by (symmetry; apply Nat.eqb_neq; lia).
    cbn. rewrite IH2. auto.
Qed.

(** The loader in two steps, with the read settling before anything else
    happens, is the loader in one step; only the counter of timer ids has
    moved. *)
Lemma trackLoad_settles_at_once (s : AppState) :
  timersFresh s ->
  let id := Browser.nextTimerId (browser s) in
  match currentTrackId s with
  | Some _ =>
      fireTimer id (trackLoadBegin s)
      = set_browser (set_timers (Browser.timers (browser s)) (S id) (browser s))
          (trackLoadEffect s)
  | None => trackLoadBegin s = trackLoadEffect s
  end.
Proof.
  intros [_ Hts] id. unfold trackLoadBegin, trackLoadEffect.
  cbn [currentTrackId set_currentObjectUrl].
  destruct (currentTrackId s) as [cur|] eqn:Hcur; [|reflexivity].
  destruct (find_newest (Browser.timers (browser s)) id
              (CbTrackLoaded (db_songs_get cur (set_currentObjectUrl None s))
                 (playQueue s) (Some cur) (repeatMode s)) Hts) as [Hfind Hfilter].
  unfold fireTimer, setTimeout.
  cbn [snd browser set_browser set_currentObjectUrl Browser.timers set_timers
         playQueue repeatMode].
  fold id. rewrite Hfind. unfold clearTimeout.
  cbn [snd browser set_browser set_currentObjectUrl Browser.timers set_timers
         Browser.nextTimerId].
  rewrite Hfilter. cbn [runCallback]. unfold trackLoadSettle.
  destruct (db_songs_get cur (set_currentObjectUrl None s)) as [[song|]|].
  - destruct (Song.fileBlob song); reflexivity.
  - unfold handleNextOf, handleNext. cbn [currentTrackId set_currentObjectUrl playQueue repeatMode set_browser].
    rewrite Hcur.
    repeat match goal with
           | |- context [if ?c then _ else _] => destruct c
           | |- context [match ?c with RepeatOff => _ | _ => _ end] => destruct c
           end; reflexivity.
  - unfold handleNextOf, handleNext. cbn [currentTrackId set_currentObjectUrl playQueue repeatMode set_browser].
    rewrite Hcur.
    repeat match goal with
           | |- context [if ?c then _ else _] => destruct c
           | |- context [match ?c with RepeatOff => _ | _ => _ end] => destruct c
           end; reflexivity.
Qed.

Lemma handleNextOf_trackInQueue (queue : list Z) (track : option Z)
  (mode : RepeatMode) (s : AppState) :
  queue = playQueue s -> trackInQueue s ->
  trackInQueue (handleNextOf queue track mode s).
Proof.
  intros -> H. unfold handleNextOf.
  branches; first [exact H | apply trackInQueue_at].
Qed.

Lemma trackLoadSettle_trackInQueue (result : option (option Song.t))
  (queue : list Z) (track : option Z) (mode : RepeatMode) (s : AppState) :
  queue = playQueue s -> trackInQueue s ->
  trackInQueue (trackLoadSettle result queue track mode s).
Proof.
  intros E H. unfold trackLoadSettle.
  destruct result as [[song|]|];
    [ apply (trackInQueue_same s); [| |exact H];
      destruct (Song.fileBlob song); reflexivity
    | apply handleNextOf_trackInQueue; assumption
    | apply handleNextOf_trackInQueue; assumption ].
Qed.

Lemma step_trackInQueue (s : AppState) (e : Event) :
  trackInQueue s -> loadInTime s e -> trackInQueue (step s e).
Proof.
  intros H Hload.
  assert (Hr : trackInQueue (render s))
    by (apply (trackInQueue_same s); [reflexivity | reflexivity | exact H]).
  unfold step.
  destruct e;
    try (apply (trackInQueue_same (render s)); [| |exact Hr];
         unfold initializeApp, handleFileChange, handleScroll, handleSetRating,
           setVolumeState, updateTop, handleSelectMouseDown,
           focusTick, handleSessionEnd, gameLoop, setBounceGame, trackLoadBegin,
           handleMenuClick, updateFocusSetting, resetBounceGame, mathRandom,
           sliceStack, calculateTodayStats, pause;
         branches; reflexivity).
  - apply handlePlayPause_trackInQueue, Hr.
  - apply handleNext_trackInQueue, Hr.
  - apply handlePrev_trackInQueue, Hr.
  - apply (trackInQueue_same (render s)); [reflexivity | reflexivity | exact Hr].
  - unfold handleSelectMouseUp. branches; try exact Hr.
    apply handleSelectClick_trackInQueue.
    apply (trackInQueue_same (render s)); [reflexivity | reflexivity | exact Hr].
  - specialize (Hload id). unfold pendingCallback in Hload. unfold fireTimer.
    change (Browser.timers (browser (render s))) with (Browser.timers (browser s)).
    destruct (List.find _ (Browser.timers (browser s))) as [[i cb]|];
      [|exact Hr].
    assert (Hc : trackInQueue (clearTimeout id (render s)))
      by (apply (trackInQueue_same s); [reflexivity | reflexivity | exact H]).
    destruct cb; cbn [runCallback];
      try (apply (trackInQueue_same (render s)); [| |exact Hr];
           unfold quickAdd; branches; reflexivity).
    apply trackLoadSettle_trackInQueue; [|exact Hc].
    apply (Hload result queue track mode eq_refl eq_refl).
  - unfold trackLoadEffect.
    destruct (currentTrackId (set_currentObjectUrl None (render s))) as [tid|] eqn:Et.
    + destruct (db_songs_get tid _) as [[song|]|];
        [ apply (trackInQueue_same (render s)); [| |exact Hr];
          destruct (Song.fileBlob song); reflexivity
        | apply handleNext_trackInQueue; exact Hr
        | apply handleNext_trackInQueue; exact Hr ].
    + apply (trackInQueue_same (render s)); [reflexivity | reflexivity | exact Hr].
  - apply handleNext_trackInQueue, Hr.
  - apply handleMediaSessionPlay_trackInQueue, Hr.
Qed.

Lemma run_trackInQueue (es : list Event) (s : AppState) :
  trackInQueue s -> loadsInTime s es -> trackInQueue (run s es).
Proof.
  revert s. induction es as [|e es IH]; intros s H Hes; [exact H|].
  destruct Hes as [He Hes]. cbn [run fold_left].
  apply IH; [apply step_trackInQueue; assumption | exact Hes].
Qed.

(** X7: the current track is an entry of the queue, or there is no current
    track, after every sequence of events in which each track load that settles
    finds the queue it closed over still in place: the transport buttons move
    within the queue, a song row plays its song within a queue that holds it,
    and clearing the library empties both.  A load that settles later does not
    keep this: its [handleNext] is the one of the render that started the load.
    From [missingRecord], with the load of track 7 still pending while Clear
    Library empties the queue, the load skips to track 2 of the old queue: the
    current track is 2 and the queue is empty. *)
Theorem current_track_stays_in_queue (s : AppState) (es : list Event) :
  (trackInQueue s -> loadsInTime s es -> trackInQueue (run s es)) /\
  (trackInQueue missingRecord /\
   playQueue (run missingRecord loadSettlesAfterClear) = [] /\
   currentTrackId (run missingRecord loadSettlesAfterClear) = Some 2 /\
   ~ trackInQueue (run missingRecord loadSettlesAfterClear)).
Proof.
  split; [apply run_trackInQueue|].
  assert (Hq : playQueue (run missingRecord loadSettlesAfterClear) = [])
    by (vm_compute; reflexivity).
  assert (Ht : currentTrackId (run missingRecord loadSettlesAfterClear) = Some 2)
    by (vm_compute; reflexivity).
  split; [left; reflexivity|].
  split; [exact Hq|]. split; [exact Ht|].
  unfold trackInQueue. rewrite Ht, Hq. intros [].
Qed.

Lemma current_track_stays_in_queue_witness :
  currentTrackId (run missingRecord [TrackLoadStarts; TimerFires 4]) = Some 2 /\
  playQueue (run missingRecord [TrackLoadStarts; TimerFires 4]) = [7; 2] /\
  trackInQueue (run missingRecord [TrackLoadStarts; TimerFires 4]).
Proof.
  assert (H0 : trackInQueue missingRecord) by (left; reflexivity).
  assert (Hes : loadsInTime missingRecord [TrackLoadStarts; TimerFires 4]).
  { split; [intros id result queue track mode E; discriminate E|].
    split; [|exact I].
    intros id result queue track mode E Hp. injection E as <-.
    vm_compute in Hp. injection Hp as _ <- _ _. vm_compute. reflexivity. }
  refine (conj _ (conj _ (proj1 (current_track_stays_in_queue missingRecord
                                    [TrackLoadStarts; TimerFires 4]) H0 Hes)));
    vm_compute; reflexivity.
Defined.

(** ** The On-The-Go playlist *)

Lemma includesZ_true (l : list Z) (x : Z) : JS.includesZ l x = true -> In x l.
Proof.
  unfold JS.includesZ. intros H. apply existsb_exists in H.
  destruct H as (y & Hy & E). apply Z.eqb_eq in E. subst y. exact Hy.
Qed.

Lemma includesZ_last (l : list Z) (x : Z) : JS.includesZ (l ++ [x]) x = true.
Proof.
  unfold JS.includesZ. rewrite existsb_app. cbn. rewrite Z.eqb_refl.
  rewrite orb_true_r. reflexivity.
Qed.

Lemma find_isOtg_map (otg : Playlist.t) (ids : list Z) (pls : list Playlist.t) :
  JS.find isOtg pls = Some otg ->
  JS.find isOtg
    (map (fun p => if Playlist.id p =? Playlist.id otg
                   then Playlist.set_songIds ids p else p) pls)
  = Some (Playlist.set_songIds ids otg).
Proof.
  unfold JS.find. induction pls as [|p pls IH]; intros H; [discriminate|].
  cbn [List.find map] in *.
  destruct (isOtg p) eqn:E.
  - injection H as ->. rewrite Z.eqb_refl. cbn. unfold isOtg in *. cbn. rewrite E.
    reflexivity.
  - assert (E' : isOtg (if Playlist.id p =? Playlist.id otg
                        then Playlist.set_songIds ids p else p) = false)
      by (destruct (_ =? _); exact E).
    rewrite E'. apply IH, H.
Qed.

Lemma find_isOtg_added (d : Db.t) (ids : list Z) :
  JS.find isOtg (Db.playlists d) = None ->
  JS.find isOtg (Db.playlists (db_playlists_add "On-The-Go" ids d))
  = Some {| Playlist.id := Db.playlistsKey d + 1; Playlist.name := "On-The-Go";
            Playlist.songIds := ids |}.
Proof.
  unfold JS.find, db_playlists_add. cbn.
  induction (Db.playlists d) as [|p pls IH]; intros H; [reflexivity|].
  cbn [List.find app] in *. destruct (isOtg p); [discriminate | auto].
Qed.

(** X8: a long press on a song row puts the song in the On-The-Go playlist,
    creating the playlist when it is missing, and a second long press on the
    same song changes nothing: the playlist never holds a song twice.
    Navigation and transport are not touched. *)
Theorem quick_add_is_idempotent (id : Z) (s : AppState) :
  id <> 0 ->
  Browser.dbOk (browser s) = true ->
  let s1 := quickAdd (Some id) s in
  (exists otg, JS.find isOtg (Db.playlists (db s1)) = Some otg /\
               In id (Playlist.songIds otg)) /\
  quickAdd (Some id) s1 = s1 /\
  navigationStack s1 = navigationStack s /\
  currentTrackId s1 = currentTrackId s /\
  playQueue s1 = playQueue s.
Proof.
  intros Hid Hok. cbv zeta.
  assert (Hz : (id =? 0) = false) by (apply Z.eqb_neq; exact Hid).
  destruct (JS.find isOtg (Db.playlists (db s))) as [otg|] eqn:E.
  - destruct (JS.includesZ (Playlist.songIds otg) id) eqn:Hinc.
    + assert (E1 : quickAdd (Some id) s = s)
        by (unfold quickAdd; rewrite Hz, Hok, E, Hinc; reflexivity).
      rewrite !E1. repeat split; try reflexivity.
      exists otg. split; [exact E | apply includesZ_true, Hinc].
    + assert (E1 : quickAdd (Some id) s
                   = snd (setTimeout CbFlashOff
                            (set_isFlashing true
                               (set_db (set_db_playlists
                                          (map (fun p =>
                                                  if Playlist.id p =? Playlist.id otg
                                                  then Playlist.set_songIds
                                                         (Playlist.songIds otg ++ [id]) p
                                                  else p) (Db.playlists (db s)))
                                          (db s)) s))))
        by (unfold quickAdd; rewrite Hz, Hok, E, Hinc; reflexivity).
      rewrite !E1.
      pose proof (find_isOtg_map otg (Playlist.songIds otg ++ [id]) _ E) as F.
      repeat split; try reflexivity.
      * eexists. split; [exact F|]. cbn. apply in_or_app. right. left. reflexivity.
      * set (s1 := snd (setTimeout CbFlashOff _)).
        assert (Hok1 : Browser.dbOk (browser s1) = true) by exact Hok.
        assert (F1 : JS.find isOtg (Db.playlists (db s1))
                     = Some (Playlist.set_songIds (Playlist.songIds otg ++ [id]) otg))
          by exact F.
        unfold quickAdd. rewrite Hz, Hok1, F1.
        cbn [negb Playlist.songIds Playlist.set_songIds].
        rewrite includesZ_last. reflexivity.
  - assert (E1 : quickAdd (Some id) s
                 = snd (setTimeout CbFlashOff
                          (set_isFlashing true
                             (set_db (db_playlists_add "On-The-Go" [id] (db s)) s))))
      by (unfold quickAdd; rewrite Hz, Hok, E; reflexivity).
    rewrite !E1.
    pose proof (find_isOtg_added (db s) [id] E) as F.
    repeat split; try reflexivity.
    + eexists. split; [exact F|]. left. reflexivity.
    + set (s1 := snd (setTimeout CbFlashOff _)).
      assert (Hok1 : Browser.dbOk (browser s1) = true) by exact Hok.
      assert (F1 : JS.find isOtg (Db.playlists (db s1))
                   = Some {| Playlist.id := Db.playlistsKey (db s) + 1;
                             Playlist.name := "On-The-Go";
                             Playlist.songIds := [id] |})
        by exact F.
      unfold quickAdd. rewrite Hz, Hok1, F1.
      cbn [negb Playlist.songIds].
      change (JS.includesZ [id] id) with (JS.includesZ ([] ++ [id]) id).
      rewrite includesZ_last. reflexivity.
Qed.

Lemma quick_add_is_idempotent_witness :
  map Playlist.songIds (Db.playlists (db onSongRow)) = [[]] /\
  map Playlist.songIds (Db.playlists (db (quickAdd (Some 2) onSongRow))) = [[2]] /\
  quickAdd (Some 2) (quickAdd (Some 2) onSongRow) = quickAdd (Some 2) onSongRow.
Proof.
  assert (H0 : map Playlist.songIds (Db.playlists (db onSongRow)) = [[]])
    by (vm_compute; reflexivity).
  assert (H1 : map Playlist.songIds (Db.playlists (db (quickAdd (Some 2) onSongRow)))
               = [[2]])
    by (vm_compute; reflexivity).
  assert (Hok : Browser.dbOk (browser onSongRow) = true) by (vm_compute; reflexivity).
  assert (Hid : 2 <> 0) by discriminate.
  exact (conj H0 (conj H1
           (proj1 (proj2 (quick_add_is_idempotent 2 onSongRow Hid Hok))))).
Defined.

(** ** Clearing the library *)

(** X9: on a library that holds songs, Clear Library deletes every stored
    song, empties the song list, the queue and the On-The-Go playlist, and
    stops the playback with no current track.  The other playlists are kept as
    they are, with the ids of the deleted songs.  The timeout it sets then
    replaces the navigation stack by the load view. *)
Theorem clear_library_empties_the_library (s : AppState) :
  Browser.dbOk (browser s) = true ->
  Db.songs (db s) <> [] ->
  timersFresh s ->
  let s1 := handleClearLibrary s in
  Db.songs (db s1) = [] /\ songs s1 = [] /\
  playQueue s1 = [] /\ currentTrackId s1 = None /\
  isPlaying s1 = false /\
  Audio.src (Playback.audio (playback s1)) = EmptyString /\
  (forall p, In p (Db.playlists (db s1)) -> isOtg p = true -> Playlist.id p <> 0 ->
             Playlist.songIds p = []) /\
  (forall p, In p (Db.playlists (db s)) -> isOtg p = false ->
             In p (Db.playlists (db s1))) /\
  ClearingState.message (clearingState s1)
  = ("Library cleared. " ++ JS.numToString (JS.len (Db.songs (db s)))
       ++ " items removed.")%string /\
  navigationStack (fireTimer (Browser.nextTimerId (browser s)) s1) = [frame0 "load"].
Proof.
  intros Hok Hne [_ Hfresh]. cbv zeta.
  assert (Hlen : (JS.len (Db.songs (db s)) =? 0) = false).
  { apply Z.eqb_neq. unfold JS.len. destruct (Db.songs (db s)); [congruence|].
    cbn [List.length]. lia. }
  unfold handleClearLibrary.
  cbn [browser setClearingState pushView push set_clearingState set_navigationStack db].
  rewrite Hok, Hlen.
  repeat split; try reflexivity.
  - intros p Hp Hotg Hid. cbn in Hp. apply in_map_iff in Hp.
    destruct Hp as (q & <- & Hq).
    destruct (String.eqb (Playlist.name q) "On-The-Go" && negb (Playlist.id q =? 0))
      eqn:E; [reflexivity|].
    exfalso. unfold isOtg in Hotg. rewrite Hotg in E. cbn in E.
    apply negb_false_iff, Z.eqb_eq in E. contradiction.
  - intros p Hp Hotg. cbn. apply in_map_iff. exists p. split; [|exact Hp].
    unfold isOtg in Hotg. rewrite Hotg. reflexivity.
  - unfold fireTimer. cbn [browser setTimeout snd set_browser Browser.timers set_timers
      set_currentTrackId set_playQueue set_songs stop set_playback set_db
      set_clearingState set_navigationStack].
    rewrite find_fresh by exact Hfresh. reflexivity.
Qed.

Lemma clear_library_empties_the_library_witness :
  (currentTrackId aboutToClear = Some 2 /\ playQueue aboutToClear = [2; 1] /\
   isPlaying aboutToClear = true /\
   map Playlist.songIds (Db.playlists (db aboutToClear)) = [[2]]) /\
  Db.songs (db (handleClearLibrary aboutToClear)) = [] /\
  playQueue (handleClearLibrary aboutToClear) = [] /\
  currentTrackId (handleClearLibrary aboutToClear) = None /\
  isPlaying (handleClearLibrary aboutToClear) = false /\
  map Playlist.songIds (Db.playlists (db (handleClearLibrary aboutToClear))) = [[]].
Proof.
  assert (Hbefore : currentTrackId aboutToClear = Some 2 /\
                    playQueue aboutToClear = [2; 1] /\
                    isPlaying aboutToClear = true /\
                    map Playlist.songIds (Db.playlists (db aboutToClear)) = [[2]])
    by (vm_compute; repeat split; reflexivity).
  assert (Hok : Browser.dbOk (browser aboutToClear) = true) by (vm_compute; reflexivity).
  assert (Hne : Db.songs (db aboutToClear) <> []) by (vm_compute; discriminate).
  assert (Hfresh : timersFresh aboutToClear)
    by (split; [vm_compute; discriminate | vm_compute; repeat constructor]).
  assert (Hotg : map Playlist.songIds
                   (Db.playlists (db (handleClearLibrary aboutToClear))) = [[]])
    by (vm_compute; reflexivity).
  pose proof (clear_library_empties_the_library aboutToClear Hok Hne Hfresh) as H.
  cbv zeta in H. destruct H as (H1 & _ & H3 & H4 & H5 & _).
  exact (conj Hbefore (conj H1 (conj H3 (conj H4 (conj H5 Hotg))))).
Defined.

(** ** Repeat all *)

Lemma In_indexOf (l : list Z) (x : Z) : In x l -> 0 <= JS.indexOf l x.
Proof.
  induction l as [|y l IH]; [contradiction|].
  intros H. cbn [JS.indexOf]. destruct (Z.eqb_spec y x) as [|Hne]; [lia|].
  destruct H as [H|H]; [contradiction|]. specialize (IH H).
  destruct (Z.ltb_spec (JS.indexOf l x) 0); lia.
Qed.

Lemma at_nth_error {A} (l : list A) (i : nat) :
  JS.at_ l (Z.of_nat i) = nth_error l i.
Proof.
  unfold JS.at_. destruct (Z.ltb_spec (Z.of_nat i) 0); [lia|].
  rewrite Nat2Z.id. reflexivity.
Qed.

(** With repeat all, [handleNext] moves the current track one position on,
    from the last position to the first. *)
Lemma handleNext_repeat_all (s : AppState) (cur : Z) :
  repeatMode s = RepeatAll ->
  NoDup (playQueue s) ->
  currentTrackId s = Some cur ->
  In cur (playQueue s) ->
  exists nxt,
    handleNext s = set_currentTrackId (Some nxt) s /\
    nth_error (playQueue s) (S (queuePosition s) mod List.length (playQueue s))
    = Some nxt /\
    Z.to_nat (JS.indexOf (playQueue s) nxt)
    = (S (queuePosition s) mod List.length (playQueue s))%nat.
Proof.
  intros Hrep Hnd Hcur Hin.
  pose proof (In_indexOf _ _ Hin) as H0.
  pose proof (indexOf_range (playQueue s) cur) as [_ Hlt].
  unfold queuePosition. rewrite Hcur.
  set (i := JS.indexOf (playQueue s) cur) in *.
  set (n := List.length (playQueue s)).
  assert (Hn : JS.len (playQueue s) = Z.of_nat n) by reflexivity.
  assert (Hpos : (0 < n)%nat) by lia.
  assert (Hj : (S (Z.to_nat i) mod n < n)%nat) by (apply Nat.mod_upper_bound; lia).
  destruct (nth_error (playQueue s) (S (Z.to_nat i) mod n)) as [nxt|] eqn:Enxt;
    [|apply nth_error_None in Enxt; fold n in Enxt; lia].
  exists nxt.
  assert (Hidx : JS.indexOf (playQueue s) nxt = Z.of_nat (S (Z.to_nat i) mod n)).
  { apply indexOf_NoDup; [exact Hnd | lia | rewrite at_nth_error; exact Enxt]. }
  split; [|split; [reflexivity | rewrite Hidx; apply Nat2Z.id]].
  unfold handleNext. rewrite Hcur, Hrep. fold i. rewrite Hn.
  destruct (Z.eqb_spec (Z.of_nat n) 0); [lia|].
  destruct (Z.eqb_spec i (-1)); [lia|].
  destruct (Z.eqb_spec i (Z.of_nat n - 1)) as [Elast|Hmid].
  - assert (E : (S (Z.to_nat i) mod n = 0)%nat).
    { replace (S (Z.to_nat i)) with n by lia. apply Nat.Div0.mod_same. }
    rewrite E in Enxt. change 0 with (Z.of_nat 0). rewrite at_nth_error, Enxt.
    reflexivity.
  - assert (E : (S (Z.to_nat i) mod n = S (Z.to_nat i))%nat)
      by (apply Nat.mod_small; lia).
    rewrite E in Enxt.
    replace (i + 1) with (Z.of_nat (S (Z.to_nat i))) by lia.
    rewrite at_nth_error, Enxt. reflexivity.
Qed.

Lemma handleNext_repeat_all_iter (k : nat) (s : AppState) (cur : Z) :
  repeatMode s = RepeatAll ->
  NoDup (playQueue s) ->
  currentTrackId s = Some cur ->
  In cur (playQueue s) ->
  let s' := Nat.iter k handleNext s in
  playQueue s' = playQueue s /\ repeatMode s' = RepeatAll /\
  currentTrackId s'
  = nth_error (playQueue s) ((queuePosition s + k) mod List.length (playQueue s)) /\
  queuePosition s' = ((queuePosition s + k) mod List.length (playQueue s))%nat.
Proof.
  intros Hrep Hnd Hcur Hin. cbv zeta.
  assert (Hn : (0 < List.length (playQueue s))%nat)
    by (destruct (playQueue s); [contradiction | cbn; lia]).
  assert (Hi : (queuePosition s < List.length (playQueue s))%nat).
  { unfold queuePosition. rewrite Hcur.
    pose proof (In_indexOf _ _ Hin). pose proof (indexOf_range (playQueue s) cur).
    unfold JS.len in *. lia. }
  induction k as [|k IH].
  - change (Nat.iter 0 handleNext s) with s.
    rewrite Nat.add_0_r, Nat.mod_small by exact Hi.
    repeat split; try assumption.
    rewrite Hcur. unfold queuePosition. rewrite Hcur.
    symmetry. rewrite <- at_nth_error, Z2Nat.id by (apply In_indexOf, Hin).
    apply indexOf_at; [reflexivity | apply In_indexOf, Hin].
  - destruct IH as (Hq & Hr & Hc & Hp).
    change (Nat.iter (S k) handleNext s) with (handleNext (Nat.iter k handleNext s)).
    set (sk := Nat.iter k handleNext s) in *.
    destruct (currentTrackId sk) as [c|] eqn:Ec;
      [|symmetry in Hc; apply nth_error_None in Hc;
        pose proof (Nat.mod_upper_bound (queuePosition s + k)
                      (List.length (playQueue s))); lia].
    assert (Hinc : In c (playQueue sk)).
    { rewrite Hq. symmetry in Hc. apply nth_error_In in Hc. exact Hc. }
    destruct (handleNext_repeat_all sk c Hr ltac:(rewrite Hq; exact Hnd) Ec Hinc)
      as (nxt & -> & Hnth & Hidx).
    rewrite Hq, Hp in Hnth, Hidx.
    assert (Emod : (S ((queuePosition s + k) mod List.length (playQueue s))
                    mod List.length (playQueue s)
                    = (queuePosition s + S k) mod List.length (playQueue s))%nat).
    { rewrite <- Nat.add_1_r, Nat.Div0.add_mod_idemp_l. f_equal. lia. }
    rewrite Emod in Hnth, Hidx.
    repeat split; try assumption.
    + cbn. symmetry. exact Hnth.
    + unfold queuePosition. cbn [currentTrackId set_currentTrackId playQueue].
      rewrite Hq. exact Hidx.
Qed.

(** X10: with repeat all and a queue that holds no id twice, [handleNext]
    walks the queue as a cycle: after [k] presses the current track is the entry
    [k] positions on, counted modulo the length of the queue, and after as many
    presses as the queue has entries it is the track it started from. *)
Theorem repeat_all_cycles_the_queue (s : AppState) (cur : Z) (k : nat) :
  repeatMode s = RepeatAll ->
  NoDup (playQueue s) ->
  currentTrackId s = Some cur ->
  In cur (playQueue s) ->
  currentTrackId (Nat.iter k handleNext s)
  = nth_error (playQueue s) ((queuePosition s + k) mod List.length (playQueue s)) /\
  currentTrackId (Nat.iter (List.length (playQueue s)) handleNext s) = Some cur.
Proof.
  intros Hrep Hnd Hcur Hin.
  split; [apply (handleNext_repeat_all_iter k s cur); assumption|].
  destruct (handleNext_repeat_all_iter (List.length (playQueue s)) s cur
              Hrep Hnd Hcur Hin) as (_ & _ & -> & _).
  assert (Hn : (0 < List.length (playQueue s))%nat)
    by (destruct (playQueue s); [contradiction | cbn; lia]).
  assert (Hi : (queuePosition s < List.length (playQueue s))%nat).
  { unfold queuePosition. rewrite Hcur.
    pose proof (In_indexOf _ _ Hin). pose proof (indexOf_range (playQueue s) cur).
    unfold JS.len in *. lia. }
  replace (queuePosition s + List.length (playQueue s))%nat
    with (queuePosition s + 1 * List.length (playQueue s))%nat by lia.
  rewrite Nat.Div0.mod_add, Nat.mod_small by exact Hi.
  unfold queuePosition. rewrite Hcur.
  rewrite <- at_nth_error, Z2Nat.id by (apply In_indexOf, Hin).
  apply indexOf_at; [reflexivity | apply In_indexOf, Hin].
Qed.

Lemma repeat_all_cycles_the_queue_witness :
  playQueue midQueueRepeating = [1; 2; 3; 4] /\
  currentTrackId midQueueRepeating = Some 3 /\
  currentTrackId (Nat.iter 2 handleNext midQueueRepeating) = Some 1 /\
  currentTrackId (Nat.iter 4 handleNext midQueueRepeating) = Some 3.
Proof.
  assert (Hq : playQueue midQueueRepeating = [1; 2; 3; 4]) by reflexivity.
  assert (Hrep : repeatMode midQueueRepeating = RepeatAll) by reflexivity.
  assert (Hcur : currentTrackId midQueueRepeating = Some 3) by reflexivity.
  assert (Hnd : NoDup (playQueue midQueueRepeating)).
  { rewrite Hq. repeat constructor; cbn; intuition lia. }
  assert (Hin : In 3 (playQueue midQueueRepeating))
    by (rewrite Hq; cbn; intuition lia).
  pose proof (repeat_all_cycles_the_queue midQueueRepeating 3 2 Hrep Hnd Hcur Hin)
    as [H2 H4].
  exact (conj Hq (conj Hcur (conj H2 H4))).
Defined.

(** ** The playback hook and the play/pause button *)

Lemma knowsLastUrl_same (s s' : AppState) :
  Playback.lastUrl (playback s') = Playback.lastUrl (playback s) ->
  Audio.currentSrc (Playback.audio (playback s'))
  = Audio.currentSrc (Playback.audio (playback s)) ->
  knowsLastUrl s -> knowsLastUrl s'.
Proof. unfold knowsLastUrl. intros -> ->. tauto. Qed.

Lemma play_knowsLastUrl (url : string) (s : AppState) :
  url <> EmptyString -> knowsLastUrl (play url s).
Proof.
  intros Hne. apply String.eqb_neq in Hne as Eu.
  unfold knowsLastUrl, play, play_hook, audio_play.
  destruct (_ && _); cbn; rewrite Eu; (split; [reflexivity | exact Hne]).
Qed.

Lemma resume_knowsLastUrl (s : AppState) :
  knowsLastUrl s -> knowsLastUrl (resume s).
Proof.
  intros H. unfold resume, resume_hook.
  destruct (negb _).
  - apply (knowsLastUrl_same s); [| |exact H]; unfold audio_play;
      destruct (_ && _); reflexivity.
  - destruct (Playback.lastUrl (playback s)) as [u|] eqn:Eu;
      [|apply (knowsLastUrl_same s); [reflexivity | reflexivity | exact H]].
    destruct (String.eqb u EmptyString) eqn:E;
      [apply (knowsLastUrl_same s); [reflexivity | reflexivity | exact H]|].
    apply (play_knowsLastUrl u s). apply String.eqb_neq. exact E.
Qed.

Lemma trackLoadSettle_knowsLastUrl (result : option (option Song.t))
  (queue : list Z) (track : option Z) (mode : RepeatMode) (s : AppState) :
  knowsLastUrl s -> knowsLastUrl (trackLoadSettle result queue track mode s).
Proof.
  intros H. unfold trackLoadSettle.
  destruct result as [[song|]|].
  - destruct (Song.fileBlob song) as [blob|]; [|exact H].
    apply play_knowsLastUrl. discriminate.
  - apply (knowsLastUrl_same s); [| |exact H];
      unfold handleNextOf; branches; reflexivity.
  - apply (knowsLastUrl_same s); [| |exact H];
      unfold handleNextOf; branches; reflexivity.
Qed.

Lemma invoke_knowsLastUrl (a : Action) (s : AppState) :
  knowsLastUrl s -> knowsLastUrl (invoke a s).
Proof.
  intros H. apply (knowsLastUrl_same s); [| |exact H];
    destruct a; cbn [invoke];
    unfold handleMenuClick, handleFocusPlayPause, handleSessionEnd,
      updateFocusSetting, createPlayAction, resetBounceGame, mathRandom,
      pushView, calculateTodayStats, sliceStack, handleClearLibrary;
    branches; reflexivity.
Qed.

Lemma handleSelectClick_knowsLastUrl (s : AppState) :
  knowsLastUrl s -> knowsLastUrl (handleSelectClick s).
Proof.
  intros H. unfold handleSelectClick.
  destruct (currentView s) as [cv|]; [|exact H].
  assert (Hsel : knowsLastUrl
                   match JS.at_ (menuItems s) (ViewFrame.activeIndex cv) with
                   | Some row => invoke (MenuItem.action row) s
                   | None => s
                   end)
    by (destruct (JS.at_ (menuItems s) (ViewFrame.activeIndex cv));
        [apply invoke_knowsLastUrl, H | exact H]).
  destruct (JS.startsWith (ViewFrame.id cv) "focus-setting-edit/").
  { apply (knowsLastUrl_same s); [| |exact H];
      unfold updateFocusSetting, sliceStack; branches; reflexivity. }
  destruct (String.eqb (ViewFrame.id cv) "bounce-game").
  { destruct (BounceGameState.gameState (bounceGame s)); auto. }
  destruct (String.eqb (ViewFrame.id cv) "now-playing");
    [apply (knowsLastUrl_same s); [reflexivity | reflexivity | exact H]|].
  destruct (String.eqb (ViewFrame.id cv) "load"); [exact H|].
  destruct (String.eqb (ViewFrame.id cv) "cover-flow" && (0 <? JS.len (coverFlowItems s)));
    [|exact Hsel].
  destruct (JS.at_ (coverFlowItems s) (ViewFrame.activeIndex cv)); [|exact H].
  apply (knowsLastUrl_same s); [reflexivity | reflexivity | exact H].
Qed.

Lemma step_knowsLastUrl (s : AppState) (e : Event) :
  knowsLastUrl s -> knowsLastUrl (step s e).
Proof.
  intros H.
  assert (Hr : knowsLastUrl (render s))
    by (apply (knowsLastUrl_same s); [reflexivity | reflexivity | exact H]).
  unfold step.
  destruct e;
    try (apply (knowsLastUrl_same (render s)); [| |exact Hr];
         unfold initializeApp, handleFileChange, handleScroll, handleSetRating,
           setVolumeState, updateTop, handleSelectMouseDown, handleNext, handlePrev,
           focusTick, handleSessionEnd, gameLoop, setBounceGame, trackLoadBegin,
           handleMenuClick, updateFocusSetting, resetBounceGame, mathRandom,
           sliceStack, calculateTodayStats, pause;
         branches; reflexivity).
  - unfold handlePlayPause, handleFocusPlayPause.
    branches;
      first [ exact Hr | apply resume_knowsLastUrl, Hr
            | apply (knowsLastUrl_same (render s)); [reflexivity | reflexivity | exact Hr] ].
  - apply (knowsLastUrl_same (render s)); [reflexivity | reflexivity | exact Hr].
  - unfold handleSelectMouseUp. branches; try exact Hr.
    apply handleSelectClick_knowsLastUrl.
    apply (knowsLastUrl_same (render s)); [reflexivity | reflexivity | exact Hr].
  - unfold fireTimer.
    destruct (List.find _ (Browser.timers (browser (render s)))) as [[i cb]|];
      [|exact Hr].
    assert (Hc : knowsLastUrl (clearTimeout id (render s)))
      by (apply (knowsLastUrl_same s); [reflexivity | reflexivity | exact H]).
    destruct cb; cbn [runCallback];
      try (apply (knowsLastUrl_same (render s)); [| |exact Hr];
           unfold quickAdd; branches; reflexivity).
    apply trackLoadSettle_knowsLastUrl, Hc.
  - unfold trackLoadEffect.
    destruct (currentTrackId (set_currentObjectUrl None (render s))) as [tid|].
    + destruct (db_songs_get tid _) as [[song|]|].
      * destruct (Song.fileBlob song) as [blob|];
          [ apply play_knowsLastUrl; discriminate
          | apply (knowsLastUrl_same (render s)); [reflexivity | reflexivity | exact Hr] ].
      * apply (knowsLastUrl_same (render s)); [| |exact Hr];
          unfold handleNext; branches; reflexivity.
      * apply (knowsLastUrl_same (render s)); [| |exact Hr];
          unfold handleNext; branches; reflexivity.
    + apply (knowsLastUrl_same (render s)); [reflexivity | reflexivity | exact Hr].
  - unfold handleMediaSessionPlay.
    branches;
      first [ exact Hr | apply resume_knowsLastUrl, Hr
            | apply (knowsLastUrl_same (render s)); [reflexivity | reflexivity | exact Hr] ].
Qed.

Lemma run_knowsLastUrl (es : list Event) (s : AppState) :
  knowsLastUrl s -> knowsLastUrl (run s es).
Proof.
  revert s. induction es as [|e es IH]; intros s H; [exact H|].
  cbn [run fold_left]. apply IH, step_knowsLastUrl, H.
Qed.

(** X11: in every state reached from start-up the audio element has selected
    the last url the hook holds: [currentSrc] is that url, and [stop], which
    empties [src], leaves it.  In such a state [resume] after [stop] takes its
    first branch and calls [audio.play()] on an element without source; nothing
    plays and the state is the one [stop] left: the fallback to the last url is
    not taken.  [resume] after [pause], on an element with a source and a host
    that lets it play, goes on with the source and at the position the element
    has. *)
Theorem stop_then_resume_stays_stopped (s : AppState) (u : string) :
  (forall b d es, knowsLastUrl (run (initialState b d) es)) /\
  (knowsLastUrl s ->
   Playback.lastUrl (playback s) = Some u ->
   Audio.currentSrc (Playback.audio (playback (stop s))) = u /\
   Audio.src (Playback.audio (playback (stop s))) = EmptyString /\
   resume (stop s) = stop s /\
   isPlaying (resume (stop s)) = false /\
   (Browser.mediaOk (browser s) = true ->
    Audio.src (Playback.audio (playback s)) <> EmptyString ->
    isPlaying (resume (pause s)) = true /\
    Audio.src (Playback.audio (playback (resume (pause s))))
    = Audio.src (Playback.audio (playback s)) /\
    Audio.currentTime (Playback.audio (playback (resume (pause s))))
    = Audio.currentTime (Playback.audio (playback s)))).
Proof.
  split; [intros b d es; apply run_knowsLastUrl; exact I|].
  intros Hk Hu.
  unfold knowsLastUrl in Hk. rewrite Hu in Hk. destruct Hk as [Hc Hne].
  assert (Ec : String.eqb (Audio.currentSrc (Playback.audio (playback s))) EmptyString
               = false) by (apply String.eqb_neq; rewrite Hc; exact Hne).
  split; [exact Hc|]. split; [reflexivity|].
  assert (Hres : resume (stop s) = stop s).
  { unfold resume, resume_hook. cbn [stop].
    change (Audio.currentSrc (Playback.audio (playback (stop s))))
      with (Audio.currentSrc (Playback.audio (playback s))).
    rewrite Ec. cbn [negb]. unfold audio_play.
    change (Audio.src (Playback.audio (playback (stop s)))) with EmptyString.
    cbn [String.eqb negb]. rewrite andb_false_r. reflexivity. }
  split; [exact Hres|]. split; [rewrite Hres; reflexivity|].
  intros Hok Hsrc.
  assert (Es : String.eqb (Audio.src (Playback.audio (playback s))) EmptyString = false)
    by (apply String.eqb_neq; exact Hsrc).
  unfold resume, pause, resume_hook, pause_hook, audio_play, isPlaying.
  cbn. rewrite Ec, Es, Hok. cbn. repeat split; reflexivity.
Qed.

Lemma stop_then_resume_stays_stopped_witness :
  Playback.lastUrl (playback playingAtMain) = Some "blob:A"%string /\
  isPlaying playingAtMain = true /\
  Audio.currentTime (Playback.audio (playback playingAtMain)) = 42%Q /\
  isPlaying (resume (stop playingAtMain)) = false /\
  Audio.currentTime (Playback.audio (playback (resume (pause playingAtMain)))) = 42%Q.
Proof.
  assert (Hu : Playback.lastUrl (playback playingAtMain) = Some "blob:A"%string)
    by (vm_compute; reflexivity).
  assert (Hk : knowsLastUrl playingAtMain)
    by (unfold knowsLastUrl; rewrite Hu; split; [vm_compute; reflexivity | discriminate]).
  assert (Hp : isPlaying playingAtMain = true) by (vm_compute; reflexivity).
  assert (Ht : Audio.currentTime (Playback.audio (playback playingAtMain)) = 42%Q)
    by (vm_compute; reflexivity).
  assert (Hok : Browser.mediaOk (browser playingAtMain) = true)
    by (vm_compute; reflexivity).
  assert (Hsrc : Audio.src (Playback.audio (playback playingAtMain)) <> EmptyString)
    by (vm_compute; discriminate).
  pose proof (proj2 (stop_then_resume_stays_stopped playingAtMain "blob:A") Hk Hu)
    as (_ & _ & _ & H1 & H5).
  destruct (H5 Hok Hsrc) as (_ & _ & H6).
  rewrite Ht in H6.
  exact (conj Hu (conj Hp (conj Ht (conj H1 H6)))).
Defined.

(** X12: the play/pause button acts on what its icon shows.  When the icon
    shows playing (an active focus session in a focus view, a running game in
    Bounce, playing music elsewhere) a press turns it off; in a focus view and
    in a paused game a press turns it on; and a focus session that a press
    starts runs with the music paused. *)
Theorem play_pause_follows_the_indicator (s : AppState) (cv : ViewFrame.t) :
  currentView s = Some cv ->
  (clickWheelIsPlaying s = Some true ->
   clickWheelIsPlaying (handlePlayPause s) = Some false) /\
  (clickWheelIsPlaying s = Some false ->
   JS.startsWith (ViewFrame.id cv) "focus" = true \/
   (ViewFrame.id cv = "bounce-game"%string /\
    BounceGameState.gameState (bounceGame s) = GamePaused) ->
   clickWheelIsPlaying (handlePlayPause s) = Some true) /\
  (JS.startsWith (ViewFrame.id cv) "focus" = true ->
   FocusState.isActive (focusState (handlePlayPause s)) = true ->
   isPlaying (handlePlayPause s) = false).
Proof.
  intros Hcv.
  assert (Hview : forall t, navigationStack t = navigationStack s ->
                            currentView t = Some cv).
  { intros t E. unfold currentView. rewrite E. exact Hcv. }
  unfold clickWheelIsPlaying at 1 3. rewrite Hcv.
  unfold handlePlayPause. rewrite Hcv.
  destruct (JS.startsWith (ViewFrame.id cv) "focus") eqn:Ef.
  - (* a focus view *)
    assert (Hc : currentView (handleFocusPlayPause s) = Some cv).
    { apply Hview. unfold handleFocusPlayPause. branches; reflexivity. }
    unfold clickWheelIsPlaying. rewrite Hc, Ef.
    assert (Ha : FocusState.isActive (focusState (handleFocusPlayPause s))
                 = negb (FocusState.isActive (focusState s))).
    { unfold handleFocusPlayPause. branches_eq; cbn; congruence. }
    rewrite Ha.
    split; [intros E; injection E as ->; reflexivity|].
    split; [intros E _; injection E as ->; reflexivity|].
    intros _ Hact. apply negb_true_iff in Hact.
    unfold handleFocusPlayPause. rewrite Hact. cbn [negb].
    destruct (isPlaying s) eqn:Ep; [reflexivity | exact Ep].
  - destruct (String.eqb (ViewFrame.id cv) "bounce-game") eqn:Eb.
    + (* Bounce *)
      apply String.eqb_eq in Eb.
      split; [|split; [|discriminate]].
      * intros E. injection E as E.
        destruct (BounceGameState.gameState (bounceGame s)) eqn:Eg; try discriminate E.
        unfold clickWheelIsPlaying.
        match goal with
        | |- context [currentView ?t] => rewrite (Hview t eq_refl)
        end.
        rewrite Ef, Eb. reflexivity.
      * intros _ [Hf|[_ Hg]]; [discriminate|]. rewrite Hg.
        unfold clickWheelIsPlaying.
        match goal with
        | |- context [currentView ?t] => rewrite (Hview t eq_refl)
        end.
        rewrite Ef, Eb. reflexivity.
    + (* music *)
      split; [|split; [|discriminate]].
      * intros E. injection E as E. rewrite E.
        unfold clickWheelIsPlaying.
        match goal with
        | |- context [currentView ?t] => rewrite (Hview t eq_refl)
        end.
        rewrite Ef, Eb. reflexivity.
      * intros _ [Hf|[Hid _]]; [discriminate|].
        rewrite Hid in Eb. discriminate Eb.
Qed.

Lemma play_pause_follows_the_indicator_witness :
  currentView playingAtMain
  = Some {| ViewFrame.id := "main"; ViewFrame.activeIndex := 1 |} /\
  clickWheelIsPlaying playingAtMain = Some true /\
  clickWheelIsPlaying (handlePlayPause playingAtMain) = Some false.
Proof.
  assert (Hcv : currentView playingAtMain
                = Some {| ViewFrame.id := "main"; ViewFrame.activeIndex := 1 |})
    by (vm_compute; reflexivity).
  assert (H1 : clickWheelIsPlaying playingAtMain = Some true)
    by (vm_compute; reflexivity).
  exact (conj Hcv (conj H1
           (proj1 (play_pause_follows_the_indicator playingAtMain _ Hcv) H1))).
Defined.

(** ** Scrolling *)

Lemma currentView_updateTop (f : ViewFrame.t -> Z) (s : AppState) (cv : ViewFrame.t) :
  currentView s = Some cv ->
  currentView (updateTop f s) = Some (ViewFrame.set_activeIndex (f cv) cv).
Proof.
  intros H. unfold updateTop. rewrite H.
  apply (currentView_top _ (JS.slice0 (navigationStack s) 1)). reflexivity.
Qed.

Lemma menuItems_updateTop (f : ViewFrame.t -> Z) (s : AppState) :
  menuItems (updateTop f s) = menuItems s.
Proof.
  destruct (currentView s) as [cv|] eqn:Hcv;
    [|unfold updateTop; rewrite Hcv; reflexivity].
  unfold menuItems, computeMenuItems.
  rewrite (currentView_updateTop f s cv Hcv), Hcv.
  unfold updateTop. rewrite Hcv. reflexivity.
Qed.

Lemma listLength_updateTop (f : ViewFrame.t -> Z) (s : AppState) (cv : ViewFrame.t) :
  currentView s = Some cv ->
  listLength (updateTop f s) (ViewFrame.set_activeIndex (f cv) cv) = listLength s cv.
Proof.
  intros Hcv. unfold listLength. cbn [ViewFrame.id ViewFrame.set_activeIndex].
  rewrite menuItems_updateTop.
  assert (E : coverFlowItems (updateTop f s) = coverFlowItems s)
    by (unfold updateTop; rewrite Hcv; reflexivity).
  rewrite E. reflexivity.
Qed.

Lemma scrollsAList_updateTop (f : ViewFrame.t -> Z) (s : AppState) (cv : ViewFrame.t) :
  currentView s = Some cv ->
  scrollsAList (updateTop f s) (ViewFrame.set_activeIndex (f cv) cv)
  = scrollsAList s cv.
Proof.
  intros Hcv. unfold scrollsAList, updateTop. rewrite Hcv. reflexivity.
Qed.

(** The scroll handler on a view that scrolls through a list. *)
Lemma handleScroll_list (d : Z) (s : AppState) (cv : ViewFrame.t) :
  currentView s = Some cv ->
  scrollsAList s cv = true ->
  handleScroll d s
  = if listLength s cv =? 0 then s
    else updateTop (fun last => Z.rem (ViewFrame.activeIndex last + d + listLength s cv)
                                  (listLength s cv)) s.
Proof.
  intros Hcv H. unfold scrollsAList in H.
  apply andb_true_iff in H. destruct H as [H H3].
  apply andb_true_iff in H. destruct H as [H1 H2].
  apply negb_true_iff in H1, H2, H3.
  unfold handleScroll. rewrite Hcv, H1, H2. unfold listLength.
  destruct (String.eqb (ViewFrame.id cv) "now-playing") eqn:En.
  - cbn [andb] in H3. destruct (currentSong s); [discriminate|].
    apply String.eqb_eq in En. rewrite En. reflexivity.
  - reflexivity.
Qed.

(** X13: in a view that scrolls through a list, one step of the wheel moves
    the selection by one, from the last entry to the first and back, and the
    selection then lies within the list, also when it lay beyond its end before;
    a step back returns to the entry the selection came from. *)
Theorem list_scroll_wraps (s : AppState) (cv : ViewFrame.t) (d : Z) :
  currentView s = Some cv ->
  scrollsAList s cv = true ->
  d = 1 \/ d = -1 ->
  0 <= ViewFrame.activeIndex cv ->
  0 < listLength s cv ->
  exists cv',
    currentView (handleScroll d s) = Some cv' /\
    ViewFrame.id cv' = ViewFrame.id cv /\
    ViewFrame.activeIndex cv' = (ViewFrame.activeIndex cv + d) mod listLength s cv /\
    0 <= ViewFrame.activeIndex cv' < listLength s cv /\
    (ViewFrame.activeIndex cv < listLength s cv ->
     currentView (handleScroll (- d) (handleScroll d s)) = Some cv).
Proof.
  intros Hcv Hl Hd Hi Hn.
  set (n := listLength s cv) in *.
  set (f := fun last : ViewFrame.t => Z.rem (ViewFrame.activeIndex last + d + n) n).
  assert (Hne : (n =? 0) = false) by (apply Z.eqb_neq; lia).
  assert (E1 : handleScroll d s = updateTop f s)
    by (rewrite (handleScroll_list d s cv Hcv Hl); fold n; rewrite Hne; reflexivity).
  assert (Hf : f cv = (ViewFrame.activeIndex cv + d) mod n).
  { unfold f. rewrite Z.rem_mod_nonneg by lia.
    replace (ViewFrame.activeIndex cv + d + n)
      with (ViewFrame.activeIndex cv + d + 1 * n) by lia.
    apply Z.mod_add. lia. }
  assert (Hr : 0 <= f cv < n) by (rewrite Hf; apply Z.mod_pos_bound; lia).
  exists (ViewFrame.set_activeIndex (f cv) cv).
  rewrite E1. split; [apply currentView_updateTop, Hcv|].
  split; [reflexivity|]. split; [exact Hf|]. split; [exact Hr|].
  intros Hlt.
  set (cv1 := ViewFrame.set_activeIndex (f cv) cv).
  assert (Hcv1 : currentView (updateTop f s) = Some cv1)
    by (apply currentView_updateTop, Hcv).
  assert (Hl1 : scrollsAList (updateTop f s) cv1 = true)
    by (unfold cv1; rewrite scrollsAList_updateTop by exact Hcv; exact Hl).
  assert (Hn1 : listLength (updateTop f s) cv1 = n)
    by (unfold cv1; rewrite listLength_updateTop by exact Hcv; reflexivity).
  rewrite (handleScroll_list (- d) _ cv1 Hcv1 Hl1), Hn1, Hne.
  rewrite (currentView_updateTop _ _ cv1 Hcv1).
  unfold cv1. cbn [ViewFrame.activeIndex ViewFrame.set_activeIndex ViewFrame.id].
  assert (Eback : Z.rem (f cv + - d + n) n = ViewFrame.activeIndex cv).
  { rewrite Z.rem_mod_nonneg by lia. rewrite Hf.
    replace ((ViewFrame.activeIndex cv + d) mod n + - d + n)
      with ((ViewFrame.activeIndex cv + d) mod n + (n - d)) by lia.
    rewrite Zplus_mod_idemp_l.
    replace (ViewFrame.activeIndex cv + d + (n - d))
      with (ViewFrame.activeIndex cv + 1 * n) by lia.
    rewrite Z.mod_add by lia. apply Z.mod_small. lia. }
  rewrite Eback. destruct cv; reflexivity.
Qed.

Lemma list_scroll_wraps_witness :
  currentView focusReady = Some (frame0 "main") /\
  listLength focusReady (frame0 "main") = 6 /\
  option_map ViewFrame.activeIndex (currentView (handleScroll (-1) focusReady))
  = Some 5 /\
  currentView (handleScroll 1 (handleScroll (-1) focusReady)) = Some (frame0 "main").
Proof.
  assert (Hcv : currentView focusReady = Some (frame0 "main"))
    by (vm_compute; reflexivity).
  assert (Hl : scrollsAList focusReady (frame0 "main") = true)
    by (vm_compute; reflexivity).
  assert (Hn : listLength focusReady (frame0 "main") = 6) by (vm_compute; reflexivity).
  assert (Hi : 0 <= ViewFrame.activeIndex (frame0 "main")) by (cbn; lia).
  assert (Hpos : 0 < listLength focusReady (frame0 "main")) by (rewrite Hn; lia).
  destruct (list_scroll_wraps focusReady (frame0 "main") (-1) Hcv Hl
              (or_intror eq_refl) Hi Hpos)
    as (cv' & H1 & _ & H3 & _ & H5).
  rewrite Hn in H3, H5.
  split; [exact Hcv|]. split; [exact Hn|].
  split; [rewrite H1; cbn [option_map]; rewrite H3; reflexivity|].
  apply H5. cbn. lia.
Defined.

Lemma clampQ_range (v : Q) : (0 <= JS.clampQ 0 1 v <= 1)%Q.
Proof.
  unfold JS.clampQ, JS.maxQ, JS.minQ.
  destruct (Qle_bool 1 v) eqn:E1.
  - cbn. split; discriminate.
  - destruct (Qle_bool 0 v) eqn:E0.
    + apply Qle_bool_iff in E0. split; [exact E0|].
      apply Qnot_lt_le. intros Hlt.
      assert (Qle_bool 1 v = true) by (apply Qle_bool_iff, Qlt_le_weak, Hlt).
      congruence.
    + split; [apply Qle_refl | discriminate].
Qed.

Lemma handleScroll_volume (d : Z) (s : AppState) :
  nowPlayingIn ModeVolume s ->
  handleScroll d s
  = setVolumeState (JS.clampQ 0 1 (volume s + inject_Z d * (5 # 100))) s.
Proof.
  intros (Hv & (song & Hsong & Hid) & Hmode).
  apply viewIs_inv in Hv. destruct Hv as (cv & Hcv & Ecv).
  unfold handleScroll. rewrite Hcv, Ecv. view_chain. cbn [andb].
  rewrite Hsong, Hmode.
  destruct (Z.eqb_spec (Song.id song) 0); [contradiction | reflexivity].
Qed.

Lemma handleScroll_volume_step (e : Z) (t : AppState) :
  nowPlayingIn ModeVolume t ->
  nowPlayingIn ModeVolume (handleScroll e t) /\
  (0 <= volume (handleScroll e t) <= 1)%Q /\
  Audio.volume (Playback.audio (playback (handleScroll e t)))
  = volume (handleScroll e t).
Proof.
  intros Ht. rewrite (handleScroll_volume e t Ht).
  split; [exact Ht|]. split; [apply clampQ_range | reflexivity].
Qed.

Lemma scrolls_volume (ds : list Z) (t : AppState) :
  nowPlayingIn ModeVolume t ->
  (0 <= volume t <= 1)%Q ->
  Audio.volume (Playback.audio (playback t)) = volume t ->
  nowPlayingIn ModeVolume (scrolls ds t) /\
  (0 <= volume (scrolls ds t) <= 1)%Q /\
  Audio.volume (Playback.audio (playback (scrolls ds t))) = volume (scrolls ds t).
Proof.
  revert t; induction ds as [|e ds IH]; intros t H1 H2 H3; [auto|].
  change (scrolls (e :: ds) t) with (scrolls ds (handleScroll e t)).
  destruct (handleScroll_volume_step e t H1) as (G1 & G2 & G3).
  apply IH; assumption.
Qed.

(** X14: in the now-playing view in volume mode, the wheel changes the volume
    by 5 % a step and never out of the range from 0 to 1, and the audio element
    is given the volume the state holds. *)
Theorem volume_scroll_stays_within_bounds (ds : list Z) (d : Z) (s : AppState) :
  nowPlayingIn ModeVolume s ->
  (0 <= volume (scrolls (d :: ds) s) <= 1)%Q /\
  Audio.volume (Playback.audio (playback (scrolls (d :: ds) s)))
  = volume (scrolls (d :: ds) s) /\
  volume (handleScroll d s) = JS.clampQ 0 1 (volume s + inject_Z d * (5 # 100)) /\
  nowPlayingIn ModeVolume (scrolls (d :: ds) s).
Proof.
  intros H.
  destruct (handleScroll_volume_step d s H) as (H1 & H2 & H3).
  change (scrolls (d :: ds) s) with (scrolls ds (handleScroll d s)).
  destruct (scrolls_volume ds (handleScroll d s) H1 H2 H3) as (G1 & G2 & G3).
  split; [exact G2|]. split; [exact G3|]. split; [|exact G1].
  rewrite (handleScroll_volume d s H). reflexivity.
Qed.

Lemma volume_scroll_stays_within_bounds_witness :
  nowPlayingIn ModeVolume nowPlayingOpened /\
  volume nowPlayingOpened = (75 # 100)%Q /\
  (0 <= volume (scrolls (steps 1 7) nowPlayingOpened) <= 1)%Q /\
  (volume (scrolls (steps 1 7) nowPlayingOpened) == 1)%Q.
Proof.
  assert (H : nowPlayingIn ModeVolume nowPlayingOpened).
  { split; [vm_compute; reflexivity|]. split; [|vm_compute; reflexivity].
    exists (demoSong 2 "A"). split; [vm_compute; reflexivity | discriminate]. }
  assert (H0 : volume nowPlayingOpened = (75 # 100)%Q) by (vm_compute; reflexivity).
  assert (H1 : (volume (scrolls (steps 1 7) nowPlayingOpened) == 1)%Q)
    by (vm_compute; reflexivity).
  exact (conj H (conj H0
           (conj (proj1 (volume_scroll_stays_within_bounds (steps 1 6) 1
                           nowPlayingOpened H)) H1))).
Defined.

Lemma findSong_set_rating (l : list Song.t) (id r : Z) :
  findSong (map (fun x => if Song.id x =? id then Song.set_rating r x else x) l) id
  = option_map (Song.set_rating r) (findSong l id).
Proof.
  unfold findSong, JS.find. induction l as [|x l IH]; [reflexivity|].
  cbn [map List.find]. destruct (Z.eqb_spec (Song.id x) id) as [E|Hne].
  - cbn. rewrite E, Z.eqb_refl. reflexivity.
  - apply Z.eqb_neq in Hne. rewrite Hne. exact IH.
Qed.

Lemma clampZ_range (lo hi v : Z) : lo <= hi -> lo <= JS.clampZ lo hi v <= hi.
Proof. unfold JS.clampZ. lia. Qed.

(** X15: in the now-playing view in rating mode, one step of the wheel moves
    the rating of the current song by one within the range from 0 to 5; the new
    rating is written to the stored song and to the song held in state, and the
    other songs keep theirs. *)
Theorem rating_scroll_stays_within_bounds (s : AppState) (song : Song.t) (d : Z) :
  nowPlayingIn ModeRating s ->
  currentSong s = Some song ->
  Browser.dbOk (browser s) = true ->
  let r := JS.clampZ 0 5 (ratingOr0 song + d) in
  0 <= r <= 5 /\
  option_map ratingOr0 (currentSong (handleScroll d s)) = Some r /\
  (forall x, In x (Db.songs (db (handleScroll d s))) -> Song.id x = Song.id song ->
             r <> ratingOr0 song -> Song.rating x = Some r) /\
  filter (fun x => negb (Song.id x =? Song.id song)) (songs (handleScroll d s))
  = filter (fun x => negb (Song.id x =? Song.id song)) (songs s).
Proof.
  intros (Hv & (song0 & Hsong0 & Hid) & Hmode) Hsong Hok. cbv zeta.
  rewrite Hsong in Hsong0. injection Hsong0 as <-.
  apply viewIs_inv in Hv. destruct Hv as (cv & Hcv & Ecv).
  set (r := JS.clampZ 0 5 (ratingOr0 song + d)).
  assert (E : handleScroll d s
              = if r =? ratingOr0 song then s else handleSetRating (Song.id song) r s).
  { unfold handleScroll. rewrite Hcv, Ecv. view_chain. cbn [andb].
    rewrite Hsong, Hmode.
    destruct (Z.eqb_spec (Song.id song) 0); [contradiction | reflexivity]. }
  assert (Hcur : currentTrackId s = Some (Song.id song)).
  { unfold currentSong in Hsong. destruct (currentTrackId s) as [k|]; [|discriminate].
    apply findSong_id in Hsong. destruct Hsong as [_ ->]. reflexivity. }
  split; [apply clampZ_range; lia|].
  rewrite E. destruct (Z.eqb_spec r (ratingOr0 song)) as [Er|Hne].
  - split; [rewrite Hsong; cbn; congruence|].
    split; [intros; contradiction | reflexivity].
  - assert (Hr : JS.clampZ 0 5 r = r) by (unfold r, JS.clampZ; lia).
    unfold handleSetRating. rewrite Hok, Hr.
    split; [|split].
    + unfold currentSong. cbn [currentTrackId set_songs set_db songs].
      rewrite Hcur, findSong_set_rating.
      unfold currentSong in Hsong. rewrite Hcur in Hsong. rewrite Hsong. reflexivity.
    + intros x Hx Hx' _. cbn in Hx. apply in_map_iff in Hx.
      destruct Hx as (y & <- & Hy).
      destruct (Z.eqb_spec (Song.id y) (Song.id song)) as [|Hn]; [reflexivity|].
      contradiction.
    + cbn [songs set_songs]. induction (songs s) as [|x l IH]; [reflexivity|].
      cbn [map filter]. destruct (Z.eqb_spec (Song.id x) (Song.id song)) as [Ex|Hn].
      * cbn [Song.id Song.set_rating]. rewrite Ex, Z.eqb_refl. exact IH.
      * apply Z.eqb_neq in Hn. rewrite Hn. cbn [negb]. rewrite IH. reflexivity.
Qed.

Lemma rating_scroll_stays_within_bounds_witness :
  nowPlayingIn ModeRating ratingOpened /\
  currentSong ratingOpened = Some (demoSong 2 "A") /\
  option_map ratingOr0 (currentSong (handleScroll 1 ratingOpened)) = Some 1 /\
  option_map ratingOr0 (currentSong (handleScroll (-1) ratingOpened)) = Some 0.
Proof.
  assert (Hs : currentSong ratingOpened = Some (demoSong 2 "A"))
    by (vm_compute; reflexivity).
  assert (H : nowPlayingIn ModeRating ratingOpened).
  { split; [vm_compute; reflexivity|]. split; [|vm_compute; reflexivity].
    exists (demoSong 2 "A"). split; [exact Hs | discriminate]. }
  assert (Hok : Browser.dbOk (browser ratingOpened) = true) by (vm_compute; reflexivity).
  exact (conj H (conj Hs
           (conj (proj1 (proj2 (rating_scroll_stays_within_bounds ratingOpened _ 1
                                  H Hs Hok)))
                 (proj1 (proj2 (rating_scroll_stays_within_bounds ratingOpened _ (-1)
                                  H Hs Hok)))))).
Defined.

(** ** Bounce: the paddle and the scores *)

Lemma paddle_step (p : R) (d : Z) :
  d = 1 \/ d = -1 ->
  (0 <= p < 360)%R ->
  (0 <= Bounce.fmod (p + IZR d * 10 + 360) 360 < 360)%R /\
  (Bounce.fmod (p + IZR d * 10 + 360) 360 = p + IZR d * 10
   \/ Bounce.fmod (p + IZR d * 10 + 360) 360 = p + IZR d * 10 - 360
   \/ Bounce.fmod (p + IZR d * 10 + 360) 360 = p + IZR d * 10 + 360)%R.
Proof.
  intros [-> | ->] Hp.
  - destruct (Rlt_dec (p + 10) 360) as [Hlt|Hge].
    + rewrite (fmod_value (p + 1 * 10 + 360) 360 (p + 10) 1) by first [lra | lia].
      split; [lra | left; lra].
    + rewrite (fmod_value (p + 1 * 10 + 360) 360 (p + 10 - 360) 2) by first [lra | lia].
      split; [lra | right; left; lra].
  - destruct (Rle_dec 10 p) as [Hge|Hlt].
    + rewrite (fmod_value (p + -1 * 10 + 360) 360 (p - 10) 1) by first [lra | lia].
      split; [lra | left; lra].
    + rewrite (fmod_value (p + -1 * 10 + 360) 360 (p + 350) 0) by first [lra | lia].
      split; [lra | right; right; lra].
Qed.

(** X16: a step of the wheel turns the paddle of a running game by ten
    degrees and keeps its angle within the range from 0 to 360, 360 excluded;
    outside a running game a step leaves the paddle where it is. *)
Theorem paddle_angle_stays_normalised (s : AppState) (d : Z) :
  d = 1 \/ d = -1 ->
  (0 <= BounceGameState.paddleAngle (bounceGameStateRef s) < 360)%R ->
  let p := BounceGameState.paddleAngle (bounceGameStateRef s) in
  let p' := BounceGameState.paddleAngle (bounceGameStateRef (handleScroll d s)) in
  (0 <= p' < 360)%R /\
  (viewIs s "bounce-game" = true ->
   BounceGameState.gameState (bounceGameStateRef s) = GamePlaying ->
   (p' = p + IZR d * 10 \/ p' = p + IZR d * 10 - 360 \/ p' = p + IZR d * 10 + 360)%R) /\
  (viewIs s "bounce-game" = false \/
   BounceGameState.gameState (bounceGameStateRef s) <> GamePlaying ->
   p' = p).
Proof.
  intros Hd Hp. cbv zeta.
  destruct (paddle_step _ d Hd Hp) as [Hrange Hval].
  unfold viewIs, handleScroll.
  destruct (currentView s) as [cv|] eqn:Hcv.
  2: { split; [exact Hp|]. split; [discriminate | reflexivity]. }
  destruct (JS.startsWith (ViewFrame.id cv) "focus-setting-edit/") eqn:Eedit.
  { assert (Eb : String.eqb (ViewFrame.id cv) "bounce-game" = false).
    { destruct (String.eqb_spec (ViewFrame.id cv) "bounce-game") as [E|]; [|reflexivity].
      rewrite E in Eedit. discriminate Eedit. }
    rewrite Eb. unfold updateTop. rewrite Hcv.
    split; [exact Hp|]. split; [discriminate | reflexivity]. }
  destruct (String.eqb (ViewFrame.id cv) "bounce-game") eqn:Eb.
  - destruct (BounceGameState.gameState (bounceGameStateRef s)) eqn:Eg;
      cbn [phase_eqb andb];
      try (assert (En : String.eqb (ViewFrame.id cv) "now-playing" = false)
             by (apply String.eqb_eq in Eb; rewrite Eb; reflexivity);
           rewrite En;
           assert (Ec : String.eqb (ViewFrame.id cv) "cover-flow" = false)
             by (apply String.eqb_eq in Eb; rewrite Eb; reflexivity);
           rewrite Ec;
           destruct (JS.len (menuItems s) =? 0);
           [|unfold updateTop; rewrite Hcv];
           (split; [exact Hp|]); (split; [discriminate | reflexivity])).
    cbn. split; [exact Hrange|]. split; [intros _ _; exact Hval|].
    intros [H|H]; [discriminate | congruence].
  - cbn [andb].
    assert (Hsame : forall t, bounceGameStateRef t = bounceGameStateRef s ->
              (0 <= BounceGameState.paddleAngle (bounceGameStateRef t) < 360)%R /\
              (false = true ->
               BounceGameState.gameState (bounceGameStateRef s) = GamePlaying ->
               (BounceGameState.paddleAngle (bounceGameStateRef t)
                = BounceGameState.paddleAngle (bounceGameStateRef s) + IZR d * 10
                \/ BounceGameState.paddleAngle (bounceGameStateRef t)
                   = BounceGameState.paddleAngle (bounceGameStateRef s) + IZR d * 10 - 360
                \/ BounceGameState.paddleAngle (bounceGameStateRef t)
                   = BounceGameState.paddleAngle (bounceGameStateRef s) + IZR d * 10 + 360)%R) /\
              (false = false \/
               BounceGameState.gameState (bounceGameStateRef s) <> GamePlaying ->
               BounceGameState.paddleAngle (bounceGameStateRef t)
               = BounceGameState.paddleAngle (bounceGameStateRef s))).
    { intros t ->. split; [exact Hp|]. split; [discriminate | reflexivity]. }
    apply Hsame.
    unfold handleSetRating, setVolumeState, updateTop. branches; reflexivity.
Qed.

Lemma paddle_angle_stays_normalised_witness :
  viewIs bounceStarted "bounce-game" = true /\
  BounceGameState.gameState (bounceGameStateRef bounceStarted) = GamePlaying /\
  BounceGameState.paddleAngle (bounceGameStateRef bounceStarted) = 0%R /\
  (0 <= BounceGameState.paddleAngle
          (bounceGameStateRef (handleScroll (-1) bounceStarted)) < 360)%R.
Proof.
  assert (Hv : viewIs bounceStarted "bounce-game" = true) by (vm_compute; reflexivity).
  assert (Hg : BounceGameState.gameState (bounceGameStateRef bounceStarted)
               = GamePlaying) by (vm_compute; reflexivity).
  assert (H0 : BounceGameState.paddleAngle (bounceGameStateRef bounceStarted) = 0%R)
    by (vm_compute; reflexivity).
  assert (Hp : (0 <= BounceGameState.paddleAngle (bounceGameStateRef bounceStarted)
                < 360)%R) by (rewrite H0; lra).
  exact (conj Hv (conj Hg (conj H0
           (proj1 (paddle_angle_stays_normalised bounceStarted (-1)
                     (or_intror eq_refl) Hp))))).
Defined.

Lemma frame_scores (g : BounceGameState.t) :
  BounceGameState.score g <= BounceGameState.score (Bounce.frame g)
                          <= BounceGameState.score g + 1 /\
  BounceGameState.highScore g <= BounceGameState.highScore (Bounce.frame g) /\
  BounceGameState.paddleAngle (Bounce.frame g) = BounceGameState.paddleAngle g /\
  ((BounceGameState.ballSpeed g <= 2.5)%R ->
   (BounceGameState.ballSpeed (Bounce.frame g) <= 2.5)%R).
Proof.
  unfold Bounce.frame. destruct (Bounce.outcome g); cbn; repeat split; try lia.
  - tauto.
  - intros _. apply Rmin_l.
  - tauto.
Qed.

(** X17: a frame of the game never lowers the score or the best score, adds
    at most one point, leaves the paddle where it is and keeps the speed of the
    ball at or below 2.5; this holds for the state held in the ref and for the
    state React holds. *)
Theorem frame_never_lowers_the_scores (s : AppState) :
  let g := bounceGameStateRef s in
  let g' := bounceGameStateRef (gameLoop s) in
  (BounceGameState.score g <= BounceGameState.score g' <= BounceGameState.score g + 1 /\
   BounceGameState.highScore g <= BounceGameState.highScore g' /\
   BounceGameState.paddleAngle g' = BounceGameState.paddleAngle g /\
   ((BounceGameState.ballSpeed g <= 2.5)%R -> (BounceGameState.ballSpeed g' <= 2.5)%R)) /\
  (bounceGame (gameLoop s) = bounceGame s \/ bounceGame (gameLoop s) = g') /\
  (BounceGameState.gameState g' = GameOver ->
   BounceGameState.gameState g = GamePlaying ->
   BounceGameState.score g' <= BounceGameState.highScore g').
Proof.
  cbv zeta. unfold gameLoop.
  destruct (viewIs s "bounce-game" && phase_eqb _ GamePlaying) eqn:E.
  - pose proof (frame_scores (bounceGameStateRef s)) as F.
    unfold Bounce.frame in *.
    destruct (Bounce.outcome (bounceGameStateRef s)); cbn in *.
    + split; [exact F|]. split; [left; reflexivity|].
      intros Hover Hplay. congruence.
    + split; [exact F|]. split; [right; reflexivity|].
      intros Hover Hplay. congruence.
    + split; [exact F|]. split; [right; reflexivity|].
      intros _ _. lia.
  - split; [repeat split; try lia; tauto|]. split; [left; reflexivity|].
    intros H1 H2. congruence.
Qed.

(** X18: a game that ends with a new best score writes the score to
    [localStorage], and an application started on that storage shows it as its
    best score; a game that ends without one leaves the entry alone. *)
Theorem best_score_survives_a_restart (s : AppState) (d : Db.t) :
  viewIs s "bounce-game" = true ->
  BounceGameState.gameState (bounceGameStateRef s) = GamePlaying ->
  Bounce.outcome (bounceGameStateRef s) = Bounce.Miss ->
  let g := bounceGameStateRef s in
  let restarted := initialState (browser (gameLoop s)) d in
  BounceGameState.gameState (bounceGame (gameLoop s)) = GameOver /\
  (BounceGameState.highScore g < BounceGameState.score g ->
   BounceGameState.highScore (bounceGame (gameLoop s)) = BounceGameState.score g /\
   BounceGameState.highScore (bounceGame restarted) = BounceGameState.score g) /\
  (BounceGameState.score g <= BounceGameState.highScore g ->
   Browser.bounceHighScore (browser (gameLoop s))
   = Browser.bounceHighScore (browser s)).
Proof.
  intros Hv Hg Hout. cbv zeta. unfold gameLoop.
  rewrite Hv, Hg. cbn [phase_eqb andb]. unfold Bounce.frame. rewrite Hout.
  split; [destruct (_ <? _); reflexivity|].
  split.
  - intros Hlt.
    assert (E : (BounceGameState.highScore (bounceGameStateRef s)
                 <? BounceGameState.score (bounceGameStateRef s)) = true)
      by (apply Z.ltb_lt; exact Hlt).
    rewrite E. cbn. split; [lia | reflexivity].
  - intros Hle.
    assert (E : (BounceGameState.highScore (bounceGameStateRef s)
                 <? BounceGameState.score (bounceGameStateRef s)) = false)
      by (apply Z.ltb_ge; exact Hle).
    rewrite E. reflexivity.
Qed.

Lemma best_score_survives_a_restart_witness :
  viewIs aboutToMiss "bounce-game" = true /\
  BounceGameState.highScore (bounceGameStateRef aboutToMiss) = 2 /\
  BounceGameState.score (bounceGameStateRef aboutToMiss) = 3 /\
  Bounce.outcome (bounceGameStateRef aboutToMiss) = Bounce.Miss /\
  BounceGameState.highScore
    (bounceGame (initialState (browser (gameLoop aboutToMiss)) demoLibrary)) = 3.
Proof.
  assert (Hv : viewIs aboutToMiss "bounce-game" = true) by (vm_compute; reflexivity).
  assert (Hg : BounceGameState.gameState (bounceGameStateRef aboutToMiss) = GamePlaying)
    by reflexivity.
  assert (Hout : Bounce.outcome (bounceGameStateRef aboutToMiss) = Bounce.Miss)
    by exact (proj1 miss_at_the_top).
  assert (Hlt : BounceGameState.highScore (bounceGameStateRef aboutToMiss)
                < BounceGameState.score (bounceGameStateRef aboutToMiss))
    by (cbn; lia).
  pose proof (best_score_survives_a_restart aboutToMiss demoLibrary Hv Hg Hout) as H.
  cbv zeta in H. destruct H as (_ & H & _).
  exact (conj Hv (conj eq_refl (conj eq_refl (conj Hout (proj2 (H Hlt)))))).
Defined.

(** ** The focus timer *)

Lemma focusTick_counts (s : AppState) :
  FocusState.isActive (focusState s) = true ->
  FocusState.sessionType (focusState s) <> Idle ->
  1 < FocusState.timeRemaining (focusState s) ->
  focusTick s
  = set_focusState
      (set_timeRemaining (FocusState.timeRemaining (focusState s) - 1) (focusState s)) s.
Proof.
  intros Ha Hi Ht. unfold focusTick. rewrite Ha.
  destruct (FocusState.sessionType (focusState s)); try congruence; cbn [negb isIdle orb];
    (destruct (Z.leb_spec (FocusState.timeRemaining (focusState s)) 1); [lia | reflexivity]).
Qed.

Lemma focusTick_iter (k : nat) (s : AppState) (t : Z) :
  FocusState.isActive (focusState s) = true ->
  FocusState.sessionType (focusState s) <> Idle ->
  FocusState.timeRemaining (focusState s) = t ->
  Z.of_nat k < t ->
  focusState (Nat.iter k focusTick s)
  = set_timeRemaining (t - Z.of_nat k) (focusState s) /\
  focusSettings (Nat.iter k focusTick s) = focusSettings s /\
  db (Nat.iter k focusTick s) = db s /\
  browser (Nat.iter k focusTick s) = browser s.
Proof.
  intros Ha Hi Ht. induction k as [|k IH]; intros Hk.
  - change (Nat.iter 0 focusTick s) with s. rewrite Z.sub_0_r.
    repeat split. rewrite <- Ht. destruct (focusState s); reflexivity.
  - destruct IH as (Hf & Hs & Hd & Hb); [lia|].
    change (Nat.iter (S k) focusTick s) with (focusTick (Nat.iter k focusTick s)).
    rewrite focusTick_counts; rewrite ?Hf; cbn; try assumption; try lia.
    repeat split; try assumption. unfold set_timeRemaining. cbn. f_equal. lia.
Qed.

(** The record a session leaves when it ends. *)
Lemma handleSessionEnd_log (s : AppState) (fs : FocusSettings.t) :
  focusSettings s = Some fs ->
  Browser.dbOk (browser s) = true ->
  FocusState.sessionType (focusState s) <> Idle ->
  Db.focusSessions (db (handleSessionEnd s))
  = Db.focusSessions (db s)
      ++ [ {| FocusSession.endTimestamp := Browser.now (browser s);
              FocusSession.durationMinutes :=
                minutesOf fs (FocusState.sessionType (focusState s));
              FocusSession.type := FocusState.sessionType (focusState s) |} ].
Proof.
  intros Hfs Hok Hi. unfold handleSessionEnd. rewrite Hfs, Hok.
  destruct (FocusState.sessionType (focusState s)); try congruence;
    cbn [isIdle isWork]; destruct (nextSession fs _ _); reflexivity.
Qed.

(** X19: an active session of [T + 1] seconds counts down one second a tick
    and stores nothing for [T] ticks; the tick after stores the session and
    hands over to the session that follows. *)
Theorem session_ends_on_its_last_second (s : AppState) (fs : FocusSettings.t)
  (T : nat) :
  focusSettings s = Some fs ->
  Browser.dbOk (browser s) = true ->
  FocusState.isActive (focusState s) = true ->
  FocusState.sessionType (focusState s) <> Idle ->
  FocusState.timeRemaining (focusState s) = Z.of_nat (S T) ->
  (forall k, (k <= T)%nat ->
     focusState (Nat.iter k focusTick s)
     = set_timeRemaining (Z.of_nat (S T) - Z.of_nat k) (focusState s) /\
     Db.focusSessions (db (Nat.iter k focusTick s)) = Db.focusSessions (db s)) /\
  advances fs (focusState s) (focusState (Nat.iter (S T) focusTick s)) /\
  FocusState.timeRemaining (focusState (Nat.iter (S T) focusTick s))
  = minutesOf fs (FocusState.sessionType (focusState (Nat.iter (S T) focusTick s))) * 60 /\
  List.length (Db.focusSessions (db (Nat.iter (S T) focusTick s)))
  = S (List.length (Db.focusSessions (db s))).
Proof.
  intros Hfs Hok Ha Hi Ht.
  split.
  - intros k Hk.
    destruct (focusTick_iter k s _ Ha Hi Ht) as (Hf & _ & Hd & _); [lia|].
    rewrite Hf, Hd. split; reflexivity.
  - destruct (focusTick_iter T s _ Ha Hi Ht) as (Hf & Hs & Hd & Hb); [lia|].
    change (Nat.iter (S T) focusTick s) with (focusTick (Nat.iter T focusTick s)).
    set (sT := Nat.iter T focusTick s) in *.
    assert (E : focusTick sT
                = handleSessionEnd
                    (set_focusState
                       (set_timeRemaining 0 (set_isActive false (focusState sT))) sT)).
    { assert (Hf1 : focusState sT = set_timeRemaining 1 (focusState s))
        by (rewrite Hf; f_equal; lia).
      unfold focusTick. rewrite Hf1.
      cbn [set_timeRemaining FocusState.isActive FocusState.sessionType
             FocusState.timeRemaining].
      rewrite Ha.
      destruct (FocusState.sessionType (focusState s)); try congruence; reflexivity. }
    rewrite E.
    set (s0 := set_focusState _ sT).
    assert (Hfs0 : focusSettings s0 = Some fs) by (cbn; congruence).
    assert (Hok0 : Browser.dbOk (browser s0) = true) by (cbn; congruence).
    assert (Hty : FocusState.sessionType (focusState s0)
                  = FocusState.sessionType (focusState s))
      by (cbn; rewrite Hf; reflexivity).
    assert (Hwi : FocusState.workIntervalsInCycle (focusState s0)
                  = FocusState.workIntervalsInCycle (focusState s))
      by (cbn; rewrite Hf; reflexivity).
    pose proof (handleSessionEnd_focusState s0 fs Hfs0 Hok0) as Hend. cbv zeta in Hend.
    rewrite Hty, Hwi in Hend.
    split; [|split].
    + apply nextSession_advances. rewrite Hend. cbn.
      destruct (nextSession fs _ _); reflexivity.
    + rewrite Hend. reflexivity.
    + rewrite (handleSessionEnd_log s0 fs Hfs0 Hok0) by (rewrite Hty; exact Hi).
      rewrite length_app. cbn [db s0 set_focusState]. rewrite Hd. cbn. lia.
Qed.

Lemma session_ends_on_its_last_second_witness :
  FocusState.timeRemaining (focusState focusStarted) = 1500 /\
  FocusState.timeRemaining (focusState (Nat.iter 1499 focusTick focusStarted)) = 1 /\
  Db.focusSessions (db (Nat.iter 1499 focusTick focusStarted)) = [] /\
  FocusState.sessionType (focusState (Nat.iter 1500 focusTick focusStarted))
  = ShortBreak /\
  List.length (Db.focusSessions (db (Nat.iter 1500 focusTick focusStarted))) = 1%nat.
Proof.
  assert (Hfs : focusSettings focusStarted = Some DEFAULT_FOCUS_SETTINGS)
    by (vm_compute; reflexivity).
  assert (Hok : Browser.dbOk (browser focusStarted) = true) by (vm_compute; reflexivity).
  assert (Ha : FocusState.isActive (focusState focusStarted) = true)
    by (vm_compute; reflexivity).
  assert (Ety : FocusState.sessionType (focusState focusStarted) = Work)
    by (vm_compute; reflexivity).
  assert (Hi : FocusState.sessionType (focusState focusStarted) <> Idle)
    by (rewrite Ety; discriminate).
  assert (Ht : FocusState.timeRemaining (focusState focusStarted) = Z.of_nat (S 1499))
    by (vm_compute; reflexivity).
  assert (Hwi : FocusState.workIntervalsInCycle (focusState focusStarted) = 0)
    by (vm_compute; reflexivity).
  assert (Hdb : Db.focusSessions (db focusStarted) = []) by (vm_compute; reflexivity).
  destruct (session_ends_on_its_last_second focusStarted _ 1499 Hfs Hok Ha Hi Ht)
    as (Hcount & Hadv & _ & Hlen).
  destruct (Hcount 1499%nat (le_n _)) as [Hf Hd].
  unfold advances in Hadv. rewrite Ety, Hwi in Hadv. cbv beta iota zeta in Hadv.
  assert (Hc : (0 + 1 <? FocusSettings.longBreakInterval DEFAULT_FOCUS_SETTINGS) = true)
    by reflexivity.
  rewrite Hc in Hadv.
  rewrite Hdb in Hd, Hlen.
  split; [vm_compute; reflexivity|].
  split; [rewrite Hf; vm_compute; reflexivity|].
  split; [exact Hd|]. split; [exact (proj1 Hadv) | exact Hlen].
Defined.

Lemma fold_sum_app (l : list FocusSession.t) (x : FocusSession.t) (a : Z) :
  fold_left (fun sum y => sum + FocusSession.durationMinutes y) (l ++ [x]) a
  = fold_left (fun sum y => sum + FocusSession.durationMinutes y) l a
    + FocusSession.durationMinutes x.
Proof. rewrite fold_left_app. reflexivity. Qed.

(** X20: a session other than idle that ends is stored once, with the time of
    its end and the minutes configured for its type, whatever time was left on
    it (Skip Session ends it the same way).  A work session that ends today adds
    one interval and its configured minutes to today's figures; a break leaves
    them alone. *)
Theorem completed_sessions_are_logged (s : AppState) (fs : FocusSettings.t) :
  focusSettings s = Some fs ->
  Browser.dbOk (browser s) = true ->
  FocusState.sessionType (focusState s) <> Idle ->
  let ty := FocusState.sessionType (focusState s) in
  let s' := handleSessionEnd s in
  invoke ASkipSession s = s' /\
  Db.focusSessions (db s')
  = Db.focusSessions (db s)
      ++ [ {| FocusSession.endTimestamp := Browser.now (browser s);
              FocusSession.durationMinutes := minutesOf fs ty;
              FocusSession.type := ty |} ] /\
  (ty = Work ->
   Browser.startOfToday (browser s) (Browser.now (browser s)) < Browser.now (browser s) ->
   TodayStats.workIntervals (todayStats s')
   = TodayStats.workIntervals (todayStats (calculateTodayStats s)) + 1 /\
   TodayStats.totalTime (todayStats s')
   = TodayStats.totalTime (todayStats (calculateTodayStats s))
     + FocusSettings.workMinutes fs) /\
  (ty <> Work -> todayStats s' = todayStats s).
Proof.
  intros Hfs Hok Hi. cbv zeta.
  split; [reflexivity|].
  split; [apply handleSessionEnd_log; assumption|].
  unfold handleSessionEnd. rewrite Hfs, Hok.
  destruct (FocusState.sessionType (focusState s)) eqn:Ety; try congruence;
    cbn [isIdle isWork]; destruct (nextSession fs _ _) as [nt nw];
    (split; [|intros Hne; try congruence; reflexivity]);
    try (intros; discriminate).
  intros _ Htoday. apply Z.ltb_lt in Htoday.
  unfold calculateTodayStats.
  cbn [todayStats set_focusState set_todayStats TodayStats.workIntervals
         TodayStats.totalTime browser set_db db Db.focusSessions set_db_focusSessions].
  rewrite !filter_app. cbn [filter FocusSession.endTimestamp FocusSession.type].
  rewrite Htoday. cbn [filter isWork FocusSession.type].
  unfold JS.len. rewrite length_app, fold_sum_app.
  cbn [List.length FocusSession.durationMinutes minutesOf]. split; lia.
Qed.

Lemma completed_sessions_are_logged_witness :
  FocusState.sessionType (focusState focusStarted) = Work /\
  map FocusSession.durationMinutes
    (Db.focusSessions (db (handleSessionEnd focusStarted))) = [25] /\
  invoke ASkipSession focusStarted = handleSessionEnd focusStarted.
Proof.
  assert (Hfs : focusSettings focusStarted = Some DEFAULT_FOCUS_SETTINGS)
    by (vm_compute; reflexivity).
  assert (Hok : Browser.dbOk (browser focusStarted) = true) by (vm_compute; reflexivity).
  assert (Ety : FocusState.sessionType (focusState focusStarted) = Work)
    by (vm_compute; reflexivity).
  assert (Hi : FocusState.sessionType (focusState focusStarted) <> Idle)
    by (rewrite Ety; discriminate).
  assert (Hlog : map FocusSession.durationMinutes
                   (Db.focusSessions (db (handleSessionEnd focusStarted))) = [25])
    by (vm_compute; reflexivity).
  exact (conj Ety (conj Hlog
           (proj1 (completed_sessions_are_logged focusStarted _ Hfs Hok Hi)))).
Defined.

Lemma nextSession_count (fs : FocusSettings.t) (ty : SessionType) (c : Z) :
  1 <= FocusSettings.longBreakInterval fs ->
  0 <= c < FocusSettings.longBreakInterval fs ->
  0 <= snd (nextSession fs ty c) < FocusSettings.longBreakInterval fs.
Proof.
  intros H1 Hc. unfold nextSession. destruct ty; cbn [snd]; try lia.
  destruct (Z.leb_spec (FocusSettings.longBreakInterval fs) (c + 1)); cbn [snd]; lia.
Qed.

Lemma handleSessionEnd_count (s : AppState) (fs : FocusSettings.t) :
  focusSettings s = Some fs ->
  1 <= FocusSettings.longBreakInterval fs ->
  0 <= FocusState.workIntervalsInCycle (focusState s)
    < FocusSettings.longBreakInterval fs ->
  0 <= FocusState.workIntervalsInCycle (focusState (handleSessionEnd s))
    < FocusSettings.longBreakInterval fs.
Proof.
  intros Hfs H1 Hc.
  pose proof (nextSession_count fs (FocusState.sessionType (focusState s)) _ H1 Hc) as N.
  unfold handleSessionEnd. rewrite Hfs.
  destruct (isIdle (FocusState.sessionType (focusState s))).
  - destruct (nextSession fs _ _). exact N.
  - destruct (Browser.dbOk (browser s)); [|exact Hc].
    destruct (nextSession fs _ _).
    destruct (isWork (FocusState.sessionType (focusState s))); exact N.
Qed.

Lemma focusTick_count (s : AppState) (fs : FocusSettings.t) :
  focusSettings s = Some fs ->
  1 <= FocusSettings.longBreakInterval fs ->
  0 <= FocusState.workIntervalsInCycle (focusState s)
    < FocusSettings.longBreakInterval fs ->
  focusSettings (focusTick s) = Some fs /\
  0 <= FocusState.workIntervalsInCycle (focusState (focusTick s))
    < FocusSettings.longBreakInterval fs.
Proof.
  intros Hfs H1 Hc. unfold focusTick.
  destruct (negb _ || _); [split; assumption|].
  destruct (_ <=? 1); [|split; assumption].
  set (s0 := set_focusState _ s).
  split.
  - rewrite (proj1 (handleSessionEnd_frame s0)). exact Hfs.
  - apply handleSessionEnd_count; [exact Hfs | exact H1 | exact Hc].
Qed.

(** X21: as long as the settings stay as they are, the count of work
    intervals in the cycle stays at or above 0 and below the interval of the
    long break, through every tick of the timer and every skipped session. *)
Theorem cycle_count_stays_below_the_interval (s : AppState) (fs : FocusSettings.t)
  (skips : list bool) :
  focusSettings s = Some fs ->
  1 <= FocusSettings.longBreakInterval fs ->
  0 <= FocusState.workIntervalsInCycle (focusState s)
    < FocusSettings.longBreakInterval fs ->
  let s' := fold_left (fun st skip => if skip : bool then invoke ASkipSession st
                                      else focusTick st) skips s in
  focusSettings s' = Some fs /\
  0 <= FocusState.workIntervalsInCycle (focusState s')
    < FocusSettings.longBreakInterval fs.
Proof.
  intros Hfs H1. cbv zeta. revert s Hfs.
  induction skips as [|b skips IH]; intros s Hfs Hc; [split; assumption|].
  cbn [fold_left]. destruct b.
  - apply IH.
    + cbn [invoke]. rewrite (proj1 (handleSessionEnd_frame s)). exact Hfs.
    + cbn [invoke]. apply handleSessionEnd_count; assumption.
  - destruct (focusTick_count s fs Hfs H1 Hc) as [G1 G2]. apply IH; assumption.
Qed.

Lemma cycle_count_stays_below_the_interval_witness :
  focusSettings focusStarted = Some DEFAULT_FOCUS_SETTINGS /\
  0 <= FocusState.workIntervalsInCycle
         (focusState (fold_left (fun st skip => if skip : bool
                                                then invoke ASkipSession st
                                                else focusTick st)
                        [true; false; true; true; true; true; true; true]
                        focusStarted)) < 4.
Proof.
  assert (Hfs : focusSettings focusStarted = Some DEFAULT_FOCUS_SETTINGS)
    by (vm_compute; reflexivity).
  assert (H1 : 1 <= FocusSettings.longBreakInterval DEFAULT_FOCUS_SETTINGS)
    by (cbn; lia).
  assert (Hc : 0 <= FocusState.workIntervalsInCycle (focusState focusStarted)
               < FocusSettings.longBreakInterval DEFAULT_FOCUS_SETTINGS)
    by (vm_compute; split; [discriminate | reflexivity]).
  exact (conj Hfs
           (proj2 (cycle_count_stays_below_the_interval focusStarted _
                     [true; false; true; true; true; true; true; true] Hfs H1 Hc))).
Defined.

(** ** Start-up *)

(** X22: start-up on a working database leaves settings and an On-The-Go
    playlist in the store, takes the settings into state with a work session of
    the configured length, and opens the main menu when songs are stored and the
    load view otherwise.  Run again, it changes nothing in the store. *)
Theorem startup_provisions_the_store (s : AppState) :
  Browser.dbOk (browser s) = true ->
  let s' := initializeApp s in
  (exists fs,
     Db.focusSettings (db s') = Some fs /\ focusSettings s' = Some fs /\
     FocusState.sessionType (focusState s') = Work /\
     FocusState.timeRemaining (focusState s') = FocusSettings.workMinutes fs * 60) /\
  JS.find isOtg (Db.playlists (db s')) <> None /\
  Db.songs (db s') = Db.songs (db s) /\
  navigationStack s'
  = [frame0 (if 0 <? JS.len (Db.songs (db s)) then "main" else "load")] /\
  db (initializeApp s') = db s'.
Proof.
  intros Hok. cbv zeta.
  assert (Hdb : forall t, Browser.dbOk (browser t) = true ->
            db (initializeApp t)
            = match Db.focusSettings (ensureOnTheGo (db t)) with
              | Some _ => ensureOnTheGo (db t)
              | None => set_db_focusSettings (Some DEFAULT_FOCUS_SETTINGS)
                          (ensureOnTheGo (db t))
              end).
  { intros t Ht. unfold initializeApp. rewrite Ht.
    destruct (0 <? JS.len _); reflexivity. }
  assert (Hbr : Browser.dbOk (browser (initializeApp s)) = true).
  { unfold initializeApp. rewrite Hok. destruct (0 <? JS.len _); exact Hok. }
  set (d1 := ensureOnTheGo (db s)) in *.
  assert (Hs1 : Db.songs d1 = Db.songs (db s)) by apply ensureOnTheGo_songs.
  assert (Hf1 : JS.find isOtg (Db.playlists d1) <> None) by apply ensureOnTheGo_found.
  split; [|split; [|split; [|split]]].
  - unfold initializeApp. rewrite Hok. fold d1.
    destruct (Db.focusSettings d1) as [fs|] eqn:E.
    + exists fs. rewrite E. destruct (0 <? JS.len _); cbn; rewrite E; repeat split.
    + exists DEFAULT_FOCUS_SETTINGS. cbn. destruct (0 <? JS.len _); cbn; repeat split.
  - rewrite (Hdb s Hok). fold d1. destruct (Db.focusSettings d1); exact Hf1.
  - rewrite (Hdb s Hok). fold d1. destruct (Db.focusSettings d1); exact Hs1.
  - unfold initializeApp. rewrite Hok. fold d1.
    assert (E : Db.songs match Db.focusSettings d1 with
                         | Some _ => d1
                         | None => set_db_focusSettings (Some DEFAULT_FOCUS_SETTINGS) d1
                         end = Db.songs (db s))
      by (destruct (Db.focusSettings d1); exact Hs1).
    rewrite E. destruct (0 <? JS.len (Db.songs (db s))); reflexivity.
  - rewrite (Hdb _ Hbr), (Hdb s Hok).
    change (ensureOnTheGo (db s)) with d1.
    set (d2 := match Db.focusSettings d1 with
               | Some _ => d1
               | None => set_db_focusSettings (Some DEFAULT_FOCUS_SETTINGS) d1
               end).
    assert (Ho : ensureOnTheGo d2 = d2).
    { assert (Hp : Db.playlists d2 = Db.playlists d1)
        by (unfold d2; destruct (Db.focusSettings d1); reflexivity).
      unfold ensureOnTheGo. rewrite Hp.
      destruct (JS.find isOtg (Db.playlists d1)); [reflexivity | congruence]. }
    rewrite Ho. unfold d2.
    destruct (Db.focusSettings d1) eqn:E; [rewrite E; reflexivity | reflexivity].
Qed.

Lemma startup_provisions_the_store_witness :
  Db.playlists demoLibrary = [] /\ Db.focusSettings demoLibrary = None /\
  map Playlist.name
    (Db.playlists (db (initializeApp (initialState demoBrowser demoLibrary))))
  = ["On-The-Go"%string] /\
  navigationStack (initializeApp (initialState demoBrowser demoLibrary))
  = [frame0 "main"] /\
  db (initializeApp (initializeApp (initialState demoBrowser demoLibrary)))
  = db (initializeApp (initialState demoBrowser demoLibrary)).
Proof.
  assert (Hok : Browser.dbOk (browser (initialState demoBrowser demoLibrary)) = true)
    by reflexivity.
  assert (Hn : map Playlist.name
                 (Db.playlists (db (initializeApp (initialState demoBrowser demoLibrary))))
               = ["On-The-Go"%string]) by (vm_compute; reflexivity).
  pose proof (startup_provisions_the_store _ Hok) as H. cbv zeta in H.
  destruct H as (_ & _ & _ & Hnav & Hidem).
  exact (conj eq_refl (conj eq_refl (conj Hn (conj Hnav Hidem)))).
Defined.

(** ** The rotation of the click wheel *)

Lemma sign_of_reached_threshold (acc : Q) :
  Qle_bool Wheel.scrollThreshold (Qabs.Qabs acc) = true ->
  (Wheel.sign acc = 1 /\ (10 <= acc)%Q) \/ (Wheel.sign acc = -1 /\ (acc <= -10)%Q).
Proof.
  intros H. apply Qle_bool_iff in H. unfold Wheel.scrollThreshold in H.
  destruct acc as [[|p|p] q]; unfold Wheel.sign; cbn [Qnum Z.sgn].
  - exfalso. revert H. unfold Qabs.Qabs, Qle. cbn. lia.
  - left. split; [reflexivity|]. exact H.
  - right. split; [reflexivity|].
    revert H. unfold Qabs.Qabs, Qle. cbn. lia.
Qed.

Lemma delta_range (last cur : Q) :
  (-180 <= last <= 180)%Q -> (-180 <= cur <= 180)%Q ->
  (-180 <= Wheel.delta last cur <= 180)%Q.
Proof.
  intros Hl Hc. unfold Wheel.delta, JS.Qgtb.
  destruct (Qle_bool (cur - last) 180) eqn:E1; cbn [negb].
  - apply Qle_bool_iff in E1.
    destruct (Qle_bool (-180) (cur - last)) eqn:E2; cbn [negb].
    + apply Qle_bool_iff in E2. split; assumption.
    + assert (Hlt : (cur - last < -180)%Q).
      { apply Qnot_le_lt. intros Hle. apply Qle_bool_iff in Hle. congruence. }
      split; Lqa.lra.
  - assert (Hgt : (180 < cur - last)%Q).
    { apply Qnot_le_lt. intros Hle. apply Qle_bool_iff in Hle. congruence. }
    destruct (Qle_bool (-180) (cur - last - 360)) eqn:E2; cbn [negb].
    + apply Qle_bool_iff in E2. split; Lqa.lra.
    + assert (Hlt : (cur - last - 360 < -180)%Q).
      { apply Qnot_le_lt. intros Hle. apply Qle_bool_iff in Hle. congruence. }
      split; Lqa.lra.
Qed.

Lemma moves_account (angles : list Q) (w : Wheel.t) :
  Wheel.isDragging w = true ->
  Forall (fun d => d = 1 \/ d = -1) (snd (Wheel.moves angles w)) /\
  (Wheel.accumulatedAngle (fst (Wheel.moves angles w))
   + 10 * inject_Z (netScroll (snd (Wheel.moves angles w)))
   == Wheel.accumulatedAngle w + rotation (Wheel.lastAngle w) angles)%Q /\
  (List.length (snd (Wheel.moves angles w)) <= List.length angles)%nat.
Proof.
  revert w; induction angles as [|a rest IH]; intros w Hw.
  - cbn [Wheel.moves fst snd netScroll fold_right rotation List.length].
    change (inject_Z 0) with 0%Q.
    split; [constructor|]. split; [Lqa.lra | lia].
  - cbn [Wheel.moves rotation]. unfold Wheel.handleInteractionMove. rewrite Hw.
    cbn [negb].
    set (acc := (Wheel.accumulatedAngle w + Wheel.delta (Wheel.lastAngle w) a)%Q).
    destruct (Qle_bool Wheel.scrollThreshold (Qabs.Qabs acc)) eqn:E.
    + set (w1 := {| Wheel.isDragging := true; Wheel.lastAngle := a;
                    Wheel.accumulatedAngle :=
                      (acc - Wheel.scrollThreshold * inject_Z (Wheel.sign acc))%Q |}).
      destruct (IH w1 eq_refl) as (Hd & Hsum & Hlen).
      destruct (Wheel.moves rest w1) as [w2 ds]. cbn [fst snd] in *.
      split.
      * constructor; [|exact Hd].
        destruct (sign_of_reached_threshold acc E) as [[-> _]|[-> _]]; auto.
      * split; [|cbn [List.length]; lia].
        cbn [netScroll fold_right]. fold (netScroll ds).
        rewrite inject_Z_plus. unfold w1 in Hsum. cbn [Wheel.accumulatedAngle
          Wheel.lastAngle] in Hsum. unfold Wheel.scrollThreshold in Hsum.
        unfold acc in *. Lqa.lra.
    + set (w1 := {| Wheel.isDragging := true; Wheel.lastAngle := a;
                    Wheel.accumulatedAngle := acc |}).
      destruct (IH w1 eq_refl) as (Hd & Hsum & Hlen).
      destruct (Wheel.moves rest w1) as [w2 ds]. cbn [fst snd] in *.
      split; [exact Hd|]. split; [|cbn [List.length]; lia].
      unfold w1 in Hsum. cbn [Wheel.accumulatedAngle Wheel.lastAngle] in Hsum.
      unfold acc in *. Lqa.lra.
Qed.

(** X23: during a drag on the wheel every direction handed to the scroll
    handler is 1 or -1, a move hands out at most one, and the rotation is
    accounted for: ten degrees for each direction handed out plus what is still
    accumulated make the sum of the steps between the angles of the drag.  A
    step between two angles of the pointer is never more than half a turn. *)
Theorem wheel_drag_accounts_for_the_rotation (start : Q) (angles : list Q) :
  let w0 := Wheel.handleInteractionStart start Wheel.initial in
  let w := fst (Wheel.moves angles w0) in
  let ds := snd (Wheel.moves angles w0) in
  Forall (fun d => d = 1 \/ d = -1) ds /\
  (List.length ds <= List.length angles)%nat /\
  (Wheel.accumulatedAngle w + 10 * inject_Z (netScroll ds) == rotation start angles)%Q /\
  (forall a b, (-180 <= a <= 180)%Q -> (-180 <= b <= 180)%Q ->
               (-180 <= Wheel.delta a b <= 180)%Q).
Proof.
  cbv zeta.
  destruct (moves_account angles (Wheel.handleInteractionStart start Wheel.initial)
              eq_refl) as (Hd & Hsum & Hlen).
  split; [exact Hd|]. split; [exact Hlen|]. split; [|apply delta_range].
  rewrite Hsum. cbn [Wheel.handleInteractionStart Wheel.accumulatedAngle
    Wheel.lastAngle]. Lqa.lra.
Qed.

(** ** Cover flow and the sorted lists *)

Lemma albumMapAdd_albums (song : Song.t) (m : list CoverFlowItem.t) :
  map CoverFlowItem.album (albumMapAdd song m)
  = if existsb (String.eqb (Song.album song)) (map CoverFlowItem.album m)
    then map CoverFlowItem.album m
    else map CoverFlowItem.album m ++ [Song.album song].
Proof.
  induction m as [|e m IH]; [reflexivity|].
  cbn [albumMapAdd map existsb].
  rewrite (String.eqb_sym (Song.album song)).
  destruct (String.eqb (CoverFlowItem.album e) (Song.album song)) eqn:E.
  - cbn [orb]. destruct (CoverFlowItem.artwork e); reflexivity.
  - cbn [orb map]. rewrite IH.
    destruct (existsb _ (map CoverFlowItem.album m)); reflexivity.
Qed.

Lemma existsb_eqb_In (a : string) (l : list string) :
  existsb (String.eqb a) l = true <-> In a l.
Proof.
  rewrite existsb_exists. split.
  - intros (x & Hx & E). apply String.eqb_eq in E. subst. exact Hx.
  - intros H. exists a. split; [exact H | apply String.eqb_refl].
Qed.

Lemma albumMap_fold (l : list Song.t) (m : list CoverFlowItem.t) :
  NoDup (map CoverFlowItem.album m) ->
  NoDup (map CoverFlowItem.album (fold_left (fun m song => albumMapAdd song m) l m)) /\
  (forall a, In a (map CoverFlowItem.album
                     (fold_left (fun m song => albumMapAdd song m) l m))
             <-> In a (map CoverFlowItem.album m) \/ In a (map Song.album l)).
Proof.
  revert m; induction l as [|x l IH]; intros m Hm.
  - cbn. split; [exact Hm | intros a; tauto].
  - cbn [fold_left map].
    assert (Hm' : NoDup (map CoverFlowItem.album (albumMapAdd x m)) /\
                  (forall a, In a (map CoverFlowItem.album (albumMapAdd x m))
                             <-> In a (map CoverFlowItem.album m) \/ a = Song.album x)).
    { rewrite albumMapAdd_albums.
      destruct (existsb (String.eqb (Song.album x)) (map CoverFlowItem.album m)) eqn:E.
      - apply existsb_eqb_In in E. split; [exact Hm|].
        intros a. split; [tauto | intros [H| ->]; assumption].
      - assert (Hn : ~ In (Song.album x) (map CoverFlowItem.album m)).
        { intros H. apply existsb_eqb_In in H. congruence. }
        split.
        + apply NoDup_app; [exact Hm | repeat constructor; intros [] |].
          intros a Ha [<-|[]]. contradiction.
        + intros a. rewrite in_app_iff. cbn [In]. split.
          * intros [H|[H|[]]]; [left; exact H | right; symmetry; exact H].
          * intros [H|H]; [left; exact H | right; left; symmetry; exact H]. }
    destruct Hm' as [Hnd Hin]. destruct (IH _ Hnd) as [G1 G2].
    split; [exact G1|]. intros a. rewrite G2, Hin. cbn [In].
    split; [intros [[H|H]|H] | intros [H|[H|H]]]; auto.
Qed.

(** X24: the cover flow shows every album of the library once, and nothing
    else; selecting an item opens the song list of its album. *)
Theorem cover_flow_has_one_item_per_album (s : AppState) :
  NoDup (map CoverFlowItem.album (coverFlowItems s)) /\
  (forall a, In a (map CoverFlowItem.album (coverFlowItems s))
             <-> In a (map Song.album (songs s))) /\
  (forall cv it,
     currentView s = Some cv ->
     ViewFrame.id cv = "cover-flow"%string ->
     JS.at_ (coverFlowItems s) (ViewFrame.activeIndex cv) = Some it ->
     navigationStack (handleSelectClick s)
     = navigationStack s ++ [frame0 ("album-songs/" ++ CoverFlowItem.album it)]).
Proof.
  destruct (albumMap_fold (songs s) [] (NoDup_nil _)) as [Hnd Hin].
  assert (P : Permutation (coverFlowItems s)
                (fold_left (fun m song => albumMapAdd song m) (songs s) []))
    by apply sort_Permutation.
  split; [|split].
  - eapply NoDup_map_Permutation; [symmetry; exact P | exact Hnd].
  - intros a. split; intros H.
    + assert (H' : In a (map CoverFlowItem.album
                           (fold_left (fun m song => albumMapAdd song m) (songs s) [])))
        by (eapply Permutation_in; [apply Permutation_map; exact P | exact H]).
      apply Hin in H'. destruct H' as [[]|H']. exact H'.
    + eapply Permutation_in; [apply Permutation_map; symmetry; exact P|].
      apply Hin. right. exact H.
  - intros cv it Hcv Hid Hit. unfold handleSelectClick. rewrite Hcv, Hid. view_chain.
    cbn [andb].
    assert (Hlen : (0 <? JS.len (coverFlowItems s)) = true).
    { apply Z.ltb_lt. unfold JS.len. apply at_In in Hit.
      destruct (coverFlowItems s); [contradiction | cbn; lia]. }
    rewrite Hlen, Hit. reflexivity.
Qed.

Lemma Sorted_map {A B} (f : A -> B) (R : B -> B -> Prop) (l : list A) :
  Sorted.Sorted (fun a b => R (f a) (f b)) l -> Sorted.Sorted R (map f l).
Proof.
  induction 1 as [|x l Hl IH Hx]; cbn [map]; constructor; [exact IH|].
  destruct Hx; cbn [map]; constructor; assumption.
Qed.

(** X25: on a host whose string comparison never puts two titles each after
    the other, the Songs list shows every song of the library once, in the
    order of the titles, and the songs held in state are in that order once the
    list is drawn. *)
Theorem songs_view_is_in_title_order (s : AppState) :
  viewIs s "songs" = true ->
  (forall a b, 0 < Browser.localeCompare (browser s) a b ->
               Browser.localeCompare (browser s) b a <= 0) ->
  Permutation (songs (render s)) (songs s) /\
  map MenuItem.label (menuItems s) = map Song.title (songs (render s)) /\
  map MenuItem.songId (menuItems s) = map (fun x => Some (Song.id x)) (songs (render s)) /\
  Sorted.Sorted (fun a b => Browser.localeCompare (browser s) a b <= 0)
    (map MenuItem.label (menuItems s)).
Proof.
  intros Hv Hcmp. apply viewIs_inv in Hv. destruct Hv as (cv & Hcv & Hid).
  assert (E : computeMenuItems s
              = (songRows (sortSongs s (songs s)), sortSongs s (songs s))).
  { unfold computeMenuItems. rewrite Hcv, Hid. view_chain. reflexivity. }
  unfold render, menuItems. rewrite E. cbn [fst snd songs set_songs].
  assert (Hl : map MenuItem.label (songRows (sortSongs s (songs s)))
               = map Song.title (sortSongs s (songs s)))
    by (unfold songRows; rewrite map_map; reflexivity).
  split; [apply sort_Permutation|]. split; [exact Hl|].
  split; [unfold songRows; rewrite map_map; reflexivity|].
  rewrite Hl. apply Sorted_map. unfold sortSongs.
  apply (sort_Sorted (fun a b => Browser.localeCompare (browser s)
                                   (Song.title a) (Song.title b))).
  intros a b. apply Hcmp.
Qed.

Lemma defaultCompare_asym (a b : string) :
  0 < JS.defaultCompare a b -> JS.defaultCompare b a <= 0.
Proof.
  unfold JS.defaultCompare. rewrite (String.compare_antisym b a).
  destruct (String.compare a b); cbn; lia.
Qed.

Lemma songs_view_is_in_title_order_witness :
  map Song.title (songs songsJustOpened) = ["B"; "A"]%string /\
  map MenuItem.label (menuItems songsJustOpened) = ["A"; "B"]%string /\
  Sorted.Sorted (fun a b => Browser.localeCompare (browser songsJustOpened) a b <= 0)
    (map MenuItem.label (menuItems songsJustOpened)).
Proof.
  assert (Hv : viewIs songsJustOpened "songs" = true) by (vm_compute; reflexivity).
  assert (Hb : Browser.localeCompare (browser songsJustOpened) = JS.defaultCompare)
    by (vm_compute; reflexivity).
  assert (Hcmp : forall a b,
             0 < Browser.localeCompare (browser songsJustOpened) a b ->
             Browser.localeCompare (browser songsJustOpened) b a <= 0)
    by (rewrite Hb; apply defaultCompare_asym).
  assert (H0 : map Song.title (songs songsJustOpened) = ["B"; "A"]%string)
    by (vm_compute; reflexivity).
  assert (H1 : map MenuItem.label (menuItems songsJustOpened) = ["A"; "B"]%string)
    by (vm_compute; reflexivity).
  exact (conj H0 (conj H1
           (proj2 (proj2 (proj2 (songs_view_is_in_title_order songsJustOpened
                                   Hv Hcmp)))))).
Defined.

(** ** Pending timers *)

Lemma timersFresh_same (s s' : AppState) :
  sameTimers s s' -> timersFresh s -> timersFresh s'.
Proof. intros [E1 E2]. unfold timersFresh. rewrite E1, E2. tauto. Qed.

Lemma setTimeout_fresh (cb : Callback) (s : AppState) :
  timersFresh s -> timersFresh (snd (setTimeout cb s)).
Proof.
  intros [Hne Hall]. unfold timersFresh, setTimeout. cbn.
  split; [discriminate|]. apply Forall_app. split.
  - eapply Forall_impl; [|exact Hall]. cbn. intros; lia.
  - repeat constructor.
Qed.

Lemma clearTimeout_fresh (id : nat) (s : AppState) :
  timersFresh s -> timersFresh (clearTimeout id s).
Proof.
  intros [Hne Hall]. unfold timersFresh, clearTimeout. cbn.
  split; [exact Hne|]. rewrite Forall_forall in *.
  intros t Ht. apply filter_In in Ht. apply Hall, Ht.
Qed.

Lemma longPressOk_same (s s' : AppState) :
  sameTimers s s' -> longPressTimer s' = longPressTimer s ->
  longPressOk s -> longPressOk s'.
Proof.
  intros Hs El (Hf & Hnd & Hl). destruct Hs as [E1 E2].
  unfold longPressOk, timersFresh. rewrite E1, E2, El.
  exact (conj Hf (conj Hnd Hl)).
Qed.

Lemma setTimeout_longPressOk (cb : Callback) (s : AppState) :
  longPressOk s -> longPressOk (snd (setTimeout cb s)).
Proof.
  intros (Hf & Hnd & Hl).
  split; [apply setTimeout_fresh, Hf|]. split.
  - unfold setTimeout. cbn. rewrite map_app. cbn.
    apply NoDup_app; [exact Hnd | repeat constructor; intros [] |].
    intros x Hx [<-|[]]. destruct Hf as [_ Hall].
    apply in_map_iff in Hx. destruct Hx as (t & Et & Ht).
    rewrite Forall_forall in Hall. specialize (Hall t Ht). lia.
  - change (longPressTimer (snd (setTimeout cb s))) with (longPressTimer s).
    destruct (longPressTimer s) as [id|]; [|exact I].
    destruct Hl as (Hz & o & Ho). split; [exact Hz|]. exists o. unfold setTimeout. cbn.
    apply in_or_app. left. exact Ho.
Qed.

Lemma clearTimeout_None_longPressOk (id : nat) (s : AppState) :
  longPressOk s -> longPressOk (set_longPressTimer None (clearTimeout id s)).
Proof.
  intros (Hf & Hnd & _).
  split; [|split; [|exact I]].
  - apply (timersFresh_same (clearTimeout id s));
      [split; reflexivity | apply clearTimeout_fresh, Hf].
  - unfold clearTimeout. cbn. apply filter_keeps_distinct_keys, Hnd.
Qed.

Lemma clearTimeout_longPressOk (id : nat) (s : AppState) :
  longPressOk s -> longPressTimer s <> Some id -> longPressOk (clearTimeout id s).
Proof.
  intros (Hf & Hnd & Hl) Hne.
  split; [apply clearTimeout_fresh, Hf|]. split.
  - unfold clearTimeout. cbn. apply filter_keeps_distinct_keys, Hnd.
  - change (longPressTimer (clearTimeout id s)) with (longPressTimer s).
    destruct (longPressTimer s) as [id'|]; [|exact I].
    destruct Hl as (Hz & o & Ho). split; [exact Hz|]. exists o. unfold clearTimeout. cbn.
    apply filter_In. split; [exact Ho|]. cbn.
    apply negb_true_iff, Nat.eqb_neq. congruence.
Qed.

(** With distinct ids, the callback found under an id is the one stored
    under it. *)
Lemma find_timer (ts : list (nat * Callback)) (id : nat) (cb : Callback) :
  NoDup (map fst ts) -> In (id, cb) ts ->
  List.find (fun t => Nat.eqb (fst t) id) ts = Some (id, cb).
Proof.
  induction ts as [|[i c] ts IH]; intros Hnd Hin; [contradiction|].
  cbn in Hnd. inversion Hnd as [|? ? Hi Hts]; subst. cbn.
  destruct Hin as [E|Hin].
  - injection E as -> ->. rewrite Nat.eqb_refl. reflexivity.
  - destruct (Nat.eqb i id) eqn:Ei; [|apply IH; assumption].
    apply Nat.eqb_eq in Ei. subst i. elim Hi.
    apply in_map_iff. exists (id, cb). split; [reflexivity | exact Hin].
Qed.

Lemma handleClearLibrary_longPressOk (s : AppState) :
  longPressOk s -> longPressOk (handleClearLibrary s).
Proof.
  intros H. unfold handleClearLibrary.
  branches; apply setTimeout_longPressOk;
    (apply (longPressOk_same s); [split; reflexivity | reflexivity | exact H]).
Qed.

Lemma invoke_longPressOk (a : Action) (s : AppState) :
  longPressOk s -> longPressOk (invoke a s).
Proof.
  intros H.
  destruct a;
    try (apply (longPressOk_same s); [| |exact H]; cbn [invoke];
         unfold handleMenuClick, handleFocusPlayPause, handleSessionEnd,
           updateFocusSetting, createPlayAction, resetBounceGame, mathRandom,
           pushView, calculateTodayStats, sliceStack;
         branches; first [split; reflexivity | reflexivity]).
  - cbn [invoke]. destruct (Browser.dbOk (browser s)); [|exact H].
    apply setTimeout_longPressOk.
    apply (longPressOk_same s); [split; reflexivity | reflexivity | exact H].
  - apply handleClearLibrary_longPressOk, H.
Qed.

Lemma handleSelectClick_longPressOk (s : AppState) :
  longPressOk s -> longPressOk (handleSelectClick s).
Proof.
  intros H. unfold handleSelectClick.
  destruct (currentView s) as [cv|]; [|exact H].
  assert (Hsel : longPressOk match JS.at_ (menuItems s) (ViewFrame.activeIndex cv) with
                             | Some row => invoke (MenuItem.action row) s
                             | None => s
                             end).
  { destruct (JS.at_ (menuItems s) (ViewFrame.activeIndex cv));
      [apply invoke_longPressOk, H | exact H]. }
  destruct (JS.startsWith (ViewFrame.id cv) "focus-setting-edit/").
  { apply (longPressOk_same s); [| |exact H];
      unfold updateFocusSetting, sliceStack;
      branches; first [split; reflexivity | reflexivity]. }
  destruct (String.eqb (ViewFrame.id cv) "bounce-game").
  { destruct (BounceGameState.gameState (bounceGame s)); auto. }
  destruct (String.eqb (ViewFrame.id cv) "now-playing");
    [apply (longPressOk_same s); [split; reflexivity | reflexivity | exact H]|].
  destruct (String.eqb (ViewFrame.id cv) "load"); [exact H|].
  destruct (String.eqb (ViewFrame.id cv) "cover-flow" && (0 <? JS.len (coverFlowItems s)));
    [|exact Hsel].
  destruct (JS.at_ (coverFlowItems s) (ViewFrame.activeIndex cv)); [|exact H].
  apply (longPressOk_same s); [split; reflexivity | reflexivity | exact H].
Qed.

Lemma fireTimer_longPressOk (id : nat) (s : AppState) :
  longPressOk s -> longPressOk (fireTimer id s).
Proof.
  intros H. unfold fireTimer.
  destruct (List.find _ (Browser.timers (browser s))) as [[i cb]|] eqn:Efind;
    [|exact H].
  assert (Hcb : (forall o, cb <> CbLongPress o) -> longPressTimer s <> Some id).
  { intros Hne Hl. destruct H as (_ & Hnd & Hhold). rewrite Hl in Hhold.
    destruct Hhold as (_ & o' & Ho').
    rewrite (find_timer _ id _ Hnd Ho') in Efind. injection Efind as _ E.
    apply (Hne o'). symmetry. exact E. }
  destruct cb; cbn [runCallback].
  - apply (longPressOk_same
             (set_longPressTimer None (quickAdd songIdToAdd (clearTimeout id s))));
      [split; reflexivity | reflexivity |].
    destruct (quickAdd_cases songIdToAdd (clearTimeout id s))
      as [->|(k & d & _ & _ & _ & -> & _)].
    + apply clearTimeout_None_longPressOk, H.
    + apply (longPressOk_same
               (snd (setTimeout CbFlashOff
                       (set_longPressTimer None (clearTimeout id s)))));
        [split; reflexivity | reflexivity |].
      apply setTimeout_longPressOk, clearTimeout_None_longPressOk, H.
  - apply (longPressOk_same (clearTimeout id s));
      [split; reflexivity | reflexivity |].
    apply clearTimeout_longPressOk; [exact H | apply Hcb; intros o; discriminate].
  - apply (longPressOk_same (clearTimeout id s));
      [split; reflexivity | reflexivity |].
    apply clearTimeout_longPressOk; [exact H | apply Hcb; intros o; discriminate].
  - apply (longPressOk_same (clearTimeout id s));
      [split; reflexivity | reflexivity |].
    apply clearTimeout_longPressOk; [exact H | apply Hcb; intros o; discriminate].
  - apply (longPressOk_same (clearTimeout id s));
      [split; reflexivity | reflexivity |].
    apply clearTimeout_longPressOk; [exact H | apply Hcb; intros o; discriminate].
  - apply (longPressOk_same (clearTimeout id s));
      [| |apply clearTimeout_longPressOk; [exact H | apply Hcb; intros o; discriminate]];
      unfold trackLoadSettle, handleNextOf;
      branches; first [split; reflexivity | reflexivity].
Qed.

Lemma step_longPressOk (s : AppState) (e : Event) :
  longPressOk s -> longPressOk (step s e).
Proof.
  intros H.
  assert (Hr : longPressOk (render s))
    by (apply (longPressOk_same s); [split; reflexivity | reflexivity | exact H]).
  unfold step.
  destruct e;
    try (apply (longPressOk_same (render s)); [| |exact Hr];
         unfold initializeApp, handleFileChange, handleScroll, handleSetRating,
           setVolumeState, updateTop, handlePlayPause, handleNext, handlePrev,
           focusTick, handleSessionEnd, gameLoop, trackLoadEffect,
           handleMediaSessionPlay, handleFocusPlayPause, setBounceGame,
           handleMenuClick, updateFocusSetting, resetBounceGame, mathRandom,
           sliceStack, calculateTodayStats, pause;
         branches; first [split; reflexivity | reflexivity]).
  - unfold handleSelectMouseDown.
    set (cb := CbLongPress (selectedSongId (render s))).
    change (longPressOk
              (set_longPressTimer (Some (Browser.nextTimerId (browser (render s))))
                 (snd (setTimeout cb (render s))))).
    destruct (setTimeout_longPressOk cb (render s) Hr) as (Hf & Hnd & _).
    split; [exact Hf|]. split; [exact Hnd|].
    split; [exact (proj1 (proj1 Hr))|].
    exists (selectedSongId (render s)). unfold setTimeout. cbn.
    apply in_or_app. right. left. reflexivity.
  - unfold handleSelectMouseUp. branches; try exact Hr.
    apply handleSelectClick_longPressOk, clearTimeout_None_longPressOk, Hr.
  - apply fireTimer_longPressOk, Hr.
  - apply (longPressOk_same (render s)); [| |exact Hr];
      unfold trackLoadEffect;
      (destruct (currentTrackId (set_currentObjectUrl None (render s))) as [tid|];
       [|first [split; reflexivity | reflexivity]]);
      (destruct (db_songs_get tid _) as [[song|]|];
       [destruct (Song.fileBlob song); first [split; reflexivity | reflexivity] | |]);
      unfold handleNext; branches; first [split; reflexivity | reflexivity].
  - unfold trackLoadBegin.
    destruct (currentTrackId (set_currentObjectUrl None (render s)));
      [ apply setTimeout_longPressOk
      | apply (longPressOk_same (render s)); [split; reflexivity | reflexivity | exact Hr] ].
    apply (longPressOk_same (render s)); [split; reflexivity | reflexivity | exact Hr].
Qed.

Lemma run_longPressOk (es : list Event) (s : AppState) :
  longPressOk s -> longPressOk (run s es).
Proof.
  revert s. induction es as [|e es IH]; intros s H; [exact H|].
  cbn [run fold_left]. apply IH, step_longPressOk, H.
Qed.

(** X26: on a host that hands out timer ids other than 0 and starts without
    pending timeouts, whatever the events: when the select button holds a timer
    id in [longPressTimer], the id is not 0 and the timeout of that id is still
    pending and is the long press of that button press.  So the release of the
    button, which tests the id it holds, runs the click only while the long
    press has not fired, and the timeout it cancels is the long press. *)
Theorem held_timer_is_a_pending_long_press (b : Browser.t) (d : Db.t)
  (es : list Event) (id : nat) :
  Browser.nextTimerId b <> 0%nat ->
  Browser.timers b = [] ->
  longPressTimer (run (initialState b d) es) = Some id ->
  id <> 0%nat /\
  (exists o, pendingCallback (run (initialState b d) es) id = Some (CbLongPress o)) /\
  step (run (initialState b d) es) SelectUp
  = handleSelectClick
      (set_longPressTimer None (clearTimeout id (render (run (initialState b d) es)))).
Proof.
  intros Hne Hts Hid.
  assert (H0 : longPressOk (initialState b d)).
  { split; [split; [exact Hne | cbn; rewrite Hts; constructor]|].
    split; [cbn; rewrite Hts; constructor | exact I]. }
  pose proof (run_longPressOk es _ H0) as ((Hn & Hall) & Hnd & Hhold).
  rewrite Hid in Hhold. destruct Hhold as (Hpos & o & Ho).
  split; [exact Hpos|]. split.
  - exists o. unfold pendingCallback. rewrite (find_timer _ id _ Hnd Ho). reflexivity.
  - unfold step, handleSelectMouseUp.
    change (longPressTimer (render (run (initialState b d) es)))
      with (longPressTimer (run (initialState b d) es)).
    rewrite Hid. apply Nat.eqb_neq in Hpos. rewrite Hpos. reflexivity.
Qed.

Lemma held_timer_is_a_pending_long_press_witness :
  longPressTimer (run (initialState demoBrowser demoLibrary)
                    ([AppStarts; Scroll 1] ++ press ++ [SelectDown])) = Some 2%nat /\
  pendingCallback (run (initialState demoBrowser demoLibrary)
                     ([AppStarts; Scroll 1] ++ press ++ [SelectDown])) 2
  = Some (CbLongPress None).
Proof.
  assert (Hne : Browser.nextTimerId demoBrowser <> 0%nat) by discriminate.
  assert (Hid : longPressTimer (run (initialState demoBrowser demoLibrary)
                                  ([AppStarts; Scroll 1] ++ press ++ [SelectDown]))
                = Some 2%nat) by (vm_compute; reflexivity).
  destruct (held_timer_is_a_pending_long_press demoBrowser demoLibrary
              ([AppStarts; Scroll 1] ++ press ++ [SelectDown]) 2 Hne eq_refl Hid)
    as (_ & (o & Ho) & _).
  refine (conj Hid _). vm_compute. reflexivity.
Defined.

(** ** Navigation from start-up *)

Lemma run_noDelayedPop_navOk (es : list Event) (s : AppState) :
  navOk s -> noDelayedPop s es -> navOk (run s es).
Proof.
  revert s; induction es as [|e es IH]; intros s H Hes; [exact H|].
  destruct Hes as [He Hrest]. cbn [run fold_left].
  apply IH; [apply step_navOk; assumption | exact Hrest].
Qed.

(** X27: from start-up on, as long as neither of the two pops that run later
    fires (the go-back timeout of Clear Library and the end of the reset of the
    focus statistics), the navigation stack holds a frame, so that there is a
    current view, and every frame stands at a depth at which the menus open its
    view.  The second of these pops can empty the stack as the first can: it
    takes two frames off after the awaits of the reset, whatever the stack is by
    then.  With the back button pressed twice in between, or with the reset
    confirmed twice, no frame is left and there is no current view. *)
Theorem navigation_keeps_a_current_view (b : Browser.t) (d : Db.t)
  (es : list Event) :
  (noDelayedPop (initialState b d) es ->
   navOk (run (initialState b d) es) /\
   exists cv, currentView (run (initialState b d) es) = Some cv) /\
  (map ViewFrame.id
     (navigationStack (run (initialState demoBrowser demoLibrary) toResetConfirm))
   = ["main"; "focus"; "focus-settings"; "focus-reset-confirm"]%string /\
   navigationStack (run (initialState demoBrowser demoLibrary) resetThenBack) = [] /\
   currentView (run (initialState demoBrowser demoLibrary) resetThenBack) = None /\
   navigationStack (run (initialState demoBrowser demoLibrary) resetTwice) = []).
Proof.
  split.
  - intros H.
    assert (Hnav : navOk (run (initialState b d) es))
      by (apply run_noDelayedPop_navOk; [apply initialState_navOk | exact H]).
    split; [exact Hnav|].
    destruct (currentView (run (initialState b d) es)) as [cv|] eqn:E; [eauto|].
    apply currentView_None in E. destruct Hnav as [Hne _]. contradiction.
  - repeat split; vm_compute; reflexivity.
Qed.

Lemma navigation_keeps_a_current_view_witness :
  noDelayedPop (initialState demoBrowser demoLibrary)
    ([AppStarts; Scroll 1] ++ press ++ [MenuClick; MenuClick]) /\
  exists cv,
    currentView (run (initialState demoBrowser demoLibrary)
                   ([AppStarts; Scroll 1] ++ press ++ [MenuClick; MenuClick]))
    = Some cv.
Proof.
  assert (H : noDelayedPop (initialState demoBrowser demoLibrary)
                ([AppStarts; Scroll 1] ++ press ++ [MenuClick; MenuClick])).
  { cbn [app press noDelayedPop]. unfold notDelayedPop.
    repeat (split; [intros id Hid; discriminate Hid|]). exact I. }
  exact (conj H (proj2 (proj1 (navigation_keeps_a_current_view demoBrowser demoLibrary
                                 _) H))).
Defined.

(** ** The rating and search views *)

(** X28: every row of the Ratings menu opens the list of the songs rated at
    least as many stars as the row shows: the threshold written into the view id
    is read back by [parseInt]. *)
Theorem rating_rows_open_their_threshold (s : AppState) (row : MenuItem.t) :
  viewIs s "ratings" = true ->
  In row (menuItems s) ->
  exists r : nat,
    (1 <= r <= 5)%nat /\
    MenuItem.label row
    = (JS.repeatString "★" r ++ JS.repeatString "☆" (5 - r))%string /\
    menuItems (invoke (MenuItem.action row) s)
    = songRows (filter (fun x => Z.of_nat r <=? ratingOr0 x) (songs s)).
Proof.
  intros Hv Hin. apply viewIs_inv in Hv. destruct Hv as (cv & Hcv & Hid).
  assert (E : menuItems s
              = map (fun r => nav (JS.repeatString "★" r ++ JS.repeatString "☆" (5 - r))
                                ("rated-songs/" ++ JS.numToString (Z.of_nat r)))
                  [5; 4; 3; 2; 1]%nat).
  { unfold menuItems, computeMenuItems. rewrite Hcv, Hid. view_chain. reflexivity. }
  rewrite E in Hin. apply in_map_iff in Hin. destruct Hin as (r & <- & Hr).
  exists r. split; [cbn in Hr; lia|]. split; [reflexivity|].
  cbn [nav item MenuItem.action invoke].
  set (x := JS.numToString (Z.of_nat r)).
  assert (Hx : JS.includesChar "/" x = false)
    by (apply includesChar_numToString; [reflexivity | discriminate]).
  assert (Hp : viewParamOf ("rated-songs/" ++ x) = Some x).
  { change ("rated-songs/" ++ x)%string with ("rated-songs" ++ String "/" x)%string.
    rewrite viewParamOf_route by reflexivity.
    rewrite split_no_sep by exact Hx. reflexivity. }
  unfold menuItems, computeMenuItems.
  rewrite (currentView_top (push (frame0 ("rated-songs/" ++ x)) s)
             (navigationStack s) (frame0 ("rated-songs/" ++ x)) eq_refl).
  cbn [ViewFrame.id frame0]. rewrite Hp. view_chain. cbn [option_map].
  unfold x. rewrite parseInt_numToString. reflexivity.
Qed.

Lemma rating_rows_open_their_threshold_witness :
  viewIs ratingsOpened "ratings" = true /\
  map MenuItem.label (menuItems ratingsOpened)
  = ["★★★★★"; "★★★★☆"; "★★★☆☆"; "★★☆☆☆"; "★☆☆☆☆"]%string /\
  exists r : nat,
    (1 <= r <= 5)%nat /\
    MenuItem.label (nav "★★★★☆" "rated-songs/4")
    = (JS.repeatString "★" r ++ JS.repeatString "☆" (5 - r))%string /\
    menuItems (invoke (MenuItem.action (nav "★★★★☆" "rated-songs/4")) ratingsOpened)
    = songRows (filter (fun x => Z.of_nat r <=? ratingOr0 x) (songs ratingsOpened)).
Proof.
  assert (Hv : viewIs ratingsOpened "ratings" = true) by (vm_compute; reflexivity).
  assert (Hl : map MenuItem.label (menuItems ratingsOpened)
               = ["★★★★★"; "★★★★☆"; "★★★☆☆"; "★★☆☆☆"; "★☆☆☆☆"]%string)
    by (vm_compute; reflexivity).
  assert (Hin : In (nav "★★★★☆" "rated-songs/4") (menuItems ratingsOpened)).
  { assert (E : nth_error (menuItems ratingsOpened) 1
                = Some (nav "★★★★☆" "rated-songs/4")) by (vm_compute; reflexivity).
    apply nth_error_In in E. exact E. }
  exact (conj Hv (conj Hl
           (rating_rows_open_their_threshold ratingsOpened _ Hv Hin))).
Defined.

Lemma dropLastChar_app (q : string) (c : ascii) :
  JS.dropLastChar (q ++ String c EmptyString) = q.
Proof.
  induction q as [|d q IH]; [reflexivity|].
  cbn [append JS.dropLastChar]. rewrite IH.
  destruct q; reflexivity.
Qed.

(** X29: every key of the search keyboard appends one character to the
    query; the keyboard then still shows Delete, and Delete after a key gives
    back the query as it was. *)
Theorem search_keys_edit_the_query (s : AppState) (row : MenuItem.t) (ch : string) :
  viewIs s "search" = true ->
  In row (menuItems s) ->
  MenuItem.action row = ASearchAppend ch ->
  String.length ch = 1%nat /\
  searchQuery (invoke (MenuItem.action row) s) = (searchQuery s ++ ch)%string /\
  In (item "Delete" ASearchDelete None) (menuItems (invoke (MenuItem.action row) s)) /\
  searchQuery (invoke ASearchDelete (invoke (MenuItem.action row) s)) = searchQuery s.
Proof.
  intros Hv Hin Hact. apply viewIs_inv in Hv. destruct Hv as (cv & Hcv & Hid).
  assert (E : forall t, currentView t = Some cv ->
              menuItems t
              = map (fun c => item c (ASearchAppend c) None) SEARCH_CHARS
                  ++ [ item "Space" (ASearchAppend " ") None;
                       item "Delete" ASearchDelete None;
                       nav "Done" "search-results" ]).
  { intros t Ht. unfold menuItems, computeMenuItems. rewrite Ht, Hid. view_chain.
    reflexivity. }
  assert (Hch : exists c, ch = String c EmptyString).
  { rewrite (E s Hcv) in Hin. apply in_app_or in Hin. destruct Hin as [Hin|Hin].
    - apply in_map_iff in Hin. destruct Hin as (c0 & <- & Hc0).
      cbn in Hact. injection Hact as <-.
      unfold SEARCH_CHARS in Hc0. apply in_map_iff in Hc0.
      destruct Hc0 as (c & <- & _). eauto.
    - destruct Hin as [<-|[<-|[<-|[]]]]; cbn in Hact; try discriminate Hact.
      injection Hact as <-. eauto. }
  destruct Hch as (c & ->). rewrite Hact. cbn [invoke].
  split; [reflexivity|]. split; [reflexivity|]. split.
  - match goal with
    | |- In _ (menuItems ?t) => rewrite (E t Hcv)
    end.
    apply in_or_app. right. right. left. reflexivity.
  - cbn [searchQuery set_searchQuery]. apply dropLastChar_app.
Qed.

Lemma search_keys_edit_the_query_witness :
  viewIs searchTyped "search" = true /\
  searchQuery searchTyped = "AB"%string /\
  searchQuery (invoke (ASearchAppend "C") searchTyped) = "ABC"%string /\
  searchQuery (invoke ASearchDelete (invoke (ASearchAppend "C") searchTyped))
  = "AB"%string.
Proof.
  assert (Hv : viewIs searchTyped "search" = true) by (vm_compute; reflexivity).
  assert (Hq : searchQuery searchTyped = "AB"%string) by (vm_compute; reflexivity).
  assert (Hin : In (item "C" (ASearchAppend "C") None) (menuItems searchTyped)).
  { assert (E : nth_error (menuItems searchTyped) 2
                = Some (item "C" (ASearchAppend "C") None)) by (vm_compute; reflexivity).
    apply nth_error_In in E. exact E. }
  destruct (search_keys_edit_the_query searchTyped _ "C" Hv Hin eq_refl)
    as (_ & H2 & _ & H4).
  cbn [item MenuItem.action] in H2, H4. rewrite Hq in H2, H4.
  exact (conj Hv (conj Hq (conj H2 H4))).
Defined.

(** ** Appearance *)

Lemma colorRow_marks (isBody : bool) (current : string) (color : string * string) :
  MenuItem.action (colorRow isBody current color) = ASetColor isBody (snd color) /\
  (MenuItem.subtext (colorRow isBody current color) = Some "✓"%string
   <-> current = snd color).
Proof.
  unfold colorRow. split; [reflexivity|]. cbn [itemSub MenuItem.subtext].
  destruct (String.eqb_spec current (snd color)) as [E|Hne].
  - split; [intros _; exact E | reflexivity].
  - split; [discriminate | contradiction].
Qed.

Lemma colour_menu (s : AppState) (isBody : bool) :
  viewIs s (if isBody then "body-color" else "wheel-color") = true ->
  menuItems s
  = if isBody
    then map (colorRow true (IpodColors.body (ipodColors s))) BODY_COLORS
    else map (colorRow false (IpodColors.wheel (ipodColors s))) WHEEL_COLORS.
Proof.
  intros Hv. apply viewIs_inv in Hv. destruct Hv as (cv & Hcv & Hid).
  unfold menuItems, computeMenuItems. rewrite Hcv, Hid.
  destruct isBody; view_chain; reflexivity.
Qed.

(** X30: a row of the body or wheel colour menu sets that colour and leaves
    the other; the menu then shows the check mark on that row and on no row of
    another colour; the choice is written to [localStorage], so that an
    application started on that storage shows the same colours, and Reset to
    Default brings back the default pair for it too. *)
Theorem colour_rows_set_and_keep_the_colour (s : AppState) (isBody : bool)
  (row : MenuItem.t) (d : Db.t) :
  viewIs s (if isBody then "body-color" else "wheel-color") = true ->
  In row (menuItems s) ->
  let s' := invoke (MenuItem.action row) s in
  (exists c,
     MenuItem.action row = ASetColor isBody c /\
     ipodColors s'
     = if isBody then ipodColorsOf c (IpodColors.wheel (ipodColors s))
       else ipodColorsOf (IpodColors.body (ipodColors s)) c) /\
  (forall row', In row' (menuItems s') ->
     (MenuItem.subtext row' = Some "✓"%string
      <-> MenuItem.action row' = MenuItem.action row)) /\
  ipodColors (initialState (browser s') d) = ipodColors s' /\
  ipodColors (initialState (browser (invoke AResetColors s')) d)
  = ipodColorsOf DEFAULT_BODY DEFAULT_WHEEL.
Proof.
  intros Hv Hin. cbv zeta.
  rewrite (colour_menu s isBody Hv) in Hin.
  assert (Hrow : exists color : string * string,
             MenuItem.action row = ASetColor isBody (snd color)).
  { destruct isBody; apply in_map_iff in Hin; destruct Hin as (color & <- & _);
      exists color; reflexivity. }
  destruct Hrow as (color & Hact). rewrite Hact.
  assert (Hv' : viewIs (invoke (ASetColor isBody (snd color)) s)
                  (if isBody then "body-color" else "wheel-color") = true)
    by exact Hv.
  split; [exists (snd color); split; [reflexivity | destruct isBody; reflexivity]|].
  split; [|split; [destruct isBody; reflexivity | reflexivity]].
  intros row' Hin'. rewrite (colour_menu _ isBody Hv') in Hin'.
  destruct isBody; apply in_map_iff in Hin'; destruct Hin' as (color' & <- & _);
    destruct (colorRow_marks true (snd color) color') as [Ea Em];
    destruct (colorRow_marks false (snd color) color') as [Ea' Em'];
    cbn [invoke ipodColors set_ipodColors set_browser IpodColors.body IpodColors.wheel
           ipodColorsOf].
  - rewrite Ea, Em. split; [intros ->; reflexivity | intros E; injection E as E; auto].
  - rewrite Ea', Em'. split; [intros ->; reflexivity | intros E; injection E as E; auto].
Qed.

Lemma colour_rows_set_and_keep_the_colour_witness :
  viewIs bodyColorOpened "body-color" = true /\
  IpodColors.body (ipodColors bodyColorOpened) = DEFAULT_BODY /\
  IpodColors.body
    (ipodColors
       (initialState
          (browser (invoke (ASetColor true "bg-gradient-to-b from-gray-800 to-black")
                      bodyColorOpened)) demoLibrary))
  = "bg-gradient-to-b from-gray-800 to-black"%string.
Proof.
  assert (Hv : viewIs bodyColorOpened "body-color" = true) by (vm_compute; reflexivity).
  assert (H0 : IpodColors.body (ipodColors bodyColorOpened) = DEFAULT_BODY)
    by (vm_compute; reflexivity).
  assert (Hin : In (colorRow true DEFAULT_BODY
                      ("Black", "bg-gradient-to-b from-gray-800 to-black")%string)
                  (menuItems bodyColorOpened)).
  { assert (E : nth_error (menuItems bodyColorOpened) 1
                = Some (colorRow true DEFAULT_BODY
                          ("Black", "bg-gradient-to-b from-gray-800 to-black")%string))
      by (vm_compute; reflexivity).
    apply nth_error_In in E. exact E. }
  pose proof (colour_rows_set_and_keep_the_colour bodyColorOpened true _ demoLibrary
                Hv Hin) as H.
  cbv zeta in H. destruct H as (_ & _ & H3 & _).
  refine (conj Hv (conj H0 _)).
  change (invoke (ASetColor true "bg-gradient-to-b from-gray-800 to-black")
            bodyColorOpened)
    with (invoke (MenuItem.action
                    (colorRow true DEFAULT_BODY
                       ("Black", "bg-gradient-to-b from-gray-800 to-black")%string))
            bodyColorOpened).
  rewrite H3. reflexivity.
Defined.
